(** * A segregated-free-list allocator (mm.c), embedded and verified

    The heap is raw memory: a total map from addresses to bytes.  Headers
    and footers are 4-byte little-endian words, free-list links and the
    directory slots are 8-byte little-endian pointers.  Every C function
    of mm.c is a Rocq function on the allocator state, with the C integer
    types' wrap-around written out. *)

From Stdlib Require Import ZArith List Lia Bool Permutation.
From Stdlib.Strings Require Import Byte.
Import ListNotations.
Local Open Scope Z_scope.

(** ** Bytes and machine integers *)

Definition Z_of_byte (b : byte) : Z := Z.of_N (Byte.to_N b).

Definition byte_of_Z (z : Z) : byte :=
  match Byte.of_N (Z.to_N (z mod 256)) with
  | Some b => b
  | None => x00
  end.

(** [size_t] and pointers are 64 bits wide, [unsigned int] 32 bits. *)
Definition wrap64 (z : Z) : Z := z mod 2 ^ 64.
Definition wrap32 (z : Z) : Z := z mod 2 ^ 32.

(** Conversion to the 32-bit signed [int]. *)
Definition to_int (z : Z) : Z := (z + 2 ^ 31) mod 2 ^ 32 - 2 ^ 31.

(** ** Memory *)

Definition memory := Z -> byte.

Definition upd (m : memory) (p : Z) (b : byte) : memory :=
  fun a => if a =? p then b else m a.

Fixpoint load (n : nat) (m : memory) (p : Z) : Z :=
  match n with
  | O => 0
  | S k => Z_of_byte (m p) + 256 * load k m (p + 1)
  end.

Fixpoint store (n : nat) (m : memory) (p : Z) (v : Z) : memory :=
  match n with
  | O => m
  | S k => store k (upd m p (byte_of_Z v)) (p + 1) (v / 256)
  end.

Definition memcpy (m : memory) (dst src n : Z) : memory :=
  fun a => if (dst <=? a) && (a <? dst + n) then m (src + (a - dst)) else m a.

Definition memset (m : memory) (dst : Z) (c : byte) (n : Z) : memory :=
  fun a => if (dst <=? a) && (a <? dst + n) then c else m a.

(** ** The macros of mm.c *)

Definition WSIZE : Z := 4.
Definition DSIZE : Z := 8.
Definition CHUNKSIZE : Z := 168.
Definition MAXFREESIZE : Z := 20.

Definition MAX (x y : Z) : Z := if y <? x then x else y.

Definition PACK (size alloc : Z) : Z := Z.lor size alloc.

Definition GET (m : memory) (p : Z) : Z := load 4 m p.
Definition PUT (m : memory) (p v : Z) : memory := store 4 m p v.
Definition GETLP (m : memory) (p : Z) : Z := load 8 m p.
Definition PUTLP (m : memory) (p v : Z) : memory := store 8 m p v.

Definition GET_SIZE (m : memory) (p : Z) : Z := Z.land (GET m p) (Z.lnot 7).
Definition GET_ALLOC (m : memory) (p : Z) : Z := Z.land (GET m p) 1.

Definition HDRP (bp : Z) : Z := bp - WSIZE.
Definition FTRP (m : memory) (bp : Z) : Z := bp + GET_SIZE m (HDRP bp) - DSIZE.

Definition NEXT_BLKP (m : memory) (bp : Z) : Z := bp + GET_SIZE m (bp - WSIZE).
Definition PREV_BLKP (m : memory) (bp : Z) : Z := bp - GET_SIZE m (bp - DSIZE).
Definition NEXT_FREE (m : memory) (bp : Z) : Z := GETLP m (bp + DSIZE).
Definition PREV_FREE (m : memory) (bp : Z) : Z := GETLP m bp.

Definition LIST1 : Z := 3.
Definition LIST2 : Z := 4.
Definition LIST3 : Z := 5.
Definition LIST4 : Z := 6.
Definition LIST5 : Z := 7.
Definition LIST6 : Z := 8.
Definition LIST7 : Z := 9.
Definition LIST8 : Z := 10.
Definition LIST9 : Z := 12.
Definition LIST10 : Z := 16.
Definition LIST11 : Z := 32.
Definition LIST12 : Z := 64.
Definition LIST13 : Z := 128.
Definition LIST14 : Z := 256.
Definition LIST15 : Z := 512.
Definition LIST16 : Z := 1024.
Definition LIST17 : Z := 2048.

(** ** Allocator state: the heap bytes, the page provider's bounds and the
    three globals of mm.c *)

Record State : Type := mkState {
  mem : memory;
  mem_brk : Z;
  mem_max_addr : Z;
  heap_listp : Z;
  freelisthead : Z;
  freelisttablehead : Z
}.

Definition set_mem (s : State) (m : memory) : State :=
  mkState m (mem_brk s) (mem_max_addr s) (heap_listp s) (freelisthead s)
          (freelisttablehead s).

Definition set_brk (s : State) (b : Z) : State :=
  mkState (mem s) b (mem_max_addr s) (heap_listp s) (freelisthead s)
          (freelisttablehead s).

Definition set_heap_listp (s : State) (p : Z) : State :=
  mkState (mem s) (mem_brk s) (mem_max_addr s) p (freelisthead s)
          (freelisttablehead s).

Definition set_freelisthead (s : State) (p : Z) : State :=
  mkState (mem s) (mem_brk s) (mem_max_addr s) (heap_listp s) p
          (freelisttablehead s).

Definition set_freelisttablehead (s : State) (p : Z) : State :=
  mkState (mem s) (mem_brk s) (mem_max_addr s) (heap_listp s)
          (freelisthead s) p.

(** Modelled from the spec: the page provider (memlib's [mem_sbrk]) is not
    part of mm.c.  [extend(bytes)] returns the first byte of the new region,
    the old high-water mark, or the failure indicator [-1] when the region
    cannot grow by that much; the provider never moves or shrinks it. *)
Definition mem_sbrk (s : State) (incr : Z) : State * Z :=
  if (incr <? 0) || (mem_max_addr s <? mem_brk s + incr)
  then (s, -1)
  else (set_brk s (mem_brk s + incr), mem_brk s).

(** ** Size classes *)

Definition choosefreetable_bysize (freeblksize : Z) : Z :=
  let temp := Z.quot freeblksize DSIZE in
  if temp <=? LIST1 then 1
  else if temp <=? LIST2 then 2
  else if temp <=? LIST3 then 3
  else if temp <=? LIST4 then 4
  else if temp <=? LIST5 then 5
  else if temp <=? LIST6 then 6
  else if temp <=? LIST7 then 7
  else if temp <=? LIST8 then 8
  else if temp <=? LIST9 then 9
  else if temp <=? LIST10 then 10
  else if temp <=? LIST11 then 11
  else if temp <=? LIST12 then 12
  else if temp <=? LIST13 then 13
  else if temp <=? LIST14 then 14
  else if temp <=? LIST15 then 15
  else if temp <=? LIST16 then 16
  else if temp <=? LIST17 then 17
  else 18.

Definition choosefreetable (m : memory) (bp : Z) : Z :=
  let freeblksize := to_int (GET_SIZE m (HDRP bp)) in
  choosefreetable_bysize freeblksize.

(** Address of the directory slot of class [n]. *)
Definition slot (s : State) (n : Z) : Z :=
  freelisttablehead s + DSIZE * (n - 1).

(** ** Free-list operations *)

Definition insertFree (s : State) (bp : Z) : State :=
  let FreetableN := choosefreetable (mem s) bp in
  let s := set_freelisthead s (GETLP (mem s) (slot s FreetableN)) in
  if bp =? freelisthead s then s
  else if negb (freelisthead s =? 0) then
    let m := PUTLP (mem s) (freelisthead s) bp in
    let m := PUTLP m (bp + DSIZE) (freelisthead s) in
    let s := set_freelisthead s bp in
    let m := PUTLP m (freelisthead s) 0 in
    let m := PUTLP m (slot s FreetableN) (freelisthead s) in
    set_mem s m
  else
    let s := set_freelisthead s bp in
    let m := PUTLP (mem s) (freelisthead s) 0 in
    let m := PUTLP m (freelisthead s + DSIZE) 0 in
    let m := PUTLP m (slot s FreetableN) (freelisthead s) in
    set_mem s m.

Definition deleteFree (s : State) (bp : Z) : State :=
  let FreetableN := choosefreetable (mem s) bp in
  let s := set_freelisthead s (GETLP (mem s) (slot s FreetableN)) in
  let pre_f := PREV_FREE (mem s) bp in
  let next_f := NEXT_FREE (mem s) bp in
  let m :=
    if negb (pre_f =? 0) then PUTLP (mem s) (pre_f + DSIZE) next_f
    else PUTLP (mem s) (slot s FreetableN) next_f in
  let m := if negb (next_f =? 0) then PUTLP m next_f pre_f else m in
  set_mem s m.

(** ** Coalescing *)

Definition coalesce (s : State) (bp : Z) : State * Z :=
  let m := mem s in
  let prev_alloc := GET_ALLOC m (FTRP m (PREV_BLKP m bp)) in
  let next_alloc := GET_ALLOC m (HDRP (NEXT_BLKP m bp)) in
  let size := GET_SIZE m (HDRP bp) in
  if negb (prev_alloc =? 0) && negb (next_alloc =? 0) then
    (insertFree s bp, bp)
  else if negb (prev_alloc =? 0) && (next_alloc =? 0) then
    let size := wrap64 (size + GET_SIZE m (HDRP (NEXT_BLKP m bp))) in
    let s := deleteFree s (NEXT_BLKP m bp) in
    let m := PUT (mem s) (HDRP bp) (PACK size 0) in
    let m := PUT m (FTRP m bp) (PACK size 0) in
    (insertFree (set_mem s m) bp, bp)
  else if (prev_alloc =? 0) && negb (next_alloc =? 0) then
    let size := wrap64 (size + GET_SIZE m (HDRP (PREV_BLKP m bp))) in
    let s := deleteFree s (PREV_BLKP m bp) in
    let m := PUT (mem s) (FTRP (mem s) bp) (PACK size 0) in
    let m := PUT m (HDRP (PREV_BLKP m bp)) (PACK size 0) in
    let bp := PREV_BLKP m bp in
    (insertFree (set_mem s m) bp, bp)
  else
    let size :=
      wrap64 (size + wrap32 (GET_SIZE m (HDRP (PREV_BLKP m bp)) +
                             GET_SIZE m (FTRP m (NEXT_BLKP m bp)))) in
    let s := deleteFree s (PREV_BLKP m bp) in
    let s := deleteFree s (NEXT_BLKP (mem s) bp) in
    let m := PUT (mem s) (HDRP (PREV_BLKP (mem s) bp)) (PACK size 0) in
    let m := PUT m (FTRP m (NEXT_BLKP m bp)) (PACK size 0) in
    let bp := PREV_BLKP m bp in
    (insertFree (set_mem s m) bp, bp).

(** ** Placement and heap extension *)

Definition place (s : State) (bp asize : Z) : State :=
  let csize := GET_SIZE (mem s) (HDRP bp) in
  if 3 * DSIZE <=? wrap64 (csize - asize) then
    let s := deleteFree s bp in
    let m := PUT (mem s) (HDRP bp) (PACK asize 1) in
    let m := PUT m (FTRP m bp) (PACK asize 1) in
    let bp := NEXT_BLKP m bp in
    let m := PUT m (HDRP bp) (PACK (wrap64 (csize - asize)) 0) in
    let m := PUT m (FTRP m bp) (PACK (wrap64 (csize - asize)) 0) in
    fst (coalesce (set_mem s m) bp)
  else
    let s := deleteFree s bp in
    let m := PUT (mem s) (HDRP bp) (PACK csize 1) in
    let m := PUT m (FTRP m bp) (PACK csize 1) in
    set_mem s m.

Definition extend_heap (s : State) (words : Z) : State * Z :=
  let size :=
    if negb (words mod 2 =? 0) then wrap64 ((words + 1) * WSIZE)
    else wrap64 (words * WSIZE) in
  let '(s, bp) := mem_sbrk s size in
  if bp =? -1 then (s, 0)
  else
    let m := PUT (mem s) (HDRP bp) (PACK size 0) in
    let m := PUT m (FTRP m bp) (PACK size 0) in
    let m := PUT m (HDRP (NEXT_BLKP m bp)) (PACK 0 1) in
    coalesce (set_mem s m) bp.

(** ** Fit search.  The inner loop follows next links for as long as the
    list goes on, so it takes fuel: [None] is the loop still running when
    the fuel is spent. *)

Fixpoint scan_list (fuel : nat) (m : memory) (asize bp : Z) : option Z :=
  match fuel with
  | O => None
  | S fuel' =>
      if negb (bp =? 0) && (0 <? GET_SIZE m (HDRP bp)) then
        if (GET_ALLOC m (HDRP bp) =? 0) && (asize <=? GET_SIZE m (HDRP bp))
        then Some bp
        else scan_list fuel' m asize (NEXT_FREE m bp)
      else Some 0
  end.

Fixpoint find_fit_from (fuel n : nat) (s : State) (asize i : Z)
  : option (State * Z) :=
  match n with
  | O => Some (s, 0)
  | S n' =>
      let s := set_freelisthead s (GETLP (mem s) (slot s i)) in
      match scan_list fuel (mem s) asize (freelisthead s) with
      | None => None
      | Some bp =>
          if bp =? 0 then find_fit_from fuel n' s asize (i + 1)
          else Some (s, bp)
      end
  end.

Definition find_fit (fuel : nat) (s : State) (asize : Z)
  : option (State * Z) :=
  let FreetableN := choosefreetable_bysize (to_int asize) in
  find_fit_from fuel (Z.to_nat (MAXFREESIZE - FreetableN)) s asize FreetableN.

(** ** Initialisation *)

Definition freeslistnum : Z :=
  DSIZE * ((MAXFREESIZE * DSIZE + DSIZE + DSIZE - 1) / DSIZE).

Definition clear_slots (m : memory) (table : Z) : memory :=
  fold_left (fun m i => PUTLP m (table + Z.of_nat i * DSIZE) 0)
            (seq 0 (Z.to_nat MAXFREESIZE)) m.

(** [mm_init] uses the result of its first [mem_sbrk] without a test: when
    the provider refuses the 168 bytes of the directory, the C code stores
    through [(char * )-1 + DSIZE].  The stores of this model are total, so
    the definition describes the C code only for states in which the
    provider has room for the directory; every statement about [mm_init]
    below is about such states. *)
Definition mm_init (s : State) : State * Z :=
  let '(s, p) := mem_sbrk s freeslistnum in
  let s := set_freelisttablehead s (p + DSIZE) in
  let table := freelisttablehead s in
  let m := PUT (mem s) (HDRP table) (PACK freeslistnum 1) in
  let m := PUT m (FTRP m table) (PACK freeslistnum 1) in
  let m := clear_slots m table in
  let s := set_mem s m in
  let '(s, h) := mem_sbrk s (4 * WSIZE) in
  let s := set_heap_listp s h in
  if h =? -1 then (s, -1)
  else
    let m := PUT (mem s) (heap_listp s) 0 in
    let m := PUT m (heap_listp s + 1 * WSIZE) (PACK DSIZE 1) in
    let m := PUT m (heap_listp s + 2 * WSIZE) (PACK DSIZE 1) in
    let m := PUT m (heap_listp s + 3 * WSIZE) (PACK 0 1) in
    let s := set_heap_listp (set_mem s m) (heap_listp s + 2 * WSIZE) in
    let '(s, bp) := extend_heap s (CHUNKSIZE / WSIZE) in
    if bp =? 0 then (s, -1) else (s, 0).

(** ** Public entry points *)

(** The size adjustment shared by [malloc] and [realloc]. *)
Definition adjust (size : Z) : Z :=
  if size <=? DSIZE then 3 * DSIZE
  else wrap64 (DSIZE * (wrap64 (size + DSIZE + (DSIZE - 1)) / DSIZE)).

Definition malloc (fuel : nat) (s : State) (size : Z) : option (State * Z) :=
  let s := if heap_listp s =? 0 then fst (mm_init s) else s in
  if size =? 0 then Some (s, 0)
  else
    let asize := adjust size in
    match find_fit fuel s asize with
    | None => None
    | Some (s, bp) =>
        if negb (bp =? 0) then Some (place s bp asize, bp)
        else
          let extendsize := MAX asize CHUNKSIZE in
          let '(s, bp) := extend_heap s (extendsize / WSIZE) in
          if bp =? 0 then Some (s, 0)
          else Some (place s bp asize, bp)
    end.

Definition free (s : State) (ptr : Z) : State :=
  if negb (ptr =? 0) then
    let fsize := GET_SIZE (mem s) (HDRP ptr) in
    let m := PUT (mem s) (HDRP ptr) (PACK fsize 0) in
    let m := PUT m (FTRP m ptr) (PACK fsize 0) in
    fst (coalesce (set_mem s m) ptr)
  else s.

Definition realloc (fuel : nat) (s : State) (oldptr size : Z)
  : option (State * Z) :=
  if size =? 0 then Some (free s oldptr, 0)
  else if oldptr =? 0 then malloc fuel s size
  else
    let oldsize := GET_SIZE (mem s) (HDRP oldptr) in
    let size := adjust size in
    if size <=? oldsize then Some (s, oldptr)
    else
      match malloc fuel s size with
      | None => None
      | Some (s, newptr) =>
          if newptr =? 0 then Some (s, 0)
          else
            let m := memcpy (mem s) newptr oldptr oldsize in
            Some (free (set_mem s m) oldptr, newptr)
      end.

(** [calloc] hands what [malloc] returned to [memset] without a test.  With
    a null pointer and a positive byte count [memset] stores through the
    null pointer, and the process stops there: the call does not return,
    and it has no result here, like a list walk that the fuel does not
    outlast.  With a byte count of 0 [memset] stores nothing. *)
Definition calloc (fuel : nat) (s : State) (nmemb size : Z)
  : option (State * Z) :=
  let bytes := wrap64 (nmemb * size) in
  match malloc fuel s bytes with
  | None => None
  | Some (s, newptr) =>
      if (newptr =? 0) && (0 <? bytes) then None
      else Some (set_mem s (memset (mem s) newptr x00 bytes), newptr)
  end.

(** ** The abstract heap

    The block region read as data: the blocks in address order, each with
    its size and allocation bit, and the twenty directory lists, each the
    offsets of its members in list order.  Offsets count from the first
    block pointer, [heap_listp + DSIZE]. *)

Abbreviation blk := (Z * bool)%type (only parsing).

Record heap : Type := mkHeap {
  blocks : list blk;
  lists : list (list Z)
}.

Definition tag (b : blk) : Z := fst b + (if snd b then 1 else 0).

Fixpoint total (bl : list blk) : Z :=
  match bl with
  | [] => 0
  | b :: r => fst b + total r
  end.

Fixpoint layout (o : Z) (bl : list blk) : list (Z * blk) :=
  match bl with
  | [] => []
  | b :: r => (o, b) :: layout (o + fst b) r
  end.

Definition ok_size (b : blk) : Prop := 24 <= fst b /\ fst b mod 8 = 0.

Fixpoint no_adj (bl : list blk) : Prop :=
  match bl with
  | b :: r =>
      match r with
      | b' :: _ => (snd b || snd b' = true) /\ no_adj r
      | [] => True
      end
  | [] => True
  end.

Definition class_of (sz : Z) : Z := choosefreetable_bysize (to_int sz).
Definition class_idx (sz : Z) : nat := Z.to_nat (class_of sz - 1).

Fixpoint upd_nth {A : Type} (n : nat) (f : A -> A) (l : list A) : list A :=
  match l with
  | [] => []
  | x :: r =>
      match n with
      | O => f x :: r
      | S k => x :: upd_nth k f r
      end
  end.

Definition a_insert (fl : list (list Z)) (o sz : Z) : list (list Z) :=
  upd_nth (class_idx sz) (cons o) fl.

Definition a_delete (fl : list (list Z)) (o sz : Z) : list (list Z) :=
  upd_nth (class_idx sz) (remove Z.eq_dec o) fl.

(** The sentinels seen from the block region: the prologue to the left
    of the first block, the epilogue to the right of the last. *)
Definition prologue : blk := (DSIZE, true).
Definition epilogue : blk := (0, true).

(** Coalescing of the unlisted free block of size [sz] that stands between
    the blocks [L] and the blocks [R]: the four-case table. *)
Definition a_coalesce (L : list blk) (sz : Z) (R : list blk)
    (fl : list (list Z)) : heap * Z :=
  let o := total L in
  let p := last L prologue in
  let n := hd epilogue R in
  match snd p, snd n with
  | true, true =>
      (mkHeap (L ++ (sz, false) :: R) (a_insert fl o sz), o)
  | true, false =>
      let sz' := sz + fst n in
      (mkHeap (L ++ (sz', false) :: tl R)
              (a_insert (a_delete fl (o + sz) (fst n)) o sz'), o)
  | false, true =>
      let sz' := sz + fst p in
      let o' := o - fst p in
      (mkHeap (removelast L ++ (sz', false) :: R)
              (a_insert (a_delete fl o' (fst p)) o' sz'), o')
  | false, false =>
      let sz' := sz + fst p + fst n in
      let o' := o - fst p in
      (mkHeap (removelast L ++ (sz', false) :: tl R)
              (a_insert (a_delete (a_delete fl o' (fst p)) (o + sz) (fst n))
                        o' sz'), o')
  end.

(** The block standing at offset [x], with the blocks before and after. *)
Fixpoint split_at (o : Z) (bl : list blk) (x : Z)
  : option (list blk * blk * list blk) :=
  match bl with
  | [] => None
  | b :: r =>
      if x =? o then Some ([], b, r)
      else
        match split_at (o + fst b) r x with
        | Some (L, c, R) => Some (b :: L, c, R)
        | None => None
        end
  end.

Definition size_at (bl : list blk) (x : Z) : Z :=
  match split_at 0 bl x with
  | Some (_, b, _) => fst b
  | None => 0
  end.

Definition a_place (h : heap) (o asize : Z) : heap :=
  match split_at 0 (blocks h) o with
  | Some (L, b, R) =>
      let csize := fst b in
      let fl := a_delete (lists h) o csize in
      if 24 <=? csize - asize then
        fst (a_coalesce (L ++ [(asize, true)]) (csize - asize) R fl)
      else mkHeap (L ++ (csize, true) :: R) fl
  | None => h
  end.

Definition a_extend (h : heap) (room words : Z) : option (heap * Z) :=
  let size := if words mod 2 =? 0 then words * 4 else (words + 1) * 4 in
  if size <=? room then Some (a_coalesce (blocks h) size [] (lists h))
  else None.

(** The lists the search visits, in order: classes [k0 .. 19]. *)
Definition candidates (fl : list (list Z)) (asize : Z) : list Z :=
  concat (skipn (Z.to_nat (class_of asize - 1)) (firstn 19 fl)).

Definition a_find_fit (h : heap) (asize : Z) : option Z :=
  find (fun o => asize <=? size_at (blocks h) o)
       (candidates (lists h) asize).

(** [room] is what the page provider can still give. *)
Definition a_malloc (h : heap) (room size : Z) : heap * option Z :=
  if size =? 0 then (h, None)
  else
    let asize := adjust size in
    match a_find_fit h asize with
    | Some o => (a_place h o asize, Some o)
    | None =>
        match a_extend h room (MAX asize CHUNKSIZE / 4) with
        | Some (h', o) => (a_place h' o asize, Some o)
        | None => (h, None)
        end
    end.

Definition a_free (h : heap) (o : Z) : heap :=
  match split_at 0 (blocks h) o with
  | Some (L, b, R) => fst (a_coalesce L (fst b) R (lists h))
  | None => h
  end.

(** The heap right after initialisation: one free block of [CHUNKSIZE]
    bytes, alone on the list of its class. *)
Definition a_init : heap :=
  mkHeap [(CHUNKSIZE, false)]
         (a_insert (repeat [] (Z.to_nat MAXFREESIZE)) 0 CHUNKSIZE).

(** ** Representation: what the bytes must hold for an abstract heap *)

(** The boundary tags of consecutive blocks, the first at pointer [p]. *)
Fixpoint blocks_seg (m : memory) (p : Z) (bl : list blk) : Prop :=
  match bl with
  | [] => True
  | b :: r =>
      GET m (p - 4) = tag b /\ GET m (p + fst b - 8) = tag b /\
      blocks_seg m (p + fst b) r
  end.

(** A stretch of a doubly linked free list: [l] are the members' offsets,
    [head] the pointer that leads to the first, [prev] what the first
    member's back link holds, [nxt] what the last member's next link
    holds. *)
Fixpoint fseg (m : memory) (base prev : Z) (l : list Z) (head nxt : Z)
  : Prop :=
  match l with
  | [] => head = nxt
  | o :: l' =>
      head = base + o /\ GETLP m (base + o) = prev /\
      fseg m base (base + o) l' (GETLP m (base + o + 8)) nxt
  end.

Definition base_of (s : State) : Z := heap_listp s + DSIZE.

Record rep (s : State) (h : heap) : Prop := {
  rep_table_pos : 0 < freelisttablehead s;
  rep_table_below : freelisttablehead s + 160 <= heap_listp s - 4;
  rep_aligned : heap_listp s mod 8 = 0;
  rep_brk : mem_brk s = base_of s + total (blocks h);
  rep_max : mem_brk s <= mem_max_addr s;
  rep_cap : mem_max_addr s - heap_listp s < 2 ^ 31;
  rep_addr : mem_max_addr s < 2 ^ 64;
  rep_prologue_hdr : GET (mem s) (heap_listp s - 4) = tag prologue;
  rep_prologue_ftr : GET (mem s) (heap_listp s) = tag prologue;
  rep_blocks : blocks_seg (mem s) (base_of s) (blocks h);
  rep_epilogue : GET (mem s) (mem_brk s - 4) = tag epilogue;
  rep_lists : forall i, (i < 20)%nat ->
    fseg (mem s) (base_of s) 0 (nth i (lists h) [])
         (GETLP (mem s) (freelisttablehead s + 8 * Z.of_nat i)) 0
}.

(** Well-formedness of the abstract heap, the free blocks at the offsets
    [X] being the ones not (yet) on a list. *)
Record wf (X : list Z) (h : heap) : Prop := {
  wf_sizes : Forall ok_size (blocks h);
  wf_len : length (lists h) = 20%nat;
  wf_nodup : forall i, NoDup (nth i (lists h) []);
  wf_listed : forall i o,
    In o (nth i (lists h) []) <->
    (~ In o X /\
     exists sz, In (o, (sz, false)) (layout 0 (blocks h)) /\ class_idx sz = i)
}.

(** The heap invariant between public calls. *)
Definition inv (s : State) (h : heap) : Prop :=
  rep s h /\ wf [] h /\ no_adj (blocks h).

(** Addresses inside a free block, from its header to its footer. *)
Fixpoint in_free_extent (p : Z) (bl : list blk) (a : Z) : Prop :=
  match bl with
  | [] => False
  | b :: r =>
      (snd b = false /\ p - 4 <= a < p + fst b - 4) \/
      in_free_extent (p + fst b) r a
  end.

(** [m'] differs from [m] only in the directory, inside blocks that are
    free in [bl], or from the epilogue on. *)
Definition frame (s : State) (bl : list blk) (m m' : memory) : Prop :=
  forall a,
    a < freelisttablehead s \/ freelisttablehead s + 160 <= a ->
    ~ in_free_extent (base_of s) bl a ->
    a < base_of s + total bl - 4 ->
    m' a = m a.

(** Same globals and provider bounds, whatever the bytes. *)
Definition same_globals (s s' : State) : Prop :=
  mem_brk s' = mem_brk s /\ mem_max_addr s' = mem_max_addr s /\
  heap_listp s' = heap_listp s /\
  freelisttablehead s' = freelisttablehead s.

(** What the pointer before a stretch of list and the pointer into it
    hold. *)
Definition lastp (base prev : Z) (l : list Z) : Z :=
  fold_left (fun _ o => base + o) l prev.

Definition headp (base : Z) (l : list Z) (nxt : Z) : Z :=
  match l with
  | [] => nxt
  | o :: _ => base + o
  end.

(** [m'] differs from [m] only in the directory slot at [sl] and in the
    link words of the blocks at the offsets [nodes]. *)
Definition link_frame (base sl : Z) (nodes : list Z) (m m' : memory)
  : Prop :=
  forall a,
    a < sl \/ sl + 8 <= a ->
    (forall x, In x nodes -> a < base + x \/ base + x + 16 <= a) ->
    m' a = m a.

(** What one internal step from [s] to [s'] must establish: the bytes
    represent [h'], every free block of [h'] is listed, the globals are
    kept and the bytes outside the directory and the free blocks of [bl]
    are untouched. *)
Definition step_ok (s : State) (bl : list blk) (s' : State) (h' : heap)
  : Prop :=
  rep s' h' /\ wf [] h' /\ same_globals s s' /\ frame s bl (mem s) (mem s').

(** An empty heap: nothing initialised yet, and a page provider whose
    region starts doubleword-aligned, has room for the directory, the
    sentinels and the first chunk, and is smaller than 2 GiB. *)
Definition fresh (s : State) : Prop :=
  heap_listp s = 0 /\ 0 < mem_brk s /\ mem_brk s mod 8 = 0 /\
  mem_brk s + 352 <= mem_max_addr s /\
  mem_max_addr s - mem_brk s < 2 ^ 31 /\ mem_max_addr s < 2 ^ 64.

(** The heap with no block at all, as [mm_init] has it just before it
    asks for the first chunk. *)
Definition a_empty : heap := mkHeap [] (repeat [] (Z.to_nat MAXFREESIZE)).

(** What a public call keeps of the globals; the break may move up. *)
Definition same_heap_globals (s s' : State) : Prop :=
  heap_listp s' = heap_listp s /\
  freelisttablehead s' = freelisttablehead s /\
  mem_max_addr s' = mem_max_addr s.

(** The pointer a call returns for an abstract result. *)
Definition ptr_of (s : State) (r : option Z) : Z :=
  match r with
  | Some o => base_of s + o
  | None => 0
  end.

(** ** Sample runs

    A page provider with a mebibyte to give, nothing initialised and every
    byte zero; and one with room for the first chunk and a hundred bytes
    more. *)
Definition c_s0 : State :=
  mkState (fun _ => x00) 4096 (4096 + 1048576) 0 0 0.

Definition c_low : State :=
  mkState (fun _ => x00) 4096 (4096 + 352 + 100) 0 0 0.

(** The state and the pointer a call that returned has produced. *)
Definition state_after (d : State) (r : option (State * Z)) : State :=
  match r with
  | Some (s, _) => s
  | None => d
  end.

Definition pointer_of (r : option (State * Z)) : Z :=
  match r with
  | Some (_, p) => p
  | None => 0
  end.

(** The caller filling [n] bytes from [p] with [c]. *)
Definition fill (s : State) (p : Z) (c : byte) (n : Z) : State :=
  set_mem s (memset (mem s) p c n).

(** ** The consistency checker

    [mm_checkheap] only prints; what it prints is modelled as the list of
    its messages, one constructor for each [printf] of the checker, in the
    order of the calls. *)
Inductive message : Type :=
| Bad_prologue_header
| Out_of_boundary (bp : Z)
| Wrong_size (bp : Z)
| Not_doubleword_aligned (bp : Z)
| Header_does_not_match_footer
| Consecutive_free_block (bp : Z)
| Bad_epilogue_header
| Not_been_freed (bp : Z)
| Pointer_out_of_boundary (bp : Z)
| Not_linked_correctly (bp : Z)
| Self_linked (bp : Z)
| Wrong_free_list (fp : Z)
| Counts_do_not_match
| Counted_by_pointers
| Normal_iteration_gives (n : Z)
| Free_list_pointer_gives (n : Z)
| EOL (bp : Z).

(** Modelled from the spec: the provider's bounds (memlib's [mem_heap_lo]
    and [mem_heap_hi]) are not part of mm.c.  The upper bound is the last
    byte below the break; the lower bound, the first byte of the region,
    is not kept in the allocator state and is a parameter [lo] of the
    checker. *)
Definition mem_heap_hi (s : State) : Z := mem_brk s - 1.

Definition in_heap (lo : Z) (s : State) (p : Z) : bool :=
  (p <=? mem_heap_hi s) && (lo <=? p).

(** The links of a free-list node that [checkFreeBlock] follows are null
    or point into the heap: then the loads of the check through them start
    in the heap or at most 8 bytes past its last byte.  With two non-null
    links of which one points elsewhere the C code prints the boundary
    message and still loads through both. *)
Definition links_inside (lo : Z) (s : State) (bp : Z) : bool :=
  let m := mem s in
  (PREV_FREE m bp =? 0) || (NEXT_FREE m bp =? 0) ||
  (in_heap lo s (PREV_FREE m bp) && in_heap lo s (NEXT_FREE m bp)).

Definition checkFreeBlock (lo : Z) (s : State) (bp : Z) : list message :=
  let m := mem s in
  (if negb (GET_ALLOC m (HDRP bp) =? 0) then [Not_been_freed bp] else []) ++
  (if negb (PREV_FREE m bp =? 0) && negb (NEXT_FREE m bp =? 0) then
     (if negb (in_heap lo s (PREV_FREE m bp)) ||
         negb (in_heap lo s (NEXT_FREE m bp))
      then [Pointer_out_of_boundary bp] else []) ++
     (if negb (NEXT_FREE m (PREV_FREE m bp) =? bp) ||
         negb (PREV_FREE m (NEXT_FREE m bp) =? bp)
      then [Not_linked_correctly bp] else []) ++
     (if (NEXT_FREE m bp =? bp) || (PREV_FREE m bp =? bp)
      then [Self_linked bp] else [])
   else []).

Definition checkblock (lo : Z) (s : State) (bp : Z) : list message :=
  let m := mem s in
  (if negb (in_heap lo s bp) then [Out_of_boundary bp] else []) ++
  (if (GET_SIZE m (HDRP bp) <? 3 * DSIZE) && negb (bp =? heap_listp s)
   then [Wrong_size bp] else []) ++
  (if negb (bp mod DSIZE =? 0) then [Not_doubleword_aligned bp] else []) ++
  (if negb (GET m (HDRP bp) =? GET m (FTRP m bp))
   then [Header_does_not_match_footer] else []).

(** The walk from the prologue to the first header of size 0; [pb] is what
    the call of [printblock] prints, nothing when the checker is not
    verbose.  The result is the messages, the number of free blocks met
    and the block pointer the walk ends at. *)
Fixpoint check_walk (fuel : nat) (lo : Z) (s : State)
    (pb : Z -> option (list message)) (bp : Z) (fblocknumbynormal : Z)
  : option (list message * Z * Z) :=
  match fuel with
  | O => None
  | S fuel' =>
      let m := mem s in
      if 0 <? GET_SIZE m (HDRP bp) then
        match pb bp with
        | None => None
        | Some printed =>
            let check2 :=
              if (0 <? GET_SIZE m (HDRP (NEXT_BLKP m bp))) &&
                 (GET_ALLOC m (HDRP bp) =? 0) &&
                 (GET_ALLOC m (HDRP (NEXT_BLKP m bp)) =? 0)
              then [Consecutive_free_block bp] else [] in
            let check3 := checkblock lo s bp in
            let n :=
              if GET_ALLOC m (HDRP bp) =? 0 then fblocknumbynormal + 1
              else fblocknumbynormal in
            match check_walk fuel' lo s pb (NEXT_BLKP m bp) n with
            | None => None
            | Some (rest, n', last) =>
                Some (printed ++ check2 ++ check3 ++ rest, n', last)
            end
        end
      else Some ([], fblocknumbynormal, bp)
  end.

(** One free list, from [fp] on. *)
Fixpoint check_list (fuel : nat) (lo : Z) (s : State) (index fp : Z)
    (fblocknumbyfreelist : Z) : option (list message * Z) :=
  match fuel with
  | O => None
  | S fuel' =>
      let m := mem s in
      if negb (fp =? 0) && (0 <? GET_SIZE m (HDRP fp)) then
        let check5 := checkFreeBlock lo s fp in
        let n := fblocknumbyfreelist + 1 in
        let check54 :=
          if negb (choosefreetable m fp =? index) then [Wrong_free_list fp]
          else [] in
        match check_list fuel' lo s index (NEXT_FREE m fp) n with
        | None => None
        | Some (rest, n') => Some (check5 ++ check54 ++ rest, n')
        end
      else Some ([], fblocknumbyfreelist)
  end.

(** The lists of [n] classes, from class [index] on. *)
Fixpoint check_lists (fuel n : nat) (lo : Z) (s : State) (index : Z)
    (fblocknumbyfreelist : Z) : option (list message * Z) :=
  match n with
  | O => Some ([], fblocknumbyfreelist)
  | S n' =>
      match check_list fuel lo s index (GETLP (mem s) (slot s index))
              fblocknumbyfreelist with
      | None => None
      | Some (l1, c1) =>
          match check_lists fuel n' lo s (index + 1) c1 with
          | None => None
          | Some (l2, c2) => Some (l1 ++ l2, c2)
          end
      end
  end.

(** The body of [mm_checkheap], with what [printblock] prints left open;
    it returns the messages and the value the C function returns, which is
    always 0. *)
Definition checkheap_with (fuel : nat) (lo : Z) (s : State)
    (pb : Z -> option (list message)) : option (list message * Z) :=
  let m := mem s in
  let check1 :=
    if negb (GET_SIZE m (HDRP (heap_listp s)) =? DSIZE) ||
       (GET_ALLOC m (HDRP (heap_listp s)) =? 0)
    then [Bad_prologue_header] else [] in
  let check1b := checkblock lo s (heap_listp s) in
  match check_walk fuel lo s pb (heap_listp s) 0 with
  | None => None
  | Some (walked, fblocknumbynormal, bp) =>
      match pb bp with
      | None => None
      | Some printed =>
          let check4 :=
            if negb (GET_SIZE m (HDRP bp) =? 0) ||
               (GET_ALLOC m (HDRP bp) =? 0)
            then [Bad_epilogue_header] else [] in
          match check_lists fuel (Z.to_nat (MAXFREESIZE - 1)) lo s 1 0 with
          | None => None
          | Some (listed, fblocknumbyfreelist) =>
              let check55 :=
                if negb (fblocknumbyfreelist =? fblocknumbynormal)
                then [Counts_do_not_match; Counted_by_pointers;
                      Normal_iteration_gives fblocknumbynormal;
                      Free_list_pointer_gives fblocknumbyfreelist]
                else [] in
              Some (check1 ++ check1b ++ walked ++ printed ++ check4 ++
                    listed ++ check55, 0)
          end
      end
  end.

(** [printblock] runs the checker, not verbose, before it looks at the
    block; it prints only for a header of size 0. *)
Definition printblock (fuel : nat) (lo : Z) (s : State) (bp : Z)
  : option (list message) :=
  match checkheap_with fuel lo s (fun _ => Some []) with
  | None => None
  | Some (checked, _) =>
      let hsize := GET_SIZE (mem s) (HDRP bp) in
      Some (checked ++ (if hsize =? 0 then [EOL bp] else []))
  end.

Definition mm_checkheap (fuel : nat) (lo : Z) (s : State) (verbose : Z)
  : option (list message * Z) :=
  checkheap_with fuel lo s
    (fun bp => if negb (verbose =? 0) then printblock fuel lo s bp
               else Some []).

(** The free blocks of an abstract heap, by offset. *)
Definition free_offsets (bl : list blk) : list Z :=
  map fst (filter (fun x => negb (snd (snd x))) (layout 0 bl)).

(** The number of free blocks. *)
Definition nfree (bl : list blk) : nat :=
  length (filter (fun b : blk => negb (snd b)) bl).

(** The block the checker's walk stands at after [k] steps from [bp], if
    the walk gets that far. *)
Fixpoint walk_block (m : memory) (k : nat) (bp : Z) : option Z :=
  if 0 <? GET_SIZE m (HDRP bp) then
    match k with
    | O => Some bp
    | S k' => walk_block m k' (NEXT_BLKP m bp)
    end
  else None.

(** The node the checker's walk of a free list stands at after [k] steps
    from [fp], if the walk gets that far. *)
Fixpoint list_node (m : memory) (k : nat) (fp : Z) : option Z :=
  if negb (fp =? 0) && (0 <? GET_SIZE m (HDRP fp)) then
    match k with
    | O => Some fp
    | S k' => list_node m k' (NEXT_FREE m fp)
    end
  else None.

(** * Bytes and words *)

Lemma Z_of_byte_range b : 0 <= Z_of_byte b < 256.
Proof.
  unfold Z_of_byte. pose proof (Byte.to_N_bounded b). lia.
Qed.

Lemma Z_of_byte_of_Z z : Z_of_byte (byte_of_Z z) = z mod 256.
Proof.
  unfold Z_of_byte, byte_of_Z.
  assert (H : 0 <= z mod 256 < 256) by (apply Z.mod_pos_bound; lia).
  destruct (Byte.of_N (Z.to_N (z mod 256))) as [b|] eqn:E.
  - apply Byte.to_of_N in E. rewrite E. lia.
  - apply Byte.of_N_None_iff in E. lia.
Qed.

Lemma upd_same m p b : upd m p b p = b.
Proof. unfold upd. now rewrite Z.eqb_refl. Qed.

Lemma upd_other m p b a : a <> p -> upd m p b a = m a.
Proof. unfold upd. intros H. apply Z.eqb_neq in H. now rewrite H. Qed.

Lemma store_other n : forall m p v a,
  a < p \/ p + Z.of_nat n <= a -> store n m p v a = m a.
Proof.
  induction n as [|n IH]; intros m p v a H; cbn [store]; [reflexivity|].
  rewrite IH by lia. apply upd_other. lia.
Qed.

Lemma load_ext n : forall m m' p,
  (forall a, p <= a < p + Z.of_nat n -> m' a = m a) ->
  load n m' p = load n m p.
Proof.
  induction n as [|n IH]; intros m m' p H; cbn [load]; [reflexivity|].
  rewrite (H p) by lia. rewrite (IH m m' (p + 1)); [reflexivity|].
  intros a Ha. apply H. lia.
Qed.

Lemma load_range n : forall m p, 0 <= load n m p < 256 ^ Z.of_nat n.
Proof.
  induction n as [|n IH]; intros m p; cbn [load].
  - simpl. lia.
  - rewrite Nat2Z.inj_succ, Z.pow_succ_r by lia.
    pose proof (Z_of_byte_range (m p)). specialize (IH m (p + 1)). lia.
Qed.

Lemma load_store_same n : forall m p v,
  load n (store n m p v) p = v mod 256 ^ Z.of_nat n.
Proof.
  induction n as [|n IH]; intros m p v; cbn [load store].
  - simpl. now rewrite Z.mod_1_r.
  - rewrite store_other by lia. rewrite upd_same, Z_of_byte_of_Z, IH.
    rewrite Nat2Z.inj_succ, Z.pow_succ_r by lia.
    rewrite Z.rem_mul_r by lia. reflexivity.
Qed.

Lemma PUT_other m p v a : a < p \/ p + 4 <= a -> PUT m p v a = m a.
Proof. intros H. unfold PUT. apply store_other. simpl. lia. Qed.

Lemma PUTLP_other m p v a : a < p \/ p + 8 <= a -> PUTLP m p v a = m a.
Proof. intros H. unfold PUTLP. apply store_other. simpl. lia. Qed.

Lemma GET_ext m m' p :
  (forall a, p <= a < p + 4 -> m' a = m a) -> GET m' p = GET m p.
Proof. intros H. unfold GET. apply load_ext. simpl. exact H. Qed.

Lemma GETLP_ext m m' p :
  (forall a, p <= a < p + 8 -> m' a = m a) -> GETLP m' p = GETLP m p.
Proof. intros H. unfold GETLP. apply load_ext. simpl. exact H. Qed.

Lemma GET_range m p : 0 <= GET m p < 2 ^ 32.
Proof.
  unfold GET. pose proof (load_range 4 m p) as H.
  change (256 ^ Z.of_nat 4) with (2 ^ 32) in H. exact H.
Qed.

Lemma GETLP_range m p : 0 <= GETLP m p < 2 ^ 64.
Proof.
  unfold GETLP. pose proof (load_range 8 m p) as H.
  change (256 ^ Z.of_nat 8) with (2 ^ 64) in H. exact H.
Qed.

Lemma GET_PUT_same m p v : 0 <= v < 2 ^ 32 -> GET (PUT m p v) p = v.
Proof.
  intros H. unfold GET, PUT. rewrite load_store_same.
  apply Z.mod_small. change (256 ^ Z.of_nat 4) with (2 ^ 32). exact H.
Qed.

Lemma GETLP_PUTLP_same m p v : 0 <= v < 2 ^ 64 -> GETLP (PUTLP m p v) p = v.
Proof.
  intros H. unfold GETLP, PUTLP. rewrite load_store_same.
  apply Z.mod_small. change (256 ^ Z.of_nat 8) with (2 ^ 64). exact H.
Qed.

Lemma GET_PUT_other m p v q :
  q + 4 <= p \/ p + 4 <= q -> GET (PUT m p v) q = GET m q.
Proof. intros H. apply GET_ext. intros a Ha. apply PUT_other. lia. Qed.

Lemma GET_PUTLP_other m p v q :
  q + 4 <= p \/ p + 8 <= q -> GET (PUTLP m p v) q = GET m q.
Proof. intros H. apply GET_ext. intros a Ha. apply PUTLP_other. lia. Qed.

Lemma GETLP_PUTLP_other m p v q :
  q + 8 <= p \/ p + 8 <= q -> GETLP (PUTLP m p v) q = GETLP m q.
Proof. intros H. apply GETLP_ext. intros a Ha. apply PUTLP_other. lia. Qed.

Lemma GETLP_PUT_other m p v q :
  q + 8 <= p \/ p + 4 <= q -> GETLP (PUT m p v) q = GETLP m q.
Proof. intros H. apply GETLP_ext. intros a Ha. apply PUT_other. lia. Qed.

(** * Boundary tags *)

Lemma land_lnot7 x : Z.land x (Z.lnot 7) = 8 * (x / 8).
Proof.
  rewrite <- Z.ldiff_land. change 7 with (Z.ones 3).
  rewrite Z.ldiff_ones_r by lia.
  rewrite Z.shiftr_div_pow2, Z.shiftl_mul_pow2 by lia.
  change (2 ^ 3) with 8. lia.
Qed.

Lemma land_1 x : Z.land x 1 = x mod 2.
Proof. change 1 with (Z.ones 1). rewrite Z.land_ones by lia. reflexivity. Qed.

Lemma mod8_mult sz : sz mod 8 = 0 -> exists k, sz = 8 * k.
Proof. intros H. exists (sz / 8). apply Z.div_exact in H; lia. Qed.

Lemma PACK_tag sz (a : bool) :
  sz mod 8 = 0 -> PACK sz (if a then 1 else 0) = tag (sz, a).
Proof.
  intros H. destruct (mod8_mult _ H) as [k ->].
  unfold PACK, tag. cbn [fst snd].
  destruct a; [|now rewrite Z.lor_0_r, Z.add_0_r].
  assert (E : Z.land (8 * k) 1 = 0).
  { rewrite land_1. replace (8 * k) with (k * 4 * 2) by lia.
    apply Z.mod_mul. lia. }
  rewrite <- Z.lxor_lor, <- Z.add_nocarry_lxor; auto.
Qed.

Lemma tag_size b : fst b mod 8 = 0 -> Z.land (tag b) (Z.lnot 7) = fst b.
Proof.
  intros H. destruct (mod8_mult _ H) as [k E].
  rewrite land_lnot7. unfold tag. rewrite E.
  replace ((8 * k + (if snd b then 1 else 0)) / 8) with k; [reflexivity|].
  rewrite (Z.mul_comm 8), Z.div_add_l by lia.
  destruct (snd b); [change (1 / 8) with 0 | change (0 / 8) with 0]; lia.
Qed.

Lemma tag_alloc b :
  fst b mod 8 = 0 -> Z.land (tag b) 1 = if snd b then 1 else 0.
Proof.
  intros H. destruct (mod8_mult _ H) as [k E].
  rewrite land_1. unfold tag. rewrite E.
  replace (8 * k) with (k * 4 * 2) by lia.
  rewrite Z.add_comm, Z.mod_add by lia. now destruct (snd b).
Qed.

Lemma GET_SIZE_tag m p b :
  GET m p = tag b -> fst b mod 8 = 0 -> GET_SIZE m p = fst b.
Proof. intros H H8. unfold GET_SIZE. rewrite H. now apply tag_size. Qed.

Lemma GET_ALLOC_tag m p b :
  GET m p = tag b -> fst b mod 8 = 0 ->
  GET_ALLOC m p = if snd b then 1 else 0.
Proof. intros H H8. unfold GET_ALLOC. rewrite H. now apply tag_alloc. Qed.

Lemma tag_range b : 0 <= fst b < 2 ^ 31 -> 0 <= tag b < 2 ^ 32.
Proof. unfold tag. destruct (snd b); lia. Qed.

Lemma to_int_small z : 0 <= z < 2 ^ 31 -> to_int z = z.
Proof. intros H. unfold to_int. rewrite Z.mod_small; lia. Qed.

Lemma wrap64_small z : 0 <= z < 2 ^ 64 -> wrap64 z = z.
Proof. intros H. unfold wrap64. apply Z.mod_small. lia. Qed.

Lemma wrap32_small z : 0 <= z < 2 ^ 32 -> wrap32 z = z.
Proof. intros H. unfold wrap32. apply Z.mod_small. lia. Qed.

Lemma mod8_add a b : a mod 8 = 0 -> b mod 8 = 0 -> (a + b) mod 8 = 0.
Proof. intros Ha Hb. rewrite Z.add_mod, Ha, Hb by lia. reflexivity. Qed.

Lemma mod8_sub a b : a mod 8 = 0 -> b mod 8 = 0 -> (a - b) mod 8 = 0.
Proof.
  intros Ha Hb. destruct (mod8_mult _ Ha) as [k ->].
  destruct (mod8_mult _ Hb) as [j ->].
  replace (8 * k - 8 * j) with ((k - j) * 8) by lia. apply Z.mod_mul. lia.
Qed.

Ltac mod8 :=
  repeat first [ assumption | reflexivity | apply mod8_sub | apply mod8_add ].

(** * Lists of blocks and their layout *)

Ltac invc H := inversion H; subst; clear H.


Lemma total_app L R : total (L ++ R) = total L + total R.
Proof. induction L as [|b L IH]; cbn [total app]; lia. Qed.

Lemma total_nonneg bl : Forall ok_size bl -> 0 <= total bl.
Proof.
  induction 1 as [|b bl [Hb _] _ IH]; cbn [total]; lia.
Qed.

Lemma layout_app L : forall o R,
  layout o (L ++ R) = layout o L ++ layout (o + total L) R.
Proof.
  induction L as [|b L IH]; intros o R; cbn [layout total app].
  - now rewrite Z.add_0_r.
  - rewrite IH. now rewrite Z.add_assoc.
Qed.

Lemma layout_bounds bl : forall o x b,
  Forall ok_size bl -> In (x, b) (layout o bl) ->
  o <= x /\ x + fst b <= o + total bl /\ ok_size b.
Proof.
  induction bl as [|c bl IH]; intros o x b Hok Hin; cbn [layout total] in *.
  - contradiction.
  - inversion Hok as [|? ? Hc Hbl]; subst.
    pose proof (total_nonneg bl Hbl). destruct Hc as [Hc1 Hc2].
    destruct Hin as [E|Hin].
    + invc E. unfold ok_size. lia.
    + destruct (IH _ _ _ Hbl Hin) as (? & ? & [? ?]). unfold ok_size. lia.
Qed.

Lemma layout_sep bl : forall o x b x' b',
  Forall ok_size bl ->
  In (x, b) (layout o bl) -> In (x', b') (layout o bl) ->
  (x = x' /\ b = b') \/ x + fst b <= x' \/ x' + fst b' <= x.
Proof.
  induction bl as [|c bl IH]; intros o x b x' b' Hok H1 H2;
    cbn [layout] in *; [contradiction|].
  inversion Hok as [|? ? Hc Hbl]; subst.
  destruct H1 as [E1|H1], H2 as [E2|H2].
  - invc E1; invc E2; auto.
  - invc E1. apply layout_bounds in H2; auto. lia.
  - invc E2. apply layout_bounds in H1; auto. lia.
  - eauto.
Qed.

Lemma layout_In_split bl : forall o x b,
  In (x, b) (layout o bl) ->
  exists L R, bl = L ++ b :: R /\ x = o + total L.
Proof.
  induction bl as [|c bl IH]; intros o x b Hin; cbn [layout] in *;
    [contradiction|].
  destruct Hin as [E|Hin].
  - invc E. exists [], bl. cbn. split; [reflexivity|lia].
  - destruct (IH _ _ _ Hin) as (L & R & -> & ->).
    exists (c :: L), R. cbn [app total]. split; [reflexivity|lia].
Qed.

Lemma In_layout_mid o L b R : In (o + total L, b) (layout o (L ++ b :: R)).
Proof.
  rewrite layout_app. apply in_or_app. right. cbn [layout]. now left.
Qed.

Lemma layout_fst_unique bl o x b b' :
  Forall ok_size bl ->
  In (x, b) (layout o bl) -> In (x, b') (layout o bl) -> b = b'.
Proof.
  intros Hok H1 H2.
  destruct (layout_sep _ _ _ _ _ _ Hok H1 H2) as [[_ E]|H]; auto.
  apply layout_bounds in H1, H2; auto. unfold ok_size in *. lia.
Qed.

Lemma layout_aligned bl : forall o x b,
  Forall ok_size bl -> o mod 8 = 0 -> In (x, b) (layout o bl) ->
  x mod 8 = 0.
Proof.
  induction bl as [|c bl IH]; intros o x b Hok Ho Hin; cbn [layout] in *;
    [contradiction|].
  inversion Hok as [|? ? [_ Hc] Hbl]; subst.
  destruct Hin as [E|Hin].
  - invc E; assumption.
  - apply (IH (o + fst c) x b); auto.
    rewrite Z.add_mod, Ho, Hc by lia. reflexivity.
Qed.

Lemma split_at_Some bl : forall o x L b R,
  split_at o bl x = Some (L, b, R) ->
  bl = L ++ b :: R /\ x = o + total L.
Proof.
  induction bl as [|c bl IH]; intros o x L b R H; cbn [split_at] in H;
    [discriminate|].
  destruct (Z.eqb_spec x o) as [->|Hne].
  - inversion H; subst. cbn. split; [reflexivity|lia].
  - destruct (split_at (o + fst c) bl x) as [[[L' c'] R']|] eqn:E;
      [|discriminate].
    inversion H; subst. destruct (IH _ _ _ _ _ E) as [-> ->].
    cbn [app total]. split; [reflexivity|lia].
Qed.

Lemma split_at_mid L : forall o b R,
  Forall ok_size L ->
  split_at o (L ++ b :: R) (o + total L) = Some (L, b, R).
Proof.
  induction L as [|c L IH]; intros o b R Hok; cbn [split_at app total].
  - now rewrite Z.add_0_r, Z.eqb_refl.
  - inversion Hok as [|? ? [Hc _] HL]; subst.
    pose proof (total_nonneg L HL).
    destruct (Z.eqb_spec (o + (fst c + total L)) o) as [E|_]; [lia|].
    rewrite Z.add_assoc, IH by assumption. reflexivity.
Qed.

Lemma split_at_In bl o x b :
  Forall ok_size bl -> In (x, b) (layout o bl) ->
  exists L R, split_at o bl x = Some (L, b, R).
Proof.
  intros Hok Hin. destruct (layout_In_split _ _ _ _ Hin) as (L & R & -> & ->).
  exists L, R. apply split_at_mid.
  apply Forall_app in Hok. tauto.
Qed.

Lemma size_at_In bl x b :
  Forall ok_size bl -> In (x, b) (layout 0 bl) -> size_at bl x = fst b.
Proof.
  intros Hok Hin. unfold size_at.
  destruct (split_at_In _ _ _ _ Hok Hin) as (L & R & ->). reflexivity.
Qed.

(** * Boundary tags in memory *)

Lemma blocks_seg_app m L : forall p R,
  blocks_seg m p (L ++ R) <->
  blocks_seg m p L /\ blocks_seg m (p + total L) R.
Proof.
  induction L as [|b L IH]; intros p R; cbn [blocks_seg total app].
  - rewrite Z.add_0_r. tauto.
  - rewrite IH, Z.add_assoc. tauto.
Qed.

Lemma blocks_seg_frame m m' bl : forall p,
  Forall ok_size bl ->
  (forall a, p - 4 <= a < p + total bl - 4 -> m' a = m a) ->
  blocks_seg m p bl -> blocks_seg m' p bl.
Proof.
  induction bl as [|b bl IH]; intros p Hok Hfr H; cbn [blocks_seg total] in *;
    [exact I|].
  inversion Hok as [|? ? [Hb _] Hbl]; subst.
  pose proof (total_nonneg bl Hbl).
  destruct H as (Hh & Hf & Hr). repeat split.
  - rewrite <- Hh. apply GET_ext. intros a Ha. apply Hfr. lia.
  - rewrite <- Hf. apply GET_ext. intros a Ha. apply Hfr. lia.
  - apply IH; auto. intros a Ha. apply Hfr. lia.
Qed.

(** * Free-list segments in memory *)

Lemma fseg_frame m m' base : forall l prev head nxt,
  (forall o a, In o l -> base + o <= a < base + o + 16 -> m' a = m a) ->
  fseg m base prev l head nxt -> fseg m' base prev l head nxt.
Proof.
  induction l as [|o l IH]; intros prev head nxt Hfr H; cbn [fseg] in *;
    [exact H|].
  destruct H as (Hh & Hp & Hr).
  assert (E1 : GETLP m' (base + o) = GETLP m (base + o)).
  { apply GETLP_ext. intros a Ha. apply (Hfr o); [now left|lia]. }
  assert (E2 : GETLP m' (base + o + 8) = GETLP m (base + o + 8)).
  { apply GETLP_ext. intros a Ha. apply (Hfr o); [now left|lia]. }
  rewrite E1, E2. repeat split; auto.
  apply IH; auto. intros o' a Ho'. apply Hfr. now right.
Qed.

Lemma lastp_snoc base prev l z : lastp base prev (l ++ [z]) = base + z.
Proof. unfold lastp. now rewrite fold_left_app. Qed.

Lemma lastp_cons base prev o l : lastp base prev (o :: l) = lastp base (base + o) l.
Proof. reflexivity. Qed.

Lemma fseg_head m base l : forall prev head nxt,
  fseg m base prev l head nxt -> head = headp base l nxt.
Proof. destruct l; cbn; tauto. Qed.

Lemma fseg_app m base l1 : forall prev l2 head nxt,
  fseg m base prev (l1 ++ l2) head nxt <->
  fseg m base prev l1 head (headp base l2 nxt) /\
  fseg m base (lastp base prev l1) l2 (headp base l2 nxt) nxt.
Proof.
  induction l1 as [|o l1 IH]; intros prev l2 head nxt; cbn [fseg app].
  - cbn [lastp fold_left]. split.
    + intros H. pose proof (fseg_head _ _ _ _ _ _ H) as E. subst head. auto.
    + intros [-> H]. exact H.
  - rewrite IH, lastp_cons. tauto.
Qed.

(** * Free extents *)

Lemma in_free_extent_app L : forall p R a,
  in_free_extent p (L ++ R) a <->
  in_free_extent p L a \/ in_free_extent (p + total L) R a.
Proof.
  induction L as [|b L IH]; intros p R a; cbn [in_free_extent total app].
  - rewrite Z.add_0_r. tauto.
  - rewrite IH, Z.add_assoc. tauto.
Qed.

Lemma in_free_extent_bounds bl : forall p a,
  Forall ok_size bl -> in_free_extent p bl a ->
  p - 4 <= a < p + total bl - 4.
Proof.
  induction bl as [|b bl IH]; intros p a Hok H; cbn [in_free_extent total] in *;
    [contradiction|].
  inversion Hok as [|? ? [Hb _] Hbl]; subst.
  pose proof (total_nonneg bl Hbl).
  destruct H as [[_ H]|H]; [lia|]. apply IH in H; auto. lia.
Qed.

Lemma in_free_extent_In bl : forall p a,
  in_free_extent p bl a <->
  exists o sz, In (o, (sz, false)) (layout p bl) /\ o - 4 <= a < o + sz - 4.
Proof.
  induction bl as [|[sz al] bl IH]; intros p a;
    cbn [in_free_extent layout fst snd].
  - split; [contradiction|]. intros (? & ? & [] & _).
  - rewrite IH. split.
    + intros [[-> H]|(o & sz' & Hin & H)].
      * exists p, sz. split; [now left|lia].
      * exists o, sz'. split; [now right|lia].
    + intros (o & sz' & [E|Hin] & H).
      * invc E. left. split; [reflexivity|lia].
      * right. eauto.
Qed.

(** * Directory updates *)

Lemma length_upd_nth {A} (f : A -> A) l : forall n,
  length (upd_nth n f l) = length l.
Proof.
  induction l as [|x l IH]; intros [|n]; cbn [upd_nth length]; auto.
Qed.

Lemma nth_upd_nth_same {A} (f : A -> A) d l : forall n,
  (n < length l)%nat -> nth n (upd_nth n f l) d = f (nth n l d).
Proof.
  induction l as [|x l IH]; intros [|n] H; cbn [upd_nth nth length] in *;
    try lia; auto. apply IH. lia.
Qed.

Lemma nth_upd_nth_other {A} (f : A -> A) d l : forall n i,
  i <> n -> nth i (upd_nth n f l) d = nth i l d.
Proof.
  induction l as [|x l IH]; intros [|n] [|i] H; cbn [upd_nth nth];
    try congruence; auto.
Qed.

Lemma class_of_range sz : 1 <= class_of sz <= 18.
Proof.
  unfold class_of, choosefreetable_bysize.
  repeat match goal with |- context [if ?c then _ else _] => destruct c end;
    lia.
Qed.

Lemma class_idx_lt sz : (class_idx sz < 18)%nat.
Proof. unfold class_idx. pose proof (class_of_range sz). lia. Qed.

Lemma slot_class_idx sz :
  8 * (class_of sz - 1) = 8 * Z.of_nat (class_idx sz).
Proof. unfold class_idx. pose proof (class_of_range sz). lia. Qed.

(** * Facts read off a represented heap *)

Ltac mem_simpl :=
  repeat first
    [ rewrite GETLP_PUTLP_same by lia
    | rewrite GETLP_PUTLP_other by lia
    | rewrite GET_PUT_same by lia
    | rewrite GET_PUT_other by lia
    | rewrite GET_PUTLP_other by lia
    | rewrite GETLP_PUT_other by lia ].

Ltac solve_in := repeat (rewrite in_app_iff || cbn [In]); tauto.

Lemma layout_shift bl : forall q d,
  layout (q + d) bl = map (fun ob => (fst ob + d, snd ob)) (layout q bl).
Proof.
  induction bl as [|b bl IH]; intros q d; cbn [layout map fst snd];
    [reflexivity|].
  f_equal. rewrite <- IH. f_equal. lia.
Qed.

Lemma layout_In_shift bl p o b :
  In (o, b) (layout 0 bl) <-> In (p + o, b) (layout p bl).
Proof.
  replace p with (0 + p) at 2 by lia. rewrite layout_shift, in_map_iff. split.
  - intros H. exists (o, b). cbn [fst snd]. split; [f_equal; lia|exact H].
  - intros ([o' b'] & E & H). cbn [fst snd] in E. invc E.
    replace o with o' by lia. exact H.
Qed.

Lemma in_free_extent_In0 bl p a :
  in_free_extent p bl a <->
  exists o sz, In (o, (sz, false)) (layout 0 bl) /\
               p + o - 4 <= a < p + o + sz - 4.
Proof.
  rewrite in_free_extent_In. split.
  - intros (o & sz & Hin & Ha). exists (o - p), sz.
    split; [|lia]. apply (layout_In_shift bl p).
    now replace (p + (o - p)) with o by lia.
  - intros (o & sz & Hin & Ha). exists (p + o), sz.
    split; [|lia]. now apply layout_In_shift.
Qed.

Lemma blocks_seg_In m bl p o b :
  blocks_seg m p bl -> In (o, b) (layout 0 bl) ->
  GET m (p + o - 4) = tag b /\ GET m (p + o + fst b - 8) = tag b.
Proof.
  intros Hseg Hin. destruct (layout_In_split _ _ _ _ Hin) as (L & R & -> & ->).
  apply blocks_seg_app in Hseg. destruct Hseg as [_ Hseg].
  cbn [blocks_seg] in Hseg. destruct Hseg as (Hh & Hf & _).
  rewrite Z.add_0_l. split; assumption.
Qed.

Lemma blocks_seg_frame_tags m m' bl p :
  Forall ok_size bl ->
  (forall o b a, In (o, b) (layout 0 bl) ->
     p + o - 4 <= a < p + o \/ p + o + fst b - 8 <= a < p + o + fst b - 4 ->
     m' a = m a) ->
  blocks_seg m p bl -> blocks_seg m' p bl.
Proof.
  revert p. induction bl as [|b bl IH]; intros p Hok Hfr H;
    cbn [blocks_seg] in *; [exact I|].
  inversion Hok as [|? ? [Hb _] Hbl]; subst.
  destruct H as (Hh & Hf & Hr).
  assert (Hin : In (0, b) (layout 0 (b :: bl))) by (cbn [layout]; now left).
  repeat split.
  - rewrite <- Hh. apply GET_ext. intros a Ha. apply (Hfr 0 b); auto. lia.
  - rewrite <- Hf. apply GET_ext. intros a Ha. apply (Hfr 0 b); auto. lia.
  - apply IH; auto. intros o c a Hc Ha.
    apply (Hfr (fst b + o) c); [|lia].
    cbn [layout]. right. rewrite Z.add_0_l.
    apply (layout_In_shift bl (fst b) o c). exact Hc.
Qed.

Section RepFacts.
Variables (s : State) (h : heap).
Hypothesis Hrep : rep s h.
Hypothesis Hok : Forall ok_size (blocks h).

Lemma rep_geometry :
  0 < freelisttablehead s /\
  freelisttablehead s + 172 <= base_of s /\
  base_of s = heap_listp s + 8 /\
  mem_brk s = base_of s + total (blocks h) /\
  0 <= total (blocks h) < 2 ^ 31 - 8 /\
  base_of s + total (blocks h) <= mem_max_addr s /\
  mem_max_addr s < 2 ^ 64.
Proof.
  destruct Hrep. pose proof (total_nonneg _ Hok).
  unfold base_of, DSIZE in *. lia.
Qed.

Lemma rep_block_tags o b :
  In (o, b) (layout 0 (blocks h)) ->
  GET (mem s) (base_of s + o - 4) = tag b /\
  GET (mem s) (base_of s + o + fst b - 8) = tag b.
Proof. apply blocks_seg_In. apply Hrep. Qed.

Lemma rep_block_bounds o b :
  In (o, b) (layout 0 (blocks h)) ->
  0 <= o /\ o + fst b <= total (blocks h) /\ 24 <= fst b /\
  fst b mod 8 = 0.
Proof.
  intros Hin. destruct (layout_bounds _ _ _ _ Hok Hin) as (? & ? & [? ?]).
  lia.
Qed.

Lemma rep_block_size o b :
  In (o, b) (layout 0 (blocks h)) ->
  GET_SIZE (mem s) (HDRP (base_of s + o)) = fst b.
Proof.
  intros Hin. destruct (rep_block_tags _ _ Hin) as [Hh _].
  destruct (rep_block_bounds _ _ Hin) as (_ & _ & _ & H8).
  unfold HDRP, WSIZE. now apply GET_SIZE_tag.
Qed.

Lemma rep_block_class o b :
  In (o, b) (layout 0 (blocks h)) ->
  slot s (choosefreetable (mem s) (base_of s + o)) =
  freelisttablehead s + 8 * Z.of_nat (class_idx (fst b)).
Proof.
  intros Hin. unfold slot, choosefreetable.
  rewrite (rep_block_size _ _ Hin). fold (class_of (fst b)).
  unfold DSIZE. rewrite slot_class_idx. reflexivity.
Qed.

Lemma rep_block_sep o b o' b' :
  In (o, b) (layout 0 (blocks h)) -> In (o', b') (layout 0 (blocks h)) ->
  o = o' \/ o + fst b <= o' \/ o' + fst b' <= o.
Proof.
  intros H1 H2. destruct (layout_sep _ _ _ _ _ _ Hok H1 H2) as [[? _]|?];
    auto.
Qed.
End RepFacts.

(** * Relinking one class list *)

Lemma list_snoc_case {A} (l : list A) :
  l = [] \/ exists l' z, l = l' ++ [z].
Proof.
  destruct l as [|x l]; [now left|right].
  destruct (exists_last (l := x :: l)) as (l' & z & E); [discriminate|].
  eauto.
Qed.

Lemma remove_mid (o : Z) l1 l2 :
  ~ In o l1 -> ~ In o l2 -> remove Z.eq_dec o (l1 ++ o :: l2) = l1 ++ l2.
Proof.
  intros H1 H2. rewrite remove_app, remove_cons.
  now rewrite !notin_remove by assumption.
Qed.

Lemma link_frame_frame s bl sl nodes m m' :
  Forall ok_size bl ->
  freelisttablehead s <= sl -> sl + 8 <= freelisttablehead s + 160 ->
  (forall x, In x nodes -> exists sz, In (x, (sz, false)) (layout 0 bl)) ->
  link_frame (base_of s) sl nodes m m' ->
  frame s bl m m'.
Proof.
  intros Hok Hsl1 Hsl2 Hnodes Hlf a Htab Hnf _. apply Hlf; [lia|].
  intros x Hx. destruct (Hnodes x Hx) as (sz & Hin).
  destruct (layout_bounds _ _ _ _ Hok Hin) as (_ & _ & [Hsz _]).
  cbn [fst] in Hsz.
  destruct (Z_lt_dec a (base_of s + x)) as [|H1]; [now left|].
  destruct (Z_le_dec (base_of s + x + 16) a) as [|H2]; [now right|].
  exfalso. apply Hnf. apply in_free_extent_In0. exists x, sz. split; [auto|lia].
Qed.

Section Relink.
Variables (s s' : State) (h : heap) (X : list Z).
Variables (k : nat) (f : list Z -> list Z) (nodes : list Z).
Hypothesis Hrep : rep s h.
Hypothesis Hwf : wf X h.
Hypothesis Hglob : same_globals s s'.
Hypothesis Hk : (k < 20)%nat.
Hypothesis Hnodes : forall x, In x nodes ->
  exists sz, In (x, (sz, false)) (layout 0 (blocks h)) /\ class_idx sz = k.
Hypothesis Hlf :
  link_frame (base_of s) (freelisttablehead s + 8 * Z.of_nat k) nodes
             (mem s) (mem s').
Hypothesis Hnew :
  fseg (mem s') (base_of s) 0 (f (nth k (lists h) []))
       (GETLP (mem s') (freelisttablehead s + 8 * Z.of_nat k)) 0.

Lemma relink_untouched a :
  a < freelisttablehead s \/ freelisttablehead s + 160 <= a ->
  (forall x b, In (x, b) (layout 0 (blocks h)) ->
     In x nodes -> a < base_of s + x \/ base_of s + x + 16 <= a) ->
  mem s' a = mem s a.
Proof.
  intros Ha Hc. apply Hlf; [lia|]. intros x Hx.
  destruct (Hnodes x Hx) as (sz & Hin & _). eauto.
Qed.

Lemma rep_relink :
  rep s' (mkHeap (blocks h) (upd_nth k f (lists h))) /\
  frame s (blocks h) (mem s) (mem s').
Proof.
  pose proof (wf_sizes _ _ Hwf) as Hok.
  destruct (rep_geometry s h Hrep Hok)
    as (HT & HTb & Hbase & Hbrk & Htot & Hmax & H64).
  destruct Hglob as (G1 & G2 & G3 & G4).
  assert (Hb' : base_of s' = base_of s) by (unfold base_of; now rewrite G3).
  split.
  - constructor; cbn [blocks lists]; rewrite ?G1, ?G2, ?G3, ?G4, ?Hb';
      try (now apply Hrep).
    + rewrite <- (rep_prologue_hdr _ _ Hrep). apply GET_ext. intros a Ha.
      apply relink_untouched; [lia|]. intros x b Hin _.
      destruct (rep_block_bounds h Hok _ _ Hin). lia.
    + rewrite <- (rep_prologue_ftr _ _ Hrep). apply GET_ext. intros a Ha.
      apply relink_untouched; [lia|]. intros x b Hin _.
      destruct (rep_block_bounds h Hok _ _ Hin). lia.
    + apply (blocks_seg_frame_tags (mem s)); auto; [|now apply Hrep].
      intros o b a Hin Ha.
      destruct (rep_block_bounds h Hok _ _ Hin) as (? & ? & ? & ?).
      apply relink_untouched; [lia|]. intros x bx Hx _.
      destruct (rep_block_bounds h Hok _ _ Hx) as (? & ? & ? & ?).
      destruct (rep_block_sep h Hok _ _ _ _ Hin Hx) as [E|E]; [|lia].
      subst x. rewrite (layout_fst_unique _ _ _ _ _ Hok Hin Hx) in *. lia.
    + rewrite <- (rep_epilogue _ _ Hrep). apply GET_ext. intros a Ha.
      apply relink_untouched; [lia|]. intros x b Hin _.
      destruct (rep_block_bounds h Hok _ _ Hin). lia.
    + intros i Hi. destruct (Nat.eq_dec i k) as [->|Hik].
      * rewrite nth_upd_nth_same by (rewrite (wf_len _ _ Hwf); lia).
        exact Hnew.
      * rewrite nth_upd_nth_other by assumption.
        assert (E : GETLP (mem s') (freelisttablehead s + 8 * Z.of_nat i) =
                    GETLP (mem s) (freelisttablehead s + 8 * Z.of_nat i)).
        { apply GETLP_ext. intros a Ha. apply Hlf; [lia|].
          intros x Hx. destruct (Hnodes x Hx) as (sz & Hin & _).
          destruct (rep_block_bounds h Hok _ _ Hin). lia. }
        rewrite E. apply (fseg_frame (mem s)); [|now apply Hrep].
        intros o a Ho Ha.
        apply (wf_listed _ _ Hwf) in Ho.
        destruct Ho as (_ & szo & Hino & Hco).
        destruct (rep_block_bounds h Hok _ _ Hino) as (? & ? & ? & ?).
        cbn [fst] in *.
        apply Hlf; [lia|]. intros x Hx.
        destruct (Hnodes x Hx) as (sz & Hin & Hc).
        destruct (rep_block_bounds h Hok _ _ Hin) as (? & ? & ? & ?).
        cbn [fst] in *.
        destruct (rep_block_sep h Hok _ _ _ _ Hino Hin) as [E'|E'];
          [|cbn [fst] in E'; lia].
        subst x. pose proof (layout_fst_unique _ _ _ _ _ Hok Hino Hin) as E'.
        invc E'. congruence.
  - apply (link_frame_frame s (blocks h)
             (freelisttablehead s + 8 * Z.of_nat k) nodes); auto; try lia.
    intros x Hx. destruct (Hnodes x Hx) as (sz & Hin & _). eauto.
Qed.
End Relink.

(** * Unlinking from and linking into a list, on the bytes *)

Lemma NoDup_mid (x : Z) A B :
  NoDup (A ++ x :: B) -> ~ In x A /\ ~ In x B /\ NoDup (A ++ B).
Proof.
  intros H. apply NoDup_remove in H. destruct H as [H1 H2].
  rewrite in_app_iff in H2. tauto.
Qed.

Section ListSurgery.
Variables (m : memory) (base sl : Z).
Hypothesis Hsl : 0 < sl /\ sl + 8 <= base.

Section Delete.
Variables (l1 l2 : list Z) (o : Z).
Let L := l1 ++ o :: l2.
Hypothesis Hnd : NoDup L.
Hypothesis Hsep : forall x y, In x L -> In y L ->
  x = y \/ x + 24 <= y \/ y + 24 <= x.
Hypothesis Hrange : forall x, In x L -> 0 <= x /\ base + x + 24 < 2 ^ 64.
Hypothesis Hseg : fseg m base 0 L (GETLP m sl) 0.

Let pre := GETLP m (base + o).
Let nxt := GETLP m (base + o + 8).
Let m1 :=
  if negb (pre =? 0) then PUTLP m (pre + 8) nxt else PUTLP m sl nxt.
Let m2 := if negb (nxt =? 0) then PUTLP m1 nxt pre else m1.

Lemma fseg_delete :
  fseg m2 base 0 (l1 ++ l2) (GETLP m2 sl) 0 /\ link_frame base sl L m m2.
Proof.
  subst L. destruct (NoDup_mid _ _ _ Hnd) as (Ho1 & Ho2 & Hnd').
  apply fseg_app in Hseg. destruct Hseg as [Hs1 Hs2].
  cbn [fseg headp] in Hs1, Hs2. destruct Hs2 as (_ & Hprev & Hs2).
  fold pre in Hprev. fold nxt in Hs2.
  assert (Hro := Hrange o ltac:(solve_in)).
  destruct (list_snoc_case l1) as [E1|(l1' & z & E1)];
    destruct l2 as [|y l2']; subst l1.
  - (* only member *)
    cbn [lastp fold_left] in Hprev. cbn [fseg] in Hs2.
    subst m2 m1. rewrite Hprev, Hs2. cbn [Z.eqb negb app].
    split.
    + cbn [fseg]. mem_simpl. reflexivity.
    + intros a Ha _. apply PUTLP_other. lia.
  - (* first member *)
    cbn [lastp fold_left] in Hprev. cbn [fseg] in Hs2.
    destruct Hs2 as (Hn & Hyp & Hs2).
    destruct (NoDup_mid _ _ _ Hnd') as (_ & Hy2 & _).
    assert (Hry := Hrange y ltac:(solve_in)).
    assert (Hoy := Hsep o y ltac:(solve_in) ltac:(solve_in)).
    subst m2 m1. rewrite Hprev, Hn.
    destruct (Z.eqb_spec (base + y) 0) as [|_]; [lia|].
    cbn [Z.eqb negb app]. split.
    + cbn [fseg]. mem_simpl. repeat split.
      apply (fseg_frame m); [|exact Hs2].
      intros x a Hx Ha.
      assert (x <> y) by (intros ->; tauto).
      assert (Hrx := Hrange x ltac:(solve_in)).
      assert (Hxy := Hsep x y ltac:(solve_in) ltac:(solve_in)).
      rewrite !PUTLP_other by lia. reflexivity.
    + intros a Ha Hc. assert (Hay := Hc y ltac:(solve_in)).
      rewrite !PUTLP_other by lia. reflexivity.
  - (* last member *)
    rewrite lastp_snoc in Hprev. cbn [fseg] in Hs2.
    apply fseg_app in Hs1. destruct Hs1 as [Hs1 Hz].
    cbn [fseg headp] in Hs1, Hz. destruct Hz as (_ & Hzp & Hzn).
    rewrite <- app_assoc in Hnd'. cbn [app] in Hnd'.
    destruct (NoDup_mid _ _ _ Hnd') as (Hz1 & _ & _).
    assert (Hrz := Hrange z ltac:(solve_in)).
    subst m2 m1. rewrite Hprev, Hs2.
    destruct (Z.eqb_spec (base + z) 0) as [|_]; [lia|].
    cbn [Z.eqb negb]. rewrite app_nil_r. split.
    + apply fseg_app. cbn [fseg headp]. mem_simpl. repeat split; auto.
      apply (fseg_frame m); [|exact Hs1].
      intros x a Hx Ha.
      assert (x <> z) by (intros ->; tauto).
      assert (Hrx := Hrange x ltac:(solve_in)).
      assert (Hxz := Hsep x z ltac:(solve_in) ltac:(solve_in)).
      rewrite !PUTLP_other by lia. reflexivity.
    + intros a Ha Hc. assert (Haz := Hc z ltac:(solve_in)).
      rewrite !PUTLP_other by lia. reflexivity.
  - (* in the middle *)
    rewrite lastp_snoc in Hprev. cbn [fseg] in Hs2.
    destruct Hs2 as (Hn & Hyp & Hs2).
    apply fseg_app in Hs1. destruct Hs1 as [Hs1 Hz].
    cbn [fseg headp] in Hs1, Hz. destruct Hz as (_ & Hzp & Hzn).
    destruct (NoDup_mid _ _ _ Hnd') as (Hy1 & Hy2 & _).
    rewrite <- app_assoc in Hnd'. cbn [app] in Hnd'.
    destruct (NoDup_mid _ _ _ Hnd') as (Hz1 & Hz2 & _).
    assert (Hrz := Hrange z ltac:(solve_in)).
    assert (Hry := Hrange y ltac:(solve_in)).
    assert (Hzy := Hsep z y ltac:(solve_in) ltac:(solve_in)).
    assert (z <> y) by (intros ->; apply Hy1; solve_in).
    subst m2 m1. rewrite Hprev, Hn.
    destruct (Z.eqb_spec (base + z) 0) as [|_]; [lia|].
    destruct (Z.eqb_spec (base + y) 0) as [|_]; [lia|].
    cbn [negb]. split.
    + apply fseg_app. cbn [fseg headp]. rewrite lastp_snoc.
      split; [apply fseg_app; cbn [fseg headp]|]; mem_simpl;
        repeat split; auto.
      * apply (fseg_frame m); [|exact Hs1].
        intros x a Hx Ha.
        assert (x <> z) by (intros ->; tauto).
        assert (x <> y) by (intros ->; apply Hy1; solve_in).
        assert (Hrx := Hrange x ltac:(solve_in)).
        assert (Hxz := Hsep x z ltac:(solve_in) ltac:(solve_in)).
        assert (Hxy := Hsep x y ltac:(solve_in) ltac:(solve_in)).
        rewrite !PUTLP_other by lia. reflexivity.
      * apply (fseg_frame m); [|exact Hs2].
        intros x a Hx Ha.
        assert (x <> z) by (intros ->; apply Hz2; solve_in).
        assert (x <> y) by (intros ->; tauto).
        assert (Hrx := Hrange x ltac:(solve_in)).
        assert (Hxz := Hsep x z ltac:(solve_in) ltac:(solve_in)).
        assert (Hxy := Hsep x y ltac:(solve_in) ltac:(solve_in)).
        rewrite !PUTLP_other by lia. reflexivity.
    + intros a Ha Hc. assert (Haz := Hc z ltac:(solve_in)).
      assert (Hay := Hc y ltac:(solve_in)).
      rewrite !PUTLP_other by lia. reflexivity.
Qed.
End Delete.

Section Insert.
Variables (l : list Z) (o : Z).
Hypothesis Hnd : NoDup (o :: l).
Hypothesis Hsep : forall x y, In x (o :: l) -> In y (o :: l) ->
  x = y \/ x + 24 <= y \/ y + 24 <= x.
Hypothesis Hrange :
  forall x, In x (o :: l) -> 0 <= x /\ base + x + 24 < 2 ^ 64.
Hypothesis Hseg : fseg m base 0 l (GETLP m sl) 0.

Let head := GETLP m sl.
Let m' :=
  if base + o =? head then m
  else if negb (head =? 0) then
    PUTLP (PUTLP (PUTLP (PUTLP m head (base + o)) (base + o + 8) head)
                 (base + o) 0) sl (base + o)
  else PUTLP (PUTLP (PUTLP m (base + o) 0) (base + o + 8) 0) sl (base + o).

Lemma fseg_insert :
  fseg m' base 0 (o :: l) (GETLP m' sl) 0 /\
  link_frame base sl (o :: l) m m'.
Proof.
  apply NoDup_cons_iff in Hnd. destruct Hnd as [Hol Hnd'].
  assert (Hro := Hrange o ltac:(solve_in)).
  pose proof (fseg_head _ _ _ _ _ _ Hseg) as Hh. fold head in Hh.
  destruct l as [|y l'].
  - cbn [headp] in Hh. subst m'. rewrite Hh.
    destruct (Z.eqb_spec (base + o) 0) as [|_]; [lia|].
    cbn [Z.eqb negb]. split.
    + cbn [fseg]. mem_simpl. auto.
    + intros a Ha Hc. assert (Hao := Hc o ltac:(solve_in)).
      rewrite !PUTLP_other by lia. reflexivity.
  - cbn [headp] in Hh. cbn [fseg] in Hseg.
    destruct Hseg as (_ & Hyp & Hs).
    assert (Hry := Hrange y ltac:(solve_in)).
    assert (o <> y) by (intros ->; apply Hol; solve_in).
    assert (Hoy := Hsep o y ltac:(solve_in) ltac:(solve_in)).
    apply NoDup_cons_iff in Hnd'. destruct Hnd' as [Hyl _].
    subst m'. rewrite Hh.
    destruct (Z.eqb_spec (base + o) (base + y)) as [|_]; [lia|].
    destruct (Z.eqb_spec (base + y) 0) as [|_]; [lia|].
    cbn [negb]. split.
    + cbn [fseg]. mem_simpl. repeat split.
      apply (fseg_frame m); [|exact Hs].
      intros x a Hx Ha.
      assert (x <> y) by (intros ->; tauto).
      assert (x <> o) by (intros ->; apply Hol; solve_in).
      assert (Hrx := Hrange x ltac:(solve_in)).
      assert (Hxy := Hsep x y ltac:(solve_in) ltac:(solve_in)).
      assert (Hxo := Hsep x o ltac:(solve_in) ltac:(solve_in)).
      rewrite !PUTLP_other by lia. reflexivity.
    + intros a Ha Hc. assert (Hao := Hc o ltac:(solve_in)).
      assert (Hay := Hc y ltac:(solve_in)).
      rewrite !PUTLP_other by lia. reflexivity.
Qed.
End Insert.
End ListSurgery.

(** * [deleteFree] and [insertFree] on a represented heap *)

Lemma same_globals_refl s : same_globals s s.
Proof. unfold same_globals. auto. Qed.

Lemma same_globals_trans s1 s2 s3 :
  same_globals s1 s2 -> same_globals s2 s3 -> same_globals s1 s3.
Proof. unfold same_globals. intuition congruence. Qed.

Section ListOps.
Variables (s : State) (h : heap) (X : list Z) (o sz : Z).
Hypothesis Hrep : rep s h.
Hypothesis Hwf : wf X h.
Hypothesis Hin : In (o, (sz, false)) (layout 0 (blocks h)).

Let k := class_idx sz.

Lemma class_nodes_sep l :
  (forall x, In x l ->
     exists szx, In (x, (szx, false)) (layout 0 (blocks h))) ->
  (forall x y, In x l -> In y l -> x = y \/ x + 24 <= y \/ y + 24 <= x) /\
  (forall x, In x l -> 0 <= x /\ base_of s + x + 24 < 2 ^ 64).
Proof.
  intros Hl. pose proof (wf_sizes _ _ Hwf) as Hok.
  destruct (rep_geometry s h Hrep Hok)
    as (HT & HTb & Hbase & Hbrk & Htot & Hmax & H64).
  split.
  - intros x y Hx Hy.
    destruct (Hl x Hx) as (sx & Hbx). destruct (Hl y Hy) as (sy & Hby).
    destruct (rep_block_bounds h Hok _ _ Hbx) as (? & ? & ? & ?).
    destruct (rep_block_bounds h Hok _ _ Hby) as (? & ? & ? & ?).
    destruct (rep_block_sep h Hok _ _ _ _ Hbx Hby) as [|E]; auto.
    cbn [fst] in *. lia.
  - intros x Hx. destruct (Hl x Hx) as (sx & Hbx).
    destruct (rep_block_bounds h Hok _ _ Hbx) as (? & ? & ? & ?).
    cbn [fst] in *. lia.
Qed.

Lemma deleteFree_spec :
  ~ In o X ->
  rep (deleteFree s (base_of s + o))
      (mkHeap (blocks h) (a_delete (lists h) o sz)) /\
  same_globals s (deleteFree s (base_of s + o)) /\
  frame s (blocks h) (mem s) (mem (deleteFree s (base_of s + o))).
Proof.
  intros HnX. pose proof (wf_sizes _ _ Hwf) as Hok.
  destruct (rep_geometry s h Hrep Hok)
    as (HT & HTb & Hbase & Hbrk & Htot & Hmax & H64).
  assert (Hk : (k < 18)%nat) by apply class_idx_lt.
  assert (Hino : In o (nth k (lists h) [])).
  { apply (wf_listed _ _ Hwf). split; [assumption|]. exists sz. auto. }
  destruct (in_split _ _ Hino) as (l1 & l2 & El).
  assert (Hnodes : forall x, In x (l1 ++ o :: l2) ->
    exists szx, In (x, (szx, false)) (layout 0 (blocks h)) /\
                class_idx szx = k).
  { intros x Hx. rewrite <- El in Hx. apply (wf_listed _ _ Hwf) in Hx.
    tauto. }
  destruct (class_nodes_sep (l1 ++ o :: l2)) as [Hsep Hrange].
  { intros x Hx. destruct (Hnodes x Hx) as (szx & ? & _). eauto. }
  pose proof (wf_nodup _ _ Hwf k) as Hnd. rewrite El in Hnd.
  pose proof (rep_lists _ _ Hrep k ltac:(lia)) as Hseg. rewrite El in Hseg.
  destruct (NoDup_mid _ _ _ Hnd) as (Ho1 & Ho2 & _).
  assert (Hsl : 0 < freelisttablehead s + 8 * Z.of_nat k /\
                freelisttablehead s + 8 * Z.of_nat k + 8 <= base_of s)
    by lia.
  pose proof (fseg_delete (mem s) (base_of s) _ Hsl l1 l2 o Hnd Hsep Hrange
                Hseg) as [Hnew Hlf].
  assert (Hg : same_globals s (deleteFree s (base_of s + o)))
    by (unfold same_globals, deleteFree; cbn; auto).
  assert (Hmem : mem (deleteFree s (base_of s + o)) =
    (if negb (GETLP (mem s) (base_of s + o + 8) =? 0) then
       PUTLP (if negb (GETLP (mem s) (base_of s + o) =? 0)
              then PUTLP (mem s) (GETLP (mem s) (base_of s + o) + 8)
                         (GETLP (mem s) (base_of s + o + 8))
              else PUTLP (mem s) (freelisttablehead s + 8 * Z.of_nat k)
                         (GETLP (mem s) (base_of s + o + 8)))
             (GETLP (mem s) (base_of s + o + 8))
             (GETLP (mem s) (base_of s + o))
     else if negb (GETLP (mem s) (base_of s + o) =? 0)
          then PUTLP (mem s) (GETLP (mem s) (base_of s + o) + 8)
                     (GETLP (mem s) (base_of s + o + 8))
          else PUTLP (mem s) (freelisttablehead s + 8 * Z.of_nat k)
                     (GETLP (mem s) (base_of s + o + 8)))).
  { pose proof (rep_block_class s h Hrep Hok o (sz, false) Hin) as Hslot.
    cbn [fst] in Hslot. fold k in Hslot. rewrite <- Hslot.
    reflexivity. }
  rewrite <- Hmem in Hnew, Hlf.
  destruct (rep_relink s (deleteFree s (base_of s + o)) h X k
              (remove Z.eq_dec o) (l1 ++ o :: l2) Hrep Hwf Hg
              ltac:(lia) Hnodes Hlf) as [Hr Hf].
  { rewrite El, remove_mid by assumption. exact Hnew. }
  auto.
Qed.

Lemma insertFree_spec :
  In o X ->
  rep (insertFree s (base_of s + o))
      (mkHeap (blocks h) (a_insert (lists h) o sz)) /\
  same_globals s (insertFree s (base_of s + o)) /\
  frame s (blocks h) (mem s) (mem (insertFree s (base_of s + o))).
Proof.
  intros HX. pose proof (wf_sizes _ _ Hwf) as Hok.
  destruct (rep_geometry s h Hrep Hok)
    as (HT & HTb & Hbase & Hbrk & Htot & Hmax & H64).
  assert (Hk : (k < 18)%nat) by apply class_idx_lt.
  set (l := nth k (lists h) []).
  assert (Hol : ~ In o l).
  { intros Ho. apply (wf_listed _ _ Hwf) in Ho. tauto. }
  assert (Hnodes : forall x, In x (o :: l) ->
    exists szx, In (x, (szx, false)) (layout 0 (blocks h)) /\
                class_idx szx = k).
  { intros x [<-|Hx]; [eauto|]. apply (wf_listed _ _ Hwf) in Hx. tauto. }
  destruct (class_nodes_sep (o :: l)) as [Hsep Hrange].
  { intros x Hx. destruct (Hnodes x Hx) as (szx & ? & _). eauto. }
  assert (Hnd : NoDup (o :: l)).
  { constructor; [assumption|]. apply (wf_nodup _ _ Hwf). }
  pose proof (rep_lists _ _ Hrep k ltac:(lia)) as Hseg. fold l in Hseg.
  assert (Hsl : 0 < freelisttablehead s + 8 * Z.of_nat k /\
                freelisttablehead s + 8 * Z.of_nat k + 8 <= base_of s)
    by lia.
  pose proof (fseg_insert (mem s) (base_of s) _ Hsl l o Hnd Hsep Hrange
                Hseg) as [Hnew Hlf].
  assert (Hg : same_globals s (insertFree s (base_of s + o))).
  { unfold same_globals, insertFree.
    repeat match goal with |- context [if ?c then _ else _] =>
      destruct c end; cbn; auto. }
  pose proof (rep_block_class s h Hrep Hok o (sz, false) Hin) as Hslot.
  cbn [fst] in Hslot. fold k in Hslot.
  assert (Hmem : mem (insertFree s (base_of s + o)) =
    (if base_of s + o =? GETLP (mem s) (freelisttablehead s + 8 * Z.of_nat k)
     then mem s
     else if negb (GETLP (mem s) (freelisttablehead s + 8 * Z.of_nat k) =? 0)
     then PUTLP (PUTLP (PUTLP (PUTLP (mem s)
            (GETLP (mem s) (freelisttablehead s + 8 * Z.of_nat k))
            (base_of s + o)) (base_of s + o + 8)
            (GETLP (mem s) (freelisttablehead s + 8 * Z.of_nat k)))
            (base_of s + o) 0)
            (freelisttablehead s + 8 * Z.of_nat k) (base_of s + o)
     else PUTLP (PUTLP (PUTLP (mem s) (base_of s + o) 0)
                       (base_of s + o + 8) 0)
                (freelisttablehead s + 8 * Z.of_nat k) (base_of s + o))).
  { rewrite <- Hslot. unfold insertFree.
    cbn [mem set_freelisthead freelisthead].
    repeat match goal with |- context [if ?c then _ else _] =>
      destruct c end; reflexivity. }
  rewrite <- Hmem in Hnew, Hlf.
  destruct (rep_relink s (insertFree s (base_of s + o)) h X k
              (cons o) (o :: l) Hrep Hwf Hg ltac:(lia) Hnodes Hlf)
    as [Hr Hf]; [exact Hnew|].
  auto.
Qed.
End ListOps.

(** * Rewriting the tags of a stretch of blocks *)

Lemma layout_app3 L M R o b :
  In (o, b) (layout 0 (L ++ M ++ R)) <->
  In (o, b) (layout 0 L) \/ In (o, b) (layout (total L) M) \/
  In (o, b) (layout (total L + total M) R).
Proof.
  rewrite !layout_app, !in_app_iff, Z.add_0_l. tauto.
Qed.

Lemma Forall_app3 {A} (P : A -> Prop) L M R :
  Forall P (L ++ M ++ R) <-> Forall P L /\ Forall P M /\ Forall P R.
Proof. rewrite !Forall_app. tauto. Qed.

Lemma total_app3 L M R : total (L ++ M ++ R) = total L + total M + total R.
Proof. rewrite !total_app. lia. Qed.

Section Retag.
Variables (s s' : State) (L M M' R : list blk) (fl : list (list Z)).
Variable X : list Z.
Hypothesis Hrep : rep s (mkHeap (L ++ M ++ R) fl).
Hypothesis Hwf : wf X (mkHeap (L ++ M ++ R) fl).
Hypothesis Hglob : same_globals s s'.
Hypothesis Htot : total M' = total M.
Hypothesis HokM' : Forall ok_size M'.
Hypothesis HMX : forall o sz,
  In (o, (sz, false)) (layout (total L) M) -> In o X.
Hypothesis Hout : forall a,
  a < base_of s + total L - 4 \/ base_of s + total L + total M - 4 <= a ->
  mem s' a = mem s a.
Hypothesis Hnew : blocks_seg (mem s') (base_of s + total L) M'.

Lemma rep_retag : rep s' (mkHeap (L ++ M' ++ R) fl).
Proof.
  pose proof (wf_sizes _ _ Hwf) as Hok. cbn [blocks] in Hok.
  destruct (rep_geometry _ _ Hrep Hok)
    as (HT & HTb & Hbase & Hbrk & Htotal & Hmax & H64).
  cbn [blocks] in *. rewrite total_app3 in *.
  apply Forall_app3 in Hok. destruct Hok as (HokL & HokM & HokR).
  pose proof (total_nonneg _ HokL). pose proof (total_nonneg _ HokM).
  pose proof (total_nonneg _ HokR).
  destruct Hglob as (G1 & G2 & G3 & G4).
  assert (Hb' : base_of s' = base_of s) by (unfold base_of; now rewrite G3).
  pose proof (rep_blocks _ _ Hrep) as Hseg. cbn [blocks] in Hseg.
  apply blocks_seg_app in Hseg. destruct Hseg as [HsL Hseg].
  apply blocks_seg_app in Hseg. destruct Hseg as [_ HsR].
  constructor; cbn [blocks lists];
    rewrite ?G1, ?G2, ?G3, ?G4, ?Hb', ?total_app3, ?Htot;
    try (now apply Hrep).
  - rewrite (rep_brk _ _ Hrep). cbn [blocks]. now rewrite total_app3.
  - rewrite <- (rep_prologue_hdr _ _ Hrep). apply GET_ext. intros a Ha.
    apply Hout. lia.
  - rewrite <- (rep_prologue_ftr _ _ Hrep). apply GET_ext. intros a Ha.
    apply Hout. lia.
  - apply blocks_seg_app. split; [|apply blocks_seg_app; split].
    + apply (blocks_seg_frame (mem s)); auto. intros a Ha. apply Hout. lia.
    + exact Hnew.
    + rewrite Htot. apply (blocks_seg_frame (mem s)); auto.
      intros a Ha. apply Hout. lia.
  - rewrite <- (rep_epilogue _ _ Hrep). apply GET_ext. intros a Ha.
    apply Hout. lia.
  - intros i Hi.
    assert (E : GETLP (mem s') (freelisttablehead s + 8 * Z.of_nat i) =
                GETLP (mem s) (freelisttablehead s + 8 * Z.of_nat i)).
    { apply GETLP_ext. intros a Ha. apply Hout. lia. }
    rewrite E. apply (fseg_frame (mem s)); [|now apply Hrep].
    intros o a Ho Ha. apply (wf_listed _ _ Hwf) in Ho.
    destruct Ho as (HoX & szo & Hino & _). cbn [blocks] in Hino.
    apply Hout. apply layout_app3 in Hino.
    destruct Hino as [Hino|[Hino|Hino]].
    + destruct (layout_bounds _ _ _ _ HokL Hino) as (? & ? & [? ?]).
      cbn [fst] in *. lia.
    + exfalso. eauto.
    + destruct (layout_bounds _ _ _ _ HokR Hino) as (? & ? & [? ?]).
      cbn [fst] in *. lia.
Qed.
End Retag.

(** * Well-formedness under the list and tag updates *)

Lemma wf_ext X X' h :
  (forall x, In x X <-> In x X') -> wf X h -> wf X' h.
Proof.
  intros HX [H1 H2 H3 H4]. constructor; auto.
  intros i o. rewrite H4, HX. reflexivity.
Qed.

Section WfOps.
Variables (h : heap) (X : list Z) (o sz : Z).
Hypothesis Hwf : wf X h.
Hypothesis Hin : In (o, (sz, false)) (layout 0 (blocks h)).

Lemma wf_delete :
  ~ In o X -> wf (o :: X) (mkHeap (blocks h) (a_delete (lists h) o sz)).
Proof.
  intros HoX. destruct Hwf as [H1 H2 H3 H4].
  pose proof (class_idx_lt sz) as Hk.
  constructor; cbn [blocks lists]; auto.
  - unfold a_delete. now rewrite length_upd_nth.
  - intros i. unfold a_delete.
    destruct (Nat.eq_dec i (class_idx sz)) as [->|Hne].
    + rewrite nth_upd_nth_same by lia.
      generalize (H3 (class_idx sz)).
      generalize (nth (class_idx sz) (lists h) []).
      induction l as [|x l IH]; intros Hnd; cbn [remove]; [constructor|].
      apply NoDup_cons_iff in Hnd. destruct Hnd as [Hx Hnd].
      destruct (Z.eq_dec o x); auto. constructor; auto.
      intros Hc. apply in_remove in Hc. tauto.
    + rewrite nth_upd_nth_other by assumption. apply H3.
  - intros i x. unfold a_delete.
    destruct (Nat.eq_dec i (class_idx sz)) as [->|Hne].
    + rewrite nth_upd_nth_same by lia. cbn [In]. split.
      * intros Hc. apply in_remove in Hc. destruct Hc as [Hc Hxo].
        apply H4 in Hc. split; [|tauto]. intros [E|E]; [congruence|tauto].
      * intros (Hx & Hb). apply in_in_remove; [intuition congruence|].
        apply H4. tauto.
    + rewrite nth_upd_nth_other by assumption. rewrite H4. cbn [In].
      split; [|tauto]. intros (Hx & szx & Hb & Hc).
      split; [|eauto]. intros [E|E]; [|tauto]. subst x.
      pose proof (layout_fst_unique _ _ _ _ _ H1 Hin Hb) as E.
      invc E. congruence.
Qed.

Lemma wf_insert :
  In o X ->
  wf (remove Z.eq_dec o X) (mkHeap (blocks h) (a_insert (lists h) o sz)).
Proof.
  intros HoX. destruct Hwf as [H1 H2 H3 H4].
  pose proof (class_idx_lt sz) as Hk.
  constructor; cbn [blocks lists]; auto.
  - unfold a_insert. now rewrite length_upd_nth.
  - intros i. unfold a_insert.
    destruct (Nat.eq_dec i (class_idx sz)) as [->|Hne].
    + rewrite nth_upd_nth_same by lia. constructor; [|apply H3].
      intros Hc. apply H4 in Hc. tauto.
    + rewrite nth_upd_nth_other by assumption. apply H3.
  - intros i x. unfold a_insert.
    assert (Hrm : In x (remove Z.eq_dec o X) <-> In x X /\ x <> o).
    { split; [apply in_remove|]. intros [? ?]. now apply in_in_remove. }
    rewrite Hrm.
    destruct (Nat.eq_dec i (class_idx sz)) as [->|Hne].
    + rewrite nth_upd_nth_same by lia. cbn [In]. rewrite H4. split.
      * intros [<-|(Hx & Hb)]; [split; [tauto|eauto]|].
        split; [tauto|exact Hb].
      * intros (Hx & Hb). destruct (Z.eq_dec o x) as [|Hne]; [now left|].
        right. split; [|exact Hb]. intros Hc. apply Hx. split; auto.
    + rewrite nth_upd_nth_other by assumption. rewrite H4.
      split; [intros (Hx & Hb); split; [tauto|exact Hb]|].
      intros (Hx & szx & Hb & Hc). split; [|eauto].
      intros Hc'. apply Hx. split; [assumption|]. intros ->.
      pose proof (layout_fst_unique _ _ _ _ _ H1 Hin Hb) as E.
      invc E. congruence.
Qed.
End WfOps.

Lemma wf_retag L M M' R fl X X' :
  wf X (mkHeap (L ++ M ++ R) fl) ->
  total M' = total M -> Forall ok_size M' ->
  (forall o sz, In (o, (sz, false)) (layout (total L) M) -> In o X) ->
  (forall o sz, In (o, (sz, false)) (layout (total L) M') -> In o X') ->
  (forall o, o < total L \/ total L + total M <= o -> In o X <-> In o X') ->
  wf X' (mkHeap (L ++ M' ++ R) fl).
Proof.
  intros [H1 H2 H3 H4] Htot HokM' HM HM' Hout. cbn [blocks lists] in *.
  apply Forall_app3 in H1. destruct H1 as (HokL & HokM & HokR).
  constructor; cbn [blocks lists]; auto.
  - apply Forall_app3. auto.
  - intros i o. rewrite H4.
    split; intros (Hx & sz & Hb & Hc); apply layout_app3 in Hb;
      destruct Hb as [Hb|[Hb|Hb]]; try (exfalso; eauto; fail).
    + destruct (layout_bounds _ _ _ _ HokL Hb) as (? & ? & [? ?]).
      cbn [fst] in *. rewrite <- Hout by lia.
      split; [assumption|]. exists sz. rewrite layout_app3. auto.
    + destruct (layout_bounds _ _ _ _ HokR Hb) as (? & ? & [? ?]).
      cbn [fst] in *. rewrite <- Hout by lia.
      split; [assumption|]. exists sz. rewrite layout_app3, Htot. auto.
    + destruct (layout_bounds _ _ _ _ HokL Hb) as (? & ? & [? ?]).
      cbn [fst] in *. rewrite Hout by lia.
      split; [assumption|]. exists sz. rewrite layout_app3. auto.
    + rewrite Htot in Hb.
      destruct (layout_bounds _ _ _ _ HokR Hb) as (? & ? & [? ?]).
      cbn [fst] in *. rewrite Hout by lia.
      split; [assumption|]. exists sz. rewrite layout_app3. auto.
Qed.

(** * Adjacent free blocks *)

Lemma no_adj_app L : forall R,
  no_adj (L ++ R) <->
  no_adj L /\ no_adj R /\
  (snd (last L prologue) || snd (hd epilogue R) = true).
Proof.
  induction L as [|b L IH]; intros R.
  - cbn [app no_adj last prologue snd orb]. tauto.
  - destruct L as [|b' L].
    + cbn [app no_adj last]. destruct R as [|c R]; cbn [hd epilogue snd].
      * rewrite orb_true_r. tauto.
      * tauto.
    + specialize (IH R). cbn [app] in *.
      change (no_adj (b :: b' :: L ++ R)) with
        ((snd b || snd b' = true) /\ no_adj (b' :: L ++ R)).
      change (no_adj (b :: b' :: L)) with
        ((snd b || snd b' = true) /\ no_adj (b' :: L)).
      change (last (b :: b' :: L) prologue) with (last (b' :: L) prologue).
      tauto.
Qed.

Lemma no_adj_cons b R :
  no_adj (b :: R) <-> (snd b || snd (hd epilogue R) = true) /\ no_adj R.
Proof.
  destruct R as [|c R]; cbn [no_adj hd epilogue snd].
  - rewrite orb_true_r. tauto.
  - tauto.
Qed.

Lemma no_adj_snoc L b :
  no_adj (L ++ [b]) <-> no_adj L /\ (snd (last L prologue) || snd b = true).
Proof.
  rewrite no_adj_app. cbn [no_adj hd]. tauto.
Qed.

(** * Frames *)

Lemma frame_globals s s' bl m m' :
  same_globals s s' -> frame s bl m m' -> frame s' bl m m'.
Proof.
  intros (G1 & G2 & G3 & G4) H a. unfold base_of. rewrite G3, G4.
  apply H.
Qed.

Lemma frame_refl s bl m : frame s bl m m.
Proof. intros a _ _ _. reflexivity. Qed.

Lemma frame_trans s bl bl' m0 m1 m2 :
  total bl' = total bl ->
  (forall a, in_free_extent (base_of s) bl' a ->
             in_free_extent (base_of s) bl a) ->
  frame s bl m0 m1 -> frame s bl' m1 m2 -> frame s bl m0 m2.
Proof.
  intros Ht Hinc H1 H2 a Ha Hn Hlt.
  rewrite H2, H1; auto. now rewrite Ht.
Qed.

Lemma frame_extent s bl lo hi m m' :
  (forall a, a < lo \/ hi <= a -> m' a = m a) ->
  (forall a, lo <= a < hi -> in_free_extent (base_of s) bl a) ->
  frame s bl m m'.
Proof.
  intros Hout Hin a _ Hn _. apply Hout.
  destruct (Z_lt_dec a lo); [now left|].
  destruct (Z_le_dec hi a); [now right|].
  exfalso. apply Hn, Hin. lia.
Qed.

Lemma all_free_extent M : forall p a,
  Forall (fun b => snd b = false) M -> Forall ok_size M ->
  (in_free_extent p M a <-> p - 4 <= a < p + total M - 4).
Proof.
  induction M as [|b M IH]; intros p a Hf Hok; cbn [in_free_extent total].
  - split; [contradiction|lia].
  - inversion Hf as [|? ? Hb HfM]; subst.
    inversion Hok as [|? ? [Hb1 _] HokM]; subst.
    pose proof (total_nonneg _ HokM). rewrite IH by assumption.
    split; [intros [[_ ?]|?]; lia|]. intros Ha.
    destruct (Z_lt_dec a (p + fst b - 4)); [left; split; [assumption|lia]|].
    right. lia.
Qed.

Lemma free_extent_retag L M M' R p a :
  total M' = total M ->
  (in_free_extent (p + total L) M' a -> in_free_extent (p + total L) M a) ->
  in_free_extent p (L ++ M' ++ R) a -> in_free_extent p (L ++ M ++ R) a.
Proof.
  intros Ht HM. rewrite !in_free_extent_app, Ht. tauto.
Qed.

(** * Merging free neighbours into one listed block *)

Lemma wf_insert' h X X' o sz :
  wf X h -> In (o, (sz, false)) (layout 0 (blocks h)) -> In o X ->
  (forall x, In x X' <-> In x X /\ x <> o) ->
  wf X' (mkHeap (blocks h) (a_insert (lists h) o sz)).
Proof.
  intros Hwf Hin HoX HX'. apply (wf_ext (remove Z.eq_dec o X)).
  - intros x. rewrite HX'. split; [apply in_remove|].
    intros [? ?]. now apply in_in_remove.
  - now apply wf_insert.
Qed.

Section Merge.
Variables (s1 : State) (L M R : list blk) (fl1 : list (list Z)).
Variables (X : list Z) (m3 : memory).
Hypothesis Hrep : rep s1 (mkHeap (L ++ M ++ R) fl1).
Hypothesis Hwf : wf X (mkHeap (L ++ M ++ R) fl1).
Hypothesis HMne : M <> [].
Hypothesis HMfree : Forall (fun b => snd b = false) M.
Hypothesis HMX : forall x b, In (x, b) (layout (total L) M) -> In x X.
Hypothesis HXM : forall x, In x X -> total L <= x < total L + total M.

Let tot := total M.
Let bp := base_of s1 + total L.

Hypothesis Hout : forall a,
  a < bp - 4 \/ bp + tot - 4 <= a -> m3 a = mem s1 a.
Hypothesis Hhdr : GET m3 (bp - 4) = tot.
Hypothesis Hftr : GET m3 (bp + tot - 8) = tot.

Let s' := insertFree (set_mem s1 m3) bp.
Let h' := mkHeap (L ++ (tot, false) :: R) (a_insert fl1 (total L) tot).

Lemma merge_insert :
  rep s' h' /\ wf [] h' /\ same_globals s1 s' /\
  frame s1 (L ++ M ++ R) (mem s1) (mem s').
Proof.
  pose proof (wf_sizes _ _ Hwf) as Hok. cbn [blocks] in Hok.
  apply Forall_app3 in Hok. destruct Hok as (HokL & HokM & HokR).
  assert (Htot : ok_size (tot, false)).
  { subst tot. destruct M as [|b M0]; [congruence|].
    inversion HokM as [|? ? [Hb1 Hb2] HokM0]; subst.
    pose proof (total_nonneg _ HokM0) as Hnn.
    assert (H8 : total M0 mod 8 = 0).
    { clear -HokM0. induction HokM0 as [|c M1 [_ Hc] _ IH]; cbn [total];
        [reflexivity|]. rewrite Z.add_mod, Hc, IH by lia. reflexivity. }
    split; cbn [fst total]; [lia|].
    rewrite Z.add_mod, Hb2, H8 by lia. reflexivity. }
  assert (Hpos : 24 <= total M) by (destruct Htot as [H _]; exact H).
  assert (HokM' : Forall ok_size [(tot, false)]) by (constructor; auto).
  assert (Ht : total [(tot, false)] = total M) by (cbn [total fst]; lia).
  set (s2 := set_mem s1 m3).
  assert (Hg12 : same_globals s1 s2) by (unfold same_globals; cbn; auto).
  assert (Hb2 : base_of s2 = base_of s1) by reflexivity.
  assert (Hrep2 : rep s2 (mkHeap (L ++ [(tot, false)] ++ R) fl1)).
  { apply (rep_retag s1 s2 L M [(tot, false)] R fl1 X); auto.
    - intros o sz. apply HMX.
    - cbn [blocks_seg fst]. unfold tag. cbn [fst snd mem set_mem s2].
      fold bp. rewrite Z.add_0_r. auto. }
  assert (Hwf2 : wf [total L] (mkHeap (L ++ [(tot, false)] ++ R) fl1)).
  { apply (wf_retag L M [(tot, false)] R fl1 X); auto.
    - intros o sz. apply HMX.
    - cbn [layout In]. intros o sz [E|[]]. invc E. now left.
    - intros o Ho. cbn [In]. split; [|lia].
      intros Hc. apply HXM in Hc. lia. }
  assert (Hin : In (total L, (tot, false))
                   (layout 0 (blocks (mkHeap (L ++ [(tot, false)] ++ R) fl1)))).
  { cbn [blocks app].
    replace (total L) with (0 + total L) at 1 by lia. apply In_layout_mid. }
  destruct (insertFree_spec s2 _ [total L] (total L) tot Hrep2 Hwf2 Hin)
    as (Hr & Hg & Hf); [now left|].
  rewrite Hb2 in Hr, Hg, Hf. fold bp in Hr, Hg, Hf. fold s' in Hr, Hg, Hf.
  cbn [blocks lists] in Hr, Hf.
  split; [exact Hr|]. split; [|split].
  - apply (wf_insert' _ [total L] [] (total L) tot Hwf2 Hin); [now left|].
    cbn [In]. intros x. split; [tauto|]. intros [[->|[]] ?]. congruence.
  - apply (same_globals_trans s1 s2 s'); [exact Hg12|exact Hg].
  - apply (frame_trans s1 _ (L ++ [(tot, false)] ++ R) _ m3).
    + now rewrite !total_app3, Ht.
    + intros a. apply free_extent_retag; [exact Ht|].
      rewrite (all_free_extent M) by assumption.
      cbn [in_free_extent fst snd]. lia.
    + apply (frame_extent s1 _ (bp - 4) (bp + tot - 4)); [exact Hout|].
      intros a Ha. apply in_free_extent_app. right.
      apply in_free_extent_app. left.
      apply all_free_extent; auto.
    + apply (frame_globals s2); [|exact Hf].
      unfold same_globals. cbn. auto.
Qed.
End Merge.

(** * What the boundary-tag macros read around a block *)

Lemma GET_SIZE_PUT_same m p v :
  0 <= v < 2 ^ 32 -> v mod 8 = 0 -> GET_SIZE (PUT m p v) p = v.
Proof.
  intros Hv H8. apply (GET_SIZE_tag _ _ (v, false)); [|exact H8].
  rewrite GET_PUT_same by assumption. unfold tag. cbn [fst snd]. lia.
Qed.

Lemma GET_SIZE_PUT_other m p v q :
  q + 4 <= p \/ p + 4 <= q -> GET_SIZE (PUT m p v) q = GET_SIZE m q.
Proof. intros H. unfold GET_SIZE. now rewrite GET_PUT_other. Qed.

Lemma PACK_0 v : PACK v 0 = v.
Proof. apply Z.lor_0_r. Qed.

Lemma PACK_1 v : v mod 8 = 0 -> PACK v 1 = v + 1.
Proof. intros H. apply (PACK_tag v true H). Qed.

Section Neighbours.
Variables (s : State) (L : list blk) (b : blk) (R : list blk).
Variable fl : list (list Z).
Hypothesis Hrep : rep s (mkHeap (L ++ b :: R) fl).
Hypothesis Hok : Forall ok_size (L ++ b :: R).

Let bp := base_of s + total L.
Let p := last L prologue.
Let n := hd epilogue R.

Lemma nb_self :
  GET (mem s) (bp - 4) = tag b /\ GET (mem s) (bp + fst b - 8) = tag b.
Proof.
  pose proof (rep_blocks _ _ Hrep) as H. cbn [blocks] in H.
  apply blocks_seg_app in H. destruct H as [_ H].
  cbn [blocks_seg] in H. tauto.
Qed.

Lemma nb_prev :
  GET (mem s) (bp - 8) = tag p /\ GET (mem s) (bp - fst p - 4) = tag p /\
  fst p mod 8 = 0 /\ 8 <= fst p.
Proof.
  subst p bp. destruct (list_snoc_case L) as [->|(L' & c & ->)].
  - cbn [last total prologue fst]. unfold base_of, DSIZE.
    pose proof (rep_prologue_hdr _ _ Hrep) as H1.
    pose proof (rep_prologue_ftr _ _ Hrep) as H2.
    unfold prologue, DSIZE in H1, H2.
    replace (heap_listp s + 8 + 0 - 8) with (heap_listp s) by lia.
    replace (heap_listp s + 8 + 0 - 8 - 4) with (heap_listp s - 4) by lia.
    repeat split; auto. lia.
  - rewrite last_last, total_app. cbn [total].
    pose proof (rep_blocks _ _ Hrep) as H. cbn [blocks] in H.
    apply blocks_seg_app in H. destruct H as [H _].
    apply blocks_seg_app in H. destruct H as [_ H].
    cbn [blocks_seg] in H. destruct H as (H1 & H2 & _).
    apply Forall_app in Hok. destruct Hok as [HokL _].
    apply Forall_app in HokL. destruct HokL as [_ Hc].
    inversion Hc as [|? ? [Hc1 Hc2] _]; subst.
    replace (base_of s + (total L' + (fst c + 0)) - 8)
      with (base_of s + total L' + fst c - 8) by lia.
    replace (base_of s + (total L' + (fst c + 0)) - fst c - 4)
      with (base_of s + total L' - 4) by lia.
    repeat split; auto. lia.
Qed.

Lemma nb_next :
  GET (mem s) (bp + fst b - 4) = tag n /\ fst n mod 8 = 0 /\
  (R <> [] -> GET (mem s) (bp + fst b + fst n - 8) = tag n).
Proof.
  subst n bp. pose proof (rep_blocks _ _ Hrep) as H. cbn [blocks] in H.
  apply blocks_seg_app in H. destruct H as [_ H].
  cbn [blocks_seg] in H. destruct H as (_ & _ & H).
  destruct R as [|c R'].
  - cbn [hd epilogue fst]. split; [|split; [reflexivity|congruence]].
    pose proof (rep_epilogue _ _ Hrep) as He.
    rewrite (rep_brk _ _ Hrep) in He. cbn [blocks] in He.
    rewrite total_app in He. cbn [total] in He.
    rewrite <- He. f_equal. lia.
  - cbn [hd]. cbn [blocks_seg] in H. destruct H as (H1 & H2 & _).
    apply Forall_app in Hok. destruct Hok as [_ HokR].
    inversion HokR as [|? ? _ HokR']; subst.
    inversion HokR' as [|? ? [_ Hc2] _]; subst.
    repeat split; auto.
Qed.

Lemma nb_ok : 24 <= fst b /\ fst b mod 8 = 0.
Proof.
  apply Forall_app in Hok. destruct Hok as [_ H].
  inversion H as [|? ? Hb _]; subst. exact Hb.
Qed.

Lemma nb_size : GET_SIZE (mem s) (HDRP bp) = fst b.
Proof.
  unfold HDRP, WSIZE. apply GET_SIZE_tag; [apply nb_self|apply nb_ok].
Qed.

Lemma nb_FTRP : FTRP (mem s) bp = bp + fst b - 8.
Proof. unfold FTRP, DSIZE. now rewrite nb_size. Qed.

Lemma nb_NEXT : NEXT_BLKP (mem s) bp = bp + fst b.
Proof. unfold NEXT_BLKP. fold (HDRP bp). now rewrite nb_size. Qed.

Lemma nb_PREV : PREV_BLKP (mem s) bp = bp - fst p.
Proof.
  unfold PREV_BLKP, DSIZE. destruct nb_prev as (H1 & _ & H8 & _).
  now rewrite (GET_SIZE_tag _ _ _ H1 H8).
Qed.

Lemma nb_prev_ftr_size : GET_SIZE (mem s) (bp - 8) = fst p.
Proof.
  destruct nb_prev as (H1 & _ & H8 & _). now apply GET_SIZE_tag.
Qed.

Lemma nb_prev_size : GET_SIZE (mem s) (HDRP (bp - fst p)) = fst p.
Proof.
  unfold HDRP, WSIZE. destruct nb_prev as (_ & H2 & H8 & _).
  now apply GET_SIZE_tag.
Qed.

Lemma nb_prev_alloc :
  GET_ALLOC (mem s) (FTRP (mem s) (bp - fst p)) = if snd p then 1 else 0.
Proof.
  unfold FTRP, DSIZE. rewrite nb_prev_size.
  destruct nb_prev as (H1 & _ & H8 & _).
  replace (bp - fst p + fst p - 8) with (bp - 8) by lia.
  now apply GET_ALLOC_tag.
Qed.

Lemma nb_next_size : GET_SIZE (mem s) (HDRP (bp + fst b)) = fst n.
Proof.
  unfold HDRP, WSIZE. destruct nb_next as (H1 & H8 & _).
  now apply GET_SIZE_tag.
Qed.

Lemma nb_next_alloc :
  GET_ALLOC (mem s) (HDRP (bp + fst b)) = if snd n then 1 else 0.
Proof.
  unfold HDRP, WSIZE. destruct nb_next as (H1 & H8 & _).
  now apply GET_ALLOC_tag.
Qed.

Lemma nb_next_ftr_size :
  R <> [] -> GET_SIZE (mem s) (FTRP (mem s) (bp + fst b)) = fst n.
Proof.
  intros HR. unfold FTRP, DSIZE. rewrite nb_next_size.
  destruct nb_next as (_ & H8 & H2). now apply GET_SIZE_tag; auto.
Qed.
End Neighbours.

(** * Coalescing *)

Section Coalesce.
Variables (s : State) (L : list blk) (sz : Z) (R : list blk).
Variable fl : list (list Z).

Let bl := L ++ (sz, false) :: R.
Let o := total L.
Let bp := base_of s + o.

Hypothesis Hrep : rep s (mkHeap bl fl).
Hypothesis Hwf : wf [o] (mkHeap bl fl).

Lemma coalesce_spec :
  snd (coalesce s bp) = base_of s + snd (a_coalesce L sz R fl) /\
  step_ok s bl (fst (coalesce s bp)) (fst (a_coalesce L sz R fl)).
Proof.
  pose proof (wf_sizes _ _ Hwf) as Hok. cbn [blocks] in Hok.
  destruct (rep_geometry _ _ Hrep Hok)
    as (HT & HTb & Hbase & Hbrk & Htot & Hmax & H64).
  cbn [blocks] in Hbrk, Htot, Hmax. subst bl.
  rewrite total_app in Htot, Hmax, Hbrk. cbn [total fst] in Htot, Hmax, Hbrk.
  pose proof (nb_ok L (sz, false) R Hok) as [Hsz24 Hsz8]. cbn [fst] in *.
  pose proof (nb_size s L _ R fl Hrep Hok) as Hsize.
  pose proof (nb_PREV s L _ R fl Hrep Hok) as Hprev.
  pose proof (nb_NEXT s L _ R fl Hrep Hok) as Hnext.
  pose proof (nb_prev_alloc s L _ R fl Hrep Hok) as Hpa.
  pose proof (nb_next_alloc s L _ R fl Hrep Hok) as Hna.
  pose proof (nb_prev_size s L _ R fl Hrep Hok) as Hpsz.
  pose proof (nb_next_size s L _ R fl Hrep Hok) as Hnsz.
  pose proof (nb_next_ftr_size s L _ R fl Hrep Hok) as Hnfsz.
  pose proof (nb_prev s L _ R fl Hrep Hok) as (_ & _ & Hp8 & Hp8').
  cbn [fst] in *. fold o in Hsize, Hprev, Hnext, Hpa, Hna, Hpsz, Hnsz, Hnfsz.
  fold bp in Hsize, Hprev, Hnext, Hpa, Hna, Hpsz, Hnsz, Hnfsz.
  assert (Hino : In (o, (sz, false)) (layout 0 (L ++ (sz, false) :: R))).
  { replace o with (0 + total L) by (subst o; lia). apply In_layout_mid. }
  pose proof (total_nonneg L ltac:(apply Forall_app in Hok; tauto)) as HL0.
  fold o in HL0, Htot, Hmax, Hbrk.
  unfold coalesce, a_coalesce. cbv zeta.
  rewrite Hprev, Hnext, Hpa, Hna, Hsize. fold o.
  destruct (snd (last L prologue)) eqn:Ep;
    destruct (snd (hd epilogue R)) eqn:En;
    cbn [Z.eqb negb andb fst snd].
  - (* both neighbours allocated *)
    split; [reflexivity|].
    destruct (insertFree_spec s _ [o] o sz Hrep Hwf Hino) as (Hr & Hg & Hf);
      [now left|].
    fold bp in Hr, Hg, Hf. cbn [blocks lists] in Hr, Hf.
    split; [exact Hr|]. split; [|split; assumption].
    apply (wf_insert' _ [o] [] o sz Hwf Hino); [now left|].
    cbn [In]. intros x. split; [tauto|]. intros [[->|[]] ?]. congruence.
  - (* right neighbour free *)
    destruct R as [|[sz2 a2] R']; cbn [hd epilogue snd] in En;
      [discriminate|]. subst a2. cbn [hd tl fst] in *.
    assert (Hn : ok_size (sz2, false)).
    { apply Forall_app in Hok. destruct Hok as [_ H].
      inversion H as [|? ? _ H']; subst. now inversion H'. }
    destruct Hn as [Hn24 Hn8]. cbn [fst] in Hn24, Hn8.
    assert (HR0 : 0 <= total R').
    { apply total_nonneg. apply Forall_app in Hok. destruct Hok as [_ H].
      inversion H as [|? ? _ H']; subst. now inversion H'. }
    cbn [total fst] in Htot, Hmax, Hbrk.
    rewrite Hnsz. rewrite wrap64_small by lia. rewrite PACK_0.
    assert (Hinn : In (o + sz, (sz2, false))
                      (layout 0 (L ++ (sz, false) :: (sz2, false) :: R'))).
    { rewrite layout_app. apply in_or_app. right. cbn [layout fst].
      right. left. f_equal; subst o; lia. }
    destruct (deleteFree_spec s _ [o] (o + sz) sz2 Hrep Hwf Hinn)
      as (Hr1 & Hg1 & Hf1); [cbn [In]; lia|].
    pose proof (wf_delete _ [o] (o + sz) sz2 Hwf Hinn ltac:(cbn [In]; lia))
      as Hwf1.
    cbn [blocks lists] in Hr1, Hf1, Hwf1.
    replace (base_of s + (o + sz)) with (bp + sz) in Hr1, Hg1, Hf1
      by (subst bp; lia).
    set (s1 := deleteFree s (bp + sz)) in *.
    assert (Hb1 : base_of s1 = base_of s).
    { unfold base_of. destruct Hg1 as (_ & _ & -> & _). reflexivity. }
    unfold FTRP at 1. unfold HDRP at 2 3. unfold WSIZE, DSIZE.
    rewrite GET_SIZE_PUT_same by (lia || mod8).
    set (m3 := PUT (PUT (mem s1) (HDRP bp) (sz + sz2)) (bp + (sz + sz2) - 8)
                   (sz + sz2)).
    split; [reflexivity|].
    pose proof (merge_insert s1 L [(sz, false); (sz2, false)] R'
                  (a_delete fl (o + sz) sz2) [o + sz; o] m3) as Hm.
    cbn [app total fst] in Hm. rewrite Hb1 in Hm. fold o bp in Hm.
    replace (sz + (sz2 + 0)) with (sz + sz2) in Hm by lia.
    destruct Hm as (Hr & Hw & Hg & Hf); auto.
    + discriminate.
    + cbn [layout In fst].
      intros x b [E|[E|[]]]; apply (f_equal fst) in E; cbn [fst] in E; lia.
    + cbn [In]. intros x [<-|[<-|[]]]; lia.
    + intros a Ha. subst m3. unfold HDRP, WSIZE.
      rewrite !PUT_other by lia. reflexivity.
    + subst m3. unfold HDRP, WSIZE. mem_simpl. reflexivity.
    + subst m3. unfold HDRP, WSIZE. mem_simpl. reflexivity.
    + split; [exact Hr|]. split; [exact Hw|]. split.
      * apply (same_globals_trans s s1); assumption.
      * apply (frame_trans s _ (L ++ (sz, false) :: (sz2, false) :: R')
                 _ (mem s1)); auto.
  - (* left neighbour free *)
    destruct (list_snoc_case L) as [EL|(L' & [sz0 a0] & EL)].
    { rewrite EL in Ep. discriminate. }
    assert (Elast : last L prologue = (sz0, a0)) by (rewrite EL; apply last_last).
    rewrite Elast in *. cbn [fst snd] in *. subst a0.
    assert (Erl : removelast L = L') by (rewrite EL; apply removelast_last).
    rewrite Erl.
    assert (Eo : o = total L' + sz0).
    { subst o. rewrite EL, total_app. cbn [total fst]. lia. }
    assert (Ebl : L ++ (sz, false) :: R =
                  L' ++ (sz0, false) :: (sz, false) :: R).
    { rewrite EL, <- app_assoc. reflexivity. }
    assert (HokL' : Forall ok_size L').
    { rewrite Ebl in Hok. apply Forall_app in Hok. tauto. }
    pose proof (total_nonneg _ HokL') as HL'0.
    pose proof (total_nonneg R ltac:(apply Forall_app in Hok;
      destruct Hok as [_ H]; now inversion H)) as HR0.
    assert (Hp24 : 24 <= sz0).
    { rewrite Ebl in Hok. apply Forall_app in Hok. destruct Hok as [_ H].
      inversion H as [|? ? [H1 _] _]. exact H1. }
    rewrite Hpsz. rewrite wrap64_small by lia. rewrite PACK_0.
    assert (Hin0 : In (total L', (sz0, false))
                      (layout 0 (L ++ (sz, false) :: R))).
    { rewrite Ebl. replace (total L') with (0 + total L') at 1 by lia.
      apply In_layout_mid. }
    destruct (deleteFree_spec s _ [o] (total L') sz0 Hrep Hwf Hin0)
      as (Hr1 & Hg1 & Hf1); [cbn [In]; lia|].
    pose proof (wf_delete _ [o] (total L') sz0 Hwf Hin0
                  ltac:(cbn [In]; lia)) as Hwf1.
    cbn [blocks lists] in Hr1, Hf1, Hwf1.
    replace (base_of s + total L') with (bp - sz0) in Hr1, Hg1, Hf1
      by (subst bp; lia).
    set (s1 := deleteFree s (bp - sz0)) in *.
    assert (Hb1 : base_of s1 = base_of s).
    { unfold base_of. destruct Hg1 as (_ & _ & -> & _). reflexivity. }
    pose proof (nb_FTRP s1 L _ R _ Hr1 Hok) as E1.
    pose proof (nb_prev_ftr_size s1 L _ R _ Hr1 Hok) as E2.
    rewrite Hb1 in E1, E2. rewrite Elast in E2.
    cbn [fst] in E1, E2. fold o bp in E1, E2.
    rewrite E1.
    assert (E3 : forall m', GET_SIZE m' (bp - 8) = sz0 ->
                            PREV_BLKP m' bp = bp - sz0).
    { intros m' H. unfold PREV_BLKP, DSIZE. now rewrite H. }
    rewrite (E3 (PUT (mem s1) (bp + sz - 8) (sz + sz0)))
      by (rewrite GET_SIZE_PUT_other by lia; exact E2).
    rewrite (E3 (PUT (PUT (mem s1) (bp + sz - 8) (sz + sz0))
                     (HDRP (bp - sz0)) (sz + sz0)))
      by (unfold HDRP, WSIZE; rewrite !GET_SIZE_PUT_other by lia; exact E2).
    set (m3 := PUT (PUT (mem s1) (bp + sz - 8) (sz + sz0))
                   (HDRP (bp - sz0)) (sz + sz0)).
    split; [subst bp; lia|].
    rewrite Ebl in Hr1, Hwf1.
    pose proof (merge_insert s1 L' [(sz0, false); (sz, false)] R
                  (a_delete fl (total L') sz0) [total L'; o] m3) as Hm.
    cbn [app total fst] in Hm. rewrite Hb1 in Hm.
    replace (sz0 + (sz + 0)) with (sz + sz0) in Hm by lia.
    replace (base_of s + total L') with (bp - sz0) in Hm by (subst bp; lia).
    replace (total L') with (o - sz0) in Hm, Hr1, Hwf1 by lia.
    destruct Hm as (Hr & Hw & Hg & Hf); auto.
    + discriminate.
    + cbn [layout In fst].
      intros x b [E|[E|[]]]; apply (f_equal fst) in E; cbn [fst] in E; lia.
    + cbn [In]. intros x [<-|[<-|[]]]; lia.
    + intros a Ha. subst m3. unfold HDRP, WSIZE.
      rewrite !PUT_other by lia. reflexivity.
    + subst m3. unfold HDRP, WSIZE. mem_simpl. reflexivity.
    + subst m3. unfold HDRP, WSIZE.
      replace (bp - sz0 + (sz + sz0) - 8) with (bp + sz - 8) by lia.
      mem_simpl. reflexivity.
    + split; [exact Hr|]. split; [exact Hw|]. split.
      * apply (same_globals_trans s s1); assumption.
      * apply (frame_trans s _ (L' ++ (sz0, false) :: (sz, false) :: R)
                 _ (mem s1));
          [now rewrite Ebl|intros a; now rewrite Ebl|exact Hf1|exact Hf].
  - (* both neighbours free *)
    destruct (list_snoc_case L) as [EL|(L' & [sz0 a0] & EL)].
    { rewrite EL in Ep. discriminate. }
    destruct R as [|[sz2 a2] R']; cbn [hd epilogue snd] in En;
      [discriminate|]. subst a2. cbn [hd tl fst] in *.
    assert (Elast : last L prologue = (sz0, a0)) by (rewrite EL; apply last_last).
    rewrite Elast in *. cbn [fst snd] in *. subst a0.
    assert (Erl : removelast L = L') by (rewrite EL; apply removelast_last).
    rewrite Erl.
    assert (Eo : o = total L' + sz0).
    { subst o. rewrite EL, total_app. cbn [total fst]. lia. }
    assert (Ebl : L ++ (sz, false) :: (sz2, false) :: R' =
                  L' ++ (sz0, false) :: (sz, false) :: (sz2, false) :: R').
    { rewrite EL, <- app_assoc. reflexivity. }
    assert (Hok' := Hok). rewrite Ebl in Hok'.
    apply Forall_app in Hok'. destruct Hok' as [HokL' Hok'].
    apply Forall_cons_iff in Hok'. destruct Hok' as [[Hp24 _] Hok'].
    apply Forall_cons_iff in Hok'. destruct Hok' as [_ Hok'].
    apply Forall_cons_iff in Hok'. destruct Hok' as [[Hn24 Hn8] HokR'].
    cbn [fst] in Hp24, Hn24, Hn8.
    pose proof (total_nonneg _ HokL') as HL'0.
    pose proof (total_nonneg _ HokR') as HR0.
    cbn [total fst] in Htot, Hmax, Hbrk.
    rewrite Hpsz, Hnfsz by discriminate.
    rewrite wrap32_small by lia. rewrite wrap64_small by lia.
    rewrite PACK_0.
    assert (Hin0 : In (total L', (sz0, false))
                      (layout 0 (L ++ (sz, false) :: (sz2, false) :: R'))).
    { rewrite Ebl. replace (total L') with (0 + total L') at 1 by lia.
      apply In_layout_mid. }
    assert (Hinn : In (o + sz, (sz2, false))
                      (layout 0 (L ++ (sz, false) :: (sz2, false) :: R'))).
    { rewrite layout_app. apply in_or_app. right. cbn [layout fst].
      right. left. f_equal; subst o; lia. }
    destruct (deleteFree_spec s _ [o] (total L') sz0 Hrep Hwf Hin0)
      as (Hr1 & Hg1 & Hf1); [cbn [In]; lia|].
    pose proof (wf_delete _ [o] (total L') sz0 Hwf Hin0
                  ltac:(cbn [In]; lia)) as Hwf1.
    cbn [blocks lists] in Hr1, Hf1, Hwf1.
    replace (base_of s + total L') with (bp - sz0) in Hr1, Hg1, Hf1
      by (subst bp; lia).
    set (s1 := deleteFree s (bp - sz0)) in *.
    assert (Hb1 : base_of s1 = base_of s).
    { unfold base_of. destruct Hg1 as (_ & _ & -> & _). reflexivity. }
    pose proof (nb_NEXT s1 L _ _ _ Hr1 Hok) as E1.
    rewrite Hb1 in E1. cbn [fst] in E1. fold o bp in E1. rewrite E1.
    destruct (deleteFree_spec s1 _ [total L'; o] (o + sz) sz2 Hr1 Hwf1 Hinn)
      as (Hr2 & Hg2 & Hf2); [cbn [In]; lia|].
    pose proof (wf_delete _ [total L'; o] (o + sz) sz2 Hwf1 Hinn
                  ltac:(cbn [In]; lia)) as Hwf2.
    cbn [blocks lists] in Hr2, Hf2, Hwf2. rewrite Hb1 in Hr2, Hg2, Hf2.
    replace (base_of s + (o + sz)) with (bp + sz) in Hr2, Hg2, Hf2
      by (subst bp; lia).
    set (s2 := deleteFree s1 (bp + sz)) in *.
    assert (Hb2 : base_of s2 = base_of s).
    { unfold base_of. destruct Hg2 as (_ & _ & -> & _). apply Hb1. }
    pose proof (nb_PREV s2 L _ _ _ Hr2 Hok) as E2.
    pose proof (nb_prev_ftr_size s2 L _ _ _ Hr2 Hok) as E3.
    pose proof (nb_size s2 L _ _ _ Hr2 Hok) as E4.
    pose proof (nb_next_size s2 L _ _ _ Hr2 Hok) as E5.
    rewrite Hb2 in E2, E3, E4, E5. rewrite Elast in E2, E3.
    cbn [fst hd] in E2, E3, E4, E5. fold o bp in E2, E3, E4, E5.
    unfold HDRP, WSIZE in E4, E5.
    rewrite E2.
    assert (F1 : forall m', GET_SIZE m' (bp - 4) = sz ->
                            NEXT_BLKP m' bp = bp + sz).
    { intros m' H. unfold NEXT_BLKP, WSIZE. now rewrite H. }
    assert (F2 : forall m', GET_SIZE m' (bp + sz - 4) = sz2 ->
                            FTRP m' (bp + sz) = bp + sz + sz2 - 8).
    { intros m' H. unfold FTRP, HDRP, WSIZE, DSIZE. now rewrite H. }
    assert (F3 : forall m', GET_SIZE m' (bp - 8) = sz0 ->
                            PREV_BLKP m' bp = bp - sz0).
    { intros m' H. unfold PREV_BLKP, DSIZE. now rewrite H. }
    set (tot := sz + (sz0 + sz2)).
    rewrite (F1 (PUT (mem s2) (HDRP (bp - sz0)) tot))
      by (unfold HDRP, WSIZE; rewrite GET_SIZE_PUT_other by lia; exact E4).
    rewrite (F2 (PUT (mem s2) (HDRP (bp - sz0)) tot))
      by (unfold HDRP, WSIZE; rewrite GET_SIZE_PUT_other by lia; exact E5).
    rewrite (F3 (PUT (PUT (mem s2) (HDRP (bp - sz0)) tot)
                     (bp + sz + sz2 - 8) tot))
      by (unfold HDRP, WSIZE; rewrite !GET_SIZE_PUT_other by lia; exact E3).
    set (m4 := PUT (PUT (mem s2) (HDRP (bp - sz0)) tot)
                   (bp + sz + sz2 - 8) tot).
    split; [subst bp; lia|].
    pose proof (merge_insert s2 L'
                  [(sz0, false); (sz, false); (sz2, false)] R'
                  (a_delete (a_delete fl (total L') sz0) (o + sz) sz2)
                  [o + sz; total L'; o] m4) as Hm.
    cbn [app total fst] in Hm. rewrite Hb2 in Hm.
    replace (sz0 + (sz + (sz2 + 0))) with (sz + sz0 + sz2) in Hm by lia.
    replace (base_of s + total L') with (bp - sz0) in Hm by (subst bp; lia).
    rewrite Ebl in Hr2, Hwf2.
    replace (total L') with (o - sz0) in Hm, Hr2, Hwf2 by lia.
    destruct Hm as (Hr & Hw & Hg & Hf); auto.
    + discriminate.
    + cbn [layout In fst].
      intros x b [E|[E|[E|[]]]]; apply (f_equal fst) in E; cbn [fst] in E;
        lia.
    + cbn [In]. intros x [<-|[<-|[<-|[]]]]; lia.
    + intros a Ha. subst m4 tot. unfold HDRP, WSIZE.
      rewrite !PUT_other by lia. reflexivity.
    + subst m4 tot. unfold HDRP, WSIZE. mem_simpl. lia.
    + subst m4 tot. unfold HDRP, WSIZE.
      replace (bp - sz0 + (sz + sz0 + sz2) - 8) with (bp + sz + sz2 - 8)
        by lia.
      mem_simpl. lia.
    + split; [exact Hr|]. split; [exact Hw|]. split.
      * apply (same_globals_trans s s1); [assumption|].
        apply (same_globals_trans s1 s2); assumption.
      * apply (frame_trans s _
                 (L' ++ (sz0, false) :: (sz, false) :: (sz2, false) :: R')
                 _ (mem s2));
          [now rewrite Ebl|intros a; now rewrite Ebl| |exact Hf].
        apply (frame_trans s _ (L ++ (sz, false) :: (sz2, false) :: R')
                 _ (mem s1)); auto.
Qed.
End Coalesce.

(** * Pure facts about the coalescing table *)

Lemma a_coalesce_no_adj L sz R fl :
  no_adj L -> no_adj R -> no_adj (blocks (fst (a_coalesce L sz R fl))).
Proof.
  intros HL HR. unfold a_coalesce.
  destruct (snd (last L prologue)) eqn:Ep;
    destruct (snd (hd epilogue R)) eqn:En; cbn [fst blocks].
  - apply no_adj_app. repeat split; auto.
    + apply no_adj_cons. cbn [snd]. rewrite En. auto.
    + now rewrite Ep.
  - destruct R as [|[sz2 a2] R']; cbn [hd epilogue snd fst tl] in *;
      [discriminate|]. subst a2.
    apply no_adj_cons in HR. cbn [snd orb] in HR. destruct HR as [Hh HR].
    apply no_adj_app. repeat split; auto.
    + apply no_adj_cons. cbn [snd orb]. auto.
    + now rewrite Ep.
  - destruct (list_snoc_case L) as [->|(L' & [sz0 a0] & ->)];
      [discriminate|].
    rewrite last_last in *. rewrite removelast_last. cbn [snd fst] in *.
    subst a0. apply no_adj_snoc in HL. cbn [snd] in HL.
    rewrite orb_false_r in HL. destruct HL as [HL Hl].
    apply no_adj_app. repeat split; auto.
    + apply no_adj_cons. cbn [snd orb]. auto.
    + now rewrite Hl.
  - destruct (list_snoc_case L) as [->|(L' & [sz0 a0] & ->)];
      [discriminate|].
    destruct R as [|[sz2 a2] R']; cbn [hd epilogue snd fst tl] in *;
      [discriminate|]. subst a2.
    rewrite last_last in *. rewrite removelast_last. cbn [snd fst] in *.
    subst a0. apply no_adj_snoc in HL. cbn [snd] in HL.
    rewrite orb_false_r in HL. destruct HL as [HL Hl].
    apply no_adj_cons in HR. cbn [snd orb] in HR. destruct HR as [Hh HR].
    apply no_adj_app. repeat split; auto.
    + apply no_adj_cons. cbn [snd orb]. auto.
    + now rewrite Hl.
Qed.

(** The block coalescing returns is free, at the returned offset, at
    least as large as the block that came in, and every allocated block is
    where it was. *)
Lemma a_coalesce_result L sz R fl :
  Forall ok_size (L ++ (sz, false) :: R) ->
  let r := a_coalesce L sz R fl in
  exists L' sz' R',
    blocks (fst r) = L' ++ (sz', false) :: R' /\ snd r = total L' /\
    sz <= sz' /\ total (blocks (fst r)) = total (L ++ (sz, false) :: R) /\
    (forall x szx, In (x, (szx, true)) (layout 0 (L ++ (sz, false) :: R)) <->
                   In (x, (szx, true)) (layout 0 (blocks (fst r)))).
Proof.
  intros Hok r. subst r. unfold a_coalesce.
  destruct (snd (last L prologue)) eqn:Ep;
    destruct (snd (hd epilogue R)) eqn:En; cbn [fst snd blocks].
  - exists L, sz, R. repeat split; auto; lia.
  - destruct R as [|[sz2 a2] R']; cbn [hd epilogue snd fst tl] in *;
      [discriminate|]. subst a2.
    assert (24 <= sz2).
    { apply Forall_app in Hok. destruct Hok as [_ H].
      apply Forall_cons_iff in H. destruct H as [_ H].
      apply Forall_cons_iff in H. destruct H as [[H _] _]. exact H. }
    exists L, (sz + sz2), R'. repeat split; auto; try lia.
    + rewrite !total_app. cbn [total fst]. lia.
    + rewrite !layout_app, !in_app_iff. cbn [layout In fst].
      intros [Hi|[Hi|[Hi|Hi]]]; try discriminate; auto.
      right. right. now replace (0 + total L + (sz + sz2))
        with (0 + total L + sz + sz2) by lia.
    + rewrite !layout_app, !in_app_iff. cbn [layout In fst].
      intros [Hi|[Hi|Hi]]; try discriminate; auto.
      right. right. right. now replace (0 + total L + sz + sz2)
        with (0 + total L + (sz + sz2)) by lia.
  - destruct (list_snoc_case L) as [->|(L' & [sz0 a0] & ->)];
      [discriminate|].
    rewrite last_last in *. rewrite removelast_last. cbn [snd fst] in *.
    subst a0.
    assert (24 <= sz0).
    { apply Forall_app in Hok. destruct Hok as [H _].
      apply Forall_app in H. destruct H as [_ H].
      apply Forall_cons_iff in H. destruct H as [[H _] _]. exact H. }
    exists L', (sz + sz0), R. repeat split; auto; try lia.
    + rewrite total_app. cbn [total fst]. lia.
    + rewrite !total_app. cbn [total fst]. lia.
    + rewrite <- app_assoc. cbn [app].
      rewrite !layout_app, !in_app_iff. cbn [layout In fst].
      intros [Hi|[Hi|[Hi|Hi]]]; try discriminate; auto.
      right. right. now replace (0 + total L' + (sz + sz0))
        with (0 + total L' + sz0 + sz) by lia.
    + rewrite <- app_assoc. cbn [app].
      rewrite !layout_app, !in_app_iff. cbn [layout In fst].
      intros [Hi|[Hi|Hi]]; try discriminate; auto.
      right. right. right. now replace (0 + total L' + sz0 + sz)
        with (0 + total L' + (sz + sz0)) by lia.
  - destruct (list_snoc_case L) as [->|(L' & [sz0 a0] & ->)];
      [discriminate|].
    destruct R as [|[sz2 a2] R']; cbn [hd epilogue snd fst tl] in *;
      [discriminate|]. subst a2.
    rewrite last_last in *. rewrite removelast_last. cbn [snd fst] in *.
    subst a0.
    rewrite <- app_assoc in Hok. cbn [app] in Hok.
    apply Forall_app in Hok. destruct Hok as [_ Hok].
    apply Forall_cons_iff in Hok. destruct Hok as [[H0 _] Hok].
    apply Forall_cons_iff in Hok. destruct Hok as [_ Hok].
    apply Forall_cons_iff in Hok. destruct Hok as [[H2 _] _].
    cbn [fst] in H0, H2.
    exists L', (sz + sz0 + sz2), R'. repeat split; auto; try lia.
    + rewrite total_app. cbn [total fst]. lia.
    + rewrite !total_app. cbn [total fst]. lia.
    + rewrite <- app_assoc. cbn [app].
      rewrite !layout_app, !in_app_iff. cbn [layout In fst].
      intros [Hi|[Hi|[Hi|[Hi|Hi]]]]; try discriminate; auto.
      right. right. now replace (0 + total L' + (sz + sz0 + sz2))
        with (0 + total L' + sz0 + sz + sz2) by lia.
    + rewrite <- app_assoc. cbn [app].
      rewrite !layout_app, !in_app_iff. cbn [layout In fst].
      intros [Hi|[Hi|Hi]]; try discriminate; auto.
      right. right. right. right. now replace (0 + total L' + sz0 + sz + sz2)
        with (0 + total L' + (sz + sz0 + sz2)) by lia.
Qed.

(** * Placement *)

Lemma GET_SIZE_PUT_same1 m p v :
  0 <= v < 2 ^ 31 -> v mod 8 = 0 -> GET_SIZE (PUT m p (v + 1)) p = v.
Proof.
  intros Hv H8. apply (GET_SIZE_tag _ _ (v, true)); [|exact H8].
  rewrite GET_PUT_same by lia. reflexivity.
Qed.

Lemma a_place_eq L csize R fl asize :
  Forall ok_size (L ++ (csize, false) :: R) ->
  a_place (mkHeap (L ++ (csize, false) :: R) fl) (total L) asize =
  if 24 <=? csize - asize then
    fst (a_coalesce (L ++ [(asize, true)]) (csize - asize) R
                    (a_delete fl (total L) csize))
  else mkHeap (L ++ (csize, true) :: R) (a_delete fl (total L) csize).
Proof.
  intros Hok. unfold a_place. cbn [blocks lists].
  replace (total L) with (0 + total L) at 1 by lia.
  rewrite split_at_mid by (apply Forall_app in Hok; tauto).
  reflexivity.
Qed.

Section Place.
Variables (s : State) (L : list blk) (csize : Z) (R : list blk).
Variables (fl : list (list Z)) (asize : Z).

Let bl := L ++ (csize, false) :: R.
Let o := total L.
Let bp := base_of s + o.

Hypothesis Hrep : rep s (mkHeap bl fl).
Hypothesis Hwf : wf [] (mkHeap bl fl).
Hypothesis Hasz : 24 <= asize <= csize.
Hypothesis Ha8 : asize mod 8 = 0.

Lemma place_spec : step_ok s bl (place s bp asize) (a_place (mkHeap bl fl) o asize).
Proof.
  pose proof (wf_sizes _ _ Hwf) as Hok. cbn [blocks] in Hok.
  unfold bl at 2. unfold o at 1. rewrite a_place_eq by exact Hok. fold o.
  destruct (rep_geometry _ _ Hrep Hok)
    as (HT & HTb & Hbase & Hbrk & Htot & Hmax & H64).
  cbn [blocks] in Hbrk, Htot, Hmax. subst bl.
  rewrite total_app in Htot, Hmax, Hbrk. cbn [total fst] in Htot, Hmax, Hbrk.
  pose proof (nb_ok L (csize, false) R Hok) as [Hc24 Hc8]. cbn [fst] in *.
  pose proof (nb_size s L _ R fl Hrep Hok) as Hsize.
  cbn [fst] in Hsize. fold o bp in Hsize.
  assert (HokL : Forall ok_size L) by (apply Forall_app in Hok; tauto).
  assert (HokR : Forall ok_size R).
  { apply Forall_app in Hok. destruct Hok as [_ H].
    apply Forall_cons_iff in H. tauto. }
  pose proof (total_nonneg _ HokL) as HL0.
  pose proof (total_nonneg _ HokR) as HR0.
  fold o in HL0, Htot, Hmax, Hbrk.
  assert (Hino : In (o, (csize, false)) (layout 0 (L ++ (csize, false) :: R))).
  { replace o with (0 + total L) by (subst o; lia). apply In_layout_mid. }
  destruct (deleteFree_spec s _ [] o csize Hrep Hwf Hino)
    as (Hr1 & Hg1 & Hf1); [cbn [In]; tauto|].
  pose proof (wf_delete _ [] o csize Hwf Hino ltac:(cbn [In]; tauto))
    as Hwf1.
  cbn [blocks lists] in Hr1, Hf1, Hwf1. fold bp in Hr1, Hg1, Hf1.
  unfold place. cbv zeta. rewrite Hsize.
  rewrite wrap64_small by lia. change (3 * DSIZE) with 24.
  set (s1 := deleteFree s bp) in *.
  assert (Hb1 : base_of s1 = base_of s).
  { unfold base_of. destruct Hg1 as (_ & _ & -> & _). reflexivity. }
  assert (Hg1' : same_globals s1 s).
  { destruct Hg1 as (? & ? & ? & ?). unfold same_globals. auto. }
  destruct (Z.leb_spec 24 (csize - asize)) as [Hsplit|Hnosplit].
  - (* split *)
    set (rem := csize - asize) in *.
    assert (Hr8 : rem mod 8 = 0) by (subst rem; mod8).
    rewrite PACK_0, PACK_1 by assumption.
    assert (F1 : forall m', GET_SIZE m' (bp - 4) = asize ->
                            FTRP m' bp = bp + asize - 8).
    { intros m' H. unfold FTRP, HDRP, WSIZE, DSIZE. now rewrite H. }
    assert (F2 : forall m', GET_SIZE m' (bp - 4) = asize ->
                            NEXT_BLKP m' bp = bp + asize).
    { intros m' H. unfold NEXT_BLKP, WSIZE. now rewrite H. }
    assert (F3 : forall m', GET_SIZE m' (bp + asize - 4) = rem ->
                            FTRP m' (bp + asize) = bp + asize + rem - 8).
    { intros m' H. unfold FTRP, HDRP, WSIZE, DSIZE. now rewrite H. }
    change (HDRP bp) with (bp - 4).
    rewrite (F1 (PUT (mem s1) (bp - 4) (asize + 1)))
      by (apply GET_SIZE_PUT_same1; lia).
    rewrite (F2 (PUT (PUT (mem s1) (bp - 4) (asize + 1))
                     (bp + asize - 8) (asize + 1)))
      by (rewrite GET_SIZE_PUT_other by lia;
          apply GET_SIZE_PUT_same1; lia).
    change (HDRP (bp + asize)) with (bp + asize - 4).
    rewrite F3 by (apply GET_SIZE_PUT_same; lia).
    set (m4 := PUT (PUT (PUT (PUT (mem s1) (bp - 4) (asize + 1))
                             (bp + asize - 8) (asize + 1))
                        (bp + asize - 4) rem)
                   (bp + asize + rem - 8) rem).
    set (s2 := set_mem s1 m4).
    assert (Hg2 : same_globals s1 s2) by (unfold same_globals; cbn; auto).
    assert (Hout : forall a,
      a < base_of s1 + total L - 4 \/
      base_of s1 + total L + total [(csize, false)] - 4 <= a ->
      mem s2 a = mem s1 a).
    { rewrite Hb1. fold o bp. cbn [total fst mem set_mem s2]. intros a Ha.
      subst m4 rem. rewrite !PUT_other by lia. reflexivity. }
    assert (HokM' : Forall ok_size [(asize, true); (rem, false)]).
    { repeat constructor; cbn [fst]; auto; lia. }
    assert (HtM' : total [(asize, true); (rem, false)] =
                   total [(csize, false)]).
    { cbn [total fst]. subst rem. lia. }
    assert (HMX : forall x sz,
      In (x, (sz, false)) (layout (total L) [(csize, false)]) -> In x [o]).
    { cbn [layout In]. intros x sz [E|[]]. left. now invc E. }
    assert (Hr2 : rep s2 (mkHeap (L ++ [(asize, true); (rem, false)] ++ R)
                                 (a_delete fl o csize))).
    { apply (rep_retag s1 s2 L [(csize, false)] _ R _ [o]); auto.
      rewrite Hb1. fold o bp. cbn [blocks_seg fst mem set_mem s2].
        unfold tag. cbn [fst snd]. subst m4.
        replace (bp + asize + rem - 8) with (bp + asize + rem - 8) by lia.
        repeat split; mem_simpl; lia. }
    assert (Hwf2 : wf [total (L ++ [(asize, true)])]
                      (mkHeap (L ++ [(asize, true); (rem, false)] ++ R)
                              (a_delete fl o csize))).
    { apply (wf_retag L [(csize, false)] _ R _ [o]); auto.
      - cbn [layout In fst]. rewrite total_app. cbn [total fst].
        intros x sz [E|[E|[]]]; [discriminate|].
        left. apply (f_equal fst) in E. cbn [fst] in E. lia.
      - intros x Hx. cbn [In]. rewrite total_app. cbn [total fst] in *.
        fold o in Hx. fold o. lia. }
    assert (Ebl2 : L ++ [(asize, true); (rem, false)] ++ R =
                   (L ++ [(asize, true)]) ++ (rem, false) :: R).
    { rewrite <- app_assoc. reflexivity. }
    rewrite Ebl2 in Hr2, Hwf2.
    destruct (coalesce_spec s2 (L ++ [(asize, true)]) rem R _ Hr2 Hwf2)
      as (_ & Hr3 & Hw3 & Hg3 & Hf3).
    assert (Ebp : base_of s2 + total (L ++ [(asize, true)]) = bp + asize).
    { rewrite total_app. cbn [total fst]. subst bp o.
      change (base_of s2) with (base_of s1). lia. }
    rewrite Ebp in Hr3, Hg3, Hf3.
    split; [exact Hr3|]. split; [exact Hw3|]. split.
    + apply (same_globals_trans s s1); [assumption|].
      apply (same_globals_trans s1 s2); assumption.
    + rewrite <- Ebl2 in Hf3.
      apply (frame_trans s _ (L ++ [(asize, true); (rem, false)] ++ R)
               _ m4).
      * rewrite !total_app. cbn [total fst]. subst rem. lia.
      * intros a. apply (free_extent_retag L [(csize, false)]).
        { cbn [total fst]. subst rem. lia. }
        cbn [in_free_extent fst snd]. subst rem. intuition lia.
      * apply (frame_trans s _ (L ++ (csize, false) :: R) _ (mem s1));
          auto.
        apply (frame_extent s _ (bp - 4) (bp + csize - 4)).
        -- intros a Ha. subst m4 rem. rewrite !PUT_other by lia.
           reflexivity.
        -- intros a Ha. apply in_free_extent_app. right.
           cbn [in_free_extent fst snd]. fold o bp. left. split; auto.
      * exact Hf3.
  - (* no split *)
    rewrite PACK_1 by assumption.
    assert (F1 : forall m', GET_SIZE m' (bp - 4) = csize ->
                            FTRP m' bp = bp + csize - 8).
    { intros m' H. unfold FTRP, HDRP, WSIZE, DSIZE. now rewrite H. }
    change (HDRP bp) with (bp - 4).
    rewrite F1 by (apply GET_SIZE_PUT_same1; lia).
    set (m2 := PUT (PUT (mem s1) (bp - 4) (csize + 1))
                   (bp + csize - 8) (csize + 1)).
    set (s2 := set_mem s1 m2).
    assert (Hg2 : same_globals s1 s2) by (unfold same_globals; cbn; auto).
    assert (Hout : forall a,
      a < base_of s1 + total L - 4 \/
      base_of s1 + total L + total [(csize, false)] - 4 <= a ->
      mem s2 a = mem s1 a).
    { rewrite Hb1. fold o bp. cbn [total fst mem set_mem s2]. intros a Ha.
      subst m2. rewrite !PUT_other by lia. reflexivity. }
    change (L ++ (csize, true) :: R) with (L ++ [(csize, true)] ++ R).
    assert (HokM' : Forall ok_size [(csize, true)]).
    { repeat constructor; cbn [fst]; auto; lia. }
    assert (HMX : forall x sz,
      In (x, (sz, false)) (layout (total L) [(csize, false)]) -> In x [o]).
    { cbn [layout In]. intros x sz [E|[]]. left. now invc E. }
    split; [|split; [|split]].
    + apply (rep_retag s1 s2 L [(csize, false)] _ R _ [o]); auto.
      rewrite Hb1. fold o bp. cbn [blocks_seg fst mem set_mem s2].
      unfold tag. cbn [fst snd]. subst m2.
      repeat split; mem_simpl; lia.
    + apply (wf_retag L [(csize, false)] _ R _ [o]); auto.
      * cbn [layout In fst]. intros x sz [E|[]]. discriminate.
      * intros x Hx. cbn [In total fst] in *. fold o in Hx. lia.
    + apply (same_globals_trans s s1); assumption.
    + apply (frame_trans s _ (L ++ (csize, false) :: R) _ (mem s1)); auto.
      apply (frame_extent s _ (bp - 4) (bp + csize - 4)).
      * intros a Ha. subst m2. cbn [mem set_mem s2].
        rewrite !PUT_other by lia. reflexivity.
      * intros a Ha. apply in_free_extent_app. right.
        cbn [in_free_extent fst snd]. fold o bp. left. split; auto.
Qed.
End Place.

(** * Heap extension *)

Section Extend.
Variables (s : State) (h : heap) (words : Z).
Hypothesis Hrep : rep s h.
Hypothesis Hwf : wf [] h.

Let size := if words mod 2 =? 0 then words * 4 else (words + 1) * 4.
Hypothesis Hsize : 24 <= size < 2 ^ 64.
Hypothesis Hsize8 : size mod 8 = 0.

Lemma extend_heap_fail :
  mem_max_addr s - mem_brk s < size ->
  extend_heap s words = (s, 0) /\
  a_extend h (mem_max_addr s - mem_brk s) words = None.
Proof.
  intros Hroom. unfold extend_heap, a_extend, mem_sbrk. fold size.
  assert (E : (if negb (words mod 2 =? 0)
               then wrap64 ((words + 1) * WSIZE)
               else wrap64 (words * WSIZE)) = size).
  { subst size. unfold WSIZE.
    destruct (words mod 2 =? 0); cbn [negb]; apply wrap64_small; lia. }
  rewrite E.
  destruct (Z.ltb_spec size 0) as [|_]; [lia|].
  destruct (Z.ltb_spec (mem_max_addr s) (mem_brk s + size)) as [_|]; [|lia].
  cbn [orb]. destruct (Z.leb_spec size (mem_max_addr s - mem_brk s)); [lia|].
  auto.
Qed.

Lemma extend_heap_ok :
  size <= mem_max_addr s - mem_brk s ->
  a_extend h (mem_max_addr s - mem_brk s) words =
    Some (a_coalesce (blocks h) size [] (lists h)) /\
  snd (extend_heap s words) =
    base_of s + snd (a_coalesce (blocks h) size [] (lists h)) /\
  let s' := fst (extend_heap s words) in
  let h' := fst (a_coalesce (blocks h) size [] (lists h)) in
  rep s' h' /\ wf [] h' /\
  mem_brk s' = mem_brk s + size /\ mem_max_addr s' = mem_max_addr s /\
  heap_listp s' = heap_listp s /\
  freelisttablehead s' = freelisttablehead s /\
  frame s (blocks h) (mem s) (mem s').
Proof.
  intros Hroom.
  pose proof (wf_sizes _ _ Hwf) as Hok.
  destruct (rep_geometry _ _ Hrep Hok)
    as (HT & HTb & Hbase & Hbrk & Htot & Hmax & H64).
  pose proof (rep_cap _ _ Hrep) as Hcap.
  split.
  { unfold a_extend. fold size.
    destruct (Z.leb_spec size (mem_max_addr s - mem_brk s)); [auto|lia]. }
  unfold extend_heap, mem_sbrk.
  assert (E : (if negb (words mod 2 =? 0)
               then wrap64 ((words + 1) * WSIZE)
               else wrap64 (words * WSIZE)) = size).
  { subst size. unfold WSIZE.
    destruct (words mod 2 =? 0); cbn [negb]; apply wrap64_small; lia. }
  rewrite E.
  destruct (Z.ltb_spec size 0) as [|_]; [lia|].
  destruct (Z.ltb_spec (mem_max_addr s) (mem_brk s + size)) as [|_]; [lia|].
  cbn [orb].
  destruct (Z.eqb_spec (mem_brk s) (-1)) as [|_]; [lia|].
  set (bp := mem_brk s).
  rewrite PACK_0. change (PACK 0 1) with 1.
  cbn [mem set_brk]. change (HDRP bp) with (bp - 4).
  assert (F1 : forall m', GET_SIZE m' (bp - 4) = size ->
                          FTRP m' bp = bp + size - 8).
  { intros m' H. unfold FTRP, HDRP, WSIZE, DSIZE. now rewrite H. }
  assert (F2 : forall m', GET_SIZE m' (bp - 4) = size ->
                          NEXT_BLKP m' bp = bp + size).
  { intros m' H. unfold NEXT_BLKP, WSIZE. now rewrite H. }
  rewrite F1 by (apply GET_SIZE_PUT_same; lia).
  rewrite F2 by (rewrite GET_SIZE_PUT_other by lia;
                 apply GET_SIZE_PUT_same; lia).
  change (HDRP (bp + size)) with (bp + size - 4).
  set (m3 := PUT (PUT (PUT (mem s) (bp - 4) size) (bp + size - 8) size)
                 (bp + size - 4) 1).
  set (s2 := set_mem (set_brk s (bp + size)) m3).
  assert (Hb2 : base_of s2 = base_of s) by reflexivity.
  assert (Hout : forall a, a < bp - 4 -> m3 a = mem s a).
  { intros a Ha. subst m3. rewrite !PUT_other by lia. reflexivity. }
  assert (Hr2 : rep s2 (mkHeap (blocks h ++ [(size, false)]) (lists h))).
  { constructor; cbn [blocks lists mem_brk s2 set_mem set_brk mem
                      mem_max_addr heap_listp freelisttablehead];
      try (now apply Hrep).
    - rewrite Hb2, total_app. cbn [total fst]. subst bp. lia.
    - subst bp. lia.
    - rewrite <- (rep_prologue_hdr _ _ Hrep). apply GET_ext. intros a Ha.
      apply Hout. subst bp. lia.
    - rewrite <- (rep_prologue_ftr _ _ Hrep). apply GET_ext. intros a Ha.
      apply Hout. subst bp. lia.
    - rewrite Hb2. apply blocks_seg_app. split.
      + apply (blocks_seg_frame (mem s)); auto; [|now apply Hrep].
        intros a Ha. apply Hout. subst bp. lia.
      + cbn [blocks_seg fst]. unfold tag. cbn [fst snd].
        replace (base_of s + total (blocks h)) with bp by (subst bp; lia).
        subst m3. repeat split; mem_simpl; lia.
    - subst m3. replace (bp + size - 4) with (bp + size - 4) by lia.
      mem_simpl. reflexivity.
    - intros i Hi.
      assert (E' : GETLP m3 (freelisttablehead s + 8 * Z.of_nat i) =
                  GETLP (mem s) (freelisttablehead s + 8 * Z.of_nat i)).
      { apply GETLP_ext. intros a Ha. apply Hout. subst bp. lia. }
      rewrite E'. apply (fseg_frame (mem s)); [|now apply Hrep].
      intros x a Hx Ha. apply (wf_listed _ _ Hwf) in Hx.
      destruct Hx as (_ & szx & Hinx & _).
      destruct (rep_block_bounds h Hok _ _ Hinx) as (? & ? & ? & ?).
      cbn [fst] in *. apply Hout. subst bp. lia. }
  assert (Hw2 : wf [total (blocks h)]
                   (mkHeap (blocks h ++ [(size, false)]) (lists h))).
  { destruct Hwf as [W1 W2 W3 W4]. constructor; cbn [blocks lists]; auto.
    - apply Forall_app. split; auto. repeat constructor; auto; cbn [fst]; lia.
    - intros i x. rewrite W4. cbn [In].
      split; intros (Hx & szx & Hb & Hc).
      + destruct (layout_bounds _ _ _ _ W1 Hb) as (? & ? & [? ?]).
        cbn [fst] in *. split; [lia|]. exists szx.
        rewrite layout_app, in_app_iff. auto.
      + split; [tauto|]. exists szx. split; [|assumption].
        rewrite layout_app, in_app_iff in Hb. destruct Hb as [Hb|Hb]; auto.
        cbn [layout In] in Hb. destruct Hb as [E'|[]]. invc E'. lia. }
  destruct (coalesce_spec s2 (blocks h) size [] (lists h) Hr2 Hw2)
    as (Hp & Hr3 & Hw3 & Hg3 & Hf3).
  rewrite Hb2 in Hp, Hr3, Hg3, Hf3.
  replace (base_of s + total (blocks h)) with bp in Hp, Hr3, Hg3, Hf3
    by (subst bp; lia).
  split; [exact Hp|]. cbv zeta.
  destruct Hg3 as (G1 & G2 & G3 & G4).
  split; [exact Hr3|]. split; [exact Hw3|].
  repeat split; try assumption.
  intros a Htab Hnf Hlt.
  rewrite Hf3.
  - apply Hout. subst bp. lia.
  - exact Htab.
  - rewrite in_free_extent_app. cbn [in_free_extent fst snd].
    intros [H|[[_ H]|[]]]; [now apply Hnf|].
    change (base_of s2) with (base_of s) in H. lia.
  - change (base_of s2) with (base_of s). rewrite total_app.
    cbn [total fst]. lia.
Qed.
End Extend.

(** * [free] *)

Lemma a_free_eq L sz R fl :
  Forall ok_size (L ++ (sz, true) :: R) ->
  a_free (mkHeap (L ++ (sz, true) :: R) fl) (total L) =
  fst (a_coalesce L sz R fl).
Proof.
  intros Hok. unfold a_free. cbn [blocks lists].
  replace (total L) with (0 + total L) at 1 by lia.
  rewrite split_at_mid by (apply Forall_app in Hok; tauto).
  reflexivity.
Qed.

Section Free.
Variables (s : State) (L : list blk) (sz : Z) (R : list blk).
Variable fl : list (list Z).

Let bl := L ++ (sz, true) :: R.
Let o := total L.
Let bp := base_of s + o.

Hypothesis Hrep : rep s (mkHeap bl fl).
Hypothesis Hwf : wf [] (mkHeap bl fl).

Lemma free_spec :
  step_ok s (L ++ (sz, false) :: R) (free s bp) (a_free (mkHeap bl fl) o).
Proof.
  pose proof (wf_sizes _ _ Hwf) as Hok. cbn [blocks] in Hok.
  unfold bl at 1. unfold o at 1. rewrite a_free_eq by exact Hok.
  destruct (rep_geometry _ _ Hrep Hok)
    as (HT & HTb & Hbase & Hbrk & Htot & Hmax & H64).
  cbn [blocks] in Hbrk, Htot, Hmax. subst bl.
  rewrite total_app in Htot, Hmax, Hbrk. cbn [total fst] in Htot, Hmax, Hbrk.
  pose proof (nb_ok L (sz, true) R Hok) as [Hc24 Hc8]. cbn [fst] in *.
  pose proof (nb_size s L _ R fl Hrep Hok) as Hsize.
  cbn [fst] in Hsize. fold o bp in Hsize.
  assert (HokL : Forall ok_size L) by (apply Forall_app in Hok; tauto).
  assert (HokR : Forall ok_size R).
  { apply Forall_app in Hok. destruct Hok as [_ H].
    apply Forall_cons_iff in H. tauto. }
  pose proof (total_nonneg _ HokL) as HL0.
  pose proof (total_nonneg _ HokR) as HR0.
  fold o in HL0, Htot, Hmax, Hbrk.
  unfold free.
  destruct (Z.eqb_spec bp 0) as [|_]; [subst bp; lia|]. cbn [negb].
  rewrite Hsize, PACK_0. change (HDRP bp) with (bp - 4).
  assert (F1 : forall m', GET_SIZE m' (bp - 4) = sz ->
                          FTRP m' bp = bp + sz - 8).
  { intros m' H. unfold FTRP, HDRP, WSIZE, DSIZE. now rewrite H. }
  rewrite F1 by (apply GET_SIZE_PUT_same; lia).
  set (m2 := PUT (PUT (mem s) (bp - 4) sz) (bp + sz - 8) sz).
  set (s2 := set_mem s m2).
  assert (Hg2 : same_globals s s2) by (unfold same_globals; cbn; auto).
  assert (Hout : forall a,
    a < base_of s + total L - 4 \/
    base_of s + total L + total [(sz, true)] - 4 <= a ->
    mem s2 a = mem s a).
  { fold o bp. cbn [total fst mem set_mem s2]. intros a Ha.
    subst m2. rewrite !PUT_other by lia. reflexivity. }
  assert (HokM' : Forall ok_size [(sz, false)]).
  { repeat constructor; cbn [fst]; auto. }
  assert (HMX : forall x szx,
    In (x, (szx, false)) (layout (total L) [(sz, true)]) -> In x []).
  { cbn [layout In]. intros x szx [E|[]]. discriminate. }
  change (L ++ (sz, true) :: R) with (L ++ [(sz, true)] ++ R) in Hrep, Hwf.
  assert (Hr2 : rep s2 (mkHeap (L ++ [(sz, false)] ++ R) fl)).
  { apply (rep_retag s s2 L [(sz, true)] _ R _ []); auto.
    fold o bp. cbn [blocks_seg fst mem set_mem s2].
    unfold tag. cbn [fst snd]. subst m2.
    repeat split; mem_simpl; lia. }
  assert (Hw2 : wf [o] (mkHeap (L ++ [(sz, false)] ++ R) fl)).
  { apply (wf_retag L [(sz, true)] _ R _ []); auto.
    - cbn [layout In fst]. intros x szx [E|[]]. left.
      apply (f_equal fst) in E. exact E.
    - intros x Hx. cbn [In total fst] in *. fold o in Hx. lia. }
  destruct (coalesce_spec s2 L sz R fl Hr2 Hw2)
    as (_ & Hr3 & Hw3 & Hg3 & Hf3).
  change (base_of s2 + total L) with bp in Hr3, Hg3, Hf3.
  split; [exact Hr3|]. split; [exact Hw3|]. split.
  - apply (same_globals_trans s s2); assumption.
  - intros a Htab Hnf Hlt. rewrite Hf3; auto.
    + apply Hout. fold o bp. cbn [total fst].
      destruct (Z_lt_dec a (bp - 4)); [now left|].
      destruct (Z_le_dec (bp + sz - 4) a); [right; lia|].
      exfalso. apply Hnf. apply in_free_extent_app. right.
      cbn [in_free_extent fst snd]. left. fold o bp. split; [reflexivity|lia].
Qed.
End Free.

(** * Fit search *)

Lemma find_app {A} (f : A -> bool) l1 l2 :
  find f (l1 ++ l2) =
  match find f l1 with Some x => Some x | None => find f l2 end.
Proof.
  induction l1 as [|x l1 IH]; cbn [find app]; [reflexivity|].
  destruct (f x); auto.
Qed.

Lemma find_first {A} (f : A -> bool) l x :
  find f l = Some x ->
  exists l1 l2, l = l1 ++ x :: l2 /\ (forall y, In y l1 -> f y = false) /\
                f x = true.
Proof.
  induction l as [|y l IH]; cbn [find]; [discriminate|].
  destruct (f y) eqn:E.
  - intros H. invc H. exists [], l. repeat split; auto. intros ? [].
  - intros H. destruct (IH H) as (l1 & l2 & -> & H1 & H2).
    exists (y :: l1), l2. repeat split; auto.
    intros z [<-|Hz]; auto.
Qed.

Lemma skipn_nth {A} (d : A) l : forall j,
  (j < length l)%nat -> skipn j l = nth j l d :: skipn (S j) l.
Proof.
  induction l as [|x l IH]; intros [|j] H; cbn [length] in H; try lia.
  - reflexivity.
  - cbn [skipn nth]. rewrite IH by lia. reflexivity.
Qed.

Lemma nth_firstn {A} (d : A) l : forall n j,
  (j < n)%nat -> nth j (firstn n l) d = nth j l d.
Proof.
  induction l as [|x l IH]; intros [|n] [|j] H; cbn [firstn nth]; try lia;
    auto. apply IH. lia.
Qed.

Section Scan.
Variables (m : memory) (base : Z) (bl : list blk) (asize : Z).
Hypothesis Hbase : 0 < base.
Hypothesis Hok : Forall ok_size bl.
Hypothesis Hseg : blocks_seg m base bl.

Let fits := fun o => asize <=? size_at bl o.
Let ptr := fun r : option Z =>
  match r with Some o => base + o | None => 0 end.

Lemma scan_list_spec : forall l prev head fuel,
  fseg m base prev l head 0 ->
  (forall o, In o l -> exists sz, In (o, (sz, false)) (layout 0 bl)) ->
  (length l < fuel)%nat ->
  scan_list fuel m asize head = Some (ptr (find fits l)).
Proof.
  induction l as [|o l IH]; intros prev head fuel Hl Hnodes Hfuel;
    (destruct fuel as [|fuel]; [cbn [length] in Hfuel; lia|]);
    cbn [fseg] in Hl; cbn [scan_list find].
  - subst head. reflexivity.
  - destruct Hl as (-> & _ & Hl).
    destruct (Hnodes o ltac:(now left)) as (sz & Hin).
    destruct (layout_bounds _ _ _ _ Hok Hin) as (Ho & _ & [Hsz Hsz8]).
    cbn [fst] in Hsz, Hsz8.
    destruct (blocks_seg_In _ _ _ _ _ Hseg Hin) as [Hh _].
    assert (Es : GET_SIZE m (HDRP (base + o)) = sz).
    { unfold HDRP, WSIZE. now apply (GET_SIZE_tag _ _ (sz, false)). }
    assert (Ea : GET_ALLOC m (HDRP (base + o)) = 0).
    { unfold HDRP, WSIZE. now apply (GET_ALLOC_tag _ _ (sz, false)). }
    rewrite Es, Ea.
    destruct (Z.eqb_spec (base + o) 0) as [|_]; [lia|].
    destruct (Z.ltb_spec 0 sz) as [_|]; [|lia].
    cbn [negb andb Z.eqb]. subst fits. cbn beta.
    rewrite (size_at_In _ _ _ Hok Hin). cbn [fst].
    destruct (asize <=? sz); [reflexivity|].
    apply (IH (base + o)).
    + exact Hl.
    + intros x Hx. apply Hnodes. now right.
    + cbn [length] in Hfuel. lia.
Qed.
End Scan.

Section FindFit.
Variables (s0 : State) (h : heap) (fuel : nat) (asize : Z).
Hypothesis Hrep : rep s0 h.
Hypothesis Hwf : wf [] h.
Hypothesis Hfuel : forall i, (length (nth i (lists h) []) < fuel)%nat.

Let fits := fun o => asize <=? size_at (blocks h) o.
Let ptr := fun r : option Z =>
  match r with Some o => base_of s0 + o | None => 0 end.

Lemma find_fit_from_spec : forall n s i,
  Z.of_nat n + i = 20 -> 1 <= i ->
  mem s = mem s0 -> same_globals s0 s ->
  exists s',
    find_fit_from fuel n s asize i =
      Some (s', ptr (find fits (concat (skipn (Z.to_nat (i - 1))
                                              (firstn 19 (lists h)))))) /\
    mem s' = mem s0 /\ same_globals s0 s'.
Proof.
  pose proof (wf_sizes _ _ Hwf) as Hok.
  destruct (rep_geometry _ _ Hrep Hok)
    as (HT & HTb & Hbase & Hbrk & Htot & Hmax & H64).
  induction n as [|n IH]; intros s i Hn Hi Hm Hg.
  - exists s. cbn [find_fit_from]. replace (Z.to_nat (i - 1)) with 19%nat by lia.
    rewrite skipn_all2 by (rewrite length_firstn; lia).
    cbn [concat find ptr]. auto.
  - cbn [find_fit_from].
    set (j := Z.to_nat (i - 1)).
    assert (Hj : (j < 19)%nat) by lia.
    assert (Hlen : length (firstn 19 (lists h)) = 19%nat).
    { rewrite length_firstn, (wf_len _ _ Hwf). reflexivity. }
    rewrite (skipn_nth [] _ j) by lia.
    rewrite nth_firstn by assumption. cbn [concat]. rewrite find_app.
    set (s1 := set_freelisthead s (GETLP (mem s) (slot s i))).
    assert (Hslot : slot s i = freelisttablehead s0 + 8 * Z.of_nat j).
    { unfold slot, DSIZE. destruct Hg as (_ & _ & _ & ->). subst j. lia. }
    cbn [mem freelisthead s1 set_freelisthead]. rewrite Hslot, Hm.
    pose proof (rep_lists _ _ Hrep j ltac:(lia)) as Hl.
    rewrite (scan_list_spec (mem s0) (base_of s0) (blocks h) asize
               ltac:(lia) Hok (rep_blocks _ _ Hrep) _ 0 _ fuel Hl).
    + fold fits. destruct (find fits (nth j (lists h) [])) as [x|] eqn:Ef.
      * apply find_some in Ef. destruct Ef as [Hx _].
        apply (wf_listed _ _ Hwf) in Hx. destruct Hx as (_ & szx & Hb & _).
        destruct (rep_block_bounds h Hok _ _ Hb) as (Hx0 & _).
        destruct (Z.eqb_spec (base_of s0 + x) 0) as [|_]; [lia|].
        exists s1. cbn [ptr]. repeat split; auto;
          destruct Hg as (? & ? & ? & ?); auto.
      * rewrite Z.eqb_refl.
        destruct (IH s1 (i + 1)) as (s' & E & Hm' & Hg');
          [lia|lia|exact Hm|exact Hg|].
        exists s'. replace (Z.to_nat (i + 1 - 1)) with (S j) in E by lia.
        auto.
    + intros x Hx. apply (wf_listed _ _ Hwf) in Hx.
      destruct Hx as (_ & szx & Hb & _). eauto.
    + apply Hfuel.
Qed.

Lemma find_fit_spec :
  exists s',
    find_fit fuel s0 asize = Some (s', ptr (a_find_fit h asize)) /\
    mem s' = mem s0 /\ same_globals s0 s'.
Proof.
  unfold find_fit, a_find_fit, candidates. fold (class_of asize).
  pose proof (class_of_range asize) as Hc.
  apply find_fit_from_spec; auto.
  - unfold MAXFREESIZE. lia.
  - lia.
  - apply same_globals_refl.
Qed.
End FindFit.

(** Classes grow with the size. *)
Lemma class_of_mono a b :
  0 <= a <= b -> b < 2 ^ 31 -> class_of a <= class_of b.
Proof.
  intros Hab Hb. unfold class_of. rewrite !to_int_small by lia.
  assert (Hq : Z.quot a 8 <= Z.quot b 8) by (apply Z.quot_le_mono; lia).
  unfold choosefreetable_bysize, DSIZE, LIST1, LIST2, LIST3, LIST4, LIST5,
    LIST6, LIST7, LIST8, LIST9, LIST10, LIST11, LIST12, LIST13, LIST14,
    LIST15, LIST16, LIST17.
  set (qa := Z.quot a 8) in *. set (qb := Z.quot b 8) in *.
  clearbody qa qb. clear Hab Hb.
  repeat match goal with
  | |- context [if ?x <=? ?y then _ else _] => destruct (Z.leb_spec x y)
  end; lia.
Qed.

(** * Initialisation *)

Lemma clear_from_other T l : forall m a,
  (forall i, In i l ->
     a < T + Z.of_nat i * DSIZE \/ T + Z.of_nat i * DSIZE + 8 <= a) ->
  fold_left (fun m i => PUTLP m (T + Z.of_nat i * DSIZE) 0) l m a = m a.
Proof.
  induction l as [|x l IH]; intros m a H; cbn [fold_left]; [reflexivity|].
  rewrite IH by (intros i Hi; apply H; now right).
  apply PUTLP_other. apply H. now left.
Qed.

Lemma clear_from_zero T l : forall m i,
  In i l ->
  GETLP (fold_left (fun m i => PUTLP m (T + Z.of_nat i * DSIZE) 0) l m)
        (T + Z.of_nat i * DSIZE) = 0.
Proof.
  induction l as [|x l IH]; intros m i Hi; cbn [fold_left]; [contradiction|].
  destruct (in_dec Nat.eq_dec i l) as [Hl|Hl]; [now apply IH|].
  destruct Hi as [<-|Hi]; [|contradiction].
  rewrite (GETLP_ext (PUTLP m (T + Z.of_nat x * DSIZE) 0)).
  - apply GETLP_PUTLP_same. lia.
  - intros a Ha. apply clear_from_other. intros j Hj.
    assert (j <> x) by congruence. unfold DSIZE in *. lia.
Qed.

Lemma clear_slots_zero m T i :
  (i < 20)%nat -> GETLP (clear_slots m T) (T + 8 * Z.of_nat i) = 0.
Proof.
  intros Hi. unfold clear_slots.
  replace (T + 8 * Z.of_nat i) with (T + Z.of_nat i * DSIZE)
    by (unfold DSIZE; lia).
  apply clear_from_zero. apply in_seq. unfold MAXFREESIZE. lia.
Qed.

Lemma clear_slots_other m T a :
  a < T \/ T + 160 <= a -> clear_slots m T a = m a.
Proof.
  intros Ha. unfold clear_slots. apply clear_from_other.
  intros i Hi. apply in_seq in Hi. unfold MAXFREESIZE, DSIZE in *. lia.
Qed.

Lemma wf_empty : wf [] a_empty.
Proof.
  constructor; cbn [blocks lists a_empty].
  - constructor.
  - apply repeat_length.
  - intros i. rewrite nth_repeat. constructor.
  - intros i o. rewrite nth_repeat. cbn [In layout]. split; [tauto|].
    intros (_ & sz & [] & _).
Qed.

Lemma a_init_coalesce :
  a_coalesce (blocks a_empty) CHUNKSIZE [] (lists a_empty) = (a_init, 0).
Proof. reflexivity. Qed.

Section Init.
Variable s : State.
Hypothesis Hfresh : fresh s.

Let b0 := mem_brk s.

(** The state in which [mm_init] calls [extend_heap]. *)
Let m7 :=
  PUT (PUT (PUT (PUT
    (clear_slots (PUT (PUT (mem s) (b0 + 4) 169) (b0 + 168) 169) (b0 + 8))
    (b0 + 168) 0) (b0 + 172) 9) (b0 + 176) 9) (b0 + 180) 1.
Let s_pre :=
  mkState m7 (b0 + 184) (mem_max_addr s) (b0 + 176) (freelisthead s)
          (b0 + 8).

Lemma mm_init_unfold :
  mm_init s =
  (let '(s', bp) := extend_heap s_pre (CHUNKSIZE / WSIZE) in
   if bp =? 0 then (s', -1) else (s', 0)).
Proof.
  destruct Hfresh as (_ & Hb & _ & Hroom & _ & _). fold b0 in Hb, Hroom.
  unfold mm_init, mem_sbrk. change freeslistnum with 168.
  fold b0.
  destruct (Z.ltb_spec (mem_max_addr s) (b0 + 168)) as [|_]; [lia|].
  cbn [Z.ltb Z.compare orb mem_brk mem_max_addr mem set_brk set_mem
       set_freelisttablehead set_heap_listp freelisttablehead heap_listp
       freelisthead].
  change (4 * WSIZE) with 16.
  destruct (Z.ltb_spec (mem_max_addr s) (b0 + 168 + 16)) as [|_]; [lia|].
  cbn [Z.ltb Z.compare orb mem_brk mem_max_addr mem set_brk set_mem
       set_freelisttablehead set_heap_listp freelisttablehead heap_listp
       freelisthead].
  destruct (Z.eqb_spec (b0 + 168) (-1)) as [|_]; [lia|].
  change (PACK 168 1) with 169. change (PACK DSIZE 1) with 9.
  change (PACK 0 1) with 1.
  assert (E1 : HDRP (b0 + DSIZE) = b0 + 4) by (unfold HDRP, DSIZE, WSIZE; lia).
  rewrite E1.
  assert (E2 : FTRP (PUT (mem s) (b0 + 4) 169) (b0 + DSIZE) = b0 + 168).
  { unfold FTRP. rewrite E1.
    rewrite (GET_SIZE_tag _ _ (168, true)).
    - cbn [fst]. unfold DSIZE. lia.
    - rewrite GET_PUT_same by lia. reflexivity.
    - reflexivity. }
  rewrite E2.
  assert (E3 : b0 + 168 + 1 * WSIZE = b0 + 172) by (unfold WSIZE; lia).
  assert (E4 : b0 + 168 + 2 * WSIZE = b0 + 176) by (unfold WSIZE; lia).
  assert (E5 : b0 + 168 + 3 * WSIZE = b0 + 180) by (unfold WSIZE; lia).
  assert (E6 : b0 + 168 + 16 = b0 + 184) by lia.
  assert (E7 : b0 + DSIZE = b0 + 8) by (unfold DSIZE; lia).
  rewrite E3, E4, E5, E6, E7. reflexivity.
Qed.

Lemma rep_pre : rep s_pre a_empty.
Proof.
  destruct Hfresh as (_ & Hb & Hb8 & Hroom & Hcap & H64).
  fold b0 in Hb, Hb8, Hroom, Hcap.
  constructor;
    cbn [s_pre mem mem_brk mem_max_addr heap_listp freelisttablehead
         blocks lists a_empty total blocks_seg];
    unfold base_of, DSIZE; cbn [heap_listp s_pre]; try lia; auto.
  - mod8.
  - subst m7. replace (b0 + 176 - 4) with (b0 + 172) by lia.
    mem_simpl. reflexivity.
  - subst m7. mem_simpl. reflexivity.
  - subst m7. replace (b0 + 184 - 4) with (b0 + 180) by lia.
    mem_simpl. reflexivity.
  - intros i Hi. rewrite nth_repeat. cbn [fseg].
    subst m7. mem_simpl. apply clear_slots_zero. exact Hi.
Qed.

Lemma mm_init_spec :
  let s' := fst (mm_init s) in
  snd (mm_init s) = 0 /\ rep s' a_init /\ wf [] a_init /\
  no_adj (blocks a_init) /\
  heap_listp s' = mem_brk s + 176 /\
  freelisttablehead s' = mem_brk s + 8 /\
  mem_max_addr s' = mem_max_addr s /\ mem_brk s' = mem_brk s + 352.
Proof.
  destruct Hfresh as (_ & Hb & Hb8 & Hroom & Hcap & H64).
  fold b0 in Hb, Hb8, Hroom, Hcap.
  rewrite mm_init_unfold.
  destruct (extend_heap_ok s_pre a_empty (CHUNKSIZE / WSIZE) rep_pre
              wf_empty)
    as (_ & Hp & Hr & Hw & G1 & G2 & G3 & G4 & _).
  { change (CHUNKSIZE / WSIZE) with 42. cbn. lia. }
  { reflexivity. }
  { change (CHUNKSIZE / WSIZE) with 42. cbn [s_pre mem_max_addr mem_brk].
    change (if 42 mod 2 =? 0 then 42 * 4 else (42 + 1) * 4) with 168. lia. }
  change (if CHUNKSIZE / WSIZE mod 2 =? 0
          then CHUNKSIZE / WSIZE * 4 else (CHUNKSIZE / WSIZE + 1) * 4)
    with CHUNKSIZE in Hp, Hr, Hw, G1.
  rewrite a_init_coalesce in Hp, Hr, Hw. cbn [fst snd] in Hp, Hr, Hw.
  destruct (extend_heap s_pre (CHUNKSIZE / WSIZE)) as [s' bp].
  cbn [fst snd] in *.
  assert (Hbp : bp = b0 + 184) by (rewrite Hp; unfold base_of, DSIZE; cbn [heap_listp s_pre]; lia).
  destruct (Z.eqb_spec bp 0) as [|_]; [lia|].
  cbn [fst snd]. unfold CHUNKSIZE in G1.
  cbn [s_pre mem_brk heap_listp freelisttablehead mem_max_addr]
    in G1, G2, G3, G4.
  split; [reflexivity|]. split; [exact Hr|]. split; [exact Hw|].
  split; [exact I|]. subst b0. repeat split; lia.
Qed.
End Init.

(** * The size adjustment *)

Lemma adjust_small size : size <= 8 -> adjust size = 24.
Proof.
  intros H. unfold adjust, DSIZE.
  destruct (Z.leb_spec size 8); [reflexivity|lia].
Qed.

Lemma adjust_large size :
  8 < size -> size + 15 < 2 ^ 64 ->
  adjust size = 8 * ((size + 8 + 7) / 8).
Proof.
  intros H1 H2. unfold adjust, DSIZE.
  destruct (Z.leb_spec size 8); [lia|].
  change (8 - 1) with 7.
  rewrite (wrap64_small (size + 8 + 7)) by lia.
  apply wrap64_small.
  pose proof (Z.mul_div_le (size + 8 + 7) 8 ltac:(lia)).
  assert (0 <= (size + 8 + 7) / 8) by (apply Z.div_pos; lia). lia.
Qed.

Lemma adjust_ok size :
  0 < size -> size + 15 < 2 ^ 64 ->
  24 <= adjust size /\ adjust size mod 8 = 0 /\
  size + 8 <= adjust size < 2 ^ 64.
Proof.
  intros H1 H2. destruct (Z_le_dec size 8) as [Hs|Hs].
  - rewrite adjust_small by assumption. repeat split; lia.
  - rewrite adjust_large by lia.
    pose proof (Z.mul_div_le (size + 8 + 7) 8 ltac:(lia)) as Hle.
    pose proof (Z.mod_pos_bound (size + 8 + 7) 8 ltac:(lia)) as Hmod.
    pose proof (Z.div_mod (size + 8 + 7) 8 ltac:(lia)) as Hdm.
    repeat split; try lia.
    rewrite Z.mul_comm. apply Z.mod_mul. lia.
Qed.

(** * States that differ in the scratch global only *)

Lemma rep_same s s' h :
  mem s' = mem s -> same_globals s s' -> rep s h -> rep s' h.
Proof.
  intros Hm (G1 & G2 & G3 & G4) Hr.
  assert (Hb : base_of s' = base_of s) by (unfold base_of; now rewrite G3).
  constructor; rewrite ?Hm, ?G1, ?G2, ?G3, ?G4, ?Hb; apply Hr.
Qed.

(** * Pure facts about placement *)

Lemma a_coalesce_extent L sz R fl p a :
  Forall ok_size (L ++ (sz, false) :: R) ->
  in_free_extent p (blocks (fst (a_coalesce L sz R fl))) a <->
  in_free_extent p (L ++ (sz, false) :: R) a.
Proof.
  intros Hok. unfold a_coalesce.
  destruct (snd (last L prologue)) eqn:Ep;
    destruct (snd (hd epilogue R)) eqn:En; cbn [fst snd blocks].
  - reflexivity.
  - destruct R as [|[sz2 a2] R']; cbn [hd epilogue snd fst tl] in *;
      [discriminate|]. subst a2.
    apply Forall_app in Hok. destruct Hok as [_ Hok].
    apply Forall_cons_iff in Hok. destruct Hok as [[H0 _] Hok].
    apply Forall_cons_iff in Hok. destruct Hok as [[H2 _] _].
    cbn [fst] in H0, H2.
    rewrite !in_free_extent_app. cbn [in_free_extent fst snd].
    replace (p + total L + (sz + sz2)) with (p + total L + sz + sz2) by lia.
    intuition lia.
  - destruct (list_snoc_case L) as [->|(L' & [sz0 a0] & ->)];
      [discriminate|].
    rewrite last_last in *. rewrite removelast_last. cbn [snd fst] in *.
    subst a0. rewrite <- app_assoc in *. cbn [app] in *.
    apply Forall_app in Hok. destruct Hok as [_ Hok].
    apply Forall_cons_iff in Hok. destruct Hok as [[H0 _] Hok].
    apply Forall_cons_iff in Hok. destruct Hok as [[H2 _] _].
    cbn [fst] in H0, H2.
    rewrite !in_free_extent_app. cbn [in_free_extent fst snd].
    replace (p + total L' + (sz + sz0)) with (p + total L' + sz0 + sz) by lia.
    intuition lia.
  - destruct (list_snoc_case L) as [->|(L' & [sz0 a0] & ->)];
      [discriminate|].
    destruct R as [|[sz2 a2] R']; cbn [hd epilogue snd fst tl] in *;
      [discriminate|]. subst a2.
    rewrite last_last in *. rewrite removelast_last. cbn [snd fst] in *.
    subst a0. rewrite <- app_assoc in *. cbn [app] in *.
    apply Forall_app in Hok. destruct Hok as [_ Hok].
    apply Forall_cons_iff in Hok. destruct Hok as [[H0 _] Hok].
    apply Forall_cons_iff in Hok. destruct Hok as [[H1 _] Hok].
    apply Forall_cons_iff in Hok. destruct Hok as [[H2 _] _].
    cbn [fst] in H0, H1, H2.
    rewrite !in_free_extent_app. cbn [in_free_extent fst snd].
    replace (p + total L' + (sz + sz0 + sz2))
      with (p + total L' + sz0 + sz + sz2) by lia.
    intuition lia.
Qed.

Section PlacePure.
Variables (L : list blk) (csize : Z) (R : list blk).
Variables (fl : list (list Z)) (asize : Z).
Hypothesis Hok : Forall ok_size (L ++ (csize, false) :: R).
Hypothesis Hasz : 24 <= asize <= csize.
Hypothesis Ha8 : asize mod 8 = 0.

Let h := mkHeap (L ++ (csize, false) :: R) fl.
Let o := total L.
Let h' :=
  if 24 <=? csize - asize then
    fst (a_coalesce (L ++ [(asize, true)]) (csize - asize) R
                    (a_delete fl o csize))
  else mkHeap (L ++ (csize, true) :: R) (a_delete fl o csize).

Lemma split_ok :
  24 <= csize - asize ->
  Forall ok_size ((L ++ [(asize, true)]) ++ (csize - asize, false) :: R).
Proof.
  intros Hs. apply Forall_app in Hok. destruct Hok as [HL HR].
  apply Forall_cons_iff in HR. destruct HR as [[H1 H2] HR].
  cbn [fst] in H1, H2.
  rewrite <- app_assoc. apply Forall_app. split; [assumption|].
  repeat constructor; cbn [fst]; auto; try lia. mod8.
Qed.

Lemma a_place_no_adj :
  no_adj (L ++ (csize, false) :: R) -> no_adj (blocks h').
Proof.
  intros Hna. apply no_adj_app in Hna. destruct Hna as (HL & HR & _).
  apply no_adj_cons in HR. destruct HR as [_ HR]. subst h'.
  destruct (24 <=? csize - asize).
  - apply a_coalesce_no_adj; [|assumption].
    apply no_adj_snoc. cbn [snd]. rewrite orb_true_r. auto.
  - cbn [blocks]. apply no_adj_app. repeat split; auto.
    + apply no_adj_cons. cbn [snd orb]. auto.
    + cbn [hd snd]. apply orb_true_r.
Qed.

Lemma a_place_total : total (blocks h') = total (L ++ (csize, false) :: R).
Proof.
  subst h'. destruct (Z.leb_spec 24 (csize - asize)) as [Hs|Hs].
  - destruct (a_coalesce_result _ _ _ (a_delete fl o csize) (split_ok Hs))
      as (_ & _ & _ & _ & _ & _ & Ht & _).
    rewrite Ht, !total_app. cbn [total fst]. lia.
  - cbn [blocks]. rewrite !total_app. reflexivity.
Qed.

Lemma a_place_extent p a :
  in_free_extent p (blocks h') a ->
  in_free_extent p (L ++ (csize, false) :: R) a.
Proof.
  subst h'. destruct (Z.leb_spec 24 (csize - asize)) as [Hs|Hs].
  - rewrite a_coalesce_extent by (now apply split_ok).
    rewrite <- app_assoc. cbn [app].
    rewrite !in_free_extent_app. cbn [in_free_extent fst snd].
    replace (p + total L + asize + (csize - asize))
      with (p + total L + csize) by lia.
    intuition (try discriminate; lia).
  - cbn [blocks]. rewrite !in_free_extent_app.
    cbn [in_free_extent fst snd]. intuition discriminate.
Qed.

(** The placed block is allocated, at least [asize] large, and every
    block that was allocated still is. *)
Lemma a_place_result :
  (exists sz, asize <= sz /\
              In (o, (sz, true)) (layout 0 (blocks h'))) /\
  (forall x szx, In (x, (szx, true)) (layout 0 (L ++ (csize, false) :: R)) ->
                 In (x, (szx, true)) (layout 0 (blocks h'))).
Proof.
  subst h'. destruct (Z.leb_spec 24 (csize - asize)) as [Hs|Hs].
  - destruct (a_coalesce_result _ _ _ (a_delete fl o csize) (split_ok Hs))
      as (_ & _ & _ & _ & _ & _ & _ & Hall).
    split.
    + exists asize. split; [lia|]. apply Hall.
      rewrite <- app_assoc. cbn [app].
      replace o with (0 + total L) by (subst o; lia). apply In_layout_mid.
    + intros x szx Hx. apply Hall. rewrite <- app_assoc. cbn [app].
      rewrite layout_app, in_app_iff in *. cbn [layout In fst] in *.
      destruct Hx as [Hx|[Hx|Hx]]; [auto|discriminate|].
      right. right. right.
      now replace (0 + total L + asize + (csize - asize))
        with (0 + total L + csize) by lia.
  - cbn [blocks]. split.
    + exists csize. split; [lia|].
      replace o with (0 + total L) by (subst o; lia). apply In_layout_mid.
    + intros x szx Hx. rewrite layout_app, in_app_iff in *.
      cbn [layout In fst] in *. destruct Hx as [Hx|[Hx|Hx]]; auto.
      discriminate.
Qed.
End PlacePure.

(** * [malloc] on an initialised heap *)

Lemma In_candidates fl asize o :
  In o (candidates fl asize) -> exists i, In o (nth i fl []).
Proof.
  unfold candidates. intros H. apply in_concat in H.
  destruct H as (l & Hl & Ho).
  assert (Hfl : In l fl).
  { rewrite <- (firstn_skipn 19 fl). apply in_or_app. left.
    rewrite <- (firstn_skipn (Z.to_nat (class_of asize - 1)) (firstn 19 fl)).
    apply in_or_app. now right. }
  destruct (In_nth _ _ [] Hfl) as (i & _ & E). exists i. now rewrite E.
Qed.

Lemma words_size e :
  0 <= e -> e mod 8 = 0 ->
  (if (e / 4) mod 2 =? 0 then e / 4 * 4 else (e / 4 + 1) * 4) = e.
Proof.
  intros He H8. destruct (mod8_mult _ H8) as [k ->].
  replace (8 * k) with (2 * k * 4) by lia. rewrite Z.div_mul by lia.
  replace (2 * k) with (k * 2) by lia. rewrite Z.mod_mul by lia.
  cbn [Z.eqb]. lia.
Qed.

Lemma MAX_spec x y : MAX x y = Z.max x y.
Proof. unfold MAX. destruct (Z.ltb_spec y x); lia. Qed.

Section Malloc.
Variables (s : State) (h : heap) (fuel : nat) (size : Z).
Hypothesis Hinv : inv s h.
Hypothesis Hfuel : forall i, (length (nth i (lists h) []) < fuel)%nat.
Hypothesis Hsize : 0 < size.
Hypothesis Hwrap : size + 15 < 2 ^ 64.

Let room := mem_max_addr s - mem_brk s.
Let r := a_malloc h room size.

Lemma malloc_spec :
  exists s',
    malloc fuel s size = Some (s', ptr_of s (snd r)) /\
    inv s' (fst r) /\ same_heap_globals s s' /\
    frame s (blocks h) (mem s) (mem s') /\
    (snd r = None -> mem s' = mem s /\ mem_brk s' = mem_brk s /\ fst r = h) /\
    (forall o, snd r = Some o ->
       (exists sz, adjust size <= sz /\
                   In (o, (sz, true)) (layout 0 (blocks (fst r)))) /\
       (forall x szx, In (x, (szx, true)) (layout 0 (blocks h)) ->
                      In (x, (szx, true)) (layout 0 (blocks (fst r))))).
Proof.
  destruct Hinv as (Hrep & Hwf & Hna).
  pose proof (wf_sizes _ _ Hwf) as Hok.
  destruct (rep_geometry _ _ Hrep Hok)
    as (HT & HTb & Hbase & Hbrk & Htot & Hmax & H64).
  destruct (adjust_ok size Hsize Hwrap) as (Ha24 & Ha8 & Hasz).
  unfold malloc.
  destruct (Z.eqb_spec (heap_listp s) 0) as [|_]; [lia|].
  destruct (Z.eqb_spec size 0) as [|_]; [lia|].
  destruct (find_fit_spec s h fuel (adjust size) Hrep Hwf Hfuel)
    as (s1 & Ef & Hm1 & Hg1).
  rewrite Ef.
  assert (Hb1 : base_of s1 = base_of s).
  { unfold base_of. destruct Hg1 as (_ & _ & -> & _). reflexivity. }
  assert (Hrep1 : rep s1 h) by (apply (rep_same s); auto).
  subst r. unfold a_malloc.
  destruct (Z.eqb_spec size 0) as [|_]; [lia|].
  destruct (a_find_fit h (adjust size)) as [o|] eqn:Eff.
  - (* a fit *)
    unfold a_find_fit in Eff. apply find_some in Eff.
    destruct Eff as [Hcand Hfits].
    destruct (In_candidates _ _ _ Hcand) as (i & Hi).
    apply (wf_listed _ _ Hwf) in Hi. destruct Hi as (_ & sz & Hb & _).
    rewrite (size_at_In _ _ _ Hok Hb) in Hfits. cbn [fst] in Hfits.
    apply Z.leb_le in Hfits.
    destruct (layout_In_split _ _ _ _ Hb) as (L & R & Ebl & Eo).
    rewrite Z.add_0_l in Eo. subst o.
    destruct h as [bl fl]. cbn [blocks lists] in *. subst bl.
    cbn [snd fst]. unfold ptr_of.
    assert (HL0 : 0 <= total L).
    { apply total_nonneg. apply Forall_app in Hok. tauto. }
    destruct (Z.eqb_spec (base_of s + total L) 0) as [|_]; [lia|].
    cbn [negb].
    destruct (place_spec s1 L sz R fl (adjust size) Hrep1
                ltac:(assumption) ltac:(lia) Ha8)
      as (Hr2 & Hw2 & Hg2 & Hf2).
    rewrite Hb1 in Hr2, Hg2, Hf2.
    exists (place s1 (base_of s + total L) (adjust size)).
    split; [reflexivity|]. split; [|split; [|split; [|split]]].
    + split; [exact Hr2|]. split; [exact Hw2|].
      rewrite a_place_eq by assumption.
      apply a_place_no_adj; auto.
    + destruct Hg1 as (? & ? & ? & ?). destruct Hg2 as (? & ? & ? & ?).
      unfold same_heap_globals. repeat split; congruence.
    + rewrite <- Hm1. apply (frame_globals s1); [|exact Hf2].
      destruct Hg1 as (? & ? & ? & ?). unfold same_globals. auto.
    + discriminate.
    + intros o Eo. invc Eo. rewrite a_place_eq by assumption.
      apply a_place_result; auto.
  - (* no fit: extend *)
    unfold ptr_of at 1. rewrite Z.eqb_refl. cbn [negb].
    set (e := MAX (adjust size) CHUNKSIZE).
    assert (He : 168 <= e /\ adjust size <= e /\ e mod 8 = 0 /\ e < 2 ^ 64).
    { subst e. rewrite MAX_spec. unfold CHUNKSIZE. repeat split; try lia.
      destruct (Z.max_spec (adjust size) 168) as [[_ ->]|[_ ->]];
        [reflexivity|assumption]. }
    destruct He as (He1 & He2 & He8 & He64).
    change (e / WSIZE) with (e / 4).
    assert (Hws := words_size e ltac:(lia) He8).
    assert (Hroom1 : mem_max_addr s1 - mem_brk s1 = room).
    { subst room. destruct Hg1 as (-> & -> & _). reflexivity. }
    destruct (Z_le_dec e room) as [Hfit|Hnofit].
    + (* the provider gives *)
      destruct (extend_heap_ok s1 h (e / 4) Hrep1 Hwf)
        as (Eext & Hp & Hr2 & Hw2 & G1 & G2 & G3 & G4 & Hf2);
        rewrite ?Hws, ?Hroom1; try lia; try assumption.
      rewrite Hws in *. rewrite Hroom1 in Eext. rewrite Eext.
      pose proof (a_coalesce_no_adj (blocks h) e [] (lists h) Hna I) as Hna2.
      assert (Hok2 : Forall ok_size (blocks h ++ [(e, false)])).
      { apply Forall_app. split; [assumption|].
        repeat constructor; cbn [fst]; auto. lia. }
      destruct (a_coalesce_result (blocks h) e [] (lists h) Hok2)
        as (L' & sz' & R' & Ebl & Eo & Hsz' & Htot' & Hall).
      pose proof (fun p a => a_coalesce_extent (blocks h) e [] (lists h) p a
                               Hok2) as Hext.
      destruct (a_coalesce (blocks h) e [] (lists h)) as [[bl2 fl2] o2].
      cbn [fst snd blocks lists] in *. subst bl2 o2.
      destruct (extend_heap s1 (e / 4)) as [s2 bp].
      cbn [fst snd] in *. subst bp. rewrite Hb1.
      destruct (Z.eqb_spec (base_of s + total L') 0) as [|_].
      { pose proof (total_nonneg L' ltac:(apply Forall_app in Hok2;
          pose proof (wf_sizes _ _ Hw2) as H; cbn [blocks] in H;
          apply Forall_app in H; tauto)). lia. }
      assert (Hb2 : base_of s2 = base_of s).
      { unfold base_of. rewrite G3. destruct Hg1 as (_ & _ & -> & _).
        reflexivity. }
      destruct (place_spec s2 L' sz' R' fl2 (adjust size) Hr2 Hw2
                  ltac:(lia) Ha8) as (Hr3 & Hw3 & Hg3 & Hf3).
      rewrite Hb2 in Hr3, Hg3, Hf3.
      exists (place s2 (base_of s + total L') (adjust size)).
      cbn [fst snd ptr_of].
      split; [reflexivity|]. split; [|split; [|split; [|split]]].
      * split; [exact Hr3|]. split; [exact Hw3|].
        pose proof (wf_sizes _ _ Hw2) as Hok2'. cbn [blocks] in Hok2'.
        rewrite a_place_eq by assumption.
        apply a_place_no_adj; auto.
      * destruct Hg1 as (? & ? & ? & ?). destruct Hg3 as (? & ? & ? & ?).
        unfold same_heap_globals. repeat split; congruence.
      * intros a Htab Hnf Hlt.
        assert (Hg12 : same_globals s s2 -> True) by auto.
        rewrite Hf3.
        -- rewrite Hf2, Hm1; auto.
           ++ destruct Hg1 as (_ & _ & _ & ->). exact Htab.
           ++ now rewrite Hb1.
           ++ rewrite Hb1. exact Hlt.
        -- rewrite G4. destruct Hg1 as (_ & _ & _ & ->). exact Htab.
        -- rewrite Hb2, Hext, in_free_extent_app.
           cbn [in_free_extent fst snd]. intros [H|[[_ H]|[]]];
             [now apply Hnf|lia].
        -- rewrite Hb2, Htot', total_app. cbn [total fst]. lia.
      * discriminate.
      * intros o Eo. invc Eo.
        pose proof (wf_sizes _ _ Hw2) as Hok2'. cbn [blocks] in Hok2'.
        rewrite a_place_eq by assumption.
        destruct (a_place_result L' sz' R' fl2 (adjust size) Hok2'
                    ltac:(lia) Ha8) as [Hres Hkeep].
        split; [exact Hres|]. intros x szx Hx. apply Hkeep, Hall.
        rewrite layout_app, in_app_iff. now left.
    + (* the provider refuses *)
      destruct (extend_heap_fail s1 h (e / 4)) as [Eext Eabs];
        rewrite ?Hws, ?Hroom1; try lia.
      rewrite Hroom1 in Eabs. rewrite Eext, Eabs, Z.eqb_refl.
      exists s1. cbn [fst snd ptr_of].
      split; [reflexivity|]. split; [|split; [|split; [|split]]].
      * split; [exact Hrep1|]. split; assumption.
      * destruct Hg1 as (? & ? & ? & ?).
        unfold same_heap_globals. auto.
      * rewrite Hm1. apply frame_refl.
      * intros _. destruct Hg1 as (? & ? & ? & ?). auto.
      * discriminate.
Qed.
End Malloc.

(** * Allocated blocks are outside every frame *)

Lemma alloc_not_free bl p o sz a :
  Forall ok_size bl -> In (o, (sz, true)) (layout 0 bl) ->
  p + o - 4 <= a < p + o + sz - 4 -> ~ in_free_extent p bl a.
Proof.
  intros Hok Hin Ha Hf. apply in_free_extent_In0 in Hf.
  destruct Hf as (o' & sz' & Hin' & Ha').
  destruct (layout_sep _ _ _ _ _ _ Hok Hin Hin') as [[_ E]|E];
    [discriminate|]. cbn [fst] in E. lia.
Qed.

Lemma frame_alloc s bl m m' o sz a :
  frame s bl m m' -> Forall ok_size bl ->
  freelisttablehead s + 172 <= base_of s ->
  In (o, (sz, true)) (layout 0 bl) ->
  base_of s + o - 4 <= a < base_of s + o + sz - 4 ->
  m' a = m a.
Proof.
  intros Hf Hok HT Hin Ha.
  destruct (layout_bounds _ _ _ _ Hok Hin) as (Ho & Hs & _).
  cbn [fst] in Hs.
  apply Hf; [lia| |lia]. now apply (alloc_not_free bl _ o sz).
Qed.

(** Writing into the payload of an allocated block keeps the
    representation. *)
Lemma rep_payload_write s h X o sz m' :
  rep s h -> wf X h -> In (o, (sz, true)) (layout 0 (blocks h)) ->
  (forall a, a < base_of s + o \/ base_of s + o + sz - 8 <= a ->
             m' a = mem s a) ->
  rep (set_mem s m') h.
Proof.
  intros Hrep Hwf Hin Hout.
  pose proof (wf_sizes _ _ Hwf) as Hok.
  destruct (layout_In_split _ _ _ _ Hin) as (L & R & Ebl & Eo).
  rewrite Z.add_0_l in Eo. subst o.
  destruct h as [bl fl]. cbn [blocks] in *. subst bl.
  destruct (rep_block_tags _ _ Hrep _ _ Hin) as [Hh Hf].
  cbn [blocks fst] in Hh, Hf.
  destruct (layout_bounds _ _ _ _ Hok Hin) as (_ & _ & [Hsz _]).
  cbn [fst] in Hsz.
  change (L ++ (sz, true) :: R) with (L ++ [(sz, true)] ++ R) in *.
  assert (Hg : same_globals s (set_mem s m')) by (unfold same_globals; cbn; auto).
  assert (HokM : Forall ok_size [(sz, true)]).
  { apply Forall_app3 in Hok. tauto. }
  assert (HMX : forall x szx,
    In (x, (szx, false)) (layout (total L) [(sz, true)]) -> In x X).
  { cbn [layout In]. intros x szx [E|[]]. discriminate. }
  assert (Hout' : forall a,
    a < base_of s + total L - 4 \/
    base_of s + total L + total [(sz, true)] - 4 <= a ->
    mem (set_mem s m') a = mem s a).
  { cbn [total fst mem set_mem]. intros a Ha. apply Hout. lia. }
  assert (Hnew : blocks_seg (mem (set_mem s m')) (base_of s + total L)
                   [(sz, true)]).
  { cbn [blocks_seg mem set_mem fst]. split; [|split; [|exact I]].
    - rewrite <- Hh. apply GET_ext. intros a Ha. apply Hout. lia.
    - rewrite <- Hf. apply GET_ext. intros a Ha. apply Hout. lia. }
  exact (rep_retag s (set_mem s m') L [(sz, true)] [(sz, true)] R fl X
           Hrep Hwf Hg eq_refl HMX Hout' Hnew).
Qed.

(** * [free] keeps the invariant *)

Section FreeInv.
Variables (s : State) (h : heap) (o sz : Z).
Hypothesis Hinv : inv s h.
Hypothesis Hin : In (o, (sz, true)) (layout 0 (blocks h)).

Let s' := free s (base_of s + o).
Let h' := a_free h o.

Lemma free_inv :
  inv s' h' /\ same_globals s s' /\
  (forall x szx a,
     In (x, (szx, true)) (layout 0 (blocks h)) -> x <> o ->
     base_of s + x - 4 <= a < base_of s + x + szx - 4 ->
     mem s' a = mem s a) /\
  (forall x szx,
     In (x, (szx, true)) (layout 0 (blocks h)) -> x <> o ->
     In (x, (szx, true)) (layout 0 (blocks h'))) /\
  (forall szo, ~ In (o, (szo, true)) (layout 0 (blocks h'))).
Proof.
  destruct Hinv as (Hrep & Hwf & Hna).
  pose proof (wf_sizes _ _ Hwf) as Hok.
  destruct (rep_geometry _ _ Hrep Hok)
    as (HT & HTb & Hbase & Hbrk & Htot & Hmax & H64).
  destruct (layout_In_split _ _ _ _ Hin) as (L & R & Ebl & Eo).
  rewrite Z.add_0_l in Eo. subst s' h'. subst o.
  destruct h as [bl fl]. cbn [blocks lists] in *. subst bl.
  destruct (free_spec s L sz R fl Hrep Hwf) as (Hr & Hw & Hg & Hf).
  rewrite a_free_eq in * by assumption.
  assert (Hok' : Forall ok_size (L ++ (sz, false) :: R)).
  { apply Forall_app in Hok. destruct Hok as [HL HR].
    apply Forall_cons_iff in HR. destruct HR as [Hb HR].
    apply Forall_app. split; [assumption|]. constructor; assumption. }
  destruct (a_coalesce_result L sz R fl Hok')
    as (_ & _ & _ & _ & _ & _ & _ & Hall).
  assert (Hmove : forall x szx,
    In (x, (szx, true)) (layout 0 (L ++ (sz, true) :: R)) ->
    x <> total L ->
    In (x, (szx, true)) (layout 0 (L ++ (sz, false) :: R))).
  { intros x szx Hx Hne. rewrite layout_app, in_app_iff in *.
    cbn [layout In fst] in *. destruct Hx as [Hx|[Hx|Hx]]; auto.
    apply (f_equal fst) in Hx. cbn [fst] in Hx. lia. }
  split; [|split; [|split; [|split]]].
  - split; [exact Hr|]. split; [exact Hw|].
    apply no_adj_app in Hna. destruct Hna as (HnL & HnR & _).
    apply no_adj_cons in HnR. destruct HnR as [_ HnR].
    now apply a_coalesce_no_adj.
  - exact Hg.
  - intros x szx a Hx Hne Ha.
    apply (frame_alloc s _ _ _ x szx a Hf Hok'); auto.
  - intros x szx Hx Hne. apply Hall. auto.
  - intros szo Hc. apply Hall in Hc.
    assert (Hfree : In (total L, (sz, false))
                       (layout 0 (L ++ (sz, false) :: R))).
    { replace (total L) with (0 + total L) at 1 by lia.
      apply In_layout_mid. }
    pose proof (layout_fst_unique _ _ _ _ _ Hok' Hc Hfree). discriminate.
Qed.
End FreeInv.

(** * The first call initialises *)

Lemma malloc_fresh s fuel size :
  fresh s -> malloc fuel s size = malloc fuel (fst (mm_init s)) size.
Proof.
  intros Hf. destruct (mm_init_spec s Hf) as (_ & _ & _ & _ & Hl & _).
  cbv zeta in Hl. destruct Hf as (H0 & Hb & _).
  unfold malloc. rewrite H0, Z.eqb_refl.
  destruct (Z.eqb_spec (heap_listp (fst (mm_init s))) 0) as [|_]; [lia|].
  reflexivity.
Qed.

Lemma inv_init s : fresh s -> inv (fst (mm_init s)) a_init.
Proof.
  intros Hf. destruct (mm_init_spec s Hf) as (_ & Hr & Hw & Hn & _).
  split; [exact Hr|]. split; [exact Hw|exact Hn].
Qed.

(** * [realloc] and [calloc] *)

Lemma wrap64_mod8 k : wrap64 (8 * k) mod 8 = 0.
Proof.
  unfold wrap64. change (2 ^ 64) with (8 * 2 ^ 61).
  rewrite Z.mul_mod_distr_l by lia.
  rewrite Z.mul_comm. apply Z.mod_mul. lia.
Qed.

Lemma adjust_mod8 size : adjust size mod 8 = 0.
Proof.
  unfold adjust, DSIZE. destruct (size <=? 8); [reflexivity|].
  apply wrap64_mod8.
Qed.

Lemma adjust_min size : 0 <= adjust size < 2 ^ 64.
Proof.
  unfold adjust, DSIZE. destruct (size <=? 8); [lia|].
  unfold wrap64. apply Z.mod_pos_bound. lia.
Qed.

(** The second adjustment, made by the [malloc] that [realloc] calls, adds
    one double word to an already adjusted size. *)
Lemma adjust_adjust a :
  8 < a -> a mod 8 = 0 -> a + 15 < 2 ^ 64 -> adjust a = a + 8.
Proof.
  intros H1 H2 H3. rewrite adjust_large by assumption.
  destruct (mod8_mult _ H2) as [k ->].
  replace (8 * k + 8 + 7) with (7 + (k + 1) * 8) by lia.
  rewrite Z.div_add by lia. change (7 / 8) with 0. lia.
Qed.

Lemma memcpy_in m dst src n a :
  dst <= a < dst + n -> memcpy m dst src n a = m (src + (a - dst)).
Proof.
  intros H. unfold memcpy.
  destruct (Z.leb_spec dst a); [|lia].
  destruct (Z.ltb_spec a (dst + n)); [|lia]. reflexivity.
Qed.

Lemma memcpy_out m dst src n a :
  a < dst \/ dst + n <= a -> memcpy m dst src n a = m a.
Proof.
  intros H. unfold memcpy.
  destruct (Z.leb_spec dst a); [|reflexivity].
  destruct (Z.ltb_spec a (dst + n)); [lia|reflexivity].
Qed.

Lemma memset_in m dst c n a :
  dst <= a < dst + n -> memset m dst c n a = c.
Proof.
  intros H. unfold memset.
  destruct (Z.leb_spec dst a); [|lia].
  destruct (Z.ltb_spec a (dst + n)); [|lia]. reflexivity.
Qed.

Lemma memset_out m dst c n a :
  a < dst \/ dst + n <= a -> memset m dst c n a = m a.
Proof.
  intros H. unfold memset.
  destruct (Z.leb_spec dst a); [|reflexivity].
  destruct (Z.ltb_spec a (dst + n)); [lia|reflexivity].
Qed.

Lemma inv_base_pos s h : inv s h -> 0 < base_of s /\ heap_listp s <> 0.
Proof.
  intros (Hrep & Hwf & _).
  destruct (rep_geometry _ _ Hrep (wf_sizes _ _ Hwf)) as (? & ? & ? & _).
  lia.
Qed.

Lemma same_heap_globals_base s s' :
  same_heap_globals s s' -> base_of s' = base_of s.
Proof. intros (E & _). unfold base_of. now rewrite E. Qed.

(** [realloc] on a live block whose adjusted request fits returns the same
    pointer and leaves the state as it is. *)
Lemma realloc_keep fuel s ptr size :
  size <> 0 -> ptr <> 0 ->
  adjust size <= GET_SIZE (mem s) (HDRP ptr) ->
  realloc fuel s ptr size = Some (s, ptr).
Proof.
  intros Hs Hp Hfit. unfold realloc.
  destruct (Z.eqb_spec size 0); [contradiction|].
  destruct (Z.eqb_spec ptr 0); [contradiction|].
  destruct (Z.leb_spec (adjust size) (GET_SIZE (mem s) (HDRP ptr)));
    [reflexivity|lia].
Qed.

Lemma ok_size_sum a b c :
  ok_size (a, false) -> ok_size b -> ok_size (a + fst b, c).
Proof.
  unfold ok_size. cbn [fst]. intros [H1 H2] [H3 H4]. split; [lia|mod8].
Qed.

Lemma a_coalesce_ok L sz R fl :
  Forall ok_size (L ++ (sz, false) :: R) ->
  Forall ok_size (blocks (fst (a_coalesce L sz R fl))).
Proof.
  intros Hok. unfold a_coalesce.
  destruct (snd (last L prologue)) eqn:Ep;
    destruct (snd (hd epilogue R)) eqn:En; cbn [fst blocks].
  - exact Hok.
  - destruct R as [|b2 R']; cbn [hd epilogue snd fst tl] in *;
      [discriminate|].
    rewrite Forall_app, !Forall_cons_iff in *.
    destruct Hok as (HL & Hs & H2 & HR).
    repeat split; auto; now apply ok_size_sum.
  - destruct (list_snoc_case L) as [->|(L' & b0 & ->)]; [discriminate|].
    rewrite last_last in *. rewrite removelast_last.
    rewrite !Forall_app, !Forall_cons_iff in *.
    destruct Hok as ((HL & H0 & _) & Hs & HR).
    repeat split; auto; now apply ok_size_sum.
  - destruct (list_snoc_case L) as [->|(L' & b0 & ->)]; [discriminate|].
    destruct R as [|b2 R']; cbn [hd epilogue snd fst tl] in *;
      [discriminate|].
    rewrite last_last in *. rewrite removelast_last.
    rewrite !Forall_app, !Forall_cons_iff in *.
    destruct Hok as ((HL & H0 & _) & Hs & H2 & HR).
    assert (Hm : ok_size (sz + fst b0 + fst b2, false)).
    { apply (ok_size_sum _ b2); [|assumption].
      now apply (ok_size_sum sz b0 false). }
    repeat split; auto; apply Hm.
Qed.

(** The block [a_malloc] hands out was not allocated before. *)
Lemma a_malloc_fresh h room size o :
  wf [] h -> 0 < size -> size + 15 < 2 ^ 64 ->
  snd (a_malloc h room size) = Some o ->
  forall sz, ~ In (o, (sz, true)) (layout 0 (blocks h)).
Proof.
  intros Hwf Hs Hw E sz Hc.
  pose proof (wf_sizes _ _ Hwf) as Hok.
  destruct (adjust_ok size Hs Hw) as (Ha24 & Ha8 & Hasz).
  unfold a_malloc in E. destruct (Z.eqb_spec size 0); [lia|].
  destruct (a_find_fit h (adjust size)) as [o1|] eqn:Ef.
  - cbn [snd] in E. injection E as ->.
    unfold a_find_fit in Ef. apply find_some in Ef. destruct Ef as [Hcand _].
    apply In_candidates in Hcand. destruct Hcand as (i & Hi).
    apply (wf_listed _ _ Hwf) in Hi. destruct Hi as (_ & sz1 & Hin1 & _).
    pose proof (layout_fst_unique _ _ _ _ _ Hok Hc Hin1). discriminate.
  - unfold a_extend in E. rewrite words_size in E;
      [|rewrite MAX_spec; unfold CHUNKSIZE; lia
       |rewrite MAX_spec; unfold CHUNKSIZE;
        destruct (Z.max_spec (adjust size) 168) as [[_ ->]|[_ ->]];
        [reflexivity|assumption]].
    set (e := MAX (adjust size) CHUNKSIZE) in E.
    assert (He : 24 <= e /\ e mod 8 = 0).
    { unfold e. rewrite MAX_spec. unfold CHUNKSIZE.
      destruct (Z.max_spec (adjust size) 168) as [[_ ->]|[_ ->]];
        [split; [lia|reflexivity]|split; [lia|assumption]]. }
    destruct (e <=? room); [|discriminate E].
    destruct (a_coalesce (blocks h) e [] (lists h)) as [h1 o1] eqn:Ec.
    cbn [snd] in E. injection E as ->.
    assert (Hok' : Forall ok_size (blocks h ++ [(e, false)])).
    { apply Forall_app. split; [assumption|]. constructor; [exact He|constructor]. }
    destruct (a_coalesce_result (blocks h) e [] (lists h) Hok')
      as (L' & sz' & R' & Ebl & Eo & _ & _ & Hall).
    rewrite Ec in Ebl, Eo, Hall. cbn [fst snd] in Ebl, Eo, Hall.
    assert (Hc' : In (o, (sz, true)) (layout 0 (blocks h1))).
    { apply Hall. rewrite layout_app. apply in_or_app. now left. }
    assert (Hf' : In (o, (sz', false)) (layout 0 (blocks h1))).
    { rewrite Ebl, Eo. replace (total L') with (0 + total L') at 1 by lia.
      apply In_layout_mid. }
    assert (Hok1 : Forall ok_size (blocks h1)).
    { pose proof (a_coalesce_ok (blocks h) e [] (lists h) Hok') as Hk.
      now rewrite Ec in Hk. }
    pose proof (layout_fst_unique _ _ _ _ _ Hok1 Hc' Hf'). discriminate.
Qed.

Section ReallocGrow.
Variables (s : State) (h : heap) (fuel : nat) (o osz size : Z).
Hypothesis Hinv : inv s h.
Hypothesis Hin : In (o, (osz, true)) (layout 0 (blocks h)).
Hypothesis Hfuel : forall i, (length (nth i (lists h) []) < fuel)%nat.
Hypothesis Hsize : size <> 0.
Hypothesis Hgrow : osz < adjust size.
Hypothesis Hwrap : adjust size + 15 < 2 ^ 64.

Let A := adjust size.
Let r := a_malloc h (mem_max_addr s - mem_brk s) A.
Let p := base_of s + o.

Lemma realloc_grow_spec :
  exists s1,
    malloc fuel s A = Some (s1, ptr_of s (snd r)) /\
    match snd r with
    | None =>
        realloc fuel s p size = Some (s1, 0) /\ mem s1 = mem s /\ inv s1 h
    | Some oq =>
        let q := base_of s + oq in
        let s' := free (set_mem s1 (memcpy (mem s1) q p osz)) p in
        realloc fuel s p size = Some (s', q) /\
        q <> p /\ q <> 0 /\
        inv s' (a_free (fst r) o) /\
        same_heap_globals s s' /\
        (exists szq, A + 8 <= szq /\
           In (oq, (szq, true)) (layout 0 (blocks (a_free (fst r) o)))) /\
        (forall szo,
           ~ In (o, (szo, true)) (layout 0 (blocks (a_free (fst r) o)))) /\
        (forall i, 0 <= i < osz -> mem s' (q + i) = mem s1 (p + i)) /\
        (forall i, 0 <= i < osz - 4 -> mem s' (q + i) = mem s (p + i)) /\
        (forall x szx a,
           In (x, (szx, true)) (layout 0 (blocks h)) -> x <> o ->
           base_of s + x - 4 <= a < base_of s + x + szx - 4 ->
           mem s' a = mem s a)
    end.
Proof.
  pose proof Hinv as (Hrep & Hwf & Hna).
  pose proof (wf_sizes _ _ Hwf) as Hok.
  destruct (rep_geometry _ _ Hrep Hok)
    as (HT & HTb & Hbase & Hbrk & Htot & Hmax & H64).
  destruct (rep_block_bounds h Hok _ _ Hin) as (Ho & Hoe & Ho24 & Ho8).
  cbn [fst] in Hoe, Ho24, Ho8.
  pose proof (rep_block_size s h Hrep Hok _ _ Hin) as Hosz.
  cbn [fst] in Hosz. fold p in Hosz.
  pose proof (adjust_mod8 size) as HA8. fold A in HA8, Hgrow, Hwrap.
  assert (HA0 : 0 < A) by lia.
  destruct (malloc_spec s h fuel A Hinv Hfuel HA0 Hwrap)
    as (s1 & Em & Hinv1 & Hg1 & Hfr & Hnone & Hsome).
  fold r in Em, Hinv1, Hnone, Hsome.
  exists s1. split; [exact Em|].
  assert (Hunf : realloc fuel s p size =
    match malloc fuel s A with
    | None => None
    | Some (s2, newptr) =>
        if newptr =? 0 then Some (s2, 0)
        else Some (free (set_mem s2 (memcpy (mem s2) newptr p osz)) p,
                   newptr)
    end).
  { unfold realloc. destruct (Z.eqb_spec size 0); [contradiction|].
    destruct (Z.eqb_spec p 0); [unfold p in *; lia|].
    rewrite Hosz. fold A.
    destruct (Z.leb_spec A osz); [lia|]. reflexivity. }
  rewrite Hunf, Em. clear Hunf.
  destruct (snd r) as [oq|] eqn:Er; cbn [ptr_of].
  - destruct (Hsome oq eq_refl) as ((szq & Hszq & Hinq) & Hkeep).
    rewrite adjust_adjust in Hszq by (assumption || lia).
    pose proof (Hkeep o osz Hin) as Hin1.
    pose proof Hinv1 as (Hrep1 & Hwf1 & Hna1).
    pose proof (wf_sizes _ _ Hwf1) as Hok1.
    pose proof (same_heap_globals_base _ _ Hg1) as Hb1.
    destruct (rep_block_bounds (fst r) Hok1 _ _ Hinq) as (Hq0 & _).
    assert (Hnew : forall sz, ~ In (oq, (sz, true)) (layout 0 (blocks h))).
    { apply (a_malloc_fresh h (mem_max_addr s - mem_brk s) A); auto. }
    assert (Hne : oq <> o).
    { intros ->. pose proof (layout_fst_unique _ _ _ _ _ Hok1 Hinq Hin1) as E.
      apply (f_equal fst) in E. cbn [fst] in E. lia. }
    cbv zeta.
    set (q := base_of s + oq).
    set (m2 := memcpy (mem s1) q p osz).
    set (s2 := set_mem s1 m2).
    assert (Hb2 : base_of s2 = base_of s) by exact Hb1.
    assert (Hrep2 : rep s2 (fst r)).
    { apply (rep_payload_write s1 (fst r) [] oq szq m2 Hrep1 Hwf1 Hinq).
      intros a Ha. apply memcpy_out. rewrite Hb1 in Ha. fold q in Ha. lia. }
    assert (Hinv2 : inv s2 (fst r)).
    { split; [exact Hrep2|]. split; assumption. }
    destruct (free_inv s2 (fst r) o osz Hinv2 Hin1)
      as (Hinv3 & Hg3 & Hfr3 & Hkeep3 & Hgone).
    rewrite Hb2 in Hinv3, Hg3, Hfr3. fold p in Hinv3, Hg3, Hfr3.
    destruct (Z.eqb_spec q 0); [unfold q in *; lia|].
    assert (Hcopy : forall i, 0 <= i < osz ->
              mem (free s2 p) (q + i) = mem s1 (p + i)).
    { intros i Hi.
      rewrite (Hfr3 oq szq (q + i) Hinq Hne) by (fold q; lia).
      cbn [s2 mem set_mem]. unfold m2. rewrite memcpy_in by lia.
      f_equal. lia. }
    split; [reflexivity|]. split; [unfold q, p; lia|].
    split; [assumption|]. split; [exact Hinv3|].
    split.
    { destruct Hg1 as (G1 & G2 & G3). destruct Hg3 as (K1 & K2 & K3 & K4).
      unfold same_heap_globals. cbn [s2] in K2, K3, K4.
      rewrite K2, K3, K4. cbn. auto. }
    split; [exists szq; split; [lia|]; now apply Hkeep3|].
    split; [exact Hgone|]. split; [exact Hcopy|].
    split.
    + intros i Hi. rewrite Hcopy by lia.
      apply (frame_alloc s (blocks h) _ _ o osz); auto. fold p. lia.
    + intros x szx a Hx Hxo Ha.
      assert (Hx1 := Hkeep x szx Hx).
      rewrite (Hfr3 x szx a Hx1 Hxo Ha).
      cbn [s2 mem set_mem]. unfold m2.
      destruct (layout_sep _ _ _ _ _ _ Hok1 Hx1 Hinq) as [[E _]|E].
      * exfalso. apply (Hnew szx). now rewrite <- E.
      * cbn [fst] in E. rewrite memcpy_out by (unfold q; lia).
        apply (frame_alloc s (blocks h) _ _ x szx); auto.
  - destruct (Hnone eq_refl) as (Hm & Hbrk1 & Eh).
    rewrite Z.eqb_refl. rewrite Eh in Hinv1. auto.
Qed.
End ReallocGrow.

Section Calloc.
Variables (s : State) (h : heap) (fuel : nat) (nmemb size : Z).
Hypothesis Hinv : inv s h.
Hypothesis Hfuel : forall i, (length (nth i (lists h) []) < fuel)%nat.

Let bytes := wrap64 (nmemb * size).
Hypothesis Hpos : bytes <> 0.
Hypothesis Hwrap : bytes + 15 < 2 ^ 64.

Let r := a_malloc h (mem_max_addr s - mem_brk s) bytes.

Lemma calloc_spec :
  exists s1,
    malloc fuel s bytes = Some (s1, ptr_of s (snd r)) /\
    match snd r with
    | None => calloc fuel s nmemb size = None
    | Some oq =>
        let q := base_of s + oq in
        let s' := set_mem s1 (memset (mem s1) q x00 bytes) in
        calloc fuel s nmemb size = Some (s', q) /\
        q <> 0 /\ inv s' (fst r) /\ same_heap_globals s s' /\
        (exists szq, bytes + 8 <= adjust bytes <= szq /\
           In (oq, (szq, true)) (layout 0 (blocks (fst r)))) /\
        (forall i, 0 <= i < bytes -> mem s' (q + i) = x00) /\
        (forall a, a < q \/ q + bytes <= a -> mem s' a = mem s1 a) /\
        (forall x szx a,
           In (x, (szx, true)) (layout 0 (blocks h)) ->
           base_of s + x - 4 <= a < base_of s + x + szx - 4 ->
           mem s' a = mem s a)
    end.
Proof.
  pose proof Hinv as (Hrep & Hwf & Hna).
  pose proof (wf_sizes _ _ Hwf) as Hok.
  destruct (rep_geometry _ _ Hrep Hok)
    as (HT & HTb & Hbase & Hbrk & Htot & Hmax & H64).
  assert (Hb0 : 0 < bytes).
  { pose proof (Z.mod_pos_bound (nmemb * size) (2 ^ 64) ltac:(lia)).
    unfold bytes, wrap64 in *. lia. }
  destruct (adjust_ok bytes Hb0 Hwrap) as (Ha24 & Ha8 & Hasz).
  destruct (malloc_spec s h fuel bytes Hinv Hfuel Hb0 Hwrap)
    as (s1 & Em & Hinv1 & Hg1 & Hfr & Hnone & Hsome).
  fold r in Em, Hinv1, Hnone, Hsome.
  exists s1. split; [exact Em|].
  unfold calloc. fold bytes. rewrite Em.
  destruct (snd r) as [oq|] eqn:Er; cbn [ptr_of].
  2:{ cbn [Z.eqb andb]. destruct (Z.ltb_spec 0 bytes); [reflexivity|lia]. }
  destruct (Hsome oq eq_refl) as ((szq & Hszq & Hinq) & Hkeep).
  pose proof Hinv1 as (Hrep1 & Hwf1 & Hna1).
  pose proof (wf_sizes _ _ Hwf1) as Hok1.
  pose proof (same_heap_globals_base _ _ Hg1) as Hb1.
  destruct (rep_block_bounds (fst r) Hok1 _ _ Hinq) as (Hq0 & _).
  destruct (Z.eqb_spec (base_of s + oq) 0) as [|_]; [lia|]. cbn [andb].
  assert (Hnew : forall sz, ~ In (oq, (sz, true)) (layout 0 (blocks h))).
  { apply (a_malloc_fresh h (mem_max_addr s - mem_brk s) bytes); auto. }
  cbv zeta.
  set (q := base_of s + oq).
  set (m2 := memset (mem s1) q x00 bytes).
  assert (Hrep2 : rep (set_mem s1 m2) (fst r)).
  { apply (rep_payload_write s1 (fst r) [] oq szq m2 Hrep1 Hwf1 Hinq).
    intros a Ha. apply memset_out. rewrite Hb1 in Ha. fold q in Ha. lia. }
  split; [reflexivity|]. split; [unfold q; lia|].
  split; [split; [exact Hrep2|split; assumption]|].
  split; [exact Hg1|].
  split; [exists szq; split; [lia|assumption]|].
  split; [intros i Hi; cbn [mem set_mem]; apply memset_in; lia|].
  split; [intros a Ha; cbn [mem set_mem]; now apply memset_out|].
  intros x szx a Hx Ha. cbn [mem set_mem]. unfold m2.
  assert (Hx1 := Hkeep x szx Hx).
  destruct (layout_sep _ _ _ _ _ _ Hok1 Hx1 Hinq) as [[E _]|E].
  - exfalso. apply (Hnew szx). now rewrite <- E.
  - cbn [fst] in E. rewrite memset_out by (unfold q; lia).
    apply (frame_alloc s (blocks h) _ _ x szx); auto.
Qed.
End Calloc.

(** * Reading the directory and the lists off a represented heap *)

Lemma short_lists (fl : list (list Z)) (fuel : nat) :
  (0 < fuel)%nat ->
  forallb (fun l => (length l <? fuel)%nat) fl = true ->
  forall i, (length (nth i fl []) < fuel)%nat.
Proof.
  intros H0 H i. destruct (Nat.lt_ge_cases i (length fl)) as [Hi|Hi].
  - rewrite forallb_forall in H. apply Nat.ltb_lt. apply H. now apply nth_In.
  - rewrite nth_overflow by assumption. exact H0.
Qed.

Lemma rep_head s h i :
  rep s h -> (i < 20)%nat ->
  GETLP (mem s) (freelisttablehead s + 8 * Z.of_nat i) =
  headp (base_of s) (nth i (lists h) []) 0.
Proof.
  intros Hrep Hi. pose proof (rep_lists _ _ Hrep i Hi) as H.
  destruct (nth i (lists h) []); cbn [fseg headp] in *; [exact H|].
  now destruct H.
Qed.

Lemma rep_first_links s h i o l :
  rep s h -> (i < 20)%nat -> nth i (lists h) [] = o :: l ->
  PREV_FREE (mem s) (base_of s + o) = 0 /\
  NEXT_FREE (mem s) (base_of s + o) = headp (base_of s) l 0.
Proof.
  intros Hrep Hi E. pose proof (rep_lists _ _ Hrep i Hi) as H.
  rewrite E in H. cbn [fseg] in H. destruct H as (_ & Hp & Hn).
  split; [exact Hp|]. unfold NEXT_FREE, DSIZE.
  destruct l; cbn [fseg headp] in *; [exact Hn|]. now destruct Hn.
Qed.

Lemma a_insert_nth fl o sz :
  length fl = 20%nat ->
  nth (class_idx sz) (a_insert fl o sz) [] = o :: nth (class_idx sz) fl [].
Proof.
  intros Hl. unfold a_insert. apply nth_upd_nth_same.
  pose proof (class_idx_lt sz). lia.
Qed.

(** A free block is on the list of its class and on no other. *)
Lemma wf_on_one_list h o sz :
  wf [] h -> In (o, (sz, false)) (layout 0 (blocks h)) ->
  forall i, In o (nth i (lists h) []) <-> i = class_idx sz.
Proof.
  intros Hwf Hin i. rewrite (wf_listed _ _ Hwf). split.
  - intros (_ & sz' & Hin' & <-).
    pose proof (layout_fst_unique _ _ _ _ _ (wf_sizes _ _ Hwf) Hin Hin') as E.
    now injection E as ->.
  - intros ->. split; [intros []|]. eauto.
Qed.

(** * What the fit search does not look at *)

Lemma find_fit_from_frame fuel asize : forall n s i s1 bp,
  find_fit_from fuel n s asize i = Some (s1, bp) ->
  mem s1 = mem s /\ same_globals s s1.
Proof.
  induction n as [|n IH]; intros s i s1 bp E; cbn [find_fit_from] in E.
  - injection E as <- _. split; [reflexivity|apply same_globals_refl].
  - destruct (scan_list fuel _ asize _) as [b|]; [|discriminate].
    destruct (b =? 0).
    + apply IH in E. destruct E as [Em (G1 & G2 & G3 & G4)].
      split; [exact Em|]. repeat split; assumption.
    + injection E as <- _. split; [reflexivity|].
      unfold same_globals. cbn. auto.
Qed.

Lemma find_fit_frame fuel s asize s1 bp :
  find_fit fuel s asize = Some (s1, bp) ->
  mem s1 = mem s /\ same_globals s s1.
Proof. apply find_fit_from_frame. Qed.

(** Every list from the request's class on is among the lists the search
    walks. *)
Lemma candidates_complete fl asize i o :
  length fl = 20%nat -> (class_idx asize <= i < 19)%nat ->
  In o (nth i fl []) -> In o (candidates fl asize).
Proof.
  intros Hl Hi Ho. unfold candidates. apply in_concat.
  exists (nth i fl []). split; [|assumption].
  fold (class_idx asize). set (k := class_idx asize) in *.
  set (l := firstn 19 fl).
  assert (Hlen : length l = 19%nat).
  { unfold l. rewrite length_firstn. lia. }
  rewrite <- (nth_firstn [] fl 19 i) by lia. fold l.
  rewrite <- (firstn_skipn k l) at 1.
  rewrite app_nth2 by (rewrite length_firstn; lia).
  apply nth_In. rewrite length_skipn, length_firstn. lia.
Qed.

(** * Chaining public calls from an empty heap *)

Lemma few_members (fl : list (list Z)) (fuel : nat) :
  (2 <= fuel)%nat ->
  forallb (fun l => (length l <? 2)%nat) fl = true ->
  forall i, (length (nth i fl []) < fuel)%nat.
Proof.
  intros H2 H i. apply Nat.lt_le_trans with 2%nat; [|exact H2].
  now apply short_lists; [lia|].
Qed.

Lemma a_init_few fuel :
  (2 <= fuel)%nat -> forall i, (length (nth i (lists a_init) []) < fuel)%nat.
Proof. intros H. now apply few_members. Qed.

Lemma fresh_base s :
  fresh s -> base_of (fst (mm_init s)) = mem_brk s + 184.
Proof.
  intros Hf. destruct (mm_init_spec s Hf) as (_ & _ & _ & _ & Hl & _).
  cbv zeta in Hl. unfold base_of, DSIZE. lia.
Qed.

(** One [malloc] whose abstract outcome is known, on a heap whose lists
    hold at most one block each. *)
Lemma malloc_next s h fuel size h' o :
  inv s h -> (2 <= fuel)%nat ->
  forallb (fun l => (length l <? 2)%nat) (lists h) = true ->
  0 < size -> size + 15 < 2 ^ 64 ->
  (forall room, a_malloc h room size = (h', Some o)) ->
  exists s', malloc fuel s size = Some (s', base_of s + o) /\
             inv s' h' /\ same_heap_globals s s' /\
             frame s (blocks h) (mem s) (mem s').
Proof.
  intros Hinv H2 Hfew Hs Hw E.
  destruct (malloc_spec s h fuel size Hinv (few_members _ _ H2 Hfew) Hs Hw)
    as (s' & Em & Hinv' & Hg & Hfr & _).
  rewrite E in Em, Hinv'. cbn [fst snd ptr_of] in Em, Hinv'.
  exists s'. auto.
Qed.

(** The same for the first call, which initialises. *)
Lemma malloc_first s fuel size h' o :
  fresh s -> (2 <= fuel)%nat -> 0 < size -> size + 15 < 2 ^ 64 ->
  (forall room, a_malloc a_init room size = (h', Some o)) ->
  exists s', malloc fuel s size = Some (s', mem_brk s + 184 + o) /\
             inv s' h' /\ base_of s' = mem_brk s + 184 /\
             freelisttablehead s' = mem_brk s + 8.
Proof.
  intros Hf H2 Hs Hw E.
  destruct (malloc_next (fst (mm_init s)) a_init fuel size h' o
              (inv_init s Hf) H2 eq_refl Hs Hw E)
    as (s' & Em & Hinv' & Hg & _).
  rewrite <- malloc_fresh, fresh_base in Em by assumption.
  exists s'. split; [exact Em|]. split; [exact Hinv'|].
  destruct (mm_init_spec s Hf) as (_ & _ & _ & _ & Hl & Ht & _).
  cbv zeta in Hl, Ht.
  rewrite (same_heap_globals_base (fst (mm_init s)) s' Hg).
  destruct Hg as (G1 & G2 & _).
  rewrite G2, Ht. split; [now apply fresh_base|reflexivity].
Qed.

Lemma inv_block_tags s h o sz a :
  inv s h -> In (o, (sz, a)) (layout 0 (blocks h)) ->
  GET_SIZE (mem s) (HDRP (base_of s + o)) = sz /\
  GET_ALLOC (mem s) (HDRP (base_of s + o)) = (if a then 1 else 0) /\
  FTRP (mem s) (base_of s + o) = base_of s + o + sz - 8 /\
  GET (mem s) (base_of s + o + sz - 8) = PACK sz (if a then 1 else 0) /\
  NEXT_BLKP (mem s) (base_of s + o) = base_of s + o + sz.
Proof.
  intros (Hrep & Hwf & _) Hin.
  pose proof (wf_sizes _ _ Hwf) as Hok.
  destruct (rep_block_tags _ _ Hrep _ _ Hin) as [Hh Hft].
  destruct (rep_block_bounds h Hok _ _ Hin) as (_ & _ & H24 & H8).
  cbn [fst] in *.
  assert (Hs : GET_SIZE (mem s) (HDRP (base_of s + o)) = sz).
  { unfold HDRP, WSIZE. now apply (GET_SIZE_tag _ _ (sz, a)). }
  split; [exact Hs|]. split.
  - unfold HDRP, WSIZE. now apply (GET_ALLOC_tag _ _ (sz, a)).
  - split; [unfold FTRP, DSIZE; rewrite Hs; lia|].
    split; [rewrite Hft; symmetry; now apply PACK_tag|].
    unfold NEXT_BLKP. fold (HDRP (base_of s + o)). now rewrite Hs.
Qed.

(** * Initialisation and the first request *)

Lemma a_init_eq :
  a_init = mkHeap [(CHUNKSIZE, false)] (repeat [] 10 ++ [0] :: repeat [] 9).
Proof. reflexivity. Qed.

Lemma fresh_c_s0 : fresh c_s0.
Proof. unfold fresh, c_s0. cbn. lia. Qed.

Lemma fresh_c_low : fresh c_low.
Proof. unfold fresh, c_low. cbn. lia. Qed.

(** C10: the first [malloc] call on an empty heap runs [mm_init] and then
    goes on from the initialised state.  [mm_init] moves the break by the
    directory (168 bytes), the four sentinel words and one chunk of 168
    bytes; right after it the block region is one free block of 168 bytes
    followed by the epilogue, that block is the only member of the list of
    its class (class 11) and every other list is empty.  The heap pointer
    is then set and stays as it is, so later calls skip the
    initialisation: a call on an initialised heap that asks for nothing
    returns the state untouched. *)
Theorem lazy_init_one_free_chunk (s : State) :
  fresh s ->
  let s1 := fst (mm_init s) in
  let bp := heap_listp s1 + DSIZE in
  (forall fuel size, malloc fuel s size = malloc fuel s1 size) /\
  mem_brk s1 = mem_brk s + freeslistnum + 4 * WSIZE + CHUNKSIZE /\
  inv s1 (mkHeap [(CHUNKSIZE, false)] (repeat [] 10 ++ [0] :: repeat [] 9)) /\
  GET (mem s1) (HDRP bp) = PACK CHUNKSIZE 0 /\
  GET (mem s1) (FTRP (mem s1) bp) = PACK CHUNKSIZE 0 /\
  NEXT_BLKP (mem s1) bp = mem_brk s1 /\
  GET (mem s1) (HDRP (NEXT_BLKP (mem s1) bp)) = PACK 0 1 /\
  choosefreetable (mem s1) bp = 11 /\
  (forall n, 1 <= n <= MAXFREESIZE ->
     GETLP (mem s1) (slot s1 n) = if n =? 11 then bp else 0) /\
  PREV_FREE (mem s1) bp = 0 /\ NEXT_FREE (mem s1) bp = 0 /\
  heap_listp s1 <> 0 /\
  (forall fuel size s2 p,
     (2 <= fuel)%nat -> 0 < size -> size + 15 < 2 ^ 64 ->
     malloc fuel s size = Some (s2, p) -> heap_listp s2 = heap_listp s1) /\
  (forall fuel s2, heap_listp s2 <> 0 -> malloc fuel s2 0 = Some (s2, 0)).
Proof.
  intros Hf s1 bp.
  destruct (mm_init_spec s Hf) as (_ & Hrep & Hwf & Hna & Hl & Ht & Hmax & Hbrk).
  fold s1 in Hrep, Hl, Ht, Hmax, Hbrk.
  pose proof Hf as (H0 & Hb & Hb8 & _).
  assert (Hinv : inv s1 a_init) by (split; [exact Hrep|split; assumption]).
  assert (Hin : In (0, (CHUNKSIZE, false)) (layout 0 (blocks a_init)))
    by (left; reflexivity).
  destruct (inv_block_tags s1 a_init 0 _ _ Hinv Hin) as (Hsz & Hal & Hft & Hftv & Hnx).
  assert (Ebp : base_of s1 + 0 = bp) by (unfold base_of, bp; lia).
  rewrite Ebp in Hsz, Hal, Hft, Hnx.
  replace (base_of s1 + 0 + CHUNKSIZE - 8) with (bp + CHUNKSIZE - 8) in Hftv
    by (rewrite <- Ebp; lia).
  assert (Hnext : NEXT_BLKP (mem s1) bp = mem_brk s1).
  { rewrite Hnx, (rep_brk _ _ Hrep). cbn [blocks a_init total fst].
    rewrite <- Ebp. lia. }
  split; [intros fuel size; now apply malloc_fresh|].
  split; [rewrite Hbrk; change freeslistnum with 168;
          unfold WSIZE, CHUNKSIZE; lia|].
  split; [exact Hinv|].
  split.
  { destruct (rep_block_tags _ _ Hrep _ _ Hin) as [Hh _].
    rewrite Ebp in Hh. exact Hh. }
  split; [rewrite Hft; exact Hftv|].
  split; [exact Hnext|].
  split.
  { rewrite Hnext. unfold HDRP, WSIZE. apply (rep_epilogue _ _ Hrep). }
  split; [unfold choosefreetable; rewrite Hsz; reflexivity|].
  split.
  { intros n Hn. unfold MAXFREESIZE in Hn.
    replace (slot s1 n)
      with (freelisttablehead s1 + 8 * Z.of_nat (Z.to_nat (n - 1)))
      by (unfold slot, DSIZE; lia).
    rewrite (rep_head s1 a_init) by (assumption || lia).
    assert (En : n = Z.of_nat (S (Z.to_nat (n - 1)))) by lia.
    assert (Hi : (Z.to_nat (n - 1) < 20)%nat) by lia.
    revert En Hi. generalize (Z.to_nat (n - 1)). intros i -> Hi.
    do 20 (destruct i as [|i]; [rewrite <- ?Ebp; reflexivity|]). lia. }
  destruct (rep_first_links s1 a_init 10 0 [] Hrep ltac:(lia) eq_refl)
    as [Hp Hn].
  rewrite Ebp in Hp, Hn.
  split; [exact Hp|]. split; [exact Hn|].
  split; [lia|].
  split.
  - intros fuel size s2 p H2 Hs Hw E.
    rewrite (malloc_fresh s fuel size Hf) in E. fold s1 in E.
    destruct (malloc_spec s1 a_init fuel size Hinv (a_init_few fuel H2) Hs Hw)
      as (s' & Em & _ & (G & _) & _).
    rewrite Em in E. injection E as <- _. exact G.
  - intros fuel s2 H2. unfold malloc.
    destruct (Z.eqb_spec (heap_listp s2) 0); [contradiction|reflexivity].
Qed.

(** The first call on the sample provider: the statement above at a
    concrete empty heap. *)
Lemma lazy_init_one_free_chunk_sample :
  let s1 := fst (mm_init c_s0) in
  mem_brk s1 = 4096 + 352 /\
  GET (mem s1) (HDRP (heap_listp s1 + DSIZE)) = 168 /\
  GETLP (mem s1) (slot s1 11) = heap_listp s1 + DSIZE /\
  malloc 2 c_s0 0 = malloc 2 s1 0.
Proof.
  pose proof (lazy_init_one_free_chunk c_s0 fresh_c_s0) as H.
  cbv zeta in H.
  destruct H as (Hm & Hb & _ & Hh & _ & _ & _ & _ & Hs & _).
  split; [exact Hb|]. split; [exact Hh|].
  split; [exact (Hs 11 ltac:(unfold MAXFREESIZE; lia))|apply Hm].
Defined.

(** * Size adjustment and the smallest request *)




(** * [realloc] that keeps the block *)

(** C9: [realloc] with a non-null pointer and a non-zero size whose
    adjusted size is at most the size in the block's header returns the
    same pointer, and the state it returns is the state it was given:
    header, footer, payload and everything else are as they were.  So on
    an empty heap [p = malloc 16] followed by [realloc p 8] gives [p]. *)
Theorem realloc_fits_in_place :
  (forall fuel s ptr size,
     ptr <> 0 -> 0 < size ->
     adjust size <= GET_SIZE (mem s) (HDRP ptr) ->
     realloc fuel s ptr size = Some (s, ptr)) /\
  (forall s fuel,
     fresh s -> (2 <= fuel)%nat ->
     exists s1 p,
       malloc fuel s 16 = Some (s1, p) /\ p <> 0 /\
       GET_SIZE (mem s1) (HDRP p) = 24 /\
       realloc fuel s1 p 8 = Some (s1, p)).
Proof.
  split.
  - intros fuel s ptr size Hp Hs Hfit. apply realloc_keep; [lia|assumption..].
  - intros s fuel Hf H2.
    destruct (malloc_first s fuel 16
                (mkHeap [(24, true); (144, false)]
                        (repeat [] 10 ++ [24] :: repeat [] 9)) 0
                Hf H2 ltac:(lia) ltac:(lia) ltac:(reflexivity))
      as (s' & Em & Hinv & Hb & _).
    destruct Hf as (_ & Hbrk & _).
    destruct (inv_block_tags s' _ 0 24 true Hinv ltac:(left; reflexivity))
      as (Hsz & _).
    rewrite Hb in Hsz.
    exists s', (mem_brk s + 184 + 0).
    split; [exact Em|]. split; [lia|]. split; [exact Hsz|].
    apply realloc_keep; [lia|lia|]. rewrite Hsz. reflexivity.
Qed.

(** The run [p = malloc 16; realloc p 8] on the sample provider. *)
Lemma realloc_fits_in_place_sample :
  let r := malloc 2 c_s0 16 in
  realloc 2 (state_after c_s0 r) (pointer_of r) 8 =
  Some (state_after c_s0 r, pointer_of r).
Proof.
  intros r.
  apply (proj1 realloc_fits_in_place 2%nat (state_after c_s0 r)
           (pointer_of r) 8).
  - vm_compute. discriminate.
  - reflexivity.
  - vm_compute. discriminate.
Defined.

(** * First fit *)

Lemma class_idx_mono a b :
  0 <= a <= b -> b < 2 ^ 31 -> (class_idx a <= class_idx b)%nat.
Proof.
  intros H1 H2. unfold class_idx.
  pose proof (class_of_mono a b H1 H2). lia.
Qed.

(** C8: on a represented heap whose lists the fuel outlasts, [find_fit]
    returns, reads only, and keeps the globals but the scratch list head.
    The lists it walks are those of the classes from the class of [asize]
    on, each in next-link order, one class after the other: [visited].
    Either it returns null and no free block of the heap has [asize] bytes,
    or it returns the first member of [visited] whose header size is at
    least [asize]; every member before it, in its own list or in the lists
    of smaller classes walked earlier, is smaller than [asize]. *)
Theorem find_fit_first_fit (s : State) (h : heap) (fuel : nat) (asize : Z) :
  rep s h -> wf [] h ->
  (forall i, (length (nth i (lists h) []) < fuel)%nat) ->
  0 <= asize ->
  let k0 := choosefreetable_bysize (to_int asize) in
  let visited := concat (skipn (Z.to_nat (k0 - 1)) (firstn 19 (lists h))) in
  exists s' bp,
    find_fit fuel s asize = Some (s', bp) /\
    mem s' = mem s /\ same_globals s s' /\
    ((bp = 0 /\
      forall o sz, In (o, (sz, false)) (layout 0 (blocks h)) -> sz < asize) \/
     (exists l1 o l2,
        visited = l1 ++ o :: l2 /\ bp = base_of s + o /\ bp <> 0 /\
        GET_ALLOC (mem s) (HDRP bp) = 0 /\
        asize <= GET_SIZE (mem s) (HDRP bp) /\
        forall y, In y l1 ->
          GET_SIZE (mem s) (HDRP (base_of s + y)) < asize)).
Proof.
  intros Hrep Hwf Hfuel Ha k0 visited.
  pose proof (wf_sizes _ _ Hwf) as Hok.
  destruct (rep_geometry _ _ Hrep Hok)
    as (HT & HTb & Hbase & Hbrk & Htot & Hmax & H64).
  destruct (find_fit_spec s h fuel asize Hrep Hwf Hfuel)
    as (s' & Ef & Hm & Hg).
  assert (Hsize : forall o, In o visited ->
    exists sz, In (o, (sz, false)) (layout 0 (blocks h)) /\
               size_at (blocks h) o = sz /\
               GET_SIZE (mem s) (HDRP (base_of s + o)) = sz).
  { intros o Ho. apply In_candidates in Ho. destruct Ho as (i & Hi).
    apply (wf_listed _ _ Hwf) in Hi. destruct Hi as (_ & sz & Hin & _).
    exists sz. split; [exact Hin|].
    split; [exact (size_at_In _ _ _ Hok Hin)|].
    exact (rep_block_size _ _ Hrep Hok _ _ Hin). }
  unfold a_find_fit in Ef. change (candidates (lists h) asize) with visited in Ef.
  destruct (find _ visited) as [o|] eqn:Efind.
  - exists s', (base_of s + o). split; [exact Ef|]. split; [exact Hm|].
    split; [exact Hg|]. right.
    destruct (find_first _ _ _ Efind) as (l1 & l2 & El & Hbefore & Hfit).
    exists l1, o, l2. split; [exact El|]. split; [reflexivity|].
    assert (Ho : In o visited) by (rewrite El; apply in_elt).
    destruct (Hsize o Ho) as (sz & Hin & Hsa & Hgs).
    destruct (rep_block_bounds h Hok _ _ Hin) as (Ho0 & _).
    split; [lia|].
    destruct (rep_block_tags _ _ Hrep _ _ Hin) as [Hh _].
    split.
    { unfold HDRP, WSIZE. rewrite (GET_ALLOC_tag _ _ _ Hh); [reflexivity|].
      destruct (rep_block_bounds h Hok _ _ Hin) as (_ & _ & _ & H8). exact H8. }
    split.
    { rewrite Hgs, <- Hsa. now apply Z.leb_le. }
    intros y Hy.
    assert (Hyv : In y visited) by (rewrite El; apply in_or_app; now left).
    destruct (Hsize y Hyv) as (szy & _ & Hsay & Hgsy).
    rewrite Hgsy, <- Hsay. apply Z.leb_gt. now apply Hbefore.
  - exists s', 0. split; [exact Ef|]. split; [exact Hm|]. split; [exact Hg|].
    left. split; [reflexivity|]. intros o sz Hin.
    destruct (rep_block_bounds h Hok _ _ Hin) as (Ho0 & Hoe & H24 & _).
    cbn [fst] in Hoe, H24.
    destruct (Z_lt_dec sz asize) as [|Hge]; [assumption|exfalso].
    assert (Hcls : (class_idx asize <= class_idx sz < 19)%nat).
    { split; [apply class_idx_mono; lia|].
      pose proof (class_idx_lt sz). lia. }
    assert (Hlist : In o (nth (class_idx sz) (lists h) [])).
    { apply (wf_on_one_list h o sz Hwf Hin). reflexivity. }
    pose proof (candidates_complete (lists h) asize _ o (wf_len _ _ Hwf)
                  Hcls Hlist) as Hc.
    change (candidates (lists h) asize) with visited in Hc.
    pose proof (find_none _ _ Efind o Hc) as Hno. cbv beta in Hno.
    rewrite (size_at_In _ _ _ Hok Hin) in Hno. cbn [fst] in Hno.
    apply Z.leb_gt in Hno. lia.
Qed.

(** The search on the heap [mm_init] leaves, for a request of 24 bytes:
    the chunk of 168 bytes on the list of class 11 is the first fit. *)
Lemma find_fit_first_fit_sample :
  let s := fst (mm_init c_s0) in
  exists s' bp,
    find_fit 2 s 24 = Some (s', bp) /\ mem s' = mem s /\ same_globals s s' /\
    ((bp = 0 /\
      forall o sz, In (o, (sz, false)) (layout 0 (blocks a_init)) -> sz < 24) \/
     (exists l1 o l2,
        [0] = l1 ++ o :: l2 /\ bp = base_of s + o /\ bp <> 0 /\
        GET_ALLOC (mem s) (HDRP bp) = 0 /\
        24 <= GET_SIZE (mem s) (HDRP bp) /\
        forall y, In y l1 ->
          GET_SIZE (mem s) (HDRP (base_of s + y)) < 24)).
Proof.
  intros s.
  destruct (mm_init_spec c_s0 fresh_c_s0) as (_ & Hrep & Hwf & _).
  exact (find_fit_first_fit s a_init 2 24 Hrep Hwf (a_init_few 2 (le_n 2))
           ltac:(lia)).
Defined.

(** A list whose head is too small: on the sample provider, after
    [p1 = malloc 88; p2 = malloc 64; p3 = malloc 80; p4 = malloc 72;
    free p1; free p3] the list of class 9 is [p3] (88 bytes) followed by
    [p1] (96 bytes), and the search for 96 bytes walks past [p3] and
    returns [p1]. *)
Example find_fit_walks_past_a_small_head :
  let r1 := malloc 3 c_s0 88 in
  let r2 := malloc 3 (state_after c_s0 r1) 64 in
  let r3 := malloc 3 (state_after c_s0 r2) 80 in
  let r4 := malloc 3 (state_after c_s0 r3) 72 in
  let p1 := pointer_of r1 in
  let p3 := pointer_of r3 in
  let s := free (free (state_after c_s0 r4) p1) p3 in
  choosefreetable_bysize (to_int 96) = 9 /\
  GETLP (mem s) (slot s 9) = p3 /\ GET_SIZE (mem s) (HDRP p3) = 88 /\
  NEXT_FREE (mem s) p3 = p1 /\ GET_SIZE (mem s) (HDRP p1) = 96 /\
  p1 <> 0 /\ pointer_of (find_fit 3 s 96) = p1.
Proof.
  intros r1 r2 r3 r4 p1 p3 s.
  assert (E1 : p1 = 4280) by (vm_compute; reflexivity).
  assert (H1 : GETLP (mem s) (slot s 9) = p3) by (vm_compute; reflexivity).
  assert (H2 : GET_SIZE (mem s) (HDRP p3) = 88) by (vm_compute; reflexivity).
  assert (H3 : NEXT_FREE (mem s) p3 = p1) by (vm_compute; reflexivity).
  assert (H4 : GET_SIZE (mem s) (HDRP p1) = 96) by (vm_compute; reflexivity).
  assert (H5 : pointer_of (find_fit 3 s 96) = p1) by (vm_compute; reflexivity).
  clearbody r1 r2 r3 r4 p1 p3 s.
  split; [reflexivity|]. repeat split; try assumption. lia.
Qed.

(** * The coalescing table, case by case *)

Lemma a_delete_length fl o sz : length (a_delete fl o sz) = length fl.
Proof. apply length_upd_nth. Qed.

(** Where the merged block is and what it measures. *)
Lemma a_coalesce_shape L sz R fl :
  length fl = 20%nat ->
  let lft := last L prologue in
  let rgt := hd epilogue R in
  let lsz := if snd lft then 0 else fst lft in
  let rsz := if snd rgt then 0 else fst rgt in
  let r := a_coalesce L sz R fl in
  snd r = total L - lsz /\
  In (total L - lsz, (sz + lsz + rsz, false)) (layout 0 (blocks (fst r))) /\
  exists l,
    nth (class_idx (sz + lsz + rsz)) (lists (fst r)) [] = (total L - lsz) :: l.
Proof.
  intros Hl lft rgt lsz rsz r. subst r lsz rsz lft rgt. unfold a_coalesce.
  destruct (snd (last L prologue)) eqn:Ep;
    destruct (snd (hd epilogue R)) eqn:En; cbn [fst snd blocks lists].
  - rewrite Z.sub_0_r, !Z.add_0_r. split; [reflexivity|].
    split; [apply (In_layout_mid 0)|].
    eexists. now apply a_insert_nth.
  - rewrite Z.sub_0_r, !Z.add_0_r.
    destruct R as [|b2 R']; cbn [hd epilogue snd fst tl] in *;
      [discriminate|].
    split; [reflexivity|]. split; [apply (In_layout_mid 0)|].
    eexists. apply a_insert_nth. now rewrite a_delete_length.
  - rewrite !Z.add_0_r.
    destruct (list_snoc_case L) as [->|(L' & b0 & ->)]; [discriminate|].
    rewrite last_last in *. rewrite removelast_last.
    rewrite total_app. cbn [total].
    replace (total L' + (fst b0 + 0) - fst b0) with (0 + total L') by lia.
    split; [reflexivity|]. split; [apply In_layout_mid|].
    eexists. apply a_insert_nth. now rewrite a_delete_length.
  - destruct (list_snoc_case L) as [->|(L' & b0 & ->)]; [discriminate|].
    destruct R as [|b2 R']; cbn [hd epilogue snd fst tl] in *;
      [discriminate|].
    rewrite last_last in *. rewrite removelast_last.
    rewrite total_app. cbn [total].
    replace (total L' + (fst b0 + 0) - fst b0) with (0 + total L') by lia.
    split; [reflexivity|]. split; [apply In_layout_mid|].
    eexists. apply a_insert_nth. now rewrite !a_delete_length.
Qed.

(** C1: [coalesce] on a block [bp] whose header and footer say free and
    which is on no list, in a heap that is otherwise well formed, follows
    the four-case table.  With [lft] and [rgt] the blocks physically before
    and after [bp] (the prologue and the epilogue at the two ends):
    both allocated, the blocks stay and [bp] is inserted; only [rgt] free,
    [rgt] leaves its list and [bp] grows over it; only [lft] free, [lft]
    leaves its list, grows over [bp] and is the block returned; both free,
    both leave their lists and [lft] grows over all three.  In every case
    the header and the footer of the returned block hold the sum of the
    merged sizes with the free bit, the block is the head of the list of
    the class of that size and is on no other list, every free block is
    listed again, and outside the directory and the free blocks no byte
    has changed. *)
Theorem coalesce_four_cases
  (s : State) (L : list blk) (sz : Z) (R : list blk) (fl : list (list Z)) :
  rep s (mkHeap (L ++ (sz, false) :: R) fl) ->
  wf [total L] (mkHeap (L ++ (sz, false) :: R) fl) ->
  let bp := base_of s + total L in
  let o := total L in
  let lft := last L prologue in
  let rgt := hd epilogue R in
  let s' := fst (coalesce s bp) in
  let bp' := snd (coalesce s bp) in
  let h' :=
    match snd lft, snd rgt with
    | true, true =>
        mkHeap (L ++ (sz, false) :: R) (a_insert fl o sz)
    | true, false =>
        mkHeap (L ++ (sz + fst rgt, false) :: tl R)
          (a_insert (a_delete fl (o + sz) (fst rgt)) o (sz + fst rgt))
    | false, true =>
        mkHeap (removelast L ++ (sz + fst lft, false) :: R)
          (a_insert (a_delete fl (o - fst lft) (fst lft))
             (o - fst lft) (sz + fst lft))
    | false, false =>
        mkHeap (removelast L ++ (sz + fst lft + fst rgt, false) :: tl R)
          (a_insert
             (a_delete (a_delete fl (o - fst lft) (fst lft))
                (o + sz) (fst rgt))
             (o - fst lft) (sz + fst lft + fst rgt))
    end in
  let sz' :=
    sz + (if snd lft then 0 else fst lft) + (if snd rgt then 0 else fst rgt) in
  rep s' h' /\ wf [] h' /\ same_globals s s' /\
  bp' = (if snd lft then bp else bp - fst lft) /\
  GET (mem s') (HDRP bp') = PACK sz' 0 /\
  GET (mem s') (FTRP (mem s') bp') = PACK sz' 0 /\
  GETLP (mem s') (slot s' (choosefreetable (mem s') bp')) = bp' /\
  (forall i, In (bp' - base_of s) (nth i (lists h') []) <-> i = class_idx sz') /\
  frame s (L ++ (sz, false) :: R) (mem s) (mem s').
Proof.
  intros Hrep Hwf bp o lft rgt s' bp' h' sz'.
  destruct (coalesce_spec s L sz R fl Hrep Hwf) as (Hbp & Hr & Hw & Hg & Hfr).
  fold bp in Hbp, Hr, Hw, Hg, Hfr. fold s' in Hr, Hw, Hg, Hfr. fold bp' in Hbp.
  assert (Eh : fst (a_coalesce L sz R fl) = h').
  { unfold a_coalesce, h', lft, rgt, o.
    destruct (snd (last L prologue)); destruct (snd (hd epilogue R));
      reflexivity. }
  destruct (a_coalesce_shape L sz R fl (wf_len _ _ Hwf)) as (Eo & Hin & l & Hhd).
  fold lft rgt in Eo, Hin, Hhd. fold sz' in Hin, Hhd.
  rewrite Eh in Hr, Hw, Hin, Hhd. rewrite Eo in Hbp.
  pose proof (wf_sizes _ _ Hw) as Hok'.
  assert (Hb' : base_of s' = base_of s).
  { unfold base_of. destruct Hg as (_ & _ & -> & _). reflexivity. }
  set (o' := total L - (if snd lft then 0 else fst lft)) in *.
  assert (Ebp' : bp' = base_of s' + o') by (rewrite Hb'; exact Hbp).
  destruct (rep_block_tags _ _ Hr _ _ Hin) as [Hh Hft].
  destruct (rep_block_bounds h' Hok' _ _ Hin) as (_ & _ & H24 & H8).
  cbn [fst] in Hft, H24, H8.
  pose proof (rep_block_size _ _ Hr Hok' _ _ Hin) as Hgs. cbn [fst] in Hgs.
  rewrite <- Ebp' in Hgs.
  split; [exact Hr|]. split; [exact Hw|]. split; [exact Hg|].
  split.
  { rewrite Hbp. unfold o', bp. destruct (snd lft); lia. }
  split.
  { unfold HDRP, WSIZE. rewrite Ebp', Hh. symmetry.
    now apply (PACK_tag sz' false). }
  split.
  { unfold FTRP, DSIZE. rewrite Hgs, Ebp', Hft. symmetry.
    now apply (PACK_tag sz' false). }
  split.
  { rewrite Ebp'.
    rewrite (rep_block_class _ _ Hr Hok' _ _ Hin). cbn [fst].
    rewrite (rep_head s' h') by (assumption || (pose proof (class_idx_lt sz'); lia)).
    rewrite Hhd. reflexivity. }
  split.
  { intros i. replace (bp' - base_of s) with o' by lia.
    exact (wf_on_one_list h' o' sz' Hw Hin i). }
  exact Hfr.
Qed.

(** The chunk [mm_init] has made, taken off its list and handed to
    [coalesce]: the sentinels on both sides are allocated, so the block is
    returned as it is and listed again. *)
Lemma coalesce_four_cases_sample :
  let s1 := fst (mm_init c_s0) in
  let s := deleteFree s1 (base_of s1 + 0) in
  let r := coalesce s (base_of s + total []) in
  snd r = base_of s + total [] /\
  GET (mem (fst r)) (HDRP (snd r)) = PACK 168 0 /\
  GETLP (mem (fst r)) (slot (fst r) 11) = snd r.
Proof.
  intros s1 s r.
  destruct (mm_init_spec c_s0 fresh_c_s0) as (_ & Hrep & Hwf & _).
  assert (Hin : In (0, (168, false)) (layout 0 (blocks a_init)))
    by (left; reflexivity).
  destruct (deleteFree_spec _ a_init [] 0 168 Hrep Hwf Hin (fun x => x))
    as (Hr & _).
  pose proof (wf_delete a_init [] 0 168 Hwf Hin (fun x => x)) as Hw.
  destruct (coalesce_four_cases s [] 168 [] _ Hr Hw)
    as (_ & _ & _ & Hbp & Hh & _ & Hs & _).
  split; [exact Hbp|]. split; [exact Hh|].
  assert (Ec : choosefreetable (mem (fst r)) (snd r) = 11).
  { unfold choosefreetable, GET_SIZE. fold r in Hh. rewrite Hh. reflexivity. }
  fold r in Hs. rewrite Ec in Hs. exact Hs.
Defined.

(** * Three requests of 24 bytes, the middle one freed *)

(** C3, as stated, fails on the sample provider: after
    [p = malloc 24; q = malloc 24; r = malloc 24; free q] the block of [q]
    measures 32 bytes, not 24, the list of class 3 is empty, and [q] heads
    the list of class 2. *)
Lemma freed_middle_block_is_not_24_on_class_3 :
  let r1 := malloc 2 c_s0 24 in
  let r2 := malloc 2 (state_after c_s0 r1) 24 in
  let r3 := malloc 2 (state_after c_s0 r2) 24 in
  let q := pointer_of r2 in
  let s4 := free (state_after c_s0 r3) q in
  pointer_of r1 <> 0 /\ q <> 0 /\ pointer_of r3 <> 0 /\
  GET_SIZE (mem s4) (HDRP q) = 32 /\
  GET_ALLOC (mem s4) (HDRP q) = 0 /\
  GETLP (mem s4) (slot s4 3) = 0 /\
  GETLP (mem s4) (slot s4 2) = q /\
  ~ (GET_SIZE (mem s4) (HDRP q) = 24 /\ GETLP (mem s4) (slot s4 3) = q).
Proof.
  intros r1 r2 r3 q s4.
  assert (E1 : pointer_of r1 = 4280) by (vm_compute; reflexivity).
  assert (Eq : q = 4312) by (vm_compute; reflexivity).
  assert (E3 : pointer_of r3 = 4344) by (vm_compute; reflexivity).
  assert (Es : GET_SIZE (mem s4) (HDRP q) = 32) by (vm_compute; reflexivity).
  assert (Ea : GET_ALLOC (mem s4) (HDRP q) = 0) by (vm_compute; reflexivity).
  assert (El3 : GETLP (mem s4) (slot s4 3) = 0) by (vm_compute; reflexivity).
  assert (El2 : GETLP (mem s4) (slot s4 2) = q) by (vm_compute; reflexivity).
  clearbody r1 r2 r3 q s4.
  repeat split; try assumption; lia.
Qed.

(** C3, amended: on an empty heap, after
    [p = malloc 24; q = malloc 24; r = malloc 24; free q], the three
    blocks measure 32 bytes each (24 bytes and the two tags, rounded up to
    a multiple of eight), the block region is [p] allocated, [q] free,
    [r] allocated and the rest of the first chunk, 72 bytes, free.  The
    block of [q] is the only member of the list of class 2, the list of 4
    double words; the rest is the only member of the list of class 7; the
    list of class 3 is empty. *)
Theorem freed_middle_block_is_32_on_class_2 (s : State) (fuel : nat) :
  fresh s -> (2 <= fuel)%nat ->
  exists s1 p s2 q s3 r,
    malloc fuel s 24 = Some (s1, p) /\
    malloc fuel s1 24 = Some (s2, q) /\
    malloc fuel s2 24 = Some (s3, r) /\
    p = mem_brk s + 184 /\ q = p + 32 /\ r = q + 32 /\
    let s4 := free s3 q in
    inv s4 (mkHeap [(32, true); (32, false); (32, true); (72, false)]
                   ([] :: [32] :: repeat [] 4 ++ [96] :: repeat [] 13)) /\
    GET (mem s4) (HDRP q) = PACK 32 0 /\
    GET (mem s4) (FTRP (mem s4) q) = PACK 32 0 /\
    choosefreetable (mem s4) q = 2 /\
    GETLP (mem s4) (slot s4 2) = q /\ NEXT_FREE (mem s4) q = 0 /\
    GETLP (mem s4) (slot s4 3) = 0 /\
    GET (mem s4) (HDRP (r + 32)) = PACK 72 0 /\
    GETLP (mem s4) (slot s4 7) = r + 32 /\ NEXT_FREE (mem s4) (r + 32) = 0.
Proof.
  intros Hf H2.
  set (h1 := mkHeap [(32, true); (136, false)]
               (repeat [] 10 ++ [32] :: repeat [] 9)).
  set (h2 := mkHeap [(32, true); (32, true); (104, false)]
               (repeat [] 9 ++ [64] :: repeat [] 10)).
  set (h3 := mkHeap [(32, true); (32, true); (32, true); (72, false)]
               (repeat [] 6 ++ [96] :: repeat [] 13)).
  set (h4 := mkHeap [(32, true); (32, false); (32, true); (72, false)]
               ([] :: [32] :: repeat [] 4 ++ [96] :: repeat [] 13)).
  destruct (malloc_first s fuel 24 h1 0 Hf H2 ltac:(lia) ltac:(lia)
              ltac:(reflexivity)) as (s1 & E1 & Hinv1 & Hb1 & Ht1).
  destruct (malloc_next s1 h1 fuel 24 h2 32 Hinv1 H2 eq_refl ltac:(lia)
              ltac:(lia) ltac:(reflexivity)) as (s2 & E2 & Hinv2 & Hg2 & _).
  destruct (malloc_next s2 h2 fuel 24 h3 64 Hinv2 H2 eq_refl ltac:(lia)
              ltac:(lia) ltac:(reflexivity)) as (s3 & E3 & Hinv3 & Hg3 & _).
  pose proof (same_heap_globals_base _ _ Hg2) as Hb2.
  pose proof (same_heap_globals_base _ _ Hg3) as Hb3.
  rewrite Hb1 in Hb2. rewrite Hb2 in Hb3.
  rewrite Hb1 in E2. rewrite Hb2 in E3.
  destruct (free_inv s3 h3 32 32 Hinv3 ltac:(right; left; reflexivity))
    as (Hinv4 & Hg4 & _).
  change (a_free h3 32) with h4 in Hinv4.
  rewrite Hb3 in Hinv4, Hg4.
  set (s4 := free s3 (mem_brk s + 184 + 32)) in *.
  assert (Hb4 : base_of s4 = mem_brk s + 184).
  { unfold base_of. destruct Hg4 as (_ & _ & -> & _). exact Hb3. }
  assert (Ht4 : forall n, slot s4 n =
                freelisttablehead s4 + 8 * Z.of_nat (Z.to_nat (n - 1)) \/ n < 1).
  { intros n. destruct (Z_lt_dec n 1); [now right|left].
    unfold slot, DSIZE. lia. }
  exists s1, (mem_brk s + 184 + 0), s2, (mem_brk s + 184 + 32), s3,
    (mem_brk s + 184 + 64).
  split; [exact E1|]. split; [exact E2|]. split; [exact E3|].
  split; [lia|]. split; [lia|]. split; [lia|].
  cbv zeta. fold s4.
  pose proof Hinv4 as (Hrep4 & _).
  destruct (inv_block_tags s4 h4 32 32 false Hinv4
              ltac:(right; left; reflexivity)) as (Hsz & _ & Hft & Hftv & _).
  destruct (rep_block_tags _ _ Hrep4 32 (32, false)
              ltac:(right; left; reflexivity)) as [Hh _].
  destruct (rep_block_tags _ _ Hrep4 96 (72, false)
              ltac:(right; right; right; left; reflexivity)) as [Hh' _].
  destruct (rep_first_links s4 h4 1 32 [] Hrep4 ltac:(lia) eq_refl)
    as [_ Hn].
  destruct (rep_first_links s4 h4 6 96 [] Hrep4 ltac:(lia) eq_refl)
    as [_ Hn'].
  pose proof (rep_head s4 h4 1 Hrep4 ltac:(lia)) as Hs2.
  pose proof (rep_head s4 h4 2 Hrep4 ltac:(lia)) as Hs3.
  pose proof (rep_head s4 h4 6 Hrep4 ltac:(lia)) as Hs7.
  cbn [h4 lists nth headp app repeat] in Hs2, Hs3, Hs7, Hn, Hn'.
  rewrite Hb4 in *.
  split; [exact Hinv4|].
  split; [unfold HDRP, WSIZE; rewrite Hh; reflexivity|].
  split; [rewrite Hft; exact Hftv|].
  split; [unfold choosefreetable; rewrite Hsz; reflexivity|].
  split; [exact Hs2|]. split; [exact Hn|]. split; [exact Hs3|].
  split.
  { unfold HDRP, WSIZE.
    replace (mem_brk s + 184 + 64 + 32 - 4) with (mem_brk s + 184 + 96 - 4)
      by lia.
    rewrite Hh'. reflexivity. }
  replace (mem_brk s + 184 + 64 + 32) with (mem_brk s + 184 + 96) by lia.
  split; [exact Hs7|exact Hn'].
Qed.

(** The amended statement on the sample provider. *)
Lemma freed_middle_block_is_32_on_class_2_sample :
  exists s1 s2 s3,
    malloc 2 c_s0 24 = Some (s1, 4280) /\
    malloc 2 s1 24 = Some (s2, 4312) /\
    malloc 2 s2 24 = Some (s3, 4344) /\
    GET (mem (free s3 4312)) (HDRP 4312) = 32 /\
    GETLP (mem (free s3 4312)) (slot (free s3 4312) 2) = 4312.
Proof.
  destruct (freed_middle_block_is_32_on_class_2 c_s0 2 fresh_c_s0 (le_n 2))
    as (s1 & p & s2 & q & s3 & r & E1 & E2 & E3 & -> & -> & -> & H).
  cbv zeta in H. destruct H as (_ & Hh & _ & _ & Hs & _).
  exists s1, s2, s3. split; [exact E1|]. split; [exact E2|].
  split; [exact E3|]. split; [exact Hh|exact Hs].
Defined.

(** * A request whose adjustment wraps *)

(** C2: the run [a = malloc 1; f = malloc 1; g = malloc 1; free f;
    malloc (2 ^ 64 - 8)] on the sample provider.  Before the last call the
    heap walk reads [a] allocated, [f] free, [g] allocated and the rest of
    the chunk free.  The adjusted size of the last request is 0, the call
    returns [f], and afterwards the walk from the prologue reaches [a] and
    then [f], whose header says free with 48 bytes, and the block after
    it, by that header, is free as well: two adjacent free blocks, the
    first of them lying over [g]. *)
Theorem huge_request_leaves_adjacent_free_blocks :
  let r1 := malloc 2 c_s0 1 in
  let r2 := malloc 2 (state_after c_s0 r1) 1 in
  let r3 := malloc 2 (state_after c_s0 r2) 1 in
  let a := pointer_of r1 in
  let f := pointer_of r2 in
  let g := pointer_of r3 in
  let s4 := free (state_after c_s0 r3) f in
  let r5 := malloc 2 s4 (2 ^ 64 - 8) in
  let s5 := state_after c_s0 r5 in
  (a <> 0 /\ f <> 0 /\ g <> 0) /\
  (NEXT_BLKP (mem s4) (heap_listp s4) = a /\ NEXT_BLKP (mem s4) a = f /\
   NEXT_BLKP (mem s4) f = g /\
   GET_ALLOC (mem s4) (HDRP a) = 1 /\ GET_ALLOC (mem s4) (HDRP f) = 0 /\
   GET_ALLOC (mem s4) (HDRP g) = 1 /\
   GET (mem s4) (HDRP (NEXT_BLKP (mem s4) g)) = PACK 96 0 /\
   GET (mem s4) (HDRP (NEXT_BLKP (mem s4) (NEXT_BLKP (mem s4) g))) =
   PACK 0 1) /\
  adjust (2 ^ 64 - 8) = 0 /\
  r5 <> None /\ pointer_of r5 = f /\
  NEXT_BLKP (mem s5) (heap_listp s5) = a /\ NEXT_BLKP (mem s5) a = f /\
  GET (mem s5) (HDRP f) = PACK 48 0 /\
  GET (mem s5) (HDRP (NEXT_BLKP (mem s5) f)) = PACK 96 0 /\
  GET_ALLOC (mem s5) (HDRP f) = 0 /\
  GET_ALLOC (mem s5) (HDRP (NEXT_BLKP (mem s5) f)) = 0 /\
  HDRP f < HDRP g < HDRP (NEXT_BLKP (mem s5) f).
Proof.
  intros r1 r2 r3 a f g s4 r5 s5.
  assert (Ea : a = 4280) by (vm_compute; reflexivity).
  assert (Ef : f = 4304) by (vm_compute; reflexivity).
  assert (Eg : g = 4328) by (vm_compute; reflexivity).
  assert (W1 : NEXT_BLKP (mem s4) (heap_listp s4) = 4280)
    by (vm_compute; reflexivity).
  assert (W2 : NEXT_BLKP (mem s4) a = 4304) by (vm_compute; reflexivity).
  assert (W3 : NEXT_BLKP (mem s4) f = 4328) by (vm_compute; reflexivity).
  assert (A1 : GET_ALLOC (mem s4) (HDRP a) = 1) by (vm_compute; reflexivity).
  assert (A2 : GET_ALLOC (mem s4) (HDRP f) = 0) by (vm_compute; reflexivity).
  assert (A3 : GET_ALLOC (mem s4) (HDRP g) = 1) by (vm_compute; reflexivity).
  assert (A4 : GET (mem s4) (HDRP (NEXT_BLKP (mem s4) g)) = PACK 96 0)
    by (vm_compute; reflexivity).
  assert (A5 : GET (mem s4)
                 (HDRP (NEXT_BLKP (mem s4) (NEXT_BLKP (mem s4) g))) =
               PACK 0 1) by (vm_compute; reflexivity).
  assert (Eadj : adjust (2 ^ 64 - 8) = 0) by (vm_compute; reflexivity).
  assert (E5 : pointer_of r5 = 4304) by (vm_compute; reflexivity).
  assert (V1 : NEXT_BLKP (mem s5) (heap_listp s5) = 4280)
    by (vm_compute; reflexivity).
  assert (V2 : NEXT_BLKP (mem s5) a = 4304) by (vm_compute; reflexivity).
  assert (V3 : GET (mem s5) (HDRP f) = PACK 48 0) by (vm_compute; reflexivity).
  assert (V4 : GET (mem s5) (HDRP (NEXT_BLKP (mem s5) f)) = PACK 96 0)
    by (vm_compute; reflexivity).
  assert (V5 : GET_ALLOC (mem s5) (HDRP f) = 0) by (vm_compute; reflexivity).
  assert (V6 : GET_ALLOC (mem s5) (HDRP (NEXT_BLKP (mem s5) f)) = 0)
    by (vm_compute; reflexivity).
  assert (V7 : HDRP (NEXT_BLKP (mem s5) f) = 4348) by (vm_compute; reflexivity).
  assert (N5 : r5 <> None).
  { intros E. rewrite E in E5. discriminate E5. }
  clearbody r1 r2 r3 a f g s4 r5 s5.
  unfold HDRP, WSIZE in V7 |- *.
  repeat split; try assumption; lia.
Qed.

(** * [realloc] that moves the block *)

Lemma load_shift n : forall m m' p q,
  (forall i, 0 <= i < Z.of_nat n -> m' (q + i) = m (p + i)) ->
  load n m' q = load n m p.
Proof.
  induction n as [|n IH]; intros m m' p q H; cbn [load]; [reflexivity|].
  pose proof (H 0 ltac:(lia)) as H0. rewrite !Z.add_0_r in H0. rewrite H0.
  rewrite (IH m m' (p + 1) (q + 1)); [reflexivity|].
  intros i Hi. replace (q + 1 + i) with (q + (1 + i)) by lia.
  replace (p + 1 + i) with (p + (1 + i)) by lia. apply H. lia.
Qed.

(** C5, as stated, fails on the sample provider: [p = malloc 16] has a
    payload of 16 bytes, which the caller fills; [q = realloc p 100] then
    finds byte 16 of the new payload, zero after the allocation inside
    [realloc], holding the low byte of the old block's footer: the copy is
    longer than the 16 bytes the old payload and the request have in
    common. *)
Lemma realloc_copy_is_longer_than_the_payload :
  let r1 := malloc 2 c_s0 16 in
  let p := pointer_of r1 in
  let s1 := fill (state_after c_s0 r1) p xab 16 in
  let inner := malloc 2 s1 (adjust 100) in
  let r2 := realloc 2 s1 p 100 in
  let q := pointer_of r2 in
  let s2 := state_after c_s0 r2 in
  p <> 0 /\ GET_SIZE (mem s1) (HDRP p) - DSIZE = 16 /\
  r2 <> None /\ q <> 0 /\ q <> p /\ pointer_of inner = q /\
  mem s1 (p + 16) = x19 /\
  mem (state_after c_s0 inner) (q + 16) = x00 /\
  mem s2 (q + 16) = x19 /\
  ~ (forall i, Z.min 16 100 <= i < 100 ->
       mem s2 (q + i) = mem (state_after c_s0 inner) (q + i)).
Proof.
  intros r1 p s1 inner r2 q s2.
  assert (Ep : p = 4280) by (vm_compute; reflexivity).
  assert (Es : GET_SIZE (mem s1) (HDRP p) = 24) by (vm_compute; reflexivity).
  assert (Eq : q = 4304) by (vm_compute; reflexivity).
  assert (Ei : pointer_of inner = 4304) by (vm_compute; reflexivity).
  assert (B0 : mem s1 (p + 16) = x19) by (vm_compute; reflexivity).
  assert (B1 : mem (state_after c_s0 inner) (q + 16) = x00)
    by (vm_compute; reflexivity).
  assert (B2 : mem s2 (q + 16) = x19) by (vm_compute; reflexivity).
  assert (N2 : r2 <> None).
  { intros E. unfold q in Eq. rewrite E in Eq. discriminate Eq. }
  clearbody r1 p s1 inner r2 q s2.
  split; [lia|]. split; [unfold DSIZE; lia|]. split; [exact N2|].
  split; [lia|]. split; [lia|]. split; [lia|]. split; [exact B0|].
  split; [exact B1|]. split; [exact B2|].
  intros H. specialize (H 16 ltac:(lia)). rewrite B1, B2 in H. discriminate H.
Qed.

(** C5, amended: [realloc] with a live block, a non-zero size whose
    adjusted size exceeds the block's, and an inner [malloc] that succeeds
    returns the new pointer, distinct from the old.  [memcpy] is given the
    size in the old header, the old payload and one double word more: the
    new payload starts with the whole old payload as it was before the
    call, followed by the word of the old footer, and all of this fits the
    new payload, the inner request being the adjusted size adjusted once
    more.  The old block is free afterwards, the new one allocated, every
    other allocated block is as it was and the heap invariant holds. *)
Theorem realloc_moves_whole_old_block
  (s : State) (h : heap) (fuel : nat) (o osz size : Z) (s1 : State) (q : Z) :
  inv s h ->
  In (o, (osz, true)) (layout 0 (blocks h)) ->
  (forall i, (length (nth i (lists h) []) < fuel)%nat) ->
  size <> 0 ->
  osz < adjust size ->
  adjust size + 15 < 2 ^ 64 ->
  malloc fuel s (adjust size) = Some (s1, q) ->
  q <> 0 ->
  let p := base_of s + o in
  let s' := free (set_mem s1 (memcpy (mem s1) q p osz)) p in
  realloc fuel s p size = Some (s', q) /\
  q <> p /\
  GET_SIZE (mem s) (HDRP p) = osz /\
  (forall i, 0 <= i < osz - DSIZE -> mem s' (q + i) = mem s (p + i)) /\
  GET (mem s') (q + osz - DSIZE) = PACK osz 1 /\
  (forall i, 0 <= i < osz -> mem s' (q + i) = mem s1 (p + i)) /\
  exists h',
    inv s' h' /\ same_heap_globals s s' /\
    (forall szo, ~ In (o, (szo, true)) (layout 0 (blocks h'))) /\
    (exists szq, osz + DSIZE < adjust size + DSIZE <= szq /\
       In (q - base_of s, (szq, true)) (layout 0 (blocks h'))) /\
    (forall x szx a,
       In (x, (szx, true)) (layout 0 (blocks h)) -> x <> o ->
       base_of s + x - 4 <= a < base_of s + x + szx - 4 ->
       mem s' a = mem s a).
Proof.
  intros Hinv Hin Hfuel Hsize Hgrow Hwrap Em Hq p s'.
  destruct (realloc_grow_spec s h fuel o osz size Hinv Hin Hfuel Hsize Hgrow
              Hwrap) as (s1' & Em' & H).
  rewrite Em in Em'. injection Em' as <- Eq.
  destruct (snd (a_malloc h (mem_max_addr s - mem_brk s) (adjust size)))
    as [oq|]; cbn [ptr_of] in Eq; [|contradiction].
  cbv zeta in H. rewrite <- Eq in H. fold p in H. fold s' in H.
  destruct H as (Er & Hne & _ & Hinv' & Hg & (szq & Hszq & Hinq) & Hgone
                 & Hcopy & Hpay & Hothers).
  destruct Hinv as (Hrep & Hwf & _).
  pose proof (wf_sizes _ _ Hwf) as Hok.
  pose proof (rep_block_size _ _ Hrep Hok _ _ Hin) as Hosz.
  cbn [fst] in Hosz. fold p in Hosz.
  destruct (rep_block_tags _ _ Hrep _ _ Hin) as [_ Hft].
  destruct (rep_block_bounds h Hok _ _ Hin) as (_ & _ & H24 & H8).
  cbn [fst] in Hft, H24, H8. fold p in Hft.
  split; [exact Er|]. split; [exact Hne|]. split; [exact Hosz|].
  split; [intros i Hi; apply Hpay; unfold DSIZE in Hi; lia|].
  split.
  { unfold DSIZE. rewrite (PACK_tag osz true H8), <- Hft.
    unfold GET. replace (q + osz - 8) with (q + (osz - 8)) by lia.
    replace (p + osz - 8) with (p + (osz - 8)) by lia.
    apply load_shift. intros i Hi.
    replace (q + (osz - 8) + i) with (q + (osz - 8 + i)) by lia.
    replace (p + (osz - 8) + i) with (p + (osz - 8 + i)) by lia.
    apply Hpay. lia. }
  split; [exact Hcopy|].
  exists (a_free (fst (a_malloc h (mem_max_addr s - mem_brk s) (adjust size))) o).
  split; [exact Hinv'|]. split; [exact Hg|]. split; [exact Hgone|].
  split; [|exact Hothers].
  exists szq. split; [unfold DSIZE; lia|].
  replace (q - base_of s) with oq by lia. exact Hinq.
Qed.

(** The move of the block of [malloc 16] to one of 100 bytes on the sample
    provider: the word after the 16 bytes of payload in the new block is
    the old footer. *)
Lemma realloc_moves_whole_old_block_sample :
  let s := state_after c_s0 (malloc 2 c_s0 16) in
  let inner := malloc 2 s (adjust 100) in
  exists s',
    realloc 2 s (base_of s + 0) 100 = Some (s', pointer_of inner) /\
    GET (mem s') (pointer_of inner + 24 - DSIZE) = PACK 24 1.
Proof.
  intros s inner.
  set (h := mkHeap [(24, true); (144, false)]
              (repeat [] 10 ++ [24] :: repeat [] 9)).
  assert (Hinv : inv s h).
  { destruct (malloc_first c_s0 2 16 h 0 fresh_c_s0 (le_n 2) ltac:(lia)
                ltac:(lia) ltac:(reflexivity)) as (s0' & E & Hinv & _).
    unfold s. rewrite E. exact Hinv. }
  assert (Ei : pointer_of inner = 4304) by (vm_compute; reflexivity).
  clearbody s. unfold inner in *. clear inner.
  destruct (malloc 2 s (adjust 100)) as [[s1 q]|] eqn:Einner;
    cbn [pointer_of] in Ei |- *; [|discriminate Ei].
  destruct (realloc_moves_whole_old_block s h 2 0 24 100 s1 q Hinv
              ltac:(left; reflexivity)
              (few_members (lists h) 2 (le_n 2) eq_refl)
              ltac:(discriminate) ltac:(reflexivity) ltac:(reflexivity)
              Einner ltac:(rewrite Ei; discriminate))
    as (Er & _ & _ & _ & Hf & _).
  eexists. split; [exact Er|exact Hf].
Defined.

(** * [calloc] *)

(** C6, as stated, fails on the sample provider: [p = malloc 24] has a
    payload of 24 bytes, which the caller fills; after [malloc 1] and
    [free p] the call [calloc 1 17] returns [p] again, in a block of 32
    bytes, and byte 17 of its payload still holds what the caller wrote. *)
Lemma calloc_leaves_the_payload_tail :
  let r1 := malloc 2 c_s0 24 in
  let p := pointer_of r1 in
  let s1 := fill (state_after c_s0 r1) p xab 24 in
  let r2 := malloc 2 s1 1 in
  let s3 := free (state_after c_s0 r2) p in
  let r4 := calloc 2 s3 1 17 in
  let s4 := state_after c_s0 r4 in
  p <> 0 /\ pointer_of r2 <> 0 /\ r4 <> None /\ pointer_of r4 = p /\
  GET_SIZE (mem s4) (HDRP p) = 32 /\ GET_ALLOC (mem s4) (HDRP p) = 1 /\
  mem s4 (p + 16) = x00 /\ mem s4 (p + 17) = xab /\
  ~ (forall i, 0 <= i < GET_SIZE (mem s4) (HDRP p) - DSIZE ->
       mem s4 (p + i) = x00).
Proof.
  intros r1 p s1 r2 s3 r4 s4.
  assert (Ep : p = 4280) by (vm_compute; reflexivity).
  assert (E2 : pointer_of r2 = 4312) by (vm_compute; reflexivity).
  assert (E4 : pointer_of r4 = 4280) by (vm_compute; reflexivity).
  assert (Es : GET_SIZE (mem s4) (HDRP p) = 32) by (vm_compute; reflexivity).
  assert (Ea : GET_ALLOC (mem s4) (HDRP p) = 1) by (vm_compute; reflexivity).
  assert (B0 : mem s4 (p + 16) = x00) by (vm_compute; reflexivity).
  assert (B1 : mem s4 (p + 17) = xab) by (vm_compute; reflexivity).
  assert (N4 : r4 <> None).
  { intros E. rewrite E in E4. discriminate E4. }
  clearbody r1 p s1 r2 s3 r4 s4.
  split; [lia|]. split; [lia|]. split; [exact N4|]. split; [lia|].
  split; [exact Es|]. split; [exact Ea|]. split; [exact B0|].
  split; [exact B1|].
  intros H. specialize (H 17 ltac:(rewrite Es; unfold DSIZE; lia)).
  rewrite B1 in H. discriminate H.
Qed.

(** C6, amended: [calloc] whose product is positive and does not wrap, and
    whose [malloc] succeeds, returns that pointer to an allocated block
    whose payload holds the product; the bytes of the request, from the
    pointer up to the product, are zero, and every other byte is as
    [malloc] left it, the rest of the payload included.  The heap
    invariant holds afterwards and the blocks that were allocated before
    are as they were. *)
Theorem calloc_zeroes_the_request
  (s : State) (h : heap) (fuel : nat) (nmemb size : Z) (s1 : State) (q : Z) :
  inv s h ->
  (forall i, (length (nth i (lists h) []) < fuel)%nat) ->
  0 < nmemb * size ->
  nmemb * size + 15 < 2 ^ 64 ->
  malloc fuel s (nmemb * size) = Some (s1, q) ->
  q <> 0 ->
  let bytes := nmemb * size in
  let s' := set_mem s1 (memset (mem s1) q x00 bytes) in
  calloc fuel s nmemb size = Some (s', q) /\
  (forall i, 0 <= i < bytes -> mem s' (q + i) = x00) /\
  (forall a, a < q \/ q + bytes <= a -> mem s' a = mem s1 a) /\
  bytes <= GET_SIZE (mem s') (HDRP q) - DSIZE /\
  GET_ALLOC (mem s') (HDRP q) = 1 /\
  exists h',
    inv s' h' /\ same_heap_globals s s' /\
    In (q - base_of s, (GET_SIZE (mem s') (HDRP q), true))
       (layout 0 (blocks h')) /\
    (forall x szx a,
       In (x, (szx, true)) (layout 0 (blocks h)) ->
       base_of s + x - 4 <= a < base_of s + x + szx - 4 ->
       mem s' a = mem s a).
Proof.
  intros Hinv Hfuel Hpos Hwrap Em Hq bytes s'.
  assert (Ew : wrap64 (nmemb * size) = nmemb * size)
    by (apply wrap64_small; lia).
  destruct (calloc_spec s h fuel nmemb size Hinv Hfuel
              ltac:(rewrite Ew; lia)
              ltac:(rewrite Ew; exact Hwrap)) as (s1' & Em' & H).
  rewrite Ew in Em', H. rewrite Em in Em'.
  injection Em' as <- Eq.
  destruct (snd (a_malloc h (mem_max_addr s - mem_brk s) (nmemb * size)))
    as [oq|]; cbn [ptr_of] in Eq; [|contradiction].
  cbv zeta in H. rewrite <- Eq in H. fold bytes in H. fold s' in H.
  destruct H as (Ec & _ & Hinv' & Hg & (szq & Hszq & Hinq) & Hzero & Hrest
                 & Hothers).
  pose proof (same_heap_globals_base _ _ Hg) as Hb.
  destruct (inv_block_tags s' _ oq szq true Hinv' Hinq) as (Hsz & Hal & _).
  rewrite Hb, <- Eq in Hsz, Hal.
  split; [exact Ec|]. split; [exact Hzero|]. split; [exact Hrest|].
  split; [rewrite Hsz; unfold DSIZE, bytes; lia|]. split; [exact Hal|].
  exists (fst (a_malloc h (mem_max_addr s - mem_brk s) (nmemb * size))).
  split; [exact Hinv'|]. split; [exact Hg|].
  split; [|exact Hothers].
  rewrite Hsz. replace (q - base_of s) with oq by lia. exact Hinq.
Qed.

(** [calloc 1 17] on the heap [mm_init] leaves on the sample provider. *)
Lemma calloc_zeroes_the_request_sample :
  let s := fst (mm_init c_s0) in
  let inner := malloc 2 s (1 * 17) in
  exists s',
    calloc 2 s 1 17 = Some (s', pointer_of inner) /\
    (forall i, 0 <= i < 1 * 17 -> mem s' (pointer_of inner + i) = x00) /\
    1 * 17 <= GET_SIZE (mem s') (HDRP (pointer_of inner)) - DSIZE.
Proof.
  intros s inner.
  assert (Ei : pointer_of inner = 4280) by (vm_compute; reflexivity).
  pose proof (inv_init c_s0 fresh_c_s0) as Hinv. fold s in Hinv.
  clearbody s. unfold inner in *. clear inner.
  destruct (malloc 2 s (1 * 17)) as [[s1 q]|] eqn:Einner;
    cbn [pointer_of] in Ei |- *; [|discriminate Ei].
  destruct (calloc_zeroes_the_request s a_init 2 1 17 s1 q Hinv
              (a_init_few 2 (le_n 2)) ltac:(reflexivity) ltac:(reflexivity)
              Einner ltac:(rewrite Ei; discriminate))
    as (Ec & Hz & _ & Hp & _).
  eexists. split; [exact Ec|]. split; [exact Hz|exact Hp].
Defined.

(** * A request the provider refuses *)

(** C7, as stated, fails on the provider with a hundred bytes to spare:
    the first call, [malloc 400] on the empty heap, initialises, finds no
    fit, is refused the extension and returns null; but the break has
    moved by 352 bytes, the heap pointer is set and the chunk's header is
    written. *)
Lemma first_call_refused_has_changed_the_heap :
  let r := malloc 2 c_low 400 in
  let s' := state_after c_low r in
  let s1 := fst (mm_init c_low) in
  let fit := find_fit 2 s1 (adjust 400) in
  heap_listp c_low = 0 /\
  fit <> None /\ pointer_of fit = 0 /\
  snd (mem_sbrk (state_after s1 fit) (MAX (adjust 400) CHUNKSIZE)) = -1 /\
  r <> None /\ pointer_of r = 0 /\
  mem_brk s' = mem_brk c_low + 352 /\
  heap_listp s' = 4272 /\
  GET (mem c_low) (HDRP (heap_listp s' + DSIZE)) = 0 /\
  GET (mem s') (HDRP (heap_listp s' + DSIZE)) = PACK CHUNKSIZE 0 /\
  ~ (mem_brk s' = mem_brk c_low /\ heap_listp s' = heap_listp c_low /\
     forall a, mem s' a = mem c_low a).
Proof.
  intros r s' s1 fit.
  assert (F1 : fit <> None) by (vm_compute; discriminate).
  assert (F2 : pointer_of fit = 0) by (vm_compute; reflexivity).
  assert (F3 : snd (mem_sbrk (state_after s1 fit) (MAX (adjust 400) CHUNKSIZE))
               = -1) by (vm_compute; reflexivity).
  assert (R1 : r <> None) by (vm_compute; discriminate).
  assert (R2 : pointer_of r = 0) by (vm_compute; reflexivity).
  assert (B : mem_brk s' = mem_brk c_low + 352) by (vm_compute; reflexivity).
  assert (Hl : heap_listp s' = 4272) by (vm_compute; reflexivity).
  assert (G0 : GET (mem c_low) (HDRP (heap_listp s' + DSIZE)) = 0)
    by (vm_compute; reflexivity).
  assert (G1 : GET (mem s') (HDRP (heap_listp s' + DSIZE)) = PACK CHUNKSIZE 0)
    by (vm_compute; reflexivity).
  clearbody r s' s1 fit.
  split; [reflexivity|]. split; [exact F1|]. split; [exact F2|].
  split; [exact F3|]. split; [exact R1|]. split; [exact R2|].
  split; [exact B|]. split; [exact Hl|]. split; [exact G0|].
  split; [exact G1|]. intros (Hb & _). lia.
Qed.

(** C7, amended: on an initialised heap, a request of non-zero size for
    which [find_fit] returns null and for which the provider refuses the
    bytes [extend_heap] asks for returns null, in the state [find_fit]
    left: the bytes of the heap, the break, the provider's limit, the heap
    pointer and the directory pointer are those from before the call
    (only the scratch global [freelisthead] may differ), and a heap that
    satisfied the invariant satisfies it still, with the same blocks and
    the same lists. *)
Theorem malloc_refused_keeps_initialised_heap
  (fuel : nat) (s : State) (size : Z) (s1 : State) :
  heap_listp s <> 0 ->
  size <> 0 ->
  find_fit fuel s (adjust size) = Some (s1, 0) ->
  let words := MAX (adjust size) CHUNKSIZE / WSIZE in
  let bytes :=
    if negb (words mod 2 =? 0) then wrap64 ((words + 1) * WSIZE)
    else wrap64 (words * WSIZE) in
  mem_sbrk s1 bytes = (s1, -1) ->
  malloc fuel s size = Some (s1, 0) /\
  mem s1 = mem s /\ mem_brk s1 = mem_brk s /\
  mem_max_addr s1 = mem_max_addr s /\ heap_listp s1 = heap_listp s /\
  freelisttablehead s1 = freelisttablehead s /\
  (forall h, inv s h -> inv s1 h).
Proof.
  intros Hl Hs Ef words bytes Hno.
  destruct (find_fit_frame _ _ _ _ _ Ef) as (Hm & Hg).
  split.
  - unfold malloc. destruct (Z.eqb_spec (heap_listp s) 0); [contradiction|].
    destruct (Z.eqb_spec size 0); [contradiction|].
    rewrite Ef. cbn [Z.eqb negb]. unfold extend_heap.
    fold words. fold bytes. rewrite Hno. reflexivity.
  - split; [exact Hm|]. pose proof Hg as (G1 & G2 & G3 & G4).
    split; [exact G1|]. split; [exact G2|]. split; [exact G3|].
    split; [exact G4|].
    intros h (Hrep & Hwf & Hna). split; [|split; assumption].
    now apply (rep_same s).
Qed.

(** A second request of 400 bytes on the provider with a hundred bytes to
    spare, the heap being initialised. *)
Lemma malloc_refused_keeps_initialised_heap_sample :
  let s := fst (mm_init c_low) in
  let s1 := state_after s (find_fit 2 s (adjust 400)) in
  malloc 2 s 400 = Some (s1, 0) /\ mem s1 = mem s /\ mem_brk s1 = mem_brk s.
Proof.
  intros s s1.
  destruct (malloc_refused_keeps_initialised_heap 2 s 400 s1) as (E & Hm & Hb & _).
  - vm_compute. discriminate.
  - discriminate.
  - vm_compute. reflexivity.
  - vm_compute. reflexivity.
  - split; [exact E|]. split; [exact Hm|exact Hb].
Defined.

(** * The invariant on the bytes, and the calls that keep it *)

(** On a heap that satisfies the invariant the walk by [NEXT_BLKP] goes
    from block to block, and the block after a free one, the epilogue
    included, is allocated. *)
Theorem heap_walk_has_no_adjacent_free_blocks
  (s : State) (h : heap) (o : Z) (b : blk) :
  inv s h -> In (o, b) (layout 0 (blocks h)) ->
  let bp := base_of s + o in
  GET (mem s) (HDRP bp) = PACK (fst b) (if snd b then 1 else 0) /\
  NEXT_BLKP (mem s) bp = bp + fst b /\
  (NEXT_BLKP (mem s) bp = mem_brk s \/
   exists b', In (o + fst b, b') (layout 0 (blocks h))) /\
  (GET_ALLOC (mem s) (HDRP bp) = 0 ->
   GET_ALLOC (mem s) (HDRP (NEXT_BLKP (mem s) bp)) = 1).
Proof.
  intros (Hrep & Hwf & Hna) Hin bp.
  pose proof (wf_sizes _ _ Hwf) as Hok.
  destruct (layout_In_split _ _ _ _ Hin) as (L & R & Ebl & Eo).
  rewrite Z.add_0_l in Eo.
  destruct h as [bl fl]. cbn [blocks] in *. subst bl o.
  destruct (rep_block_tags _ _ Hrep _ _ Hin) as [Hh _].
  destruct (rep_block_bounds (mkHeap (L ++ b :: R) fl) Hok _ _ Hin)
    as (_ & _ & _ & H8).
  cbn [blocks] in Hh.
  pose proof (nb_NEXT s L b R fl Hrep Hok) as Hnx. fold bp in Hnx.
  pose proof (nb_next_alloc s L b R fl Hrep Hok) as Hnal. fold bp in Hnal.
  split.
  { unfold HDRP, WSIZE. fold bp in Hh. rewrite Hh. symmetry.
    destruct b as [sz a]. now apply PACK_tag. }
  split; [exact Hnx|]. split.
  - destruct R as [|b' R'].
    + left. rewrite Hnx, (rep_brk _ _ Hrep). cbn [blocks].
      rewrite total_app. cbn [total]. unfold bp. lia.
    + right. exists b'.
      replace (total L + fst b) with (0 + total (L ++ [b]))
        by (rewrite total_app; cbn [total]; lia).
      replace (L ++ b :: b' :: R') with ((L ++ [b]) ++ b' :: R')
        by (rewrite <- app_assoc; reflexivity).
      apply In_layout_mid.
  - intros Hfree. rewrite Hnx, Hnal.
    assert (Hb : snd b = false).
    { unfold HDRP, WSIZE in Hfree. fold bp in Hh.
      rewrite (GET_ALLOC_tag _ _ _ Hh H8) in Hfree.
      destruct (snd b); [discriminate|reflexivity]. }
    apply no_adj_app in Hna. destruct Hna as (_ & Hna & _).
    apply no_adj_cons in Hna. destruct Hna as [Hor _].
    rewrite Hb in Hor. cbn [orb] in Hor. now rewrite Hor.
Qed.

(** The chunk [mm_init] makes on the sample provider is followed by the
    epilogue. *)
Lemma heap_walk_has_no_adjacent_free_blocks_sample :
  let s := fst (mm_init c_s0) in
  NEXT_BLKP (mem s) (base_of s + 0) = mem_brk s /\
  GET_ALLOC (mem s) (HDRP (NEXT_BLKP (mem s) (base_of s + 0))) = 1.
Proof.
  intros s.
  destruct (heap_walk_has_no_adjacent_free_blocks s a_init 0 (168, false)
              (inv_init c_s0 fresh_c_s0) ltac:(left; reflexivity))
    as (Hh & Hn & [Hb|(b' & [Hb|[]])] & Ha).
  - split; [exact Hb|]. apply Ha.
    unfold GET_ALLOC. rewrite Hh. reflexivity.
  - discriminate Hb.
Defined.

(** [malloc] keeps the invariant: for a request that the adjustment does
    not wrap, on a heap that satisfies the invariant and whose lists the
    fuel outlasts, the call returns; the heap satisfies the invariant
    afterwards; a non-null result is aligned and names an allocated block
    of at least the adjusted size that was not allocated before; and
    every block allocated before is allocated still, its bytes
    unchanged. *)
Theorem malloc_keeps_the_invariant
  (s : State) (h : heap) (fuel : nat) (size : Z) :
  inv s h ->
  (forall i, (length (nth i (lists h) []) < fuel)%nat) ->
  0 < size -> size + 15 < 2 ^ 64 ->
  exists s' p h',
    malloc fuel s size = Some (s', p) /\
    inv s' h' /\ same_heap_globals s s' /\
    (p = 0 \/
     (p mod 8 = 0 /\
      (exists sz, adjust size <= sz /\
         In (p - base_of s, (sz, true)) (layout 0 (blocks h'))) /\
      forall sz, ~ In (p - base_of s, (sz, true)) (layout 0 (blocks h)))) /\
    (forall x szx,
       In (x, (szx, true)) (layout 0 (blocks h)) ->
       In (x, (szx, true)) (layout 0 (blocks h')) /\
       forall a, base_of s + x - 4 <= a < base_of s + x + szx - 4 ->
                 mem s' a = mem s a).
Proof.
  intros Hinv Hfuel Hs Hw.
  destruct (malloc_spec s h fuel size Hinv Hfuel Hs Hw)
    as (s' & Em & Hinv' & Hg & Hfr & Hnone & Hsome).
  pose proof Hinv as (Hrep & Hwf & _).
  pose proof (wf_sizes _ _ Hwf) as Hok.
  destruct (rep_geometry _ _ Hrep Hok) as (_ & HTb & Hbase & _).
  set (r := a_malloc h (mem_max_addr s - mem_brk s) size) in *.
  exists s', (ptr_of s (snd r)), (fst r).
  split; [exact Em|]. split; [exact Hinv'|]. split; [exact Hg|].
  split.
  - destruct (snd r) as [o|] eqn:Er; cbn [ptr_of]; [right|now left].
    destruct (Hsome o eq_refl) as ((sz & Hsz & Hin) & _).
    pose proof Hinv' as (_ & Hwf' & _).
    destruct (rep_block_bounds _ (wf_sizes _ _ Hwf') _ _ Hin) as (Ho & _).
    replace (base_of s + o - base_of s) with o by lia.
    split.
    + pose proof (layout_aligned _ 0 _ _ (wf_sizes _ _ Hwf') eq_refl Hin)
        as Ha.
      pose proof (rep_aligned _ _ Hrep) as Hal.
      rewrite Hbase. mod8.
    + split; [eauto|].
      apply (a_malloc_fresh h (mem_max_addr s - mem_brk s) size); auto.
  - intros x szx Hx. split.
    + destruct (snd r) as [o|] eqn:Er.
      * now apply (Hsome o eq_refl).
      * destruct (Hnone eq_refl) as (_ & _ & ->). exact Hx.
    + intros a Ha. now apply (frame_alloc s (blocks h) _ _ x szx).
Qed.

(** A request of 100 bytes on the heap [mm_init] leaves on the sample
    provider. *)
Lemma malloc_keeps_the_invariant_sample :
  exists s' p h', malloc 2 (fst (mm_init c_s0)) 100 = Some (s', p) /\
                  inv s' h'.
Proof.
  destruct (malloc_keeps_the_invariant (fst (mm_init c_s0)) a_init 2 100
              (inv_init c_s0 fresh_c_s0) (a_init_few 2 (le_n 2))
              ltac:(reflexivity) ltac:(reflexivity))
    as (s' & p & h' & E & Hinv & _).
  exists s', p, h'. split; [exact E|exact Hinv].
Defined.

(** [free] keeps the invariant: freeing an allocated block of a heap that
    satisfies the invariant gives a heap that satisfies it, in which that
    block is no longer allocated and every other allocated block is, its
    bytes unchanged; and [free] of the null pointer does nothing. *)
Theorem free_keeps_the_invariant (s : State) (h : heap) (o sz : Z) :
  inv s h -> In (o, (sz, true)) (layout 0 (blocks h)) ->
  let s' := free s (base_of s + o) in
  free s 0 = s /\
  inv s' (a_free h o) /\ same_globals s s' /\
  (forall szo, ~ In (o, (szo, true)) (layout 0 (blocks (a_free h o)))) /\
  (forall x szx,
     In (x, (szx, true)) (layout 0 (blocks h)) -> x <> o ->
     In (x, (szx, true)) (layout 0 (blocks (a_free h o))) /\
     forall a, base_of s + x - 4 <= a < base_of s + x + szx - 4 ->
               mem s' a = mem s a).
Proof.
  intros Hinv Hin s'.
  destruct (free_inv s h o sz Hinv Hin) as (Hinv' & Hg & Hfr & Hkeep & Hgone).
  split; [reflexivity|]. split; [exact Hinv'|]. split; [exact Hg|].
  split; [exact Hgone|].
  intros x szx Hx Hne. split; [now apply Hkeep|].
  intros a Ha. now apply (Hfr x szx).
Qed.

(** [free] of the block of [malloc 16] on the sample provider. *)
Lemma free_keeps_the_invariant_sample :
  let s := state_after c_s0 (malloc 2 c_s0 16) in
  exists h', inv (free s (base_of s + 0)) h'.
Proof.
  intros s.
  set (h := mkHeap [(24, true); (144, false)]
              (repeat [] 10 ++ [24] :: repeat [] 9)).
  assert (Hinv : inv s h).
  { destruct (malloc_first c_s0 2 16 h 0 fresh_c_s0 (le_n 2) ltac:(lia)
                ltac:(lia) ltac:(reflexivity)) as (s0' & E & Hinv & _).
    unfold s. rewrite E. exact Hinv. }
  clearbody s.
  destruct (free_keeps_the_invariant s h 0 24 Hinv ltac:(left; reflexivity))
    as (_ & Hinv' & _).
  eexists. exact Hinv'.
Defined.

(** * The consistency checker on a heap that satisfies the invariant *)

Lemma nfree_cons b bl :
  Z.of_nat (nfree (b :: bl)) =
  (if snd b then 0 else 1) + Z.of_nat (nfree bl).
Proof.
  unfold nfree. cbn [filter]. destruct (snd b); cbn [negb length]; lia.
Qed.

Section CheckerBlocks.
Variables (s : State) (h : heap) (lo : Z).
Hypothesis Hinv : inv s h.
Hypothesis Hlo : lo <= heap_listp s.

Lemma in_heap_block o b :
  In (o, b) (layout 0 (blocks h)) -> in_heap lo s (base_of s + o) = true.
Proof.
  intros Hin. destruct Hinv as (Hrep & Hwf & _).
  pose proof (wf_sizes _ _ Hwf) as Hok.
  destruct (rep_geometry _ _ Hrep Hok) as (_ & _ & Hbase & Hbrk & _).
  destruct (rep_block_bounds h Hok _ _ Hin) as (Ho & Hoe & H24 & _).
  unfold in_heap, mem_heap_hi. apply andb_true_intro.
  split; [apply Z.leb_le|apply Z.leb_le]; lia.
Qed.

Lemma checkblock_block o b :
  In (o, b) (layout 0 (blocks h)) -> checkblock lo s (base_of s + o) = [].
Proof.
  intros Hin. pose proof (in_heap_block o b Hin) as Hih.
  destruct b as [sz a].
  destruct (inv_block_tags s h o sz a Hinv Hin) as (Hsz & _ & Hft & Hftv & _).
  destruct Hinv as (Hrep & Hwf & _).
  pose proof (wf_sizes _ _ Hwf) as Hok.
  destruct (rep_geometry _ _ Hrep Hok) as (_ & _ & Hbase & _).
  destruct (rep_block_bounds h Hok _ _ Hin) as (Ho & _ & H24 & H8).
  destruct (rep_block_tags _ _ Hrep _ _ Hin) as [Hh Hf].
  cbn [fst] in *.
  pose proof (layout_aligned _ 0 _ _ Hok eq_refl Hin) as Hal.
  pose proof (rep_aligned _ _ Hrep) as Hal0.
  assert (Hmod : (base_of s + o) mod DSIZE = 0).
  { unfold DSIZE. rewrite Hbase. mod8. }
  unfold checkblock. rewrite Hih, Hsz, Hmod, Hft. cbn [negb app].
  destruct (Z.ltb_spec sz (3 * DSIZE)) as [Hlt|_];
    [unfold DSIZE in Hlt; lia|].
  cbn [andb Z.eqb app].
  unfold HDRP, WSIZE. rewrite Hh, Hf, Z.eqb_refl. reflexivity.
Qed.

Lemma checkblock_prologue : checkblock lo s (heap_listp s) = [].
Proof.
  destruct Hinv as (Hrep & Hwf & _).
  pose proof (wf_sizes _ _ Hwf) as Hok.
  destruct (rep_geometry _ _ Hrep Hok) as (_ & _ & Hbase & Hbrk & Htot & _).
  pose proof (rep_prologue_hdr _ _ Hrep) as Hh.
  pose proof (rep_prologue_ftr _ _ Hrep) as Hf.
  pose proof (rep_aligned _ _ Hrep) as Hal.
  assert (Hsz : GET_SIZE (mem s) (HDRP (heap_listp s)) = 8).
  { unfold HDRP, WSIZE. now apply (GET_SIZE_tag _ _ prologue). }
  unfold checkblock, in_heap, mem_heap_hi.
  destruct (Z.leb_spec (heap_listp s) (mem_brk s - 1)); [|lia].
  destruct (Z.leb_spec lo (heap_listp s)); [|lia].
  rewrite Z.eqb_refl. cbn [andb negb app]. rewrite andb_false_r.
  unfold DSIZE at 1. rewrite Hal. cbn [Z.eqb negb app].
  unfold FTRP. rewrite Hsz. unfold DSIZE.
  replace (heap_listp s + 8 - 8) with (heap_listp s) by lia.
  unfold HDRP, WSIZE. rewrite Hh, Hf, Z.eqb_refl. reflexivity.
Qed.

Variable pb : Z -> option (list message).
Hypothesis Hpb : forall o b,
  In (o, b) (layout 0 (blocks h)) -> pb (base_of s + o) = Some [].
Hypothesis Hpb0 : pb (heap_listp s) = Some [].

(** The walk over the blocks from any block boundary on. *)
Lemma check_walk_blocks : forall R L fuel n,
  blocks h = L ++ R -> (length R < fuel)%nat ->
  check_walk fuel lo s pb (base_of s + total L) n =
  Some ([], n + Z.of_nat (nfree R), mem_brk s).
Proof.
  destruct Hinv as (Hrep & Hwf & Hna).
  pose proof (wf_sizes _ _ Hwf) as Hok.
  destruct (rep_geometry _ _ Hrep Hok) as (_ & _ & Hbase & Hbrk & _).
  induction R as [|b R IH]; intros L fuel n E Hfuel;
    (destruct fuel as [|fuel]; [cbn [length] in Hfuel; lia|]);
    cbn [check_walk].
  - rewrite app_nil_r in E. rewrite <- E, <- Hbrk.
    pose proof (rep_epilogue _ _ Hrep) as He.
    assert (Hz : GET_SIZE (mem s) (HDRP (mem_brk s)) = 0).
    { unfold HDRP, WSIZE. now apply (GET_SIZE_tag _ _ epilogue). }
    rewrite Hz. cbn [Z.ltb Z.compare nfree filter length Z.of_nat].
    now rewrite Z.add_0_r.
  - assert (Hin : In (total L, b) (layout 0 (blocks h))).
    { rewrite E. replace (total L) with (0 + total L) at 1 by lia.
      apply In_layout_mid. }
    destruct (rep_block_bounds h Hok _ _ Hin) as (_ & _ & H24 & H8).
    set (fl := lists h).
    assert (Hrep' : rep s (mkHeap (L ++ b :: R) fl)).
    { rewrite <- E. unfold fl. destruct h. exact Hrep. }
    clear Hrep. rename Hrep' into Hrep.
    rewrite E in Hok, Hna.
    rewrite (nb_size s L b R fl Hrep Hok).
    destruct (Z.ltb_spec 0 (fst b)) as [_|]; [|lia].
    rewrite (Hpb _ _ Hin). cbn [app].
    rewrite (checkblock_block _ _ Hin). cbn [app].
    rewrite (nb_NEXT s L b R fl Hrep Hok).
    rewrite (nb_next_alloc s L b R fl Hrep Hok).
    destruct (nb_self s L b R fl Hrep) as [Hh _].
    assert (Hal : GET_ALLOC (mem s) (HDRP (base_of s + total L)) =
                  if snd b then 1 else 0).
    { unfold HDRP, WSIZE. now apply GET_ALLOC_tag. }
    rewrite Hal.
    apply no_adj_app in Hna. destruct Hna as (_ & Hna & _).
    apply no_adj_cons in Hna. destruct Hna as [Hor _].
    assert (Hc2 :
      (0 <? GET_SIZE (mem s) (HDRP (base_of s + total L + fst b))) &&
      ((if snd b then 1 else 0) =? 0) &&
      ((if snd (hd epilogue R) then 1 else 0) =? 0) = false).
    { destruct (snd b); cbn [Z.eqb]; [now rewrite andb_false_r|].
      cbn [orb] in Hor. rewrite Hor. cbn [Z.eqb]. now rewrite andb_false_r. }
    rewrite Hc2. cbn [app].
    replace (base_of s + total L + fst b)
      with (base_of s + total (L ++ [b]))
      by (rewrite total_app; cbn [total]; lia).
    rewrite (IH (L ++ [b]) fuel); cycle 1.
    { rewrite E, <- app_assoc. reflexivity. }
    { cbn [length] in Hfuel. lia. }
    f_equal. f_equal. f_equal. rewrite nfree_cons.
    destruct (snd b); cbn [Z.eqb]; lia.
Qed.

(** The whole walk, the prologue first. *)
Lemma check_walk_heap fuel :
  (length (blocks h) + 1 < fuel)%nat ->
  check_walk fuel lo s pb (heap_listp s) 0 =
  Some ([], Z.of_nat (nfree (blocks h)), mem_brk s).
Proof.
  intros Hfuel. destruct fuel as [|fuel]; [lia|]. cbn [check_walk].
  pose proof Hinv as (Hrep & Hwf & _).
  pose proof (wf_sizes _ _ Hwf) as Hok.
  destruct (rep_geometry _ _ Hrep Hok) as (_ & _ & Hbase & _).
  pose proof (rep_prologue_hdr _ _ Hrep) as Hh.
  assert (Hsz : GET_SIZE (mem s) (HDRP (heap_listp s)) = 8).
  { unfold HDRP, WSIZE. now apply (GET_SIZE_tag _ _ prologue). }
  assert (Hal : GET_ALLOC (mem s) (HDRP (heap_listp s)) = 1).
  { unfold HDRP, WSIZE. now apply (GET_ALLOC_tag _ _ prologue). }
  rewrite Hsz, Hal, Hpb0, checkblock_prologue.
  cbn [Z.ltb Z.compare Z.eqb andb app]. rewrite andb_false_r. cbn [app].
  assert (Hn : NEXT_BLKP (mem s) (heap_listp s) = base_of s + total []).
  { unfold NEXT_BLKP. fold (HDRP (heap_listp s)). rewrite Hsz.
    cbn [total]. lia. }
  rewrite Hn, (check_walk_blocks (blocks h) [] fuel 0 eq_refl ltac:(lia)).
  reflexivity.
Qed.
End CheckerBlocks.

Section CheckerLists.
Variables (s : State) (h : heap) (lo : Z) (fuel : nat).
Hypothesis Hinv : inv s h.
Hypothesis Hlo : lo <= heap_listp s.
Hypothesis Hfuel : forall i, (length (nth i (lists h) []) < fuel)%nat.

(** One list from any of its nodes on: [prev] is the node before, or
    null at the head. *)
Lemma check_list_nodes (i : nat) : forall l prev head fuel' n,
  fseg (mem s) (base_of s) prev l head 0 ->
  prev = 0 \/
  (in_heap lo s prev = true /\ NEXT_FREE (mem s) prev = head /\
   ~ In (prev - base_of s) l) ->
  NoDup l ->
  (forall o, In o l ->
     exists sz, In (o, (sz, false)) (layout 0 (blocks h)) /\
                class_idx sz = i) ->
  (length l < fuel')%nat ->
  check_list fuel' lo s (Z.of_nat i + 1) head n =
  Some ([], n + Z.of_nat (length l)).
Proof.
  pose proof Hinv as (Hrep & Hwf & _).
  pose proof (wf_sizes _ _ Hwf) as Hok.
  destruct (rep_geometry _ _ Hrep Hok) as (HT & HTb & Hbase & _).
  induction l as [|o l IH]; intros prev head fuel' n Hseg Hprev Hnd Hall Hf;
    (destruct fuel' as [|fuel']; [cbn [length] in Hf; lia|]);
    cbn [check_list].
  - cbn [fseg] in Hseg. subst head. cbn [Z.eqb negb andb length Z.of_nat].
    now rewrite Z.add_0_r.
  - cbn [fseg] in Hseg. destruct Hseg as (-> & Hp & Hseg).
    destruct (Hall o (or_introl eq_refl)) as (sz & Hin & Hcls).
    destruct (rep_block_bounds h Hok _ _ Hin) as (Ho & _ & H24 & H8).
    cbn [fst] in H24, H8.
    destruct (inv_block_tags s h o sz false Hinv Hin)
      as (Hsz & Hal & _).
    set (bp := base_of s + o) in *.
    assert (Hbp : bp <> 0) by (unfold bp; lia).
    destruct (Z.eqb_spec bp 0) as [|_]; [contradiction|].
    rewrite Hsz. destruct (Z.ltb_spec 0 sz) as [_|]; [|lia].
    cbn [negb andb].
    pose proof (fseg_head _ _ _ _ _ _ Hseg) as Hnext.
    assert (Enf : NEXT_FREE (mem s) bp = GETLP (mem s) (bp + 8))
      by reflexivity.
    assert (Hchk : checkFreeBlock lo s bp = []).
    { unfold checkFreeBlock. rewrite Hal. cbn [Z.eqb negb app].
      rewrite !Enf. unfold PREV_FREE at 1. rewrite Hp.
      destruct (Z.eqb_spec prev 0) as [|Hp0]; [reflexivity|].
      destruct (Z.eqb_spec (GETLP (mem s) (bp + 8)) 0) as [|Hn0];
        [reflexivity|].
      cbn [negb andb].
      destruct Hprev as [|(Hih & Hpn & Hpl)]; [contradiction|].
      destruct l as [|o' l']; cbn [headp] in Hnext; [contradiction|].
      cbn [fseg] in Hseg. destruct Hseg as (_ & Hp' & _).
      destruct (Hall o' (or_intror (or_introl eq_refl))) as (sz' & Hin' & _).
      pose proof (in_heap_block s h lo Hinv Hlo o' _ Hin') as Hih'.
      unfold PREV_FREE. rewrite Hp, Hnext, Hih, Hih', Hpn, Hp', !Z.eqb_refl.
      cbn [negb orb app].
      apply NoDup_cons_iff in Hnd. destruct Hnd as [Hno _].
      destruct (Z.eqb_spec (base_of s + o') bp) as [E|_].
      { exfalso. apply Hno. left. unfold bp in E. lia. }
      destruct (Z.eqb_spec prev bp) as [E|_]; [|reflexivity].
      exfalso. apply Hpl. left. unfold bp in E. lia. }
    rewrite Hchk. cbn [app].
    assert (Hcf : choosefreetable (mem s) bp = Z.of_nat i + 1).
    { unfold choosefreetable. rewrite Hsz. fold (class_of sz).
      pose proof (class_of_range sz). unfold class_idx in Hcls. lia. }
    rewrite Hcf, Z.eqb_refl. cbn [negb app].
    apply NoDup_cons_iff in Hnd. destruct Hnd as [Hno Hnd].
    rewrite Enf.
    rewrite (IH bp (GETLP (mem s) (bp + 8)) fuel' (n + 1) Hseg).
    + f_equal. f_equal. cbn [length]. lia.
    + right. split; [exact (in_heap_block s h lo Hinv Hlo o _ Hin)|].
      split; [reflexivity|]. unfold bp.
      replace (base_of s + o - base_of s) with o by lia. exact Hno.
    + exact Hnd.
    + intros x Hx. apply Hall. now right.
    + cbn [length] in Hf. lia.
Qed.

Lemma check_lists_classes : forall n i c,
  (i + n <= 19)%nat ->
  check_lists fuel n lo s (Z.of_nat i + 1) c =
  Some ([], c + Z.of_nat (length (concat (firstn n (skipn i (lists h)))))).
Proof.
  pose proof Hinv as (Hrep & Hwf & _).
  induction n as [|n IH]; intros i c Hi; cbn [check_lists].
  - cbn [firstn concat length Z.of_nat]. now rewrite Z.add_0_r.
  - replace (slot s (Z.of_nat i + 1))
      with (freelisttablehead s + 8 * Z.of_nat i)
      by (unfold slot, DSIZE; lia).
    rewrite (check_list_nodes i (nth i (lists h) []) 0 _ fuel c).
    + replace (Z.of_nat i + 1 + 1) with (Z.of_nat (S i) + 1) by lia.
      rewrite IH by lia.
      rewrite (skipn_nth [] (lists h) i)
        by (rewrite (wf_len _ _ Hwf); lia).
      cbn [firstn concat]. rewrite length_app. f_equal. f_equal. lia.
    + apply (rep_lists _ _ Hrep). lia.
    + now left.
    + apply (wf_nodup _ _ Hwf).
    + intros o Ho. apply (wf_listed _ _ Hwf) in Ho. tauto.
    + apply Hfuel.
Qed.
End CheckerLists.

(** ** The two counts of the free blocks *)

Lemma NoDup_concat_indexed (ls : list (list Z)) :
  (forall i, NoDup (nth i ls [])) ->
  (forall i j o, In o (nth i ls []) -> In o (nth j ls []) -> i = j) ->
  NoDup (concat ls).
Proof.
  induction ls as [|l ls IH]; intros Hnd Hdis; cbn [concat];
    [constructor|].
  apply NoDup_app.
  - exact (Hnd 0%nat).
  - apply IH.
    + intros i. exact (Hnd (S i)).
    + intros i j o Hi Hj. specialize (Hdis (S i) (S j) o Hi Hj). lia.
  - intros o Ho Hc. apply in_concat in Hc. destruct Hc as (l' & Hl' & Ho').
    destruct (In_nth _ _ [] Hl') as (j & _ & Ej).
    specialize (Hdis 0%nat (S j) o Ho). cbn [nth] in Hdis.
    rewrite Ej in Hdis. specialize (Hdis Ho'). discriminate.
Qed.

Lemma length_free_layout bl : forall o,
  length (filter (fun x : Z * blk => negb (snd (snd x))) (layout o bl)) =
  nfree bl.
Proof.
  unfold nfree. induction bl as [|b bl IH]; intros o; cbn [layout filter];
    [reflexivity|].
  cbn [snd]. destruct (snd b); cbn [negb length]; now rewrite IH.
Qed.

Lemma length_free_offsets bl : length (free_offsets bl) = nfree bl.
Proof. unfold free_offsets. rewrite length_map. apply length_free_layout. Qed.

Lemma In_free_offsets bl x :
  In x (free_offsets bl) <-> exists sz, In (x, (sz, false)) (layout 0 bl).
Proof.
  unfold free_offsets. rewrite in_map_iff. split.
  - intros ([x' [sz a]] & <- & Hf). apply filter_In in Hf.
    destruct Hf as [Hin Ha]. cbn [snd fst] in *. destruct a; [discriminate|].
    eauto.
  - intros (sz & Hin). exists (x, (sz, false)). split; [reflexivity|].
    apply filter_In. split; [exact Hin|reflexivity].
Qed.

Lemma NoDup_free_layout bl : forall o,
  Forall ok_size bl ->
  NoDup (map fst (filter (fun x : Z * blk => negb (snd (snd x)))
                    (layout o bl))).
Proof.
  induction bl as [|b bl IH]; intros o Hok; cbn [layout filter map];
    [constructor|].
  apply Forall_cons_iff in Hok. destruct Hok as [[H24 _] Hok].
  assert (Hrest : forall x,
    In x (map fst (filter (fun x : Z * blk => negb (snd (snd x)))
                     (layout (o + fst b) bl))) -> o + fst b <= x).
  { intros x Hx. apply in_map_iff in Hx. destruct Hx as ([x' c] & <- & Hf).
    apply filter_In in Hf. destruct Hf as [Hin _].
    destruct (layout_bounds _ _ _ _ Hok Hin) as (Hle & _). exact Hle. }
  cbn [snd]. destruct (snd b); cbn [negb map fst]; [now apply IH|].
  constructor; [|now apply IH].
  intros Hc. apply Hrest in Hc. lia.
Qed.

Lemma count_free_lists h :
  wf [] h -> length (concat (firstn 19 (lists h))) = nfree (blocks h).
Proof.
  intros Hwf. pose proof (wf_sizes _ _ Hwf) as Hok.
  rewrite <- length_free_offsets. apply Permutation_length.
  assert (Hnth : forall i,
    nth i (firstn 19 (lists h)) [] =
    if (i <? 19)%nat then nth i (lists h) [] else []).
  { intros i. destruct (Nat.ltb_spec i 19).
    - now apply nth_firstn.
    - apply nth_overflow. rewrite length_firstn. lia. }
  apply NoDup_Permutation.
  - apply NoDup_concat_indexed.
    + intros i. rewrite Hnth. destruct (i <? 19)%nat; [|constructor].
      apply (wf_nodup _ _ Hwf).
    + intros i j o. rewrite !Hnth.
      destruct (i <? 19)%nat; [|contradiction].
      destruct (j <? 19)%nat; [|contradiction].
      intros Hi Hj. apply (wf_listed _ _ Hwf) in Hi, Hj.
      destruct Hi as (_ & sz & Hin & <-). destruct Hj as (_ & sz' & Hin' & <-).
      pose proof (layout_fst_unique _ _ _ _ _ Hok Hin Hin') as E.
      now injection E as ->.
  - apply NoDup_free_layout. exact Hok.
  - intros o. rewrite In_free_offsets. split.
    + intros Ho. apply in_concat in Ho. destruct Ho as (l & Hl & Ho).
      destruct (In_nth _ _ [] Hl) as (i & _ & Ei). rewrite Hnth in Ei.
      destruct (i <? 19)%nat; [|subst l; contradiction].
      subst l. apply (wf_listed _ _ Hwf) in Ho.
      destruct Ho as (_ & sz & Hin & _). eauto.
    + intros (sz & Hin).
      assert (Ho : In o (nth (class_idx sz) (lists h) [])).
      { apply (wf_listed _ _ Hwf). split; [intros []|eauto]. }
      pose proof (class_idx_lt sz) as Hlt.
      apply in_concat. exists (nth (class_idx sz) (lists h) []).
      split; [|exact Ho].
      rewrite <- (nth_firstn [] (lists h) 19 (class_idx sz)) by lia.
      apply nth_In. rewrite length_firstn, (wf_len _ _ Hwf). lia.
Qed.

(** ** The checker prints nothing *)

Lemma checkheap_with_silent s h lo fuel (pb : Z -> option (list message))
    (last : list message) :
  inv s h -> lo <= heap_listp s ->
  (length (blocks h) + 1 < fuel)%nat ->
  (forall i, (length (nth i (lists h) []) < fuel)%nat) ->
  (forall o b, In (o, b) (layout 0 (blocks h)) ->
               pb (base_of s + o) = Some []) ->
  pb (heap_listp s) = Some [] ->
  pb (mem_brk s) = Some last ->
  checkheap_with fuel lo s pb = Some (last, 0).
Proof.
  intros Hinv Hlo Hf1 Hf2 Hpb Hpb0 Hpbe.
  pose proof Hinv as (Hrep & Hwf & _).
  pose proof (rep_prologue_hdr _ _ Hrep) as Hh.
  pose proof (rep_epilogue _ _ Hrep) as He.
  unfold checkheap_with.
  rewrite (check_walk_heap s h lo Hinv Hlo pb Hpb Hpb0 fuel Hf1).
  rewrite Hpbe.
  change (Z.to_nat (MAXFREESIZE - 1)) with 19%nat.
  pose proof (check_lists_classes s h lo fuel Hinv Hlo Hf2 19 0 0
                ltac:(lia)) as Hl.
  change (Z.of_nat 0 + 1) with 1 in Hl. rewrite Hl.
  cbn [skipn]. rewrite (count_free_lists h Hwf), Z.add_0_l, Z.eqb_refl.
  rewrite (checkblock_prologue s h lo Hinv Hlo).
  assert (E1 : GET_SIZE (mem s) (HDRP (heap_listp s)) = DSIZE).
  { unfold HDRP, WSIZE. now apply (GET_SIZE_tag _ _ prologue). }
  assert (E2 : GET_ALLOC (mem s) (HDRP (heap_listp s)) = 1).
  { unfold HDRP, WSIZE. now apply (GET_ALLOC_tag _ _ prologue). }
  assert (E3 : GET_SIZE (mem s) (HDRP (mem_brk s)) = 0).
  { unfold HDRP, WSIZE. now apply (GET_SIZE_tag _ _ epilogue). }
  assert (E4 : GET_ALLOC (mem s) (HDRP (mem_brk s)) = 1).
  { unfold HDRP, WSIZE. now apply (GET_ALLOC_tag _ _ epilogue). }
  rewrite E1, E2, E3, E4, Z.eqb_refl. cbn [Z.eqb negb orb app].
  now rewrite app_nil_r.
Qed.

(** * What the checker prints *)

(** On a heap that satisfies the invariant the checker, given fuel for
    the blocks and for the lists and a lower bound at or below the heap,
    returns 0 and prints nothing; when verbose, it prints the one line
    [printblock] has for the epilogue. *)
Theorem mm_checkheap_accepts_the_invariant
  (s : State) (h : heap) (lo : Z) (fuel : nat) (verbose : Z) :
  inv s h -> lo <= heap_listp s ->
  (length (blocks h) + 1 < fuel)%nat ->
  (forall i, (length (nth i (lists h) []) < fuel)%nat) ->
  mm_checkheap fuel lo s verbose =
  Some (if verbose =? 0 then [] else [EOL (mem_brk s)], 0).
Proof.
  intros Hinv Hlo Hf1 Hf2.
  assert (Hq : checkheap_with fuel lo s (fun _ => Some []) = Some ([], 0)).
  { now apply (checkheap_with_silent s h). }
  unfold mm_checkheap. destruct (Z.eqb_spec verbose 0) as [_|_]; cbn [negb].
  - exact Hq.
  - pose proof Hinv as (Hrep & Hwf & _).
    apply (checkheap_with_silent s h); auto.
    + intros o [sz a] Hin. unfold printblock. rewrite Hq.
      destruct (inv_block_tags s h o sz a Hinv Hin) as (-> & _).
      destruct (rep_block_bounds h (wf_sizes _ _ Hwf) _ _ Hin)
        as (_ & _ & H24 & _). cbn [fst] in H24.
      destruct (Z.eqb_spec sz 0); [lia|reflexivity].
    + unfold printblock. rewrite Hq.
      pose proof (rep_prologue_hdr _ _ Hrep) as Hh.
      unfold HDRP, WSIZE. now rewrite (GET_SIZE_tag _ _ prologue).
    + unfold printblock. rewrite Hq.
      pose proof (rep_epilogue _ _ Hrep) as He.
      unfold HDRP, WSIZE. now rewrite (GET_SIZE_tag _ _ epilogue).
Qed.

(** The checker on the heap [mm_init] leaves on the sample provider. *)
Lemma mm_checkheap_accepts_the_invariant_sample :
  mm_checkheap 3 4096 (fst (mm_init c_s0)) 0 = Some ([], 0).
Proof.
  apply (mm_checkheap_accepts_the_invariant (fst (mm_init c_s0)) a_init
           4096 3 0 (inv_init c_s0 fresh_c_s0)).
  - vm_compute. discriminate.
  - cbn. lia.
  - apply (a_init_few 3). lia.
Defined.

Lemma check_walk_reports lo s pb : forall fuel k bp0 n log n' last bp,
  check_walk fuel lo s pb bp0 n = Some (log, n', last) ->
  walk_block (mem s) k bp0 = Some bp ->
  (forall msg, In msg (checkblock lo s bp) -> In msg log) /\
  (0 < GET_SIZE (mem s) (HDRP (NEXT_BLKP (mem s) bp)) ->
   GET_ALLOC (mem s) (HDRP bp) = 0 ->
   GET_ALLOC (mem s) (HDRP (NEXT_BLKP (mem s) bp)) = 0 ->
   In (Consecutive_free_block bp) log).
Proof.
  induction fuel as [|fuel IH]; intros k bp0 n log n' last bp Hc Hw;
    cbn [check_walk] in Hc; [discriminate|].
  destruct (0 <? GET_SIZE (mem s) (HDRP bp0)) eqn:Hsz.
  2:{ destruct k; cbn [walk_block] in Hw; rewrite Hsz in Hw; discriminate. }
  destruct (pb bp0) as [printed|]; [|discriminate].
  destruct (check_walk fuel lo s pb (NEXT_BLKP (mem s) bp0) _)
    as [[[rest n1] l1]|] eqn:Hrest; [|discriminate].
  injection Hc as <- _ _.
  destruct k as [|k]; cbn [walk_block] in Hw; rewrite Hsz in Hw.
  - injection Hw as <-. split.
    + intros msg Hm. apply in_or_app. right. apply in_or_app. right.
      apply in_or_app. now left.
    + intros H1 H2 H3. apply in_or_app. right. apply in_or_app. left.
      apply Z.ltb_lt in H1. rewrite H1, H2, H3. now left.
  - destruct (IH k _ _ _ _ _ bp Hrest Hw) as [Ha Hb]. split.
    + intros msg Hm. apply in_or_app. right. apply in_or_app. right.
      apply in_or_app. right. now apply Ha.
    + intros H1 H2 H3. apply in_or_app. right. apply in_or_app. right.
      apply in_or_app. right. now apply Hb.
Qed.

(** Whatever the heap holds, when the checker returns, every block its
    walk from the prologue has reached is judged: each complaint of
    [checkblock] about it (bounds, size, alignment, header against footer)
    is among the messages, and so is the consecutive-free-block message
    when the block and the one after it are both free. *)
Theorem mm_checkheap_reports_what_the_walk_meets
  (fuel : nat) (lo : Z) (s : State) (verbose : Z)
  (log : list message) (r : Z) (k : nat) (bp : Z) :
  mm_checkheap fuel lo s verbose = Some (log, r) ->
  walk_block (mem s) k (heap_listp s) = Some bp ->
  r = 0 /\
  (forall msg, In msg (checkblock lo s bp) -> In msg log) /\
  (0 < GET_SIZE (mem s) (HDRP (NEXT_BLKP (mem s) bp)) ->
   GET_ALLOC (mem s) (HDRP bp) = 0 ->
   GET_ALLOC (mem s) (HDRP (NEXT_BLKP (mem s) bp)) = 0 ->
   In (Consecutive_free_block bp) log).
Proof.
  intros Hc Hw. unfold mm_checkheap, checkheap_with in Hc.
  destruct (check_walk fuel lo s _ (heap_listp s) 0)
    as [[[walked n] last]|] eqn:Hwalk; [|discriminate].
  match type of Hc with
  | match ?x with _ => _ end = _ => destruct x as [printed|]; [|discriminate]
  end.
  destruct (check_lists fuel _ lo s 1 0) as [[listed n2]|]; [|discriminate].
  injection Hc as <- <-.
  destruct (check_walk_reports _ _ _ _ _ _ _ _ _ _ _ Hwalk Hw) as [Ha Hb].
  split; [reflexivity|]. split.
  - intros msg Hm. apply in_or_app. right. apply in_or_app. right.
    apply in_or_app. left. now apply Ha.
  - intros H1 H2 H3. apply in_or_app. right. apply in_or_app. right.
    apply in_or_app. left. now apply Hb.
Qed.

(** The heap the wrapped request of 2 ^ 64 - 8 bytes leaves on the sample
    provider: the checker reports the two free blocks in a row. *)
Lemma mm_checkheap_reports_what_the_walk_meets_sample :
  let r1 := malloc 2 c_s0 1 in
  let r2 := malloc 2 (state_after c_s0 r1) 1 in
  let r3 := malloc 2 (state_after c_s0 r2) 1 in
  let f := pointer_of r2 in
  let s4 := free (state_after c_s0 r3) f in
  let s5 := state_after c_s0 (malloc 2 s4 (2 ^ 64 - 8)) in
  exists log,
    mm_checkheap 10 4096 s5 0 = Some (log, 0) /\
    In (Consecutive_free_block 4304) log.
Proof.
  intros r1 r2 r3 f s4 s5.
  assert (Hn : mm_checkheap 10 4096 s5 0 <> None)
    by (vm_compute; discriminate).
  assert (Hw : walk_block (mem s5) 2 (heap_listp s5) = Some 4304)
    by (vm_compute; reflexivity).
  assert (H1 : 0 < GET_SIZE (mem s5) (HDRP (NEXT_BLKP (mem s5) 4304)))
    by (vm_compute; reflexivity).
  assert (H2 : GET_ALLOC (mem s5) (HDRP 4304) = 0)
    by (vm_compute; reflexivity).
  assert (H3 : GET_ALLOC (mem s5) (HDRP (NEXT_BLKP (mem s5) 4304)) = 0)
    by (vm_compute; reflexivity).
  clearbody r1 r2 r3 f s4 s5.
  destruct (mm_checkheap 10 4096 s5 0) as [[log r]|] eqn:Hc;
    [|contradiction].
  destruct (mm_checkheap_reports_what_the_walk_meets 10 4096 s5 0 log r 2
              4304 Hc Hw) as (-> & _ & Hcons).
  exists log. split; [reflexivity|]. now apply Hcons.
Defined.

(** * [realloc] and [calloc] on every path *)

Lemma adjust_upper size :
  0 <= size -> size + 15 < 2 ^ 64 -> adjust size <= Z.max 24 (size + 15).
Proof.
  intros H0 Hw. destruct (Z_le_dec size 8) as [Hs|Hs].
  - rewrite adjust_small by assumption. lia.
  - rewrite adjust_large by lia.
    pose proof (Z.mul_div_le (size + 8 + 7) 8 ltac:(lia)). lia.
Qed.

(** [realloc] keeps the invariant on all its paths.  For a pointer that is
    null or names an allocated block, and a size that leaves room for the
    two adjustments, the call returns and the heap satisfies the invariant
    afterwards.  A size of zero frees and returns null.  A null result for
    a non-zero size means the request was refused, and then memory is
    untouched and the heap is the one from before; a non-null result for a
    block starts with the whole payload the block had. *)
Theorem realloc_keeps_the_invariant
  (s : State) (h : heap) (fuel : nat) (ptr size : Z) :
  inv s h ->
  (forall i, (length (nth i (lists h) []) < fuel)%nat) ->
  ptr = 0 \/
  (exists o osz, ptr = base_of s + o /\
                 In (o, (osz, true)) (layout 0 (blocks h))) ->
  0 <= size -> size + 30 < 2 ^ 64 ->
  exists s' q h',
    realloc fuel s ptr size = Some (s', q) /\
    inv s' h' /\ same_heap_globals s s' /\
    (size = 0 -> q = 0 /\ s' = free s ptr) /\
    (size <> 0 -> q = 0 -> mem s' = mem s /\ h' = h) /\
    (forall o osz,
       ptr = base_of s + o -> In (o, (osz, true)) (layout 0 (blocks h)) ->
       q <> 0 ->
       forall i, 0 <= i < osz - DSIZE -> mem s' (q + i) = mem s (ptr + i)).
Proof.
  intros Hinv Hfuel Hptr H0 Hw.
  pose proof Hinv as (Hrep & Hwf & Hna).
  pose proof (wf_sizes _ _ Hwf) as Hok.
  destruct (rep_geometry _ _ Hrep Hok) as (Hft & Hfb & Hbase & _).
  pose proof (rep_aligned _ _ Hrep) as Hal.
  assert (Hg0 : same_heap_globals s s) by (repeat split).
  destruct (Z.eq_dec size 0) as [->|Hs].
  - (* free *)
    unfold realloc. cbn [Z.eqb].
    destruct Hptr as [->|(o & osz & -> & Hin)].
    + exists s, 0, h.
      split; [reflexivity|]. split; [exact Hinv|]. split; [exact Hg0|].
      split; [auto|]. split; [intros Hc; contradiction|].
      intros o osz E Hin. destruct (rep_block_bounds h Hok _ _ Hin). lia.
    + destruct (free_inv s h o osz Hinv Hin) as (Hinv' & Hg & _).
      exists (free s (base_of s + o)), 0, (a_free h o).
      split; [reflexivity|]. split; [exact Hinv'|].
      split; [destruct Hg as (_ & G2 & G3 & G4); repeat split; assumption|].
      split; [auto|]. split; [intros Hc; contradiction|].
      intros o' osz' _ _ Hc. contradiction.
  - destruct Hptr as [->|(o & osz & -> & Hin)].
    + (* malloc *)
      destruct (malloc_spec s h fuel size Hinv Hfuel ltac:(lia) ltac:(lia))
        as (s' & Em & Hinv' & Hg & _ & Hnone & _).
      exists s', (ptr_of s (snd (a_malloc h (mem_max_addr s - mem_brk s) size))),
        (fst (a_malloc h (mem_max_addr s - mem_brk s) size)).
      split.
      { unfold realloc. destruct (Z.eqb_spec size 0); [contradiction|].
        cbn [Z.eqb]. exact Em. }
      split; [exact Hinv'|]. split; [exact Hg|].
      split; [contradiction|]. split.
      * intros _ Hq.
        destruct (snd (a_malloc h (mem_max_addr s - mem_brk s) size))
          as [o|] eqn:Er; cbn [ptr_of] in Hq.
        -- destruct (Hinv') as (_ & Hwf' & _).
           exfalso.
           destruct (malloc_spec s h fuel size Hinv Hfuel ltac:(lia)
                       ltac:(lia)) as (_ & _ & _ & _ & _ & _ & Hsome).
           destruct (Hsome o Er) as ((sz & _ & Hino) & _).
           destruct (rep_block_bounds _ (wf_sizes _ _ Hwf') _ _ Hino). lia.
        -- destruct (Hnone eq_refl) as (Hm & _ & Eh). auto.
      * intros o osz E Hin. destruct (rep_block_bounds h Hok _ _ Hin). lia.
    + destruct (rep_block_bounds h Hok _ _ Hin) as (Ho & _ & H24 & _).
      cbn [fst] in H24.
      pose proof (rep_block_size _ _ Hrep Hok _ _ Hin) as Hosz.
      cbn [fst] in Hosz.
      destruct (Z_le_dec (adjust size) osz) as [Hfit|Hgrow].
      * (* in place *)
        exists s, (base_of s + o), h.
        split; [apply realloc_keep; [assumption|lia|now rewrite Hosz]|].
        split; [exact Hinv|]. split; [exact Hg0|].
        split; [contradiction|]. split; [lia|]. reflexivity.
      * (* move *)
        pose proof (adjust_upper size H0 ltac:(lia)) as Hup.
        destruct (realloc_grow_spec s h fuel o osz size Hinv Hin Hfuel Hs
                    ltac:(lia) ltac:(lia)) as (s1 & Em & H).
        destruct (malloc_spec s h fuel (adjust size) Hinv Hfuel ltac:(lia)
                    ltac:(lia)) as (s1' & Em' & _ & Hg1 & _).
        rewrite Em in Em'. injection Em' as <-.
        destruct (snd (a_malloc h (mem_max_addr s - mem_brk s) (adjust size)))
          as [oq|].
        -- cbv zeta in H.
           destruct H as (Er & Hne & Hq0 & Hinv' & Hg & _ & _ & _ & Hpay & _).
           eexists _, (base_of s + oq), _.
           split; [exact Er|]. split; [exact Hinv'|]. split; [exact Hg|].
           split; [contradiction|]. split; [contradiction|].
           intros o' osz' E Hin' _ i Hi.
           assert (o' = o) by lia. subst o'.
           pose proof (layout_fst_unique _ _ _ _ _ Hok Hin Hin') as Eb.
           injection Eb as <-. apply Hpay. unfold DSIZE in Hi. lia.
        -- destruct H as (Er & Hm & Hinv').
           exists s1, 0, h.
           split; [exact Er|]. split; [exact Hinv'|]. split; [exact Hg1|].
           split; [contradiction|]. split; [auto|]. contradiction.
Qed.

(** [realloc] of the block of [malloc 16] to 100 bytes on the sample
    provider. *)
Lemma realloc_keeps_the_invariant_sample :
  let s := state_after c_s0 (malloc 2 c_s0 16) in
  exists s' q h', realloc 2 s (base_of s + 0) 100 = Some (s', q) /\
                  inv s' h'.
Proof.
  intros s.
  set (h := mkHeap [(24, true); (144, false)]
              (repeat [] 10 ++ [24] :: repeat [] 9)).
  assert (Hinv : inv s h).
  { destruct (malloc_first c_s0 2 16 h 0 fresh_c_s0 (le_n 2) ltac:(lia)
                ltac:(lia) ltac:(reflexivity)) as (s0' & E & Hinv & _).
    unfold s. rewrite E. exact Hinv. }
  clearbody s.
  destruct (realloc_keeps_the_invariant s h 2 (base_of s + 0) 100 Hinv
              (few_members (lists h) 2 (le_n 2) eq_refl))
    as (s' & q & h' & E & Hinv' & _).
  - right. exists 0, 24. split; [reflexivity|left; reflexivity].
  - lia.
  - reflexivity.
  - exists s', q, h'. split; [exact E|exact Hinv'].
Defined.

(** * [calloc] on both results of the inner [malloc] *)

(** [calloc] never tests what [malloc] returned.  On a heap that satisfies
    the invariant, for a byte count [nmemb * size] (taken in [size_t]) that
    is positive and leaves room for the adjustment, the inner [malloc]
    returns.  When its result is non-null, [calloc] returns that pointer
    and leaves a heap that satisfies the invariant, in which every block
    allocated before is still allocated with its bytes unchanged.  When
    its result is null, the allocation was refused without a change to
    memory or to the break, and [calloc] does not return: [memset] is
    called with the null pointer and a positive count. *)
Theorem calloc_on_both_results
  (s : State) (h : heap) (fuel : nat) (nmemb size : Z) :
  inv s h ->
  (forall i, (length (nth i (lists h) []) < fuel)%nat) ->
  0 < wrap64 (nmemb * size) ->
  wrap64 (nmemb * size) + 15 < 2 ^ 64 ->
  exists s1 q,
    malloc fuel s (wrap64 (nmemb * size)) = Some (s1, q) /\
    (q <> 0 ->
     exists s' h',
       calloc fuel s nmemb size = Some (s', q) /\
       same_heap_globals s s' /\ inv s' h' /\
       forall x szx, In (x, (szx, true)) (layout 0 (blocks h)) ->
         In (x, (szx, true)) (layout 0 (blocks h')) /\
         forall a, base_of s + x - 4 <= a < base_of s + x + szx - 4 ->
                   mem s' a = mem s a) /\
    (q = 0 ->
     calloc fuel s nmemb size = None /\
     mem s1 = mem s /\ mem_brk s1 = mem_brk s).
Proof.
  intros Hinv Hfuel Hpos Hw.
  set (bytes := wrap64 (nmemb * size)) in *.
  pose proof Hinv as (Hrep & Hwf & Hna).
  pose proof (wf_sizes _ _ Hwf) as Hok.
  destruct (rep_geometry _ _ Hrep Hok) as (Hft & Hfb & Hbase & _).
  destruct (calloc_spec s h fuel nmemb size Hinv Hfuel ltac:(fold bytes; lia)
              Hw) as (s1 & Em & H).
  destruct (malloc_spec s h fuel bytes Hinv Hfuel Hpos Hw)
    as (s1' & Em' & Hinv1 & Hg1 & _ & Hnone & Hsome).
  fold bytes in Em, H. rewrite Em in Em'. injection Em' as <-.
  destruct (snd (a_malloc h (mem_max_addr s - mem_brk s) bytes))
    as [oq|] eqn:Er.
  - cbv zeta in H.
    destruct H as (Ec & Hq0 & Hinv' & Hg & _ & _ & _ & Hlive).
    destruct (Hsome oq eq_refl) as (_ & Hkeep).
    exists s1, (base_of s + oq). split; [exact Em|]. split.
    + intros _. eexists _, _. split; [exact Ec|]. split; [exact Hg|].
      split; [exact Hinv'|].
      intros x szx Hin. split; [apply Hkeep, Hin|].
      intros a Ha. apply (Hlive x szx a Hin Ha).
    + intros Hc. contradiction.
  - destruct (Hnone eq_refl) as (Hm & Hb & _).
    exists s1, 0. split; [exact Em|].
    split; [intros Hc; contradiction|].
    intros _. split; [exact H|]. split; [exact Hm|exact Hb].
Qed.

(** Ten elements of 100 bytes where the provider has 100 bytes left: the
    inner [malloc] returns null and [calloc] does not return.  One element
    of 100 bytes fits the free block and [calloc] returns its pointer. *)
Lemma calloc_on_both_results_sample :
  let s := state_after c_low (malloc 2 c_low 16) in
  calloc 2 s 10 100 = None /\ pointer_of (calloc 2 s 1 100) = base_of s + 24.
Proof.
  intros s.
  set (h := mkHeap [(24, true); (144, false)]
              (repeat [] 10 ++ [24] :: repeat [] 9)).
  assert (Hinv : inv s h).
  { destruct (malloc_first c_low 2 16 h 0 fresh_c_low (le_n 2) ltac:(lia)
                ltac:(lia) ltac:(reflexivity)) as (s0' & E & Hinv & _).
    unfold s. rewrite E. exact Hinv. }
  assert (H1 : pointer_of (malloc 2 s (wrap64 (10 * 100))) = 0)
    by (vm_compute; reflexivity).
  assert (H2 : pointer_of (malloc 2 s (wrap64 (1 * 100))) = base_of s + 24)
    by (vm_compute; reflexivity).
  assert (Hb : base_of s + 24 <> 0) by (vm_compute; discriminate).
  clearbody s.
  split.
  - destruct (calloc_on_both_results s h 2 10 100 Hinv
                (few_members (lists h) 2 (le_n 2) eq_refl) eq_refl eq_refl)
      as (s1 & q & Em & _ & Hnull).
    rewrite Em in H1. cbn [pointer_of] in H1.
    exact (proj1 (Hnull H1)).
  - destruct (calloc_on_both_results s h 2 1 100 Hinv
                (few_members (lists h) 2 (le_n 2) eq_refl) eq_refl eq_refl)
      as (s1 & q & Em & Hsome & _).
    rewrite Em in H2. cbn [pointer_of] in H2.
    destruct (Hsome ltac:(rewrite H2; exact Hb)) as (s' & h' & Ec & _).
    rewrite Ec, <- H2. reflexivity.
Defined.

(** * The free-list operations as a pair *)

Lemma upd_nth_upd_nth {A} (f g : A -> A) l : forall n,
  upd_nth n f (upd_nth n g l) = upd_nth n (fun x => f (g x)) l.
Proof.
  induction l as [|x l IH]; intros [|n]; cbn [upd_nth]; auto.
  now rewrite IH.
Qed.

Lemma upd_nth_id {A} (f : A -> A) (d : A) l : forall n,
  f (nth n l d) = nth n l d -> upd_nth n f l = l.
Proof.
  induction l as [|x l IH]; intros [|n] H; cbn [upd_nth nth] in *; auto.
  - now rewrite H.
  - now rewrite IH.
Qed.

Lemma a_delete_a_insert fl o sz :
  ~ In o (nth (class_idx sz) fl []) -> a_delete (a_insert fl o sz) o sz = fl.
Proof.
  intros Hn. unfold a_delete, a_insert. rewrite upd_nth_upd_nth.
  apply (upd_nth_id _ []). cbn [remove].
  destruct (Z.eq_dec o o) as [_|Hc]; [|contradiction].
  now apply notin_remove.
Qed.

(** [insertFree] followed by [deleteFree] of the same block is a round
    trip.  For a free block that stands on no list, [insertFree] makes it
    the head of the list of its size class, with no predecessor and the old
    head as successor; [deleteFree] of it then gives back every list as it
    was: the directory slot holds the old head again and the bytes
    represent the same heap.  Neither call moves the break or the heap
    pointers, and neither writes outside the directory and the free
    blocks. *)
Theorem insertFree_deleteFree_round_trip
  (s : State) (h : heap) (o sz : Z) :
  rep s h -> wf [o] h -> In (o, (sz, false)) (layout 0 (blocks h)) ->
  let bp := base_of s + o in
  let s1 := insertFree s bp in
  let s2 := deleteFree s1 bp in
  choosefreetable (mem s1) bp = choosefreetable (mem s) bp /\
  GETLP (mem s1) (slot s1 (choosefreetable (mem s1) bp)) = bp /\
  PREV_FREE (mem s1) bp = 0 /\
  NEXT_FREE (mem s1) bp = GETLP (mem s) (slot s (choosefreetable (mem s) bp)) /\
  rep s1 (mkHeap (blocks h) (a_insert (lists h) o sz)) /\
  rep s2 h /\
  GETLP (mem s2) (slot s2 (choosefreetable (mem s2) bp)) =
    GETLP (mem s) (slot s (choosefreetable (mem s) bp)) /\
  same_globals s s2 /\
  frame s (blocks h) (mem s) (mem s2).
Proof.
  intros Hrep Hwf Hin bp s1 s2.
  pose proof (wf_sizes _ _ Hwf) as Hok.
  pose proof (wf_len _ _ Hwf) as Hlen.
  pose proof (class_idx_lt sz) as Hk.
  set (h1 := mkHeap (blocks h) (a_insert (lists h) o sz)).
  destruct (insertFree_spec s h [o] o sz Hrep Hwf Hin (or_introl eq_refl))
    as (Hrep1 & Hg1 & Hf1).
  fold bp in Hrep1, Hg1, Hf1. fold s1 in Hrep1, Hg1, Hf1. fold h1 in Hrep1.
  assert (Hwf1 : wf [] h1).
  { apply (wf_insert' h [o] [] o sz Hwf Hin (or_introl eq_refl)).
    intros x. cbn [In]. split; [intros []|]. intros ([<-|[]] & Hc). now apply Hc. }
  assert (Hin1 : In (o, (sz, false)) (layout 0 (blocks h1))) by exact Hin.
  assert (Hb1 : base_of s1 = base_of s).
  { unfold base_of. destruct Hg1 as (_ & _ & -> & _). reflexivity. }
  destruct (deleteFree_spec s1 h1 [] o sz Hrep1 Hwf1 Hin1 (fun x => x))
    as (Hrep2 & Hg2 & Hf2).
  rewrite Hb1 in Hrep2, Hg2, Hf2.
  fold bp in Hrep2, Hg2, Hf2. fold s2 in Hrep2, Hg2, Hf2.
  assert (Hno : ~ In o (nth (class_idx sz) (lists h) [])).
  { intros Hc. apply (wf_listed _ _ Hwf) in Hc. destruct Hc as (Hc & _).
    apply Hc. now left. }
  assert (Eh : mkHeap (blocks h1) (a_delete (lists h1) o sz) = h).
  { unfold h1. cbn [blocks lists]. rewrite a_delete_a_insert by assumption.
    now destruct h. }
  rewrite Eh in Hrep2.
  assert (Hb2 : base_of s2 = base_of s).
  { unfold base_of. destruct Hg2 as (_ & _ & -> & _).
    destruct Hg1 as (_ & _ & -> & _). reflexivity. }
  pose proof (rep_block_class s h Hrep Hok o _ Hin) as Hs0.
  pose proof (rep_block_class s1 h1 Hrep1 Hok o _ Hin1) as Hs1.
  pose proof (rep_block_class s2 h Hrep2 Hok o _ Hin) as Hs2.
  rewrite Hb1 in Hs1. rewrite Hb2 in Hs2.
  fold bp in Hs0, Hs1, Hs2. cbn [fst] in Hs0, Hs1, Hs2.
  assert (Hc1 : choosefreetable (mem s1) bp = choosefreetable (mem s) bp).
  { unfold choosefreetable, bp. rewrite <- Hb1 at 1.
    rewrite (rep_block_size s1 h1 Hrep1 Hok o _ Hin1).
    rewrite (rep_block_size s h Hrep Hok o _ Hin). reflexivity. }
  assert (Hi : (class_idx sz < 20)%nat) by lia.
  pose proof (rep_head s h (class_idx sz) Hrep Hi) as Hh0.
  pose proof (rep_head s1 h1 (class_idx sz) Hrep1 Hi) as Hh1.
  pose proof (rep_head s2 h (class_idx sz) Hrep2 Hi) as Hh2.
  assert (En : nth (class_idx sz) (lists h1) [] =
               o :: nth (class_idx sz) (lists h) []).
  { unfold h1. cbn [lists]. now apply a_insert_nth. }
  rewrite En in Hh1. cbn [headp] in Hh1. rewrite Hb1 in Hh1.
  destruct (rep_first_links s1 h1 (class_idx sz) o _ Hrep1 Hi En)
    as (Hp & Hnx).
  rewrite Hb1 in Hp, Hnx. fold bp in Hp, Hnx.
  split; [exact Hc1|].
  split; [rewrite Hs1; exact Hh1|].
  split; [exact Hp|].
  split; [rewrite Hnx, Hs0, Hh0; reflexivity|].
  split; [exact Hrep1|]. split; [exact Hrep2|].
  split; [rewrite Hs2, Hh2, Hs0, Hh0, Hb2; reflexivity|].
  split; [exact (same_globals_trans _ _ _ Hg1 Hg2)|].
  apply (frame_trans s (blocks h) (blocks h1) (mem s) (mem s1) (mem s2)).
  - reflexivity.
  - intros a Ha. exact Ha.
  - exact Hf1.
  - apply (frame_globals s1 s); [|exact Hf2].
    destruct Hg1 as (G1 & G2 & G3 & G4). repeat split; congruence.
Qed.

(** The first chunk of a new heap, taken off its list and put back. *)
Lemma insertFree_deleteFree_round_trip_sample :
  let s0 := fst (mm_init c_s0) in
  let s := deleteFree s0 (base_of s0 + 0) in
  let s1 := insertFree s (base_of s + 0) in
  GETLP (mem s1) (slot s1 (choosefreetable (mem s1) (base_of s + 0))) =
  base_of s + 0.
Proof.
  intros s0 s s1.
  destruct (mm_init_spec c_s0 fresh_c_s0) as (_ & Hrep & Hwf & _).
  fold s0 in Hrep.
  assert (Hin : In (0, (168, false)) (layout 0 (blocks a_init)))
    by (left; reflexivity).
  destruct (deleteFree_spec s0 a_init [] 0 168 Hrep Hwf Hin (fun x => x))
    as (Hrep' & _).
  fold s in Hrep'.
  pose proof (wf_delete a_init [] 0 168 Hwf Hin (fun x => x)) as Hwf'.
  clearbody s. clear Hrep s0.
  exact (proj1 (proj2 (insertFree_deleteFree_round_trip s _ 0 168
                         Hrep' Hwf' Hin))).
Defined.

(** * [place]: the split rule *)

(** [place] splits a free block exactly when at least 24 bytes remain.  On
    a heap that satisfies the invariant, for a free block of [csize] bytes
    and an aligned [asize] with [24 <= asize <= csize]: if
    [csize - asize >= 24] the block becomes an allocated block of [asize]
    bytes followed by a free block of [csize - asize] bytes, which goes to
    the head of the list of its class; otherwise the whole block is
    allocated, so an allocated block carries fewer than 24 bytes beyond
    what was asked.  Either way the block leaves its free list, the
    invariant holds afterwards, the break and heap pointers stay, and only
    the directory and free blocks are written. *)
Theorem place_splits_when_24_bytes_remain
  (s : State) (L : list blk) (csize : Z) (R : list blk) (fl : list (list Z))
  (asize : Z) :
  inv s (mkHeap (L ++ (csize, false) :: R) fl) ->
  24 <= asize <= csize -> asize mod 8 = 0 ->
  let o := total L in
  let bp := base_of s + o in
  let s' := place s bp asize in
  let h' :=
    if 24 <=? csize - asize then
      mkHeap (L ++ (asize, true) :: (csize - asize, false) :: R)
             (a_insert (a_delete fl o csize) (o + asize) (csize - asize))
    else mkHeap (L ++ (csize, true) :: R) (a_delete fl o csize) in
  inv s' h' /\ same_globals s s' /\
  GET (mem s') (HDRP bp) = PACK (if 24 <=? csize - asize then asize else csize) 1 /\
  (forall i, ~ In o (nth i (lists h') [])) /\
  (24 <= csize - asize ->
   GET (mem s') (HDRP (bp + asize)) = PACK (csize - asize) 0 /\
   GETLP (mem s') (slot s' (choosefreetable (mem s') (bp + asize))) =
     bp + asize) /\
  frame s (L ++ (csize, false) :: R) (mem s) (mem s').
Proof.
  intros (Hrep & Hwf & Hna) Has Ha8 o bp s' h'.
  pose proof (wf_sizes _ _ Hwf) as Hok. cbn [blocks] in Hok.
  pose proof (place_spec s L csize R fl asize Hrep Hwf Has Ha8) as Hst.
  rewrite (a_place_eq L csize R fl asize Hok) in Hst.
  fold o bp in Hst. fold s' in Hst.
  pose proof (a_place_no_adj L csize R fl asize Hna) as Hna'. fold o in Hna'.
  assert (Hr : snd (hd epilogue R) = true).
  { apply no_adj_app in Hna. destruct Hna as (_ & Hc & _).
    apply no_adj_cons in Hc. destruct Hc as [Hc _]. exact Hc. }
  assert (Eh : (if 24 <=? csize - asize then
                  fst (a_coalesce (L ++ [(asize, true)]) (csize - asize) R
                         (a_delete fl o csize))
                else mkHeap (L ++ (csize, true) :: R) (a_delete fl o csize))
               = h').
  { unfold h'. destruct (24 <=? csize - asize); [|reflexivity].
    unfold a_coalesce. rewrite last_last, Hr. cbn [snd fst].
    rewrite total_app. cbn [total fst]. rewrite Z.add_0_r.
    rewrite <- app_assoc. reflexivity. }
  rewrite Eh in Hst, Hna'.
  destruct Hst as (Hrep' & Hwf' & Hg & Hfr).
  assert (Hinv' : inv s' h') by (split; [|split]; assumption).
  pose proof (wf_sizes _ _ Hwf') as Hok'.
  assert (Hb : base_of s' = base_of s).
  { unfold base_of. destruct Hg as (_ & _ & -> & _). reflexivity. }
  assert (Hin : In (o, ((if 24 <=? csize - asize then asize else csize), true))
                   (layout 0 (blocks h'))).
  { unfold h'. destruct (24 <=? csize - asize); cbn [blocks];
      rewrite layout_app, in_app_iff; right; left; reflexivity. }
  split; [exact Hinv'|]. split; [exact Hg|]. split.
  { destruct (rep_block_bounds h' Hok' o _ Hin) as (_ & _ & _ & H8).
    cbn [fst] in H8.
    pose proof (rep_blocks _ _ Hrep') as Hseg.
    apply (blocks_seg_In _ _ _ _ _ Hseg) in Hin.
    rewrite Hb in Hin. fold bp in Hin. destruct Hin as [Hh _].
    unfold HDRP, WSIZE. rewrite Hh.
    symmetry. apply (PACK_tag _ true). exact H8. }
  split.
  { intros i Hc. apply (wf_listed _ _ Hwf') in Hc.
    destruct Hc as (_ & sz & Hc & _).
    pose proof (layout_fst_unique _ _ _ _ _ Hok' Hin Hc) as E.
    discriminate E. }
  split; [|exact Hfr].
  intros Hsp. apply Z.leb_le in Hsp.
  assert (Eh' : h' = mkHeap (L ++ (asize, true) :: (csize - asize, false) :: R)
             (a_insert (a_delete fl o csize) (o + asize) (csize - asize))).
  { unfold h'. now rewrite Hsp. }
  assert (Hin2 : In (o + asize, (csize - asize, false)) (layout 0 (blocks h'))).
  { rewrite Eh'. cbn [blocks]. rewrite layout_app, in_app_iff. right.
    cbn [layout fst]. right. left. reflexivity. }
  pose proof (rep_blocks _ _ Hrep') as Hseg.
  pose proof (blocks_seg_In _ _ _ _ _ Hseg Hin2) as [Hh _].
  rewrite Hb in Hh. replace (base_of s + (o + asize)) with (bp + asize) in Hh
    by (unfold bp; lia).
  split.
  { unfold HDRP, WSIZE. rewrite Hh. unfold tag, PACK. cbn [fst snd].
    rewrite Z.add_0_r. now rewrite Z.lor_0_r. }
  pose proof (rep_block_class s' h' Hrep' Hok' _ _ Hin2) as Hs.
  rewrite Hb in Hs. replace (base_of s + (o + asize)) with (bp + asize) in Hs
    by (unfold bp; lia).
  rewrite Hs. cbn [fst].
  pose proof (class_idx_lt (csize - asize)) as Hk.
  rewrite (rep_head s' h' (class_idx (csize - asize)) Hrep' ltac:(lia)).
  rewrite Eh'. cbn [lists]. rewrite a_insert_nth.
  - cbn [headp]. rewrite Hb. unfold bp. lia.
  - unfold a_delete. rewrite length_upd_nth. exact (wf_len _ _ Hwf).
Qed.

(** The first chunk of a new heap: a request of 24 bytes splits it, one of
    152 bytes takes all 168. *)
Lemma place_splits_when_24_bytes_remain_sample :
  let s := fst (mm_init c_s0) in
  GET (mem (place s (base_of s + 0) 24)) (HDRP (base_of s + 0)) = PACK 24 1 /\
  GET (mem (place s (base_of s + 0) 152)) (HDRP (base_of s + 0)) = PACK 168 1.
Proof.
  intros s.
  pose proof (inv_init c_s0 fresh_c_s0) as Hinv. fold s in Hinv.
  clearbody s.
  split.
  - exact (proj1 (proj2 (proj2
      (place_splits_when_24_bytes_remain s [] 168 [] (lists a_init) 24 Hinv
         ltac:(lia) eq_refl)))).
  - exact (proj1 (proj2 (proj2
      (place_splits_when_24_bytes_remain s [] 168 [] (lists a_init) 152 Hinv
         ltac:(lia) eq_refl)))).
Defined.

(** * [extend_heap]: growing the heap *)

Lemma even_words_mod8 words :
  (if words mod 2 =? 0 then words * 4 else (words + 1) * 4) mod 8 = 0.
Proof.
  pose proof (Z.div_mod words 2 ltac:(lia)) as E.
  pose proof (Z.mod_pos_bound words 2 ltac:(lia)) as B.
  destruct (Z.eqb_spec (words mod 2) 0) as [H|H].
  - replace (words * 4) with (words / 2 * 8) by lia. apply Z.mod_mul. lia.
  - replace ((words + 1) * 4) with ((words / 2 + 1) * 8) by lia.
    apply Z.mod_mul. lia.
Qed.

(** [extend_heap] grows the heap by the request rounded up to an even
    number of words, or refuses and changes nothing.  On a heap that
    satisfies the invariant and for at least 6 words: when the provider has
    that many bytes left, the break moves up by exactly that amount, the
    result is non-null and names a free block that ends at the new break
    and starts at the old break, or at the start of the last block when
    that block was free (the two are merged, so the invariant holds
    afterwards); a new epilogue header closes the heap, and every allocated
    block is still allocated with its bytes unchanged.  When the provider
    has fewer bytes left, the result is null and the state is the one from
    before. *)
Theorem extend_heap_grows_or_refuses (s : State) (h : heap) (words : Z) :
  inv s h -> 6 <= words -> (words + 1) * 4 < 2 ^ 64 ->
  let size := if words mod 2 =? 0 then words * 4 else (words + 1) * 4 in
  let lst := last (blocks h) prologue in
  let lsz := if snd lst then 0 else fst lst in
  let s' := fst (extend_heap s words) in
  let bp := snd (extend_heap s words) in
  if size <=? mem_max_addr s - mem_brk s then
    bp = mem_brk s - lsz /\ bp <> 0 /\
    mem_brk s' = mem_brk s + size /\ same_heap_globals s s' /\
    GET (mem s') (HDRP bp) = PACK (size + lsz) 0 /\
    NEXT_BLKP (mem s') bp = mem_brk s' /\
    GET (mem s') (HDRP (mem_brk s')) = PACK 0 1 /\
    exists h', inv s' h' /\
      forall x szx, In (x, (szx, true)) (layout 0 (blocks h)) ->
        In (x, (szx, true)) (layout 0 (blocks h')) /\
        forall a, base_of s + x - 4 <= a < base_of s + x + szx - 4 ->
                  mem s' a = mem s a
  else extend_heap s words = (s, 0).
Proof.
  intros (Hrep & Hwf & Hna) Hw6 Hw64 size lst lsz s' bp.
  pose proof (wf_sizes _ _ Hwf) as Hok.
  pose proof (wf_len _ _ Hwf) as Hlen.
  destruct (rep_geometry _ _ Hrep Hok) as (Hft & Hfb & Hbase & Hbrk & Htot & _).
  pose proof (even_words_mod8 words) as H8. fold size in H8.
  assert (Hsz : 24 <= size < 2 ^ 64).
  { unfold size. destruct (words mod 2 =? 0); lia. }
  destruct (Z.leb_spec size (mem_max_addr s - mem_brk s)) as [Hroom|Hroom].
  - destruct (extend_heap_ok s h words Hrep Hwf Hsz H8 Hroom)
      as (_ & Hbp & Hrep' & Hwf' & Hbrk' & Hmax' & Hhl' & Hflt' & Hfr).
    fold size in Hbp, Hrep', Hwf', Hbrk'. fold s' in Hrep', Hwf', Hbrk', Hmax',
      Hhl', Hflt', Hfr. fold bp in Hbp.
    set (r := a_coalesce (blocks h) size [] (lists h)) in *.
    assert (Hok1 : Forall ok_size (blocks h ++ [(size, false)])).
    { apply Forall_app. split; [exact Hok|]. constructor; [|constructor].
      split; cbn [fst]; [lia|exact H8]. }
    destruct (a_coalesce_shape (blocks h) size [] (lists h) Hlen)
      as (Ho & Hin & _).
    cbn [hd epilogue snd fst] in Ho, Hin. fold lst in Ho, Hin.
    fold lsz in Ho, Hin. fold r in Ho, Hin.
    rewrite Z.add_0_r in Hin.
    assert (Hna' : no_adj (blocks (fst r))).
    { apply a_coalesce_no_adj; [exact Hna|exact I]. }
    assert (Hinv' : inv s' (fst r)) by (split; [|split]; assumption).
    pose proof (wf_sizes _ _ Hwf') as Hok'.
    assert (Hb : base_of s' = base_of s) by (unfold base_of; now rewrite Hhl').
    destruct (rep_block_bounds _ Hok' _ _ Hin) as (Ho0 & _).
    destruct (inv_block_tags s' (fst r) _ _ _ Hinv' Hin)
      as (_ & _ & _ & _ & Hnext).
    pose proof (blocks_seg_In _ _ _ _ _ (rep_blocks _ _ Hrep') Hin) as [Hh _].
    rewrite Hb in Hnext, Hh.
    assert (Ebp : bp = mem_brk s - lsz) by (rewrite Hbp, Ho, Hbrk; lia).
    split; [exact Ebp|]. split; [lia|]. split; [exact Hbrk'|].
    split; [repeat split; assumption|].
    split.
    { unfold HDRP, WSIZE. rewrite Ebp, Hbrk.
      replace (base_of s + total (blocks h) - lsz - 4)
        with (base_of s + (total (blocks h) - lsz) - 4) by lia.
      rewrite Hh. unfold tag. cbn [fst snd]. now rewrite PACK_0, Z.add_0_r. }
    split.
    { rewrite Ebp, Hbrk.
      replace (base_of s + total (blocks h) - lsz)
        with (base_of s + (total (blocks h) - lsz)) by lia.
      rewrite Hnext, Hbrk', Hbrk. lia. }
    split.
    { unfold HDRP, WSIZE. rewrite (rep_epilogue _ _ Hrep'). reflexivity. }
    exists (fst r). split; [exact Hinv'|].
    intros x szx Hx. split.
    + destruct (a_coalesce_result (blocks h) size [] (lists h) Hok1)
        as (_ & _ & _ & _ & _ & _ & _ & Hiff).
      apply Hiff. rewrite layout_app, in_app_iff. now left.
    + intros a Ha. apply (frame_alloc s (blocks h) _ _ x szx a Hfr Hok Hfb Hx Ha).
  - apply (extend_heap_fail s h words Hsz H8 Hroom).
Qed.

(** A new heap on the sample provider, grown by 100 words: the new block
    is merged with the free first chunk. *)
Lemma extend_heap_grows_or_refuses_sample :
  let s := fst (mm_init c_s0) in
  snd (extend_heap s 100) = mem_brk s - 168 /\
  snd (extend_heap (fst (mm_init c_low)) 100) = 0.
Proof.
  intros s.
  pose proof (inv_init c_s0 fresh_c_s0) as Hinv. fold s in Hinv.
  pose proof (inv_init c_low fresh_c_low) as Hlow.
  destruct (mm_init_spec c_s0 fresh_c_s0) as (_ & _ & _ & _ & _ & _ & Hm & Hb).
  destruct (mm_init_spec c_low fresh_c_low)
    as (_ & _ & _ & _ & _ & _ & Hm' & Hb').
  fold s in Hm, Hb.
  pose proof (extend_heap_grows_or_refuses s a_init 100 Hinv
                ltac:(lia) ltac:(lia)) as H.
  pose proof (extend_heap_grows_or_refuses (fst (mm_init c_low)) a_init 100
                Hlow ltac:(lia) ltac:(lia)) as H'.
  cbv zeta in H, H'.
  assert (Hc : ((if 100 mod 2 =? 0 then 100 * 4 else (100 + 1) * 4) <=?
                mem_max_addr s - mem_brk s) = true)
    by (rewrite Hm, Hb; reflexivity).
  assert (Hc' : ((if 100 mod 2 =? 0 then 100 * 4 else (100 + 1) * 4) <=?
                 mem_max_addr (fst (mm_init c_low)) -
                 mem_brk (fst (mm_init c_low))) = false)
    by (rewrite Hm', Hb'; reflexivity).
  rewrite Hc in H. rewrite Hc' in H'.
  set (s2 := fst (mm_init c_low)) in *. clearbody s s2.
  split.
  - exact (proj1 H).
  - exact (f_equal snd H').
Defined.

(** * The size classes *)

(** Three requests of 24 bytes on an empty heap: three blocks of 32 bytes
    and the rest of the first chunk. *)
Lemma three_blocks_heap (s : State) (fuel : nat) :
  fresh s -> (2 <= fuel)%nat ->
  exists s3,
    inv s3 (mkHeap [(32, true); (32, true); (32, true); (72, false)]
                   (repeat [] 6 ++ [96] :: repeat [] 13)) /\
    base_of s3 = mem_brk s + 184.
Proof.
  intros Hf H2.
  set (h1 := mkHeap [(32, true); (136, false)]
               (repeat [] 10 ++ [32] :: repeat [] 9)).
  set (h2 := mkHeap [(32, true); (32, true); (104, false)]
               (repeat [] 9 ++ [64] :: repeat [] 10)).
  set (h3 := mkHeap [(32, true); (32, true); (32, true); (72, false)]
               (repeat [] 6 ++ [96] :: repeat [] 13)).
  destruct (malloc_first s fuel 24 h1 0 Hf H2 ltac:(lia) ltac:(lia)
              ltac:(reflexivity)) as (s1 & E1 & Hinv1 & Hb1 & Ht1).
  destruct (malloc_next s1 h1 fuel 24 h2 32 Hinv1 H2 eq_refl ltac:(lia)
              ltac:(lia) ltac:(reflexivity)) as (s2 & E2 & Hinv2 & Hg2 & _).
  destruct (malloc_next s2 h2 fuel 24 h3 64 Hinv2 H2 eq_refl ltac:(lia)
              ltac:(lia) ltac:(reflexivity)) as (s3 & E3 & Hinv3 & Hg3 & _).
  pose proof (same_heap_globals_base _ _ Hg2) as Hb2.
  pose proof (same_heap_globals_base _ _ Hg3) as Hb3.
  exists s3. split; [exact Hinv3|]. congruence.
Qed.

(** The free lists are segregated by size, and only eighteen of the twenty
    directory slots are ever used.  On a heap that satisfies the invariant,
    a member of list [i + 1] has the class number [i + 1] by
    [choosefreetable], that number is at most 18, a member of a list of a
    smaller class has a strictly smaller header size than a member of a
    list of a larger class, and two members of one list have the same
    class. *)
Theorem free_lists_are_segregated_by_size
  (s : State) (h : heap) (i j : nat) (o o' : Z) :
  inv s h ->
  In o (nth i (lists h) []) -> In o' (nth j (lists h) []) ->
  let bp := base_of s + o in
  let bp' := base_of s + o' in
  choosefreetable (mem s) bp = Z.of_nat i + 1 /\
  (i < 18)%nat /\
  ((i < j)%nat -> GET_SIZE (mem s) (HDRP bp) < GET_SIZE (mem s) (HDRP bp')) /\
  (i = j -> choosefreetable (mem s) bp' = choosefreetable (mem s) bp).
Proof.
  intros (Hrep & Hwf & _) Hi Hj bp bp'.
  pose proof (wf_sizes _ _ Hwf) as Hok.
  destruct (rep_geometry _ _ Hrep Hok) as (_ & _ & _ & _ & Htot & _).
  apply (wf_listed _ _ Hwf) in Hi. destruct Hi as (_ & sz & Hin & Hc).
  apply (wf_listed _ _ Hwf) in Hj. destruct Hj as (_ & sz' & Hin' & Hc').
  pose proof (rep_block_size _ _ Hrep Hok _ _ Hin) as Hs.
  pose proof (rep_block_size _ _ Hrep Hok _ _ Hin') as Hs'.
  cbn [fst] in Hs, Hs'. fold bp in Hs. fold bp' in Hs'.
  destruct (rep_block_bounds h Hok _ _ Hin) as (Ho & Hhi & H24 & _).
  destruct (rep_block_bounds h Hok _ _ Hin') as (Ho' & Hhi' & H24' & _).
  cbn [fst] in Hhi, Hhi', H24, H24'.
  pose proof (class_idx_lt sz) as Hk.
  pose proof (class_of_range sz) as Hr.
  pose proof (class_of_range sz') as Hr'.
  assert (Ec : forall p z, GET_SIZE (mem s) (HDRP p) = z ->
                           choosefreetable (mem s) p = class_of z).
  { intros p z E. unfold choosefreetable. now rewrite E. }
  split.
  { rewrite (Ec _ _ Hs). unfold class_idx in Hc. lia. }
  split; [lia|]. split.
  - intros Hlt. rewrite Hs, Hs'.
    destruct (Z_lt_dec sz sz') as [|Hge]; [assumption|exfalso].
    pose proof (class_idx_mono sz' sz ltac:(lia) ltac:(lia)). lia.
  - intros E. rewrite (Ec _ _ Hs), (Ec _ _ Hs').
    unfold class_idx in Hc, Hc'. lia.
Qed.

(** The heap with a free block of 32 bytes and one of 72 bytes. *)
Lemma free_lists_are_segregated_by_size_sample :
  exists s, GET_SIZE (mem s) (HDRP (base_of s + 32)) <
            GET_SIZE (mem s) (HDRP (base_of s + 96)).
Proof.
  destruct (three_blocks_heap c_s0 2 fresh_c_s0 (le_n 2)) as (s3 & Hinv3 & _).
  destruct (free_inv s3 _ 32 32 Hinv3 ltac:(right; left; reflexivity))
    as (Hinv & Hg & _).
  exists (free s3 (base_of s3 + 32)).
  assert (Hb : base_of (free s3 (base_of s3 + 32)) = base_of s3).
  { destruct Hg as (_ & _ & G & _). exact (f_equal (fun z => z + DSIZE) G). }
  rewrite Hb.
  set (s := free s3 (base_of s3 + 32)) in *.
  pose proof (proj1 (proj2 (proj2
    (free_lists_are_segregated_by_size s _ 1 6 32 96 Hinv
       ltac:(left; reflexivity) ltac:(left; reflexivity)))) ltac:(lia)) as H.
  rewrite Hb in H. exact H.
Defined.

(** * Where [malloc] puts a block, and when it grows the heap *)

(** The abstract search finds a block exactly when a free block is large
    enough. *)
Lemma a_find_fit_none h asize :
  wf [] h -> total (blocks h) < 2 ^ 31 -> 0 <= asize ->
  a_find_fit h asize = None ->
  forall o sz, In (o, (sz, false)) (layout 0 (blocks h)) -> sz < asize.
Proof.
  intros Hwf Htot Ha Ef o sz Hin.
  pose proof (wf_sizes _ _ Hwf) as Hok.
  destruct (rep_block_bounds h Hok _ _ Hin) as (Ho0 & Hoe & H24 & _).
  cbn [fst] in Hoe, H24.
  destruct (Z_lt_dec sz asize) as [|Hge]; [assumption|exfalso].
  assert (Hcls : (class_idx asize <= class_idx sz < 19)%nat).
  { split; [apply class_idx_mono; lia|].
    pose proof (class_idx_lt sz). lia. }
  assert (Hlist : In o (nth (class_idx sz) (lists h) [])).
  { apply (wf_on_one_list h o sz Hwf Hin). reflexivity. }
  pose proof (candidates_complete (lists h) asize _ o (wf_len _ _ Hwf)
                Hcls Hlist) as Hc.
  pose proof (find_none _ _ Ef o Hc) as Hno. cbv beta in Hno.
  rewrite (size_at_In _ _ _ Hok Hin) in Hno. cbn [fst] in Hno.
  apply Z.leb_gt in Hno. lia.
Qed.

Lemma a_find_fit_some h asize o :
  wf [] h -> a_find_fit h asize = Some o ->
  exists sz, In (o, (sz, false)) (layout 0 (blocks h)) /\ asize <= sz.
Proof.
  intros Hwf Ef. pose proof (wf_sizes _ _ Hwf) as Hok.
  unfold a_find_fit in Ef. apply find_some in Ef.
  destruct Ef as [Hcand Hfits].
  destruct (In_candidates _ _ _ Hcand) as (i & Hi).
  apply (wf_listed _ _ Hwf) in Hi. destruct Hi as (_ & sz & Hb & _).
  rewrite (size_at_In _ _ _ Hok Hb) in Hfits. cbn [fst] in Hfits.
  apply Z.leb_le in Hfits. eauto.
Qed.

Lemma a_place_keeps_total h o sz asize :
  Forall ok_size (blocks h) -> In (o, (sz, false)) (layout 0 (blocks h)) ->
  24 <= asize <= sz -> asize mod 8 = 0 ->
  total (blocks (a_place h o asize)) = total (blocks h).
Proof.
  intros Hok Hin Ha Ha8.
  destruct (layout_In_split _ _ _ _ Hin) as (L & R & Ebl & Eo).
  rewrite Z.add_0_l in Eo. subst o.
  destruct h as [bl fl]. cbn [blocks] in *. subst bl.
  rewrite a_place_eq by assumption. now apply a_place_total.
Qed.

(** The size of the block region after the abstract [malloc]. *)
Lemma a_malloc_total h room size :
  wf [] h -> 0 < size -> size + 15 < 2 ^ 64 ->
  let e := MAX (adjust size) CHUNKSIZE in
  match a_find_fit h (adjust size) with
  | Some o =>
      snd (a_malloc h room size) = Some o /\
      total (blocks (fst (a_malloc h room size))) = total (blocks h)
  | None =>
      if e <=? room then
        snd (a_malloc h room size) <> None /\
        total (blocks (fst (a_malloc h room size))) = total (blocks h) + e
      else a_malloc h room size = (h, None)
  end.
Proof.
  intros Hwf Hs Hw e. pose proof (wf_sizes _ _ Hwf) as Hok.
  destruct (adjust_ok size Hs Hw) as (Ha24 & Ha8 & Hasz).
  unfold a_malloc. destruct (Z.eqb_spec size 0) as [|_]; [lia|].
  destruct (a_find_fit h (adjust size)) as [o|] eqn:Ef.
  - cbn [fst snd]. split; [reflexivity|].
    destruct (a_find_fit_some h _ o Hwf Ef) as (sz & Hin & Hle).
    apply (a_place_keeps_total h o sz); auto; lia.
  - assert (He : 168 <= e /\ adjust size <= e /\ e mod 8 = 0 /\ e < 2 ^ 64).
    { subst e. rewrite MAX_spec. unfold CHUNKSIZE. repeat split; try lia.
      destruct (Z.max_spec (adjust size) 168) as [[_ ->]|[_ ->]];
        [reflexivity|assumption]. }
    destruct He as (He1 & He2 & He8 & He64).
    fold e. unfold a_extend. rewrite (words_size e ltac:(lia) He8).
    destruct (Z.leb_spec e room) as [Hroom|Hroom]; [|reflexivity].
    assert (Hok1 : Forall ok_size (blocks h ++ [(e, false)])).
    { apply Forall_app. split; [exact Hok|]. constructor; [|constructor].
      split; cbn [fst]; [lia|exact He8]. }
    destruct (a_coalesce (blocks h) e [] (lists h)) as [h1 o1] eqn:Ec.
    pose proof (a_coalesce_result (blocks h) e [] (lists h) Hok1) as Hr.
    pose proof (a_coalesce_ok (blocks h) e [] (lists h) Hok1) as Hk.
    cbv zeta in Hr. rewrite Ec in Hr, Hk. cbn [fst snd] in Hr, Hk.
    destruct Hr as (L' & sz' & R' & Eb & Eo & Hle & Ht & _).
    cbn [fst snd]. split; [discriminate|].
    rewrite (a_place_keeps_total h1 o1 sz' (adjust size) Hk); try lia.
    + rewrite Ht, total_app. cbn [total fst]. lia.
    + rewrite Eb, Eo, layout_app, in_app_iff. right. left.
      now rewrite Z.add_0_l.
Qed.

(** The payload [malloc] returns lies inside the heap and overlaps no
    block that was allocated before.  For a request that the adjustment
    does not wrap, on a heap that satisfies the invariant: a non-null
    result [p] is at or above the first block and [p + size] is at least 8
    bytes below the new break; and for every block allocated before the
    call, the bytes from [p] to [p + size] end at least 8 bytes before
    that block's payload pointer or start at or after that block's end. *)
Theorem malloc_payload_overlaps_no_live_block
  (s : State) (h : heap) (fuel : nat) (size : Z) (s' : State) (p : Z) :
  inv s h ->
  (forall i, (length (nth i (lists h) []) < fuel)%nat) ->
  0 < size -> size + 15 < 2 ^ 64 ->
  malloc fuel s size = Some (s', p) -> p <> 0 ->
  base_of s <= p /\ p + size + 8 <= mem_brk s' /\
  forall x szx, In (x, (szx, true)) (layout 0 (blocks h)) ->
    p + size + 8 <= base_of s + x \/ base_of s + x + szx <= p.
Proof.
  intros Hinv Hfuel Hs Hw Em Hp.
  pose proof Hinv as (Hrep & Hwf & _).
  destruct (adjust_ok size Hs Hw) as (_ & _ & Hasz & _).
  destruct (malloc_spec s h fuel size Hinv Hfuel Hs Hw)
    as (s1 & Em' & Hinv' & Hg & _ & _ & Hsome).
  rewrite Em in Em'. injection Em' as <- ->.
  set (r := a_malloc h (mem_max_addr s - mem_brk s) size) in *.
  destruct (snd r) as [o|] eqn:Er; [|now contradiction Hp].
  cbn [ptr_of] in *.
  destruct (Hsome o eq_refl) as ((sz & Hle & Hin) & Hkeep).
  pose proof Hinv' as (Hrep' & Hwf' & _).
  pose proof (wf_sizes _ _ Hwf') as Hok'.
  destruct (rep_block_bounds _ Hok' _ _ Hin) as (Ho0 & Hoe & _).
  cbn [fst] in Hoe.
  pose proof (rep_brk _ _ Hrep') as Hbrk.
  pose proof (same_heap_globals_base _ _ Hg) as Hb. rewrite Hb in Hbrk.
  split; [lia|]. split; [lia|].
  intros x szx Hx.
  pose proof (a_malloc_fresh h _ size o Hwf Hs Hw Er) as Hnew.
  destruct (layout_sep _ _ _ _ _ _ Hok' Hin (Hkeep x szx Hx))
    as [[E _]|[H|H]]; cbn [fst] in *.
  - subst x. exfalso. exact (Hnew szx Hx).
  - left. lia.
  - right. lia.
Qed.

(** A request of 100 bytes on the heap of the sample provider that holds
    one block of 24 bytes. *)
Lemma malloc_payload_overlaps_no_live_block_sample :
  let s := state_after c_s0 (malloc 2 c_s0 16) in
  let r := malloc 2 s 100 in
  pointer_of r + 100 + 8 <= base_of s + 0 \/ base_of s + 0 + 24 <= pointer_of r.
Proof.
  intros s r.
  set (h := mkHeap [(24, true); (144, false)]
              (repeat [] 10 ++ [24] :: repeat [] 9)).
  assert (Hinv : inv s h).
  { destruct (malloc_first c_s0 2 16 h 0 fresh_c_s0 (le_n 2) ltac:(lia)
                ltac:(lia) ltac:(reflexivity)) as (s0' & E & Hinv & _).
    unfold s. rewrite E. exact Hinv. }
  assert (Hp : pointer_of r <> 0) by (vm_compute; discriminate).
  assert (Hn : r <> None) by (vm_compute; discriminate).
  clearbody s. subst r.
  destruct (malloc 2 s 100) as [[s' p]|] eqn:Er; [|contradiction].
  cbn [pointer_of] in *.
  exact (proj2 (proj2 (malloc_payload_overlaps_no_live_block s h 2 100 s' p
           Hinv (few_members (lists h) 2 (le_n 2) eq_refl) ltac:(lia)
           ltac:(lia) Er Hp)) 0 24 ltac:(left; reflexivity)).
Defined.

(** [malloc] moves the break only when no free block fits, and then by
    the larger of the adjusted size and the chunk size.  For a request
    that the adjustment does not wrap, on a heap that satisfies the
    invariant: if some free block has at least the adjusted size the
    result is non-null and the break stays; if none has, the heap grows by
    exactly [MAX (adjust size) CHUNKSIZE] bytes when the provider has that
    many left, and otherwise the result is null and the break stays. *)
Theorem malloc_grows_the_heap_only_without_a_fit
  (s : State) (h : heap) (fuel : nat) (size : Z) (s' : State) (p : Z) :
  inv s h ->
  (forall i, (length (nth i (lists h) []) < fuel)%nat) ->
  0 < size -> size + 15 < 2 ^ 64 ->
  malloc fuel s size = Some (s', p) ->
  let asize := adjust size in
  let e := MAX asize CHUNKSIZE in
  ((exists o sz, In (o, (sz, false)) (layout 0 (blocks h)) /\ asize <= sz) ->
   p <> 0 /\ mem_brk s' = mem_brk s) /\
  ((forall o sz, In (o, (sz, false)) (layout 0 (blocks h)) -> sz < asize) ->
   (e <= mem_max_addr s - mem_brk s ->
    p <> 0 /\ mem_brk s' = mem_brk s + e) /\
   (mem_max_addr s - mem_brk s < e -> p = 0 /\ mem_brk s' = mem_brk s)).
Proof.
  intros Hinv Hfuel Hs Hw Em asize e.
  pose proof Hinv as (Hrep & Hwf & _).
  pose proof (wf_sizes _ _ Hwf) as Hok.
  destruct (rep_geometry _ _ Hrep Hok) as (Hft & Hfb & _ & Hbrk0 & Htot & _).
  destruct (adjust_ok size Hs Hw) as (Ha24 & _).
  destruct (malloc_spec s h fuel size Hinv Hfuel Hs Hw)
    as (s1 & Em' & Hinv' & Hg & _ & _ & Hsome).
  rewrite Em in Em'. injection Em' as <- ->.
  set (room := mem_max_addr s - mem_brk s) in *.
  pose proof Hinv' as (Hrep' & Hwf' & _).
  pose proof (rep_brk _ _ Hrep') as Hbrk.
  pose proof (same_heap_globals_base _ _ Hg) as Hb. rewrite Hb in Hbrk.
  pose proof (a_malloc_total h room size Hwf Hs Hw) as Ht. cbv zeta in Ht.
  fold asize in Ht. fold e in Ht.
  assert (Hptr : forall o, snd (a_malloc h room size) = Some o ->
                           ptr_of s (snd (a_malloc h room size)) <> 0).
  { intros o Eo. destruct (Hsome o Eo) as ((sz & _ & Hin) & _).
    destruct (rep_block_bounds _ (wf_sizes _ _ Hwf') _ _ Hin) as (Ho0 & _).
    rewrite Eo. cbn [ptr_of]. lia. }
  split.
  - intros (o & sz & Hin & Hle).
    destruct (a_find_fit h asize) as [o1|] eqn:Ef.
    + destruct Ht as (Eo & Et). split; [exact (Hptr _ Eo)|lia].
    + pose proof (a_find_fit_none h asize Hwf ltac:(lia) ltac:(lia) Ef o sz Hin).
      lia.
  - intros Hnone.
    destruct (a_find_fit h asize) as [o1|] eqn:Ef.
    + destruct (a_find_fit_some h asize o1 Hwf Ef) as (sz & Hin & Hle).
      pose proof (Hnone o1 sz Hin). lia.
    + split; intros Hroom.
      * destruct (Z.leb_spec e room); [|lia]. destruct Ht as (Eo & Et).
        destruct (snd (a_malloc h room size)) as [o|] eqn:Er;
          [|contradiction]. split; [|lia].
        exact (Hptr o eq_refl).
      * destruct (Z.leb_spec e room); [lia|]. rewrite Ht in *.
        cbn [snd fst ptr_of] in *. split; [reflexivity|lia].
Qed.

(** On the sample provider with 100 bytes left after the first chunk, a
    request of 200 bytes finds no fit and is refused; the break stays. *)
Lemma malloc_grows_the_heap_only_without_a_fit_sample :
  let s := state_after c_low (malloc 2 c_low 16) in
  let r := malloc 2 s 200 in
  pointer_of r = 0 /\ mem_brk (state_after s r) = mem_brk s.
Proof.
  intros s r.
  set (h := mkHeap [(24, true); (144, false)]
              (repeat [] 10 ++ [24] :: repeat [] 9)).
  assert (Hinv : inv s h).
  { destruct (malloc_first c_low 2 16 h 0 fresh_c_low (le_n 2) ltac:(lia)
                ltac:(lia) ltac:(reflexivity)) as (s0' & E & Hinv & _).
    unfold s. rewrite E. exact Hinv. }
  assert (Hroom : mem_max_addr s - mem_brk s = 100) by (vm_compute; reflexivity).
  assert (Hn : r <> None) by (vm_compute; discriminate).
  clearbody s. subst r.
  destruct (malloc 2 s 200) as [[s' p]|] eqn:Er; [|contradiction].
  cbn [pointer_of state_after].
  refine (proj2 (proj2 (malloc_grows_the_heap_only_without_a_fit s h 2 200 s' p
           Hinv (few_members (lists h) 2 (le_n 2) eq_refl) ltac:(lia)
           ltac:(lia) Er) _) _).
  - intros o sz [E|[E|[]]]; inversion E. reflexivity.
  - rewrite Hroom. reflexivity.
Defined.

(** * [free] then [malloc]: the block is used again *)

Lemma candidates_head fl asize :
  length fl = 20%nat ->
  exists rest,
    candidates fl asize = nth (class_idx asize) fl [] ++ rest.
Proof.
  intros Hl. unfold candidates. fold (class_idx asize).
  pose proof (class_idx_lt asize) as Hk.
  rewrite (skipn_nth [] (firstn 19 fl) (class_idx asize))
    by (rewrite length_firstn; lia).
  cbn [concat]. rewrite nth_firstn by lia. eexists. reflexivity.
Qed.

(** A block that was just freed is the next one handed out.  On a heap
    that satisfies the invariant, for an allocated block whose two
    neighbours are allocated: after [free] of it, a request whose adjusted
    size fits the block and falls in the block's size class returns the
    same pointer, and the heap satisfies the invariant afterwards. *)
Theorem malloc_reuses_the_block_just_freed
  (s : State) (L : list blk) (sz : Z) (R : list blk) (fl : list (list Z))
  (fuel : nat) (size : Z) :
  inv s (mkHeap (L ++ (sz, true) :: R) fl) ->
  snd (last L prologue) = true -> snd (hd epilogue R) = true ->
  (forall i, (S (length (nth i fl [])) < fuel)%nat) ->
  0 < size -> size + 15 < 2 ^ 64 ->
  adjust size <= sz ->
  choosefreetable_bysize (to_int (adjust size)) =
    choosefreetable_bysize (to_int sz) ->
  let ptr := base_of s + total L in
  exists s' h',
    malloc fuel (free s ptr) size = Some (s', ptr) /\ inv s' h' /\
    same_heap_globals s s'.
Proof.
  intros Hinv Hl Hr Hfuel Hs Hw Hfit Hcls ptr.
  pose proof Hinv as (Hrep & Hwf & _).
  pose proof (wf_sizes _ _ Hwf) as Hok. cbn [blocks] in Hok.
  pose proof (wf_len _ _ Hwf) as Hlen. cbn [lists] in Hlen.
  set (o := total L) in *.
  assert (Hin : In (o, (sz, true))
                   (layout 0 (blocks (mkHeap (L ++ (sz, true) :: R) fl)))).
  { cbn [blocks]. rewrite layout_app, in_app_iff. right. left.
    now rewrite Z.add_0_l. }
  destruct (free_inv s _ o sz Hinv Hin) as (Hinv1 & Hg1 & _).
  fold ptr in Hinv1, Hg1.
  pose proof (a_free_eq L sz R fl Hok) as Efree. fold o in Efree.
  rewrite Efree in Hinv1.
  unfold a_coalesce in Hinv1. rewrite Hl, Hr in Hinv1. cbn [fst] in Hinv1.
  fold o in Hinv1.
  set (s1 := free s ptr) in *.
  set (h1 := mkHeap (L ++ (sz, false) :: R) (a_insert fl o sz)) in *.
  assert (Hb1 : base_of s1 = base_of s).
  { destruct Hg1 as (_ & _ & G & _). exact (f_equal (fun z => z + DSIZE) G). }
  assert (Hci : class_idx (adjust size) = class_idx sz).
  { unfold class_idx, class_of. now rewrite Hcls. }
  pose proof (class_idx_lt sz) as Hk.
  assert (Hfuel1 : forall i, (length (nth i (lists h1) []) < fuel)%nat).
  { intros i. unfold h1. cbn [lists]. unfold a_insert.
    destruct (Nat.eq_dec i (class_idx sz)) as [->|Hne].
    - rewrite nth_upd_nth_same by lia. cbn [length]. apply Hfuel.
    - rewrite nth_upd_nth_other by assumption.
      pose proof (Hfuel i). lia. }
  destruct (malloc_spec s1 h1 fuel size Hinv1 Hfuel1 Hs Hw)
    as (s' & Em & Hinv' & Hg' & _).
  assert (Ef : a_find_fit h1 (adjust size) = Some o).
  { unfold a_find_fit, h1. cbn [blocks lists].
    destruct (candidates_head (a_insert fl o sz) (adjust size)) as (rest & ->).
    { unfold a_insert. now rewrite length_upd_nth. }
    rewrite Hci, a_insert_nth by assumption.
    cbn [app find].
    assert (Hin1 : In (o, (sz, false)) (layout 0 (L ++ (sz, false) :: R))).
    { rewrite layout_app, in_app_iff. right. left. now rewrite Z.add_0_l. }
    assert (Hok1 : Forall ok_size (L ++ (sz, false) :: R)).
    { apply Forall_app in Hok. destruct Hok as [HL HR].
      apply Forall_app. split; [exact HL|].
      inversion HR; subst. constructor; assumption. }
    rewrite (size_at_In _ _ _ Hok1 Hin1). cbn [fst].
    destruct (Z.leb_spec (adjust size) sz); [reflexivity|lia]. }
  assert (Er : snd (a_malloc h1 (mem_max_addr s1 - mem_brk s1) size) = Some o).
  { unfold a_malloc. destruct (Z.eqb_spec size 0); [lia|].
    rewrite Ef. reflexivity. }
  rewrite Er in Em. cbn [ptr_of] in Em. rewrite Hb1 in Em. fold ptr in Em.
  eexists s', _. split; [exact Em|]. split; [exact Hinv'|].
  destruct Hg1 as (_ & G2 & G3 & G4). destruct Hg' as (G5 & G6 & G7).
  repeat split; congruence.
Qed.

(** Three requests of 24 bytes on the sample provider; the middle block
    is freed and a further request of 24 bytes gets it again. *)
Lemma malloc_reuses_the_block_just_freed_sample :
  exists s s', malloc 3 (free s (base_of s + 32)) 24 = Some (s', base_of s + 32).
Proof.
  destruct (three_blocks_heap c_s0 2 fresh_c_s0 (le_n 2)) as (s3 & Hinv3 & _).
  destruct (malloc_reuses_the_block_just_freed s3 [(32, true)] 32
              [(32, true); (72, false)] (repeat [] 6 ++ [96] :: repeat [] 13)
              3 24 Hinv3 eq_refl eq_refl)
    as (s' & h' & E & _).
  - intros i. do 20 (destruct i as [|i]; [cbn; lia|]). cbn.
    destruct i; cbn; lia.
  - lia.
  - lia.
  - reflexivity.
  - reflexivity.
  - exists s3, s'. exact E.
Defined.

(** * [mm_init] on a provider that is too small *)

(** Where the provider has room for the directory, [mm_init] returns 0
    exactly when it can give 352 bytes in all: 168 for the directory, 16
    for the sentinels and 168 for the first chunk.  With at least 168 but
    fewer than 352 bytes it returns -1 and leaves [heap_listp] non-null:
    the failure indicator -1 itself when the 16 bytes were refused, the
    prologue pointer when the first chunk was refused.  So a later
    [malloc], which initialises only when [heap_listp] is null, does not
    initialise again. *)
Theorem mm_init_needs_352_bytes (s : State) :
  heap_listp s = 0 -> 0 < mem_brk s -> mem_brk s mod 8 = 0 ->
  mem_max_addr s - mem_brk s < 2 ^ 31 -> mem_max_addr s < 2 ^ 64 ->
  let room := mem_max_addr s - mem_brk s in
  168 <= room ->
  let s' := fst (mm_init s) in
  (352 <= room -> snd (mm_init s) = 0 /\ mem_brk s' = mem_brk s + 352) /\
  (room < 352 -> snd (mm_init s) = -1 /\ heap_listp s' <> 0) /\
  (room < 184 -> heap_listp s' = -1 /\ mem_brk s' = mem_brk s + 168) /\
  (184 <= room < 352 ->
   heap_listp s' = mem_brk s + 176 /\ mem_brk s' = mem_brk s + 184).
Proof.
  intros Hl Hb H8 H31 H64 room Hdir s'.
  assert (Hfail : room < 352 ->
            snd (mm_init s) = -1 /\ heap_listp s' <> 0 /\
            (room < 184 -> heap_listp s' = -1 /\
                           mem_brk s' = mem_brk s + 168) /\
            (184 <= room ->
             heap_listp s' = mem_brk s + 176 /\
             mem_brk s' = mem_brk s + 184)).
  { intros Hroom. unfold s'. clear s'. unfold mm_init, mem_sbrk.
    change freeslistnum with 168. change (4 * WSIZE) with 16.
    change (168 <? 0) with false. change (16 <? 0) with false.
    cbn [orb]. unfold room in Hroom, Hdir.
    destruct (Z.ltb_spec (mem_max_addr s) (mem_brk s + 168)) as [H1|H1];
      [lia|].
    cbn [mem_brk mem_max_addr mem set_brk set_mem set_freelisttablehead
         set_heap_listp freelisttablehead heap_listp freelisthead].
    destruct (Z.ltb_spec (mem_max_addr s) (mem_brk s + 168 + 16)) as [H2|H2];
      cbn [mem_brk mem_max_addr mem set_brk set_mem set_freelisttablehead
           set_heap_listp freelisttablehead heap_listp freelisthead fst snd
           Z.eqb Pos.eqb].
    - split; [reflexivity|]. split; [discriminate|].
      split; [intros _; split; reflexivity|lia].
    - destruct (Z.eqb_spec (mem_brk s + 168) (-1)) as [|_]; [lia|].
      match goal with
      | |- context [extend_heap ?st ?w] =>
          destruct (extend_heap_fail st a_empty w ltac:(cbn; lia) eq_refl
                      ltac:(cbn; lia)) as [-> _]
      end.
      cbn [mem_brk mem_max_addr mem set_brk set_mem set_freelisttablehead
           set_heap_listp freelisttablehead heap_listp freelisthead fst snd
           Z.eqb Pos.eqb].
      split; [reflexivity|]. unfold WSIZE. split; [lia|].
      split; [lia|]. intros _. split; lia. }
  split; [|split; [|split]].
  - intros Hroom.
    assert (Hf : fresh s) by (unfold fresh; repeat split; auto; lia).
    destruct (mm_init_spec s Hf) as (E & _ & _ & _ & _ & _ & _ & Ebrk).
    split; [exact E|exact Ebrk].
  - intros Hroom. destruct (Hfail Hroom) as (E & Hn & _). split; assumption.
  - intros Hroom. destruct (Hfail ltac:(lia)) as (_ & _ & H & _).
    exact (H Hroom).
  - intros Hroom. destruct (Hfail ltac:(lia)) as (_ & _ & _ & H).
    apply H. lia.
Qed.

(** The provider with 452 bytes gives a heap; one with 300 bytes does
    not. *)
Lemma mm_init_needs_352_bytes_sample :
  snd (mm_init c_low) = 0 /\
  snd (mm_init (mkState (fun _ => x00) 4096 (4096 + 300) 0 0 0)) = -1.
Proof.
  split.
  - exact (proj1 (proj1 (mm_init_needs_352_bytes c_low eq_refl eq_refl eq_refl
                           eq_refl eq_refl ltac:(cbn; lia)) ltac:(cbn; lia))).
  - exact (proj1 (proj1 (proj2 (mm_init_needs_352_bytes
             (mkState (fun _ => x00) 4096 (4096 + 300) 0 0 0)
             eq_refl eq_refl eq_refl eq_refl eq_refl ltac:(cbn; lia)))
             ltac:(cbn; lia))).
Defined.

(** * What the checker prints about the free lists *)

Lemma check_list_reports lo s index : forall fuel k fp0 n log n' fp,
  check_list fuel lo s index fp0 n = Some (log, n') ->
  list_node (mem s) k fp0 = Some fp ->
  (forall msg, In msg (checkFreeBlock lo s fp) -> In msg log) /\
  (choosefreetable (mem s) fp <> index -> In (Wrong_free_list fp) log).
Proof.
  induction fuel as [|fuel IH]; intros k fp0 n log n' fp Hc Hw;
    cbn [check_list] in Hc; [discriminate|].
  destruct (negb (fp0 =? 0) && (0 <? GET_SIZE (mem s) (HDRP fp0))) eqn:Hgo.
  2:{ destruct k; cbn [list_node] in Hw; rewrite Hgo in Hw; discriminate. }
  destruct (check_list fuel lo s index (NEXT_FREE (mem s) fp0) (n + 1))
    as [[rest n1]|] eqn:Hrest; [|discriminate].
  injection Hc as <- _.
  destruct k as [|k]; cbn [list_node] in Hw; rewrite Hgo in Hw.
  - injection Hw as <-. split.
    + intros msg Hm. apply in_or_app. now left.
    + intros Hne. apply in_or_app. right. apply in_or_app. left.
      destruct (Z.eqb_spec (choosefreetable (mem s) fp0) index);
        [contradiction|]. now left.
  - destruct (IH k _ _ _ _ fp Hrest Hw) as [Ha Hb]. split.
    + intros msg Hm. apply in_or_app. right. apply in_or_app. right.
      now apply Ha.
    + intros Hne. apply in_or_app. right. apply in_or_app. right.
      now apply Hb.
Qed.

Lemma check_lists_reports lo s fuel : forall cnt index0 n log n' d k fp,
  check_lists fuel cnt lo s index0 n = Some (log, n') ->
  (d < cnt)%nat ->
  list_node (mem s) k (GETLP (mem s) (slot s (index0 + Z.of_nat d))) =
    Some fp ->
  (forall msg, In msg (checkFreeBlock lo s fp) -> In msg log) /\
  (choosefreetable (mem s) fp <> index0 + Z.of_nat d ->
   In (Wrong_free_list fp) log).
Proof.
  induction cnt as [|cnt IH]; intros index0 n log n' d k fp Hc Hd Hw;
    [lia|].
  cbn [check_lists] in Hc.
  destruct (check_list fuel lo s index0 _ n) as [[l1 c1]|] eqn:H1;
    [|discriminate].
  destruct (check_lists fuel cnt lo s (index0 + 1) c1) as [[l2 c2]|] eqn:H2;
    [|discriminate].
  injection Hc as <- _.
  destruct d as [|d].
  - rewrite Z.add_0_r in *.
    destruct (check_list_reports _ _ _ _ _ _ _ _ _ _ H1 Hw) as [Ha Hb].
    split.
    + intros msg Hm. apply in_or_app. left. now apply Ha.
    + intros Hne. apply in_or_app. left. now apply Hb.
  - replace (index0 + Z.of_nat (S d)) with (index0 + 1 + Z.of_nat d) in * by lia.
    destruct (IH _ _ _ _ d k fp H2 ltac:(lia) Hw) as [Ha Hb]. split.
    + intros msg Hm. apply in_or_app. right. now apply Ha.
    + intros Hne. apply in_or_app. right. now apply Hb.
Qed.

Lemma list_node_null m k : list_node m k 0 = None.
Proof. destruct k; reflexivity. Qed.

Lemma list_node_last m k p fp :
  NEXT_FREE m p = 0 -> list_node m k p = Some fp -> fp = p.
Proof.
  intros Hn H. destruct k as [|k]; cbn [list_node] in H;
    destruct (negb (p =? 0) && (0 <? GET_SIZE m (HDRP p)));
    try discriminate.
  - now injection H.
  - rewrite Hn, list_node_null in H. discriminate.
Qed.

(** Lists of at most one member whose links are null or inside the heap:
    a test that runs. *)
Lemma single_nodes_links_inside lo s :
  forallb (fun i =>
             let hd := GETLP (mem s) (slot s (Z.of_nat i)) in
             (hd =? 0) ||
             ((NEXT_FREE (mem s) hd =? 0) && links_inside lo s hd))
          (seq 1 19) = true ->
  forall index k fp,
    1 <= index < MAXFREESIZE ->
    list_node (mem s) k (GETLP (mem s) (slot s index)) = Some fp ->
    links_inside lo s fp = true.
Proof.
  intros H index k fp Hi Hn. rewrite forallb_forall in H.
  unfold MAXFREESIZE in Hi.
  specialize (H (Z.to_nat index) ltac:(apply in_seq; lia)).
  cbv zeta in H. rewrite Z2Nat.id in H by lia.
  apply orb_true_iff in H. destruct H as [H|H].
  - apply Z.eqb_eq in H. rewrite H, list_node_null in Hn. discriminate.
  - apply andb_true_iff in H. destruct H as [H1 H2]. apply Z.eqb_eq in H1.
    now rewrite (list_node_last _ _ _ _ H1 Hn).
Qed.

(** When the checker returns on a heap whose free-list nodes have links
    that are null or inside the heap, every node it reaches on the lists
    of the classes 1 to 19 is judged: each complaint of [checkFreeBlock]
    about it (allocation bit set, links that do not point back, a link to
    itself) is among the messages, and so is the wrong-free-list message
    when the class computed from its header is not the number of the
    list.  The links-out-of-boundary message is not among the complaints
    about such a node. *)
Theorem mm_checkheap_reports_what_the_lists_hold
  (fuel : nat) (lo : Z) (s : State) (verbose : Z)
  (log : list message) (r : Z) (index : Z) (k : nat) (fp : Z) :
  mm_checkheap fuel lo s verbose = Some (log, r) ->
  (forall index' k' fp',
     1 <= index' < MAXFREESIZE ->
     list_node (mem s) k' (GETLP (mem s) (slot s index')) = Some fp' ->
     links_inside lo s fp' = true) ->
  1 <= index < MAXFREESIZE ->
  list_node (mem s) k (GETLP (mem s) (slot s index)) = Some fp ->
  (forall msg, In msg (checkFreeBlock lo s fp) -> In msg log) /\
  (choosefreetable (mem s) fp <> index -> In (Wrong_free_list fp) log) /\
  ~ In (Pointer_out_of_boundary fp) (checkFreeBlock lo s fp).
Proof.
  intros Hc Hlinks Hi Hw.
  assert (Hin : ~ In (Pointer_out_of_boundary fp) (checkFreeBlock lo s fp)).
  { pose proof (Hlinks index k fp Hi Hw) as Hl.
    unfold links_inside in Hl. unfold checkFreeBlock. cbv zeta in *.
    intros Hc'. apply in_app_or in Hc'. destruct Hc' as [Hc'|Hc'].
    { destruct (negb (GET_ALLOC (mem s) (HDRP fp) =? 0));
        [destruct Hc' as [Hc'|[]]; discriminate|contradiction]. }
    destruct (PREV_FREE (mem s) fp =? 0); [contradiction|].
    destruct (NEXT_FREE (mem s) fp =? 0); [contradiction|].
    cbn [negb andb orb] in Hc', Hl.
    apply andb_true_iff in Hl. destruct Hl as [E1 E2].
    rewrite E1, E2 in Hc'. cbn [negb orb app] in Hc'.
    apply in_app_or in Hc'. destruct Hc' as [Hc'|Hc'].
    - match type of Hc' with
      | In _ (if ?c then _ else _) => destruct c
      end; [destruct Hc' as [Hc'|[]]; discriminate|contradiction].
    - match type of Hc' with
      | In _ (if ?c then _ else _) => destruct c
      end; [destruct Hc' as [Hc'|[]]; discriminate|contradiction]. }
  unfold mm_checkheap, checkheap_with in Hc.
  destruct (check_walk fuel lo s _ (heap_listp s) 0)
    as [[[walked n] last]|] eqn:Hwalk; [|discriminate].
  match type of Hc with
  | match ?x with _ => _ end = _ => destruct x as [printed|]; [|discriminate]
  end.
  destruct (check_lists fuel _ lo s 1 0) as [[listed n2]|] eqn:Hl;
    [|discriminate].
  injection Hc as <- _.
  unfold MAXFREESIZE in Hi.
  replace index with (1 + Z.of_nat (Z.to_nat (index - 1))) in Hw |- * by lia.
  destruct (check_lists_reports _ _ _ _ _ _ _ _ (Z.to_nat (index - 1)) k fp Hl
              ltac:(change (Z.to_nat (MAXFREESIZE - 1)) with 19%nat; lia) Hw)
    as [Ha Hb].
  split; [|split; [|exact Hin]].
  - intros msg Hm. do 5 (apply in_or_app; right).
    apply in_or_app. left. now apply Ha.
  - intros Hne. do 5 (apply in_or_app; right).
    apply in_or_app. left. now apply Hb.
Qed.

(** Three blocks of 32 bytes, the middle one freed, and then one stray
    store that sets the allocation bit in the header of the free block:
    the checker reports that the block on the list of class 2 has not been
    freed. *)
Lemma mm_checkheap_reports_what_the_lists_hold_sample :
  let r1 := malloc 2 c_s0 24 in
  let r2 := malloc 2 (state_after c_s0 r1) 24 in
  let r3 := malloc 2 (state_after c_s0 r2) 24 in
  let q := pointer_of r2 in
  let s4 := free (state_after c_s0 r3) q in
  let s := set_mem s4 (PUT (mem s4) (HDRP q) (PACK 32 1)) in
  exists log,
    mm_checkheap 6 4096 s 0 = Some (log, 0) /\
    In (Not_been_freed 4312) log.
Proof.
  intros r1 r2 r3 q s4 s.
  assert (Hn : option_map snd (mm_checkheap 6 4096 s 0) = Some 0)
    by (vm_compute; reflexivity).
  assert (Hw : list_node (mem s) 0 (GETLP (mem s) (slot s 2)) = Some 4312)
    by (vm_compute; reflexivity).
  assert (Hm : In (Not_been_freed 4312) (checkFreeBlock 4096 s 4312))
    by (vm_compute; left; reflexivity).
  assert (Hl : forallb (fun i =>
             let hd := GETLP (mem s) (slot s (Z.of_nat i)) in
             (hd =? 0) ||
             ((NEXT_FREE (mem s) hd =? 0) && links_inside 4096 s hd))
          (seq 1 19) = true) by (vm_compute; reflexivity).
  clearbody r1 r2 r3 q s4 s.
  destruct (mm_checkheap 6 4096 s 0) as [[log r]|] eqn:Hc;
    [|discriminate Hn].
  injection Hn as ->.
  destruct (mm_checkheap_reports_what_the_lists_hold 6 4096 s 0 log 0 2 0
              4312 Hc (single_nodes_links_inside 4096 s Hl)
              ltac:(unfold MAXFREESIZE; lia) Hw) as (Ha & _).
  exists log. split; [reflexivity|]. now apply Ha.
Defined.

(** * [malloc] then [free]: the blocks come back *)

(** The shape of the heap after [a_place] when no two free blocks are
    adjacent: the remainder of a split merges with nothing. *)
Lemma a_place_shape L csize R fl asize :
  Forall ok_size (L ++ (csize, false) :: R) ->
  no_adj (L ++ (csize, false) :: R) ->
  a_place (mkHeap (L ++ (csize, false) :: R) fl) (total L) asize =
  if 24 <=? csize - asize then
    mkHeap (L ++ (asize, true) :: (csize - asize, false) :: R)
           (a_insert (a_delete fl (total L) csize) (total L + asize)
                     (csize - asize))
  else mkHeap (L ++ (csize, true) :: R) (a_delete fl (total L) csize).
Proof.
  intros Hok Hna. rewrite a_place_eq by assumption.
  destruct (24 <=? csize - asize); [|reflexivity].
  apply no_adj_app in Hna. destruct Hna as (_ & Hc & _).
  apply no_adj_cons in Hc. destruct Hc as [Hr _]. cbn [snd orb] in Hr.
  unfold a_coalesce. rewrite last_last, Hr. cbn [snd fst].
  rewrite total_app. cbn [total fst]. rewrite Z.add_0_r.
  rewrite <- app_assoc. reflexivity.
Qed.

Lemma a_free_a_place_blocks L csize R fl asize :
  Forall ok_size (L ++ (csize, false) :: R) ->
  no_adj (L ++ (csize, false) :: R) ->
  24 <= asize <= csize -> asize mod 8 = 0 ->
  blocks (a_free (a_place (mkHeap (L ++ (csize, false) :: R) fl) (total L)
                    asize) (total L)) =
  L ++ (csize, false) :: R.
Proof.
  intros Hok Hna Ha Ha8.
  rewrite a_place_shape by assumption.
  assert (HokL : Forall ok_size L) by (apply Forall_app in Hok; tauto).
  assert (HokR : Forall ok_size R).
  { apply Forall_app in Hok. destruct Hok as [_ H]. now inversion H. }
  pose proof Hna as Hna'.
  apply no_adj_app in Hna'. destruct Hna' as (_ & Hc & Hl).
  apply no_adj_cons in Hc. destruct Hc as [Hr _].
  cbn [snd orb hd] in Hr, Hl. rewrite orb_false_r in Hl.
  destruct (Z.leb_spec 24 (csize - asize)) as [Hs|Hs].
  - rewrite a_free_eq.
    + unfold a_coalesce. rewrite Hl. cbn [hd snd fst tl blocks].
      do 3 f_equal. lia.
    + apply Forall_app. split; [exact HokL|].
      constructor; [split; cbn [fst]; [lia|exact Ha8]|].
      constructor; [|exact HokR].
      split; cbn [fst]; [lia|].
      apply mod8_sub; [|exact Ha8].
      apply Forall_app in Hok. destruct Hok as [_ H]. inversion H as [|? ? Hb _].
      exact (proj2 Hb).
  - rewrite a_free_eq.
    + unfold a_coalesce. rewrite Hl, Hr. reflexivity.
    + apply Forall_app. split; [exact HokL|].
      apply Forall_app in Hok. destruct Hok as [_ H]. inversion H as [|? ? Hb Hrest].
      constructor; [exact Hb|exact Hrest].
Qed.

(** [free] undoes [malloc].  On a heap that satisfies the invariant and
    has a free block of at least the adjusted size, [malloc] returns a
    non-null pointer without moving the break, and [free] of that pointer
    gives a heap that satisfies the invariant with the same sequence of
    blocks, sizes and allocation bits as before the two calls, the same
    break, and each free list holding the same blocks as before (possibly
    in another order).  The bytes of the allocated blocks are unchanged. *)
Theorem free_undoes_malloc
  (s : State) (h : heap) (fuel : nat) (size : Z) :
  inv s h ->
  (forall i, (length (nth i (lists h) []) < fuel)%nat) ->
  0 < size -> size + 15 < 2 ^ 64 ->
  (exists o sz, In (o, (sz, false)) (layout 0 (blocks h)) /\
                adjust size <= sz) ->
  exists s1 p h2,
    malloc fuel s size = Some (s1, p) /\ p <> 0 /\
    mem_brk s1 = mem_brk s /\
    inv (free s1 p) h2 /\ blocks h2 = blocks h /\
    mem_brk (free s1 p) = mem_brk s /\
    (forall i, Permutation (nth i (lists h2) []) (nth i (lists h) [])) /\
    (forall x szx a, In (x, (szx, true)) (layout 0 (blocks h)) ->
       base_of s + x - 4 <= a < base_of s + x + szx - 4 ->
       mem (free s1 p) a = mem s a).
Proof.
  intros Hinv Hfuel Hs Hw (o0 & szf & Hinf & Hfit).
  pose proof Hinv as (Hrep & Hwf & Hna).
  pose proof (wf_sizes _ _ Hwf) as Hok.
  destruct (rep_geometry _ _ Hrep Hok) as (Hft & Hfb & _ & Hbrk0 & Htot & _).
  destruct (adjust_ok size Hs Hw) as (Ha24 & Ha8 & _).
  destruct (malloc_spec s h fuel size Hinv Hfuel Hs Hw)
    as (s1 & Em & Hinv1 & Hg1 & Hfr1 & _ & Hsome).
  set (room := mem_max_addr s - mem_brk s) in *.
  destruct (a_find_fit h (adjust size)) as [o|] eqn:Ef.
  2:{ pose proof (a_find_fit_none h (adjust size) Hwf ltac:(lia) ltac:(lia) Ef _ _ Hinf).
      lia. }
  destruct (a_find_fit_some h _ o Hwf Ef) as (csize & Hin & Hle).
  assert (Eam : a_malloc h room size = (a_place h o (adjust size), Some o)).
  { unfold a_malloc. destruct (Z.eqb_spec size 0); [lia|]. now rewrite Ef. }
  rewrite Eam in Em, Hinv1, Hsome. cbn [fst snd ptr_of] in Em, Hinv1, Hsome.
  destruct (Hsome o eq_refl) as ((sz1 & _ & Hin1) & Hkeep).
  destruct (free_inv s1 _ o sz1 Hinv1 Hin1) as (Hinv2 & Hg2 & Hfr2 & _).
  pose proof (same_heap_globals_base _ _ Hg1) as Hb1.
  rewrite Hb1 in Hinv2, Hg2, Hfr2.
  set (p := base_of s + o) in *. set (s2 := free s1 p) in *.
  set (h2 := a_free (a_place h o (adjust size)) o) in *.
  assert (Eb : blocks h2 = blocks h).
  { unfold h2. destruct (layout_In_split _ _ _ _ Hin) as (L & R & Ebl & Eo).
    rewrite Z.add_0_l in Eo. subst o.
    destruct h as [bl fl]. cbn [blocks] in *. subst bl.
    apply a_free_a_place_blocks; auto. }
  pose proof Hinv1 as (Hrep1 & Hwf1 & _).
  pose proof Hinv2 as (Hrep2 & Hwf2 & _).
  pose proof (rep_brk _ _ Hrep1) as Hbrk1.
  pose proof (rep_brk _ _ Hrep2) as Hbrk2.
  assert (Hb2 : base_of s2 = base_of s).
  { destruct Hg2 as (_ & _ & G & _).
    transitivity (base_of s1); [exact (f_equal (fun z => z + DSIZE) G)|].
    exact Hb1. }
  assert (Et1 : total (blocks (a_place h o (adjust size))) = total (blocks h)).
  { apply (a_place_keeps_total h o csize); auto. }
  destruct (rep_block_bounds h Hok _ _ Hin) as (Ho0 & _).
  exists s1, p, h2. fold s2.
  split; [exact Em|]. split; [unfold p; lia|].
  split; [rewrite Hbrk1, Hb1, Et1; lia|].
  split; [exact Hinv2|]. split; [exact Eb|].
  split; [rewrite Hbrk2, Hb2, Eb; lia|].
  split.
  - intros i. apply NoDup_Permutation.
    + apply (wf_nodup _ _ Hwf2).
    + apply (wf_nodup _ _ Hwf).
    + intros x. rewrite (wf_listed _ _ Hwf2), (wf_listed _ _ Hwf), Eb.
      reflexivity.
  - intros x szx a Hx Ha.
    transitivity (mem s1 a).
    + apply (Hfr2 x szx a (Hkeep x szx Hx)); [|exact Ha].
      intros ->.
      pose proof (layout_fst_unique _ _ _ _ _ Hok Hx Hin) as E.
      discriminate E.
    + exact (frame_alloc s (blocks h) _ _ x szx a Hfr1 Hok Hfb Hx Ha).
Qed.

(** A request of 100 bytes on the heap [mm_init] leaves on the sample
    provider, freed again: one free block of 168 bytes, as before. *)
Lemma free_undoes_malloc_sample :
  exists s1 p h2,
    malloc 2 (fst (mm_init c_s0)) 100 = Some (s1, p) /\
    inv (free s1 p) h2 /\ blocks h2 = [(168, false)].
Proof.
  destruct (free_undoes_malloc (fst (mm_init c_s0)) a_init 2 100
              (inv_init c_s0 fresh_c_s0) (a_init_few 2 (le_n 2))
              ltac:(reflexivity) ltac:(reflexivity))
    as (s1 & p & h2 & E & _ & _ & Hinv & Eb & _).
  - exists 0, 168. split; [left; reflexivity|cbv; discriminate].
  - exists s1, p, h2. split; [exact E|]. split; [exact Hinv|exact Eb].
Defined.
